(** * A shallow embedding of the ns-3 Layer-7 load-balancer simulation

    The development follows the C++ sources of the repository:

    - [RequestResponseHeader] : request_response_header.{h,cc}
    - [Framing]               : the reassembly loop of
                                [LoadBalancerApp::HandleClientRead]
    - [LoadBalancerApp]       : the backend registry of load_balancer.{h,cc}
    - [WeightedRoundRobin], [LeastRequest], [RandomLB], [RingHash],
      [Maglev], [PeakEwma]   : the six selectors
    - [ProxyCore]             : the connection and request bookkeeping of
                                load_balancer.cc
    - [PeakEwmaChoice], [LeastRequestChoice], [RingHashRing],
      [MaglevPrime]          : [ChooseBackend] and the table and ring
                                construction of the selectors
    - [LatencyServerApp]      : latency_server_app.cc
    - [LatencyClientApp]      : latency_client_app.cc
    - [CommandLine]           : the parsing helpers of main.cc

    Machine integers are integers of [Z] with the wrap-around written out;
    [std::map] is [gmap]; [std::vector] is [list]; a [double] is a real
    number (rounding is not modelled).  Part I holds the definitions,
    Part II the lemmas and theorems. *)

From Stdlib Require Import ZArith List Lia Reals Lra.
From Stdlib.Strings Require Import Byte Ascii String.
From stdpp Require Import gmap strings list fin_maps pretty sorting.

Local Open Scope Z_scope.

(* ===================================================================== *)
(** * Part I: definitions                                                 *)
(* ===================================================================== *)

(** ** Fixed-width integers *)

Module MachineInt.

(** The value of a [uint32_t] / [uint64_t] after an arithmetic result
    [x] is stored in it. *)
Definition u32 (x : Z) : Z := x mod 2 ^ 32.
Definition u64 (x : Z) : Z := x mod 2 ^ 64.

(** The value of an [int32_t] / [int64_t] holding the bit pattern of
    [x] (two's complement). *)
Definition s32 (x : Z) : Z :=
  let y := x mod 2 ^ 32 in if y <? 2 ^ 31 then y else y - 2 ^ 32.
Definition s64 (x : Z) : Z :=
  let y := x mod 2 ^ 64 in if y <? 2 ^ 63 then y else y - 2 ^ 64.

Definition is_u32 (x : Z) : Prop := 0 <= x < 2 ^ 32.
Definition is_u64 (x : Z) : Prop := 0 <= x < 2 ^ 64.
Definition is_s64 (x : Z) : Prop := - 2 ^ 63 <= x < 2 ^ 63.

(** [a % b] on unsigned operands; a zero divisor has no result. *)
Definition umod (a b : Z) : option Z :=
  if b =? 0 then None else Some (a mod b).

End MachineInt.
Import MachineInt.

(** ** RequestResponseHeader (request_response_header.cc) *)

Module RequestResponseHeader.

(** [m_timestamp] is an [ns3::Time]; it is kept as its signed 64-bit
    nanosecond count, which is what [Serialize] and [Deserialize] use. *)
Record t : Type := mk {
  m_seq : Z;            (* uint32_t *)
  m_timestamp : Z;      (* Time, as int64_t nanoseconds *)
  m_payloadSize : Z;    (* uint32_t *)
  m_l7Identifier : Z    (* uint64_t *)
}.

(** The values a header object can hold, by the types of its members. *)
Definition wf (h : t) : Prop :=
  is_u32 (m_seq h) /\ is_s64 (m_timestamp h) /\
  is_u32 (m_payloadSize h) /\ is_u64 (m_l7Identifier h).

(** [RequestResponseHeader()] *)
Definition default_header : t := mk 0 0 0 0.

(** [sizeof(m_seq) + sizeof(int64_t) + sizeof(m_payloadSize) +
    sizeof(m_l7Identifier)] *)
Definition GetSerializedSize (_ : t) : Z := 4 + 8 + 4 + 8.

(** *** ns-3 [Buffer::Iterator] *)

Definition byte_of_Z (z : Z) : byte :=
  default x00 (Byte.of_N (Z.to_N (Z.land z 255))).
Definition Z_of_byte (b : byte) : Z := Z.of_N (Byte.to_N b).

(** [WriteU8 ((data >> 8k) & 0xff)] for k = n-1 down to 0 *)
Fixpoint WriteHton (n : nat) (data : Z) : list byte :=
  match n with
  | O => []
  | S k => byte_of_Z (Z.land (Z.shiftr data (8 * Z.of_nat k)) 255)
             :: WriteHton k data
  end.
Definition WriteHtonU32 (data : Z) : list byte := WriteHton 4 data.
Definition WriteHtonU64 (data : Z) : list byte := WriteHton 8 data.

(** [retval <<= 8; retval |= ReadU8 ()] over the bytes read *)
Definition ntoh (bs : list byte) : Z :=
  fold_left (fun acc b => Z.lor (Z.shiftl acc 8) (Z_of_byte b)) bs 0.

(** An iterator over the remaining bytes; reading past the end has no
    result (ns-3 asserts). *)
Definition ReadNtoh (n : nat) (buf : list byte) : option (Z * list byte) :=
  if (n <=? length buf)%nat then Some (ntoh (firstn n buf), skipn n buf)
  else None.
Definition ReadNtohU32 := ReadNtoh 4.
Definition ReadNtohU64 := ReadNtoh 8.

(** *** Serialize / Deserialize *)

Definition Serialize (h : t) : list byte :=
  WriteHtonU32 (m_seq h)
    ++ WriteHtonU64 (u64 (m_timestamp h))   (* int64_t to uint64_t *)
    ++ WriteHtonU32 (m_payloadSize h)
    ++ WriteHtonU64 (m_l7Identifier h).

(** The header read and the return value [GetSerializedSize ()]. *)
Definition Deserialize (start : list byte) : option (t * Z) :=
  '(seq, it) ← ReadNtohU32 start;
  '(timeRaw, it) ← ReadNtohU64 it;
  let timeNs := s64 timeRaw in              (* uint64_t to int64_t *)
  '(payloadSize, it) ← ReadNtohU32 it;
  '(l7, _) ← ReadNtohU64 it;
  let h := mk seq timeNs payloadSize l7 in
  Some (h, GetSerializedSize h).

(** The positional value of a byte string read most significant byte
    first: what "big-endian" means. *)
Fixpoint be_value (bs : list byte) : Z :=
  match bs with
  | [] => 0
  | b :: rest => Z_of_byte b * 256 ^ Z.of_nat (length rest) + be_value rest
  end.

End RequestResponseHeader.

(** ** Stream reassembly (load_balancer.cc, [HandleClientRead] and
       [HandleBackendRead]) *)

Module Framing.
Import RequestResponseHeader.

(** [Packet::PeekHeader] on a packet made of the bytes [pkt]: the header
    deserialized from its start, and the value [Deserialize] returned. *)
Definition PeekHeader (pkt : list byte) : option (t * Z) := Deserialize pkt.

(** [uint32_t headerSize = RequestResponseHeader().GetSerializedSize()] *)
Definition headerSize : Z := u32 (GetSerializedSize default_header).

(** The [while (currentRxBuffer.size() >= headerSize)] loop.  [process]
    stands for what is done with an extracted message and the header
    peeked for it ([AttemptForwardRequest], or the relay of a response);
    it does not touch the buffer, and has no result when it does not
    return.  The result of the loop is the buffer left behind and the
    state after the last message; [None] when the loop did not finish
    within [fuel] iterations. *)
Fixpoint reassembly_loop {St : Type} (fuel : nat)
    (process : t -> list byte -> St -> option St)
    (currentRxBuffer : list byte) (st : St) : option (list byte * St) :=
  match fuel with
  | O => None
  | S fuel' =>
    if Z.of_nat (length currentRxBuffer) <? headerSize
    then Some (currentRxBuffer, st)
    else
      let tempPacket := firstn (Z.to_nat headerSize) currentRxBuffer in
      match PeekHeader tempPacket with
      | None => Some (currentRxBuffer, st)
      | Some (reqHeader, peeked) =>
        if negb (peeked =? headerSize) then Some (currentRxBuffer, st)
        else
          let expectedPayloadSize := m_payloadSize reqHeader in
          (* uint32_t expectedTotalSize = headerSize + expectedPayloadSize *)
          let expectedTotalSize := u32 (headerSize + expectedPayloadSize) in
          if expectedTotalSize <=? Z.of_nat (length currentRxBuffer) then
            let packet := firstn (Z.to_nat expectedTotalSize) currentRxBuffer in
            let rest := skipn (Z.to_nat expectedTotalSize) currentRxBuffer in
            match process reqHeader packet st with
            | None => None
            | Some st' => reassembly_loop fuel' process rest st'
            end
          else Some (currentRxBuffer, st)
      end
  end.

(** The loop with the extracted messages collected in arrival order. *)
Definition extract_messages (fuel : nat) (buf : list byte)
  : option (list byte * list (list byte)) :=
  reassembly_loop fuel (fun _ m acc => Some (acc ++ [m])) buf [].

End Framing.

(** ** The backend registry (load_balancer.h, load_balancer.cc) *)

(** An [InetSocketAddress]: IPv4 address and port. *)
Abbreviation InetSocketAddress := (Z * Z)%type.

Module LoadBalancerApp.

Record BackendInfo : Type := mkBackendInfo {
  address : InetSocketAddress;
  weight : Z;             (* uint32_t *)
  activeRequests : Z      (* uint32_t *)
}.

(** [BackendInfo(addr, w)] *)
Definition newBackendInfo (addr : InetSocketAddress) (w : Z) : BackendInfo :=
  mkBackendInfo addr w 0.

Definition set_weight (w : Z) (b : BackendInfo) : BackendInfo :=
  mkBackendInfo (address b) w (activeRequests b).
Definition set_activeRequests (n : Z) (b : BackendInfo) : BackendInfo :=
  mkBackendInfo (address b) (weight b) n.

(** [std::find_if] over [m_backends]: the position of the first entry
    with that address. *)
Fixpoint FindBackendInfo (m_backends : list BackendInfo)
    (addr : InetSocketAddress) : option nat :=
  match m_backends with
  | [] => None
  | info :: rest =>
    if decide (address info = addr) then Some O
    else S <$> FindBackendInfo rest addr
  end.

Definition SetBackends (backends : list (InetSocketAddress * Z))
  : list BackendInfo :=
  map (fun bp => newBackendInfo (fst bp) (snd bp)) backends.

Definition AddBackend (backendAddress : InetSocketAddress) (w : Z)
    (m_backends : list BackendInfo) : list BackendInfo :=
  let effectiveWeight := w in
  match FindBackendInfo m_backends backendAddress with
  | None => m_backends ++ [newBackendInfo backendAddress effectiveWeight]
  | Some i => alter (set_weight effectiveWeight) i m_backends
  end.

(** [AddBackend(backendAddress)]: default weight 1. *)
Definition AddBackend_default (backendAddress : InetSocketAddress) :=
  AddBackend backendAddress 1.

Definition total_active (m_backends : list BackendInfo) : Z :=
  foldr (fun b acc => activeRequests b + acc) 0 m_backends.

End LoadBalancerApp.
Import LoadBalancerApp.

(** ** Weighted round-robin (round_robin_load_balancer.{h,cc}) *)

Module WeightedRoundRobin.

Record state : Type := mkState {
  m_backends : list BackendInfo;
  m_currentIndex : Z;     (* std::size_t *)
  m_currentWeight : Z;    (* int32_t *)
  m_maxWeight : Z;        (* uint32_t *)
  m_gcdWeight : Z         (* uint32_t *)
}.

(** The constructor's state, with an empty registry. *)
Definition init : state := mkState [] 0 0 0 0.

(** The locals of the loop of [RecalculateWrrState]. *)
Record scan : Type := mkScan {
  maxW : Z; calculatedGcd : Z; firstPositiveWeightFound : bool;
  positiveWeightCount : Z
}.

Definition scan_backend (acc : scan) (backendInfo : BackendInfo) : scan :=
  if 0 <? weight backendInfo then
    mkScan (Z.max (maxW acc) (weight backendInfo))
           (if firstPositiveWeightFound acc
            then Z.gcd (calculatedGcd acc) (weight backendInfo)
            else weight backendInfo)
           true
           (u32 (positiveWeightCount acc + 1))
  else acc.

Definition RecalculateWrrState (bks : list BackendInfo) : state :=
  match bks with
  | [] => mkState bks 0 0 0 0
  | _ =>
    let r := fold_left scan_backend bks (mkScan 0 0 false 0) in
    let '(mw, gw) :=
      if positiveWeightCount r =? 0 then (0, 0)
      else
        let g := if (calculatedGcd r =? 0) && (0 <? maxW r)
                 then maxW r else calculatedGcd r in
        (maxW r, if g =? 0 then 1 else g) in
    mkState bks (Z.of_nat (length bks) - 1) 0 mw gw
  end.

Definition SetBackends (backends : list (InetSocketAddress * Z))
    (st : state) : state :=
  RecalculateWrrState (LoadBalancerApp.SetBackends backends).

Definition AddBackend (a : InetSocketAddress) (w : Z) (st : state) : state :=
  RecalculateWrrState (LoadBalancerApp.AddBackend a w (m_backends st)).

(** One pass through the body of the [while (true)] loop of
    [ChooseBackend]: either the function returns ([inl], with [Some] of
    the chosen address for [true] and [None] for [false]), or the loop
    goes round again ([inr]). *)
Definition loop_body (st : state)
  : (option InetSocketAddress * state) + state :=
  let n := Z.of_nat (length (m_backends st)) in
  let i := (m_currentIndex st + 1) mod n in
  let st1 := mkState (m_backends st) i (m_currentWeight st)
                     (m_maxWeight st) (m_gcdWeight st) in
  let wrapped :=
    if i =? 0 then
      (* int32_t - uint32_t is computed in uint32_t, then stored *)
      let cw := s32 (u32 (m_currentWeight st1) - m_gcdWeight st1) in
      if cw <=? 0 then
        let cw' := s32 (m_maxWeight st1) in
        let st2 := mkState (m_backends st) i cw'
                           (m_maxWeight st) (m_gcdWeight st) in
        if m_maxWeight st1 =? 0 then inl st2 else inr st2
      else inr (mkState (m_backends st) i cw
                        (m_maxWeight st) (m_gcdWeight st))
    else inr st1 in
  match wrapped with
  | inl st2 => inl (None, st2)
  | inr st2 =>
    if n <=? m_currentIndex st2 then inl (None, st2)
    else
      match m_backends st2 !! Z.to_nat (m_currentIndex st2) with
      | None => inl (None, st2)
      | Some b =>
        if (0 <? weight b) && (u32 (m_currentWeight st2) <=? weight b)
        then inl (Some (address b), st2)
        else inr st2
      end
  end.

Fixpoint choose_loop (fuel : nat) (st : state)
  : option (option InetSocketAddress * state) :=
  match fuel with
  | O => None
  | S fuel' =>
    match loop_body st with
    | inl r => Some r
    | inr st' => choose_loop fuel' st'
    end
  end.

(** [ChooseBackend]; [None] when the loop did not return within [fuel]
    iterations. *)
Definition ChooseBackend (fuel : nat) (st : state)
  : option (option InetSocketAddress * state) :=
  match m_backends st with
  | [] => Some (None, st)
  | first :: _ =>
    if m_maxWeight st =? 0 then Some (Some (address first), st)
    else choose_loop fuel st
  end.

(** The notification methods log and do nothing else. *)
Definition RecordBackendLatency (a : InetSocketAddress) (rtt : Z)
  (st : state) : state := st.
Definition NotifyRequestSent (a : InetSocketAddress) (st : state) : state := st.
Definition NotifyRequestFinished (a : InetSocketAddress) (st : state) : state := st.

(** [k] successive calls of [ChooseBackend]: the answers in order. *)
Fixpoint choose_many (fuel k : nat) (st : state)
  : list (option (option InetSocketAddress)) :=
  match k with
  | O => []
  | S k' =>
    match ChooseBackend fuel st with
    | None => [None]
    | Some (r, st') => Some r :: choose_many fuel k' st'
    end
  end.

End WeightedRoundRobin.

(** ** Least-request (least_request_load_balancer.h): the bookkeeping of
       [activeRequests] *)

Module LeastRequest.

Record state : Type := mkState {
  m_backends : list BackendInfo;
  m_weightsAreEqual : bool
}.

Definition init : state := mkState [] true.

Definition CheckIfWeightsAreEqual (bks : list BackendInfo) : bool :=
  match bks with
  | [] | [_] => true
  | first :: rest => forallb (fun b => weight b =? weight first) rest
  end.

Definition SetBackends (backends : list (InetSocketAddress * Z))
    (st : state) : state :=
  let bks := LoadBalancerApp.SetBackends backends in
  mkState bks (CheckIfWeightsAreEqual bks).

Definition AddBackend (a : InetSocketAddress) (w : Z) (st : state) : state :=
  let bks := LoadBalancerApp.AddBackend a w (m_backends st) in
  mkState bks (CheckIfWeightsAreEqual bks).

(** [info->activeRequests++] *)
Definition increment (info : BackendInfo) : BackendInfo :=
  set_activeRequests (u32 (activeRequests info + 1)) info.

(** [if (info->activeRequests > 0) info->activeRequests--;] *)
Definition decrement (info : BackendInfo) : BackendInfo :=
  if 0 <? activeRequests info
  then set_activeRequests (activeRequests info - 1) info
  else info.

Definition NotifyRequestSent (a : InetSocketAddress) (st : state) : state :=
  match FindBackendInfo (m_backends st) a with
  | Some i => mkState (alter increment i (m_backends st)) (m_weightsAreEqual st)
  | None => st
  end.

Definition NotifyRequestFinished (a : InetSocketAddress) (st : state) : state :=
  match FindBackendInfo (m_backends st) a with
  | Some i => mkState (alter decrement i (m_backends st)) (m_weightsAreEqual st)
  | None => st
  end.

Definition RecordBackendLatency (a : InetSocketAddress) (rtt : Z)
  (st : state) : state := st.

End LeastRequest.

(** ** Uniform random (random_load_balancer.cc) *)

Module RandomLB.

Record state : Type := mkState { m_backends : list BackendInfo }.

Definition SetBackends (backends : list (InetSocketAddress * Z))
  (st : state) : state := mkState (LoadBalancerApp.SetBackends backends).
Definition AddBackend (a : InetSocketAddress) (w : Z) (st : state) : state :=
  mkState (LoadBalancerApp.AddBackend a w (m_backends st)).

(** [randomIndex] is the value drawn by
    [m_randomGenerator->GetInteger(0, m_backends.size() - 1)]. *)
Definition ChooseBackend (randomIndex : Z) (st : state)
  : option InetSocketAddress :=
  match m_backends st with
  | [] => None
  | _ => address <$> (m_backends st !! Z.to_nat randomIndex)
  end.

Definition RecordBackendLatency (a : InetSocketAddress) (rtt : Z)
  (st : state) : state := st.
Definition NotifyRequestSent (a : InetSocketAddress) (st : state) : state := st.
Definition NotifyRequestFinished (a : InetSocketAddress) (st : state) : state := st.

End RandomLB.

(** ** Ring hash (ring_hash_load_balancer.cc): registry and notifications *)

Module RingHash.

Record state : Type := mkState {
  m_backends : list BackendInfo;
  m_ring : gmap Z InetSocketAddress
}.

Definition RecordBackendLatency (a : InetSocketAddress) (rtt : Z)
  (st : state) : state := st.
Definition NotifyRequestSent (a : InetSocketAddress) (st : state) : state := st.
Definition NotifyRequestFinished (a : InetSocketAddress) (st : state) : state := st.

End RingHash.

(** ** Maglev (maglev_load_balancer.{h,cc}) *)

Module Maglev.

(** How a run of [BuildTable] can end besides returning. *)
Inductive result (A : Type) : Type :=
| Ok (a : A)
| DivisionByZero          (* [x % 0]: no defined behaviour *)
| OutOfFuel.              (* a loop did not finish within the fuel *)
Arguments Ok {A} a.
Arguments DivisionByZero {A}.
Arguments OutOfFuel {A}.

Definition bind {A B} (r : result A) (k : A -> result B) : result B :=
  match r with
  | Ok a => k a
  | DivisionByZero => DivisionByZero
  | OutOfFuel => OutOfFuel
  end.

Record state : Type := mkState {
  m_backends : list BackendInfo;
  m_tableSize : Z;                          (* uint64_t *)
  m_lookupTable : list InetSocketAddress;
  m_tableBuilt : bool
}.

Definition DefaultTableSize : Z := 65537.
Definition init : state := mkState [] DefaultTableSize [] false.

(** [InetSocketAddress(Ipv4Address::GetAny(), 0)] *)
Definition sentinel : InetSocketAddress := (0, 0).
Definition GetPort (a : InetSocketAddress) : Z := snd a.
Definition GetIpv4 (a : InetSocketAddress) : Z := fst a.

(** [m_lookupTable[i]]; every index used is below the table's length
    once the table has been assigned. *)
Definition slot (tbl : list InetSocketAddress) (i : Z) : InetSocketAddress :=
  default sentinel (tbl !! Z.to_nat i).

Record MaglevBuildEntry : Type := mkEntry {
  e_address : InetSocketAddress;
  e_weight : Z;                    (* uint32_t *)
  offset : Z;                      (* uint64_t *)
  skip : Z;                        (* uint64_t *)
  nextIndexInPermutation : Z;      (* uint64_t *)
  targetWeightScore : Z;           (* double; a sum of [maxWeight]s *)
  slotsFilledCount : Z
}.

Record build_state : Type := mkBuild {
  buildEntries : list MaglevBuildEntry;
  table : list InetSocketAddress;
  filledSlotsCount : Z;            (* uint64_t *)
  currentPass : Z                  (* uint32_t *)
}.

Section WithHash.
(** [std::hash<std::string>], and the text [operator<<] prints for an
    address. *)
Variable m_hasher : string -> Z.
Variable addr_str : InetSocketAddress -> string.

(** [MaglevBuildEntry::operator<] *)
Definition entry_ltb (x y : MaglevBuildEntry) : bool :=
  if negb (offset x =? offset y) then offset x <? offset y
  else if negb (skip x =? skip y) then skip x <? skip y
  else String.ltb (addr_str (e_address x)) (addr_str (e_address y)).

Fixpoint insert_sorted (x : MaglevBuildEntry) (l : list MaglevBuildEntry) :=
  match l with
  | [] => [x]
  | y :: rest => if entry_ltb y x then y :: insert_sorted x rest
                 else x :: l
  end.
(** [std::sort (buildEntries.begin (), buildEntries.end ())] *)
Definition sort_entries (l : list MaglevBuildEntry) :=
  foldr insert_sorted [] l.

(** The first loop of [BuildTable]: one entry per backend of positive
    weight, with the largest weight and their number. *)
Fixpoint prepare (T : Z) (bks : list BackendInfo)
  : result (list MaglevBuildEntry * Z * Z) :=
  match bks with
  | [] => Ok ([], 0, 0)
  | backendInfo :: rest =>
    if weight backendInfo =? 0 then prepare T rest
    else
      let keyBase := addr_str (address backendInfo) in
      let keySkip := (keyBase +:+ "_skip")%string in
      match umod (m_hasher keyBase) T,
            umod (m_hasher keySkip) (u64 (T - 1)) with
      | Some off, Some sk =>
        bind (prepare T rest) (fun '(es, maxWeight, count) =>
          Ok (mkEntry (address backendInfo) (weight backendInfo)
                      off (u64 (sk + 1)) 0 0 0 :: es,
              Z.max (weight backendInfo) maxWeight,
              count + 1))
      | _, _ => DivisionByZero
      end
  end.

(** [(entry.offset + (entry.skip * entry.nextIndexInPermutation)) %
    m_tableSize] *)
Definition permutation_value (T : Z) (e : MaglevBuildEntry) (next : Z) : Z :=
  u64 (offset e + u64 (skip e * next)) mod T.

(** The inner [while (m_lookupTable[...].GetPort() != 0)] loop: the
    slot found and the value of [nextIndexInPermutation] on exit. *)
Fixpoint find_slot (fuel : nat) (T : Z) (tbl : list InetSocketAddress)
    (e : MaglevBuildEntry) (next : Z) : result (Z * Z) :=
  let cur := permutation_value T e next in
  if GetPort (slot tbl cur) =? 0 then Ok (cur, next)
  else match fuel with
       | O => OutOfFuel
       | S fuel' => find_slot fuel' T tbl e (u64 (next + 1))
       end.

(** The [for (auto& entry : buildEntries)] loop of one pass. *)
Fixpoint fill_pass (fuel : nat) (T maxWeight pass : Z)
    (es : list MaglevBuildEntry) (tbl : list InetSocketAddress)
    (filled : Z)
  : result (list MaglevBuildEntry * list InetSocketAddress * Z) :=
  match es with
  | [] => Ok ([], tbl, filled)
  | entry :: rest =>
    if pass * e_weight entry <? targetWeightScore entry then
      bind (fill_pass fuel T maxWeight pass rest tbl filled)
           (fun '(rest', tbl', filled') => Ok (entry :: rest', tbl', filled'))
    else
      bind (find_slot fuel T tbl entry (nextIndexInPermutation entry))
           (fun '(cur, next) =>
        let tbl1 := <[Z.to_nat cur := e_address entry]> tbl in
        let entry' :=
          mkEntry (e_address entry) (e_weight entry) (offset entry)
                  (skip entry) (u64 (next + 1))
                  (targetWeightScore entry + maxWeight)
                  (slotsFilledCount entry + 1) in
        let filled1 := filled + 1 in
        if filled1 =? T then Ok (entry' :: rest, tbl1, filled1)  (* break *)
        else
          bind (fill_pass fuel T maxWeight pass rest tbl1 filled1)
               (fun '(rest', tbl', filled') =>
                  Ok (entry' :: rest', tbl', filled')))
  end.

(** The [while (filledSlotsCount < m_tableSize)] loop.  [Ok (Some b)]:
    the loop was left with the table full; [Ok None]: the safety break
    was taken. *)
Fixpoint fill_loop (fuel : nat) (T maxWeight : Z) (b : build_state)
  : result (option build_state) :=
  if filledSlotsCount b <? T then
    match fuel with
    | O => OutOfFuel
    | S fuel' =>
      bind (fill_pass fuel T maxWeight (currentPass b) (buildEntries b)
                      (table b) (filledSlotsCount b))
           (fun '(es, tbl, filled) =>
        let pass' := u32 (currentPass b + 1) in
        if (u64 (T * 2) <? pass') && (filled <? T) then Ok None
        else fill_loop fuel' T maxWeight (mkBuild es tbl filled pass'))
    end
  else Ok (Some b).

(** What [BuildTable] leaves in the object after the filling loop. *)
Definition finish (st : state) (r : option build_state) : state :=
  match r with
  | None =>       (* m_lookupTable.clear (); return; *)
    mkState (m_backends st) (m_tableSize st) [] false
  | Some b =>     (* m_tableBuilt = true *)
    mkState (m_backends st) (m_tableSize st) (table b) true
  end.

Definition BuildTable (fuel : nat) (st : state) : result state :=
  let cleared := mkState (m_backends st) (m_tableSize st) [] false in
  let T := m_tableSize st in
  match m_backends st with
  | [] => Ok cleared
  | _ =>
    if T =? 0 then Ok cleared
    else
      bind (prepare T (m_backends st)) (fun '(es, maxWeight, count) =>
        if count =? 0 then Ok cleared
        else
          let sorted := sort_entries es in
          let tbl := replicate (Z.to_nat T) sentinel in
          bind (fill_loop fuel T maxWeight (mkBuild sorted tbl 0 1))
               (fun r => Ok (finish cleared r)))
  end.

Definition SetBackends (fuel : nat)
    (backends : list (InetSocketAddress * Z)) (st : state) : result state :=
  BuildTable fuel (mkState (LoadBalancerApp.SetBackends backends)
                           (m_tableSize st) (m_lookupTable st)
                           (m_tableBuilt st)).

Definition AddBackend (fuel : nat) (a : InetSocketAddress) (w : Z)
    (st : state) : result state :=
  BuildTable fuel (mkState (LoadBalancerApp.AddBackend a w (m_backends st))
                           (m_tableSize st) (m_lookupTable st)
                           (m_tableBuilt st)).

(** The positions in [m_backends] of the backends of positive weight. *)
Definition eligibleFallbackIndices (bks : list BackendInfo) : list nat :=
  map fst (filter (fun ib => 0 < weight (snd ib)) (imap pair bks)).

(** The fallback of [ChooseBackend]; [context] is the value of
    [Simulator::GetContext ()]. *)
Definition fallback (context : Z) (st : state) : option InetSocketAddress :=
  match m_backends st with
  | [] => None
  | _ =>
    let eligible := eligibleFallbackIndices (m_backends st) in
    match eligible with
    | [] => None
    | _ =>
      let randomIndexIntoEligible :=
        u32 (context mod Z.of_nat (length eligible)) in
      i ← eligible !! Z.to_nat randomIndexIntoEligible;
      address <$> (m_backends st !! i)
    end
  end.

Definition ChooseBackend (context l7Identifier : Z) (st : state)
  : option InetSocketAddress :=
  if negb (m_tableBuilt st) || bool_decide (m_lookupTable st = []) then
    fallback context st
  else
    let keyString := pretty (Z.to_N l7Identifier) in
    let requestHash := m_hasher keyString in
    let tableIndex := requestHash mod m_tableSize st in
    let chosenBackend := slot (m_lookupTable st) tableIndex in
    if (GetPort chosenBackend =? 0) && (GetIpv4 chosenBackend =? 0)
    then None
    else Some chosenBackend.

End WithHash.

Definition RecordBackendLatency (a : InetSocketAddress) (rtt : Z)
  (st : state) : state := st.
Definition NotifyRequestSent (a : InetSocketAddress) (st : state) : state := st.
Definition NotifyRequestFinished (a : InetSocketAddress) (st : state) : state := st.

End Maglev.

(** ** Peak-EWMA (peak_ewma_load_balancer.{h,cc}) *)

Module PeakEwma.

Local Open Scope R_scope.

(** [class EwmaMetric].  The two [double] members are real numbers. *)
Record EwmaMetric : Type := mkMetric {
  m_stampNs : Z;              (* int64_t *)
  m_pending : Z;              (* uint32_t *)
  m_costNs : R;               (* double *)
  m_decayTimeNs : Z;          (* int64_t *)
  m_decayTimeNsDouble : R;    (* double *)
  m_penaltyNs : R             (* double *)
}.

(** [std::numeric_limits<double>::epsilon ()], that is [2 ^ -52] *)
Definition epsilon : R := / 4503599627370496.

(** [EwmaMetric (Time decayTime)], constructed at simulation time
    [nowNs]; [decayTime] in nanoseconds. *)
Definition newEwmaMetric (nowNs decayTime : Z) : EwmaMetric :=
  let decay := Z.max 1 decayTime in
  mkMetric nowNs 0 0 decay (IZR decay) (IZR 1000000000).

(** [Observe (rttNs)] at simulation time [nowNs]. *)
Definition Observe (nowNs rttNs : Z) (m : EwmaMetric) : EwmaMetric :=
  let tdiff := Z.max 0 (nowNs - m_stampNs m) in
  let cost1 :=
    if Rlt_dec (m_costNs m) (IZR rttNs) then
      if Rlt_dec epsilon (m_costNs m) then 0 else m_costNs m
    else m_costNs m in
  let w := exp (- IZR tdiff / m_decayTimeNsDouble m) in
  mkMetric nowNs (m_pending m)
           (cost1 * w + IZR rttNs * (1 - w))
           (m_decayTimeNs m) (m_decayTimeNsDouble m) (m_penaltyNs m).

(** [GetLoad ()] at simulation time [nowNs]: the score returned and the
    metric afterwards. *)
Definition GetLoad (nowNs : Z) (m : EwmaMetric) : R * EwmaMetric :=
  let tdiff := Z.max 0 (nowNs - m_stampNs m) in
  let m1 :=
    if (0 <? tdiff)%Z then
      let w := exp (- IZR tdiff / m_decayTimeNsDouble m) in
      mkMetric nowNs (m_pending m) (m_costNs m * w)
               (m_decayTimeNs m) (m_decayTimeNsDouble m) (m_penaltyNs m)
    else m in
  let currentPending := m_pending m1 in
  let loadScore :=
    if Rle_dec (m_costNs m1) epsilon then
      if (0 <? currentPending)%Z
      then m_penaltyNs m1 + IZR currentPending
      else m_costNs m1 * IZR (u32 (currentPending + 1))
    else m_costNs m1 * IZR (u32 (currentPending + 1)) in
  (Rmax 0 loadScore, m1).

Definition IncrementPending (m : EwmaMetric) : EwmaMetric :=
  mkMetric (m_stampNs m) (u32 (m_pending m + 1)) (m_costNs m)
           (m_decayTimeNs m) (m_decayTimeNsDouble m) (m_penaltyNs m).

Definition DecrementPending (m : EwmaMetric) : EwmaMetric :=
  if (0 <? m_pending m)%Z then
    mkMetric (m_stampNs m) (m_pending m - 1) (m_costNs m)
             (m_decayTimeNs m) (m_decayTimeNsDouble m) (m_penaltyNs m)
  else m.

Local Close Scope R_scope.

Record state : Type := mkState {
  m_backends : list BackendInfo;
  m_decayTime : Z;                                  (* Time, nanoseconds *)
  m_backendMetrics : gmap InetSocketAddress EwmaMetric
}.

(** [std::map::emplace]: nothing happens when the key is present. *)
Definition emplace (k : InetSocketAddress) (v : EwmaMetric)
    (m : gmap InetSocketAddress EwmaMetric) : gmap InetSocketAddress EwmaMetric :=
  match m !! k with
  | Some _ => m
  | None => <[k := v]> m
  end.

(** [SetBackends] at simulation time [nowNs]. *)
Definition SetBackends (nowNs : Z) (backends : list (InetSocketAddress * Z))
    (st : state) : state :=
  let bks := LoadBalancerApp.SetBackends backends in
  let cleared : gmap InetSocketAddress EwmaMetric := ∅ in   (* m_backendMetrics.clear () *)
  let metrics :=
    fold_left (fun acc backendInfo =>
                 emplace (address backendInfo)
                         (newEwmaMetric nowNs (m_decayTime st)) acc)
              bks cleared in
  mkState bks (m_decayTime st) metrics.

Definition AddBackend (nowNs : Z) (a : InetSocketAddress) (w : Z)
    (st : state) : state :=
  let metricExisted := bool_decide (is_Some (m_backendMetrics st !! a)) in
  let bks := LoadBalancerApp.AddBackend a w (m_backends st) in
  if metricExisted then mkState bks (m_decayTime st) (m_backendMetrics st)
  else mkState bks (m_decayTime st)
               (emplace a (newEwmaMetric nowNs (m_decayTime st))
                        (m_backendMetrics st)).

Definition RecordBackendLatency (nowNs : Z) (a : InetSocketAddress)
    (rttNs : Z) (st : state) : state :=
  mkState (m_backends st) (m_decayTime st)
          (alter (Observe nowNs rttNs) a (m_backendMetrics st)).

Definition NotifyRequestSent (a : InetSocketAddress) (st : state) : state :=
  mkState (m_backends st) (m_decayTime st)
          (alter IncrementPending a (m_backendMetrics st)).

Definition NotifyRequestFinished (a : InetSocketAddress) (st : state) : state :=
  mkState (m_backends st) (m_decayTime st)
          (alter DecrementPending a (m_backendMetrics st)).

End PeakEwma.

(** ** The proxy core (load_balancer.cc) *)

(** A [Ptr<Socket>]: the identity of the socket object, 0 for the null
    pointer. *)
Abbreviation Socket := N.

Module ProxyCore.

Inductive SocketErrno : Type :=
| ERROR_NOTERROR | ERROR_AGAIN | ERROR_SHUTDOWN | ERROR_NOTCONN
| ERROR_OTHER.

Definition is_noterror (e : SocketErrno) : bool :=
  match e with ERROR_NOTERROR => true | _ => false end.
Definition is_shutdown (e : SocketErrno) : bool :=
  match e with ERROR_SHUTDOWN => true | _ => false end.
(** The test that ends [HandleClientRead] and [HandleBackendRead]. *)
Definition is_read_error (e : SocketErrno) : bool :=
  match e with ERROR_OTHER => true | _ => false end.

(** The pure virtual methods of [LoadBalancerApp]. *)
Class Selector (S : Type) : Type := {
  ChooseBackend : Z -> S -> option (option InetSocketAddress * S);
RecordBackendLatency : InetSocketAddress -> Z -> S -> S;
NotifyRequestSent : InetSocketAddress -> S -> S;
NotifyRequestFinished : InetSocketAddress -> S -> S
}.

(** What the ns-3 runtime answers during one callback. *)
Record Runtime : Type := mkRuntime {
  GetErrno : Socket -> SocketErrno;
(** [Some a] when [GetPeerName] succeeds with an [InetSocketAddress] *)
GetPeerName : Socket -> option InetSocketAddress;
(** the return value of [Socket::Send] *)
Send : Socket -> list byte -> Z;
(** the socket returned by the k-th [Socket::CreateSocket] *)
CreateSocket : nat -> Socket;
(** [Simulator::Now ()] in nanoseconds *)
Now : Z
}.

Record PendingRequest : Type := mkPending {
  clientSocket : Socket;
  requestPacket : list byte;
  targetBackendAddress : InetSocketAddress
}.

(** The members of [LoadBalancerApp], the selector state of the derived
    class, and a record of the calls made: the addresses passed to
    [NotifyRequestSent] and [NotifyRequestFinished], the sockets closed,
    and the messages handed to a socket's [Send]. *)
Record App (S : Type) : Type := mkApp {
  selector : S;
  m_listening : bool;
  m_clientRxBuffers : gmap Socket (list byte);
  m_backendRxBuffers : gmap Socket (list byte);
  m_clientBackendSockets : gmap Socket (gmap InetSocketAddress Socket);
  m_backendClientMap : gmap Socket Socket;
  m_pendingBackendRequests : gmap Socket PendingRequest;
  m_requestSendTimes : gmap (Socket * Z) Z;
  created : nat;
  sent_calls : list InetSocketAddress;
  finished_calls : list InetSocketAddress;
  closed : list Socket;
  sends : list (Socket * list byte)
}.
Arguments mkApp {S}.
Arguments selector {S}. Arguments m_listening {S}.
Arguments m_clientRxBuffers {S}. Arguments m_backendRxBuffers {S}.
Arguments m_clientBackendSockets {S}. Arguments m_backendClientMap {S}.
Arguments m_pendingBackendRequests {S}. Arguments m_requestSendTimes {S}.
Arguments created {S}. Arguments sent_calls {S}.
Arguments finished_calls {S}. Arguments closed {S}. Arguments sends {S}.

Section WithSelector.
Context {S : Type} `{Selector S}.

Definition start (sel : S) : App S :=
  mkApp sel true ∅ ∅ ∅ ∅ ∅ ∅ O [] [] [] [].

(** *** Member updates *)

Definition set_selector (x : S) (a : App S) : App S :=
  mkApp x (m_listening a) (m_clientRxBuffers a) (m_backendRxBuffers a)
    (m_clientBackendSockets a) (m_backendClientMap a)
    (m_pendingBackendRequests a) (m_requestSendTimes a) (created a)
    (sent_calls a) (finished_calls a) (closed a) (sends a).
Definition set_listening (x : bool) (a : App S) : App S :=
  mkApp (selector a) x (m_clientRxBuffers a) (m_backendRxBuffers a)
    (m_clientBackendSockets a) (m_backendClientMap a)
    (m_pendingBackendRequests a) (m_requestSendTimes a) (created a)
    (sent_calls a) (finished_calls a) (closed a) (sends a).
Definition set_clientRxBuffers x (a : App S) : App S :=
  mkApp (selector a) (m_listening a) x (m_backendRxBuffers a)
    (m_clientBackendSockets a) (m_backendClientMap a)
    (m_pendingBackendRequests a) (m_requestSendTimes a) (created a)
    (sent_calls a) (finished_calls a) (closed a) (sends a).
Definition set_backendRxBuffers x (a : App S) : App S :=
  mkApp (selector a) (m_listening a) (m_clientRxBuffers a) x
    (m_clientBackendSockets a) (m_backendClientMap a)
    (m_pendingBackendRequests a) (m_requestSendTimes a) (created a)
    (sent_calls a) (finished_calls a) (closed a) (sends a).
Definition set_clientBackendSockets x (a : App S) : App S :=
  mkApp (selector a) (m_listening a) (m_clientRxBuffers a)
    (m_backendRxBuffers a) x (m_backendClientMap a)
    (m_pendingBackendRequests a) (m_requestSendTimes a) (created a)
    (sent_calls a) (finished_calls a) (closed a) (sends a).
Definition set_backendClientMap x (a : App S) : App S :=
  mkApp (selector a) (m_listening a) (m_clientRxBuffers a)
    (m_backendRxBuffers a) (m_clientBackendSockets a) x
    (m_pendingBackendRequests a) (m_requestSendTimes a) (created a)
    (sent_calls a) (finished_calls a) (closed a) (sends a).
Definition set_pendingBackendRequests x (a : App S) : App S :=
  mkApp (selector a) (m_listening a) (m_clientRxBuffers a)
    (m_backendRxBuffers a) (m_clientBackendSockets a)
    (m_backendClientMap a) x (m_requestSendTimes a) (created a)
    (sent_calls a) (finished_calls a) (closed a) (sends a).
Definition set_requestSendTimes x (a : App S) : App S :=
  mkApp (selector a) (m_listening a) (m_clientRxBuffers a)
    (m_backendRxBuffers a) (m_clientBackendSockets a)
    (m_backendClientMap a) (m_pendingBackendRequests a) x (created a)
    (sent_calls a) (finished_calls a) (closed a) (sends a).
Definition set_created (x : nat) (a : App S) : App S :=
  mkApp (selector a) (m_listening a) (m_clientRxBuffers a)
    (m_backendRxBuffers a) (m_clientBackendSockets a)
    (m_backendClientMap a) (m_pendingBackendRequests a)
    (m_requestSendTimes a) x
    (sent_calls a) (finished_calls a) (closed a) (sends a).
Definition log_close (s : Socket) (a : App S) : App S :=
  mkApp (selector a) (m_listening a) (m_clientRxBuffers a)
    (m_backendRxBuffers a) (m_clientBackendSockets a)
    (m_backendClientMap a) (m_pendingBackendRequests a)
    (m_requestSendTimes a) (created a)
    (sent_calls a) (finished_calls a) (closed a ++ [s]) (sends a).
Definition log_send (s : Socket) (p : list byte) (a : App S) : App S :=
  mkApp (selector a) (m_listening a) (m_clientRxBuffers a)
    (m_backendRxBuffers a) (m_clientBackendSockets a)
    (m_backendClientMap a) (m_pendingBackendRequests a)
    (m_requestSendTimes a) (created a)
    (sent_calls a) (finished_calls a) (closed a) (sends a ++ [(s, p)]).

(** The calls of the virtual methods, recorded. *)
Definition notify_sent (addr : InetSocketAddress) (a : App S) : App S :=
  mkApp (NotifyRequestSent addr (selector a)) (m_listening a)
    (m_clientRxBuffers a) (m_backendRxBuffers a)
    (m_clientBackendSockets a) (m_backendClientMap a)
    (m_pendingBackendRequests a) (m_requestSendTimes a) (created a)
    (sent_calls a ++ [addr]) (finished_calls a) (closed a) (sends a).
Definition notify_finished (addr : InetSocketAddress) (a : App S) : App S :=
  mkApp (NotifyRequestFinished addr (selector a)) (m_listening a)
    (m_clientRxBuffers a) (m_backendRxBuffers a)
    (m_clientBackendSockets a) (m_backendClientMap a)
    (m_pendingBackendRequests a) (m_requestSendTimes a) (created a)
    (sent_calls a) (finished_calls a ++ [addr]) (closed a) (sends a).

(** *** Iteration over a [std::map] in key order *)

(** [operator<] of [InetSocketAddress], as [<=]. *)
Definition addr_le (x y : InetSocketAddress) : Prop :=
  x.1 < y.1 \/ (x.1 = y.1 /\ x.2 <= y.2).
#[local] Instance addr_le_dec x y : Decision (addr_le x y).
Proof. unfold addr_le. apply _. Defined.

Definition by_address {V} (m : gmap InetSocketAddress V)
  : list (InetSocketAddress * V) :=
  merge_sort (fun x y => addr_le x.1 y.1) (map_to_list m).
(** The order of [Ptr<Socket>] keys. *)
Definition socket_le (x y : Socket) : Prop := (x <= y)%N.
#[local] Instance socket_le_dec x y : Decision (socket_le x y).
Proof. unfold socket_le. apply _. Defined.
Definition by_socket {V} (m : gmap Socket V) : list (Socket * V) :=
  merge_sort (fun x y => socket_le x.1 y.1) (map_to_list m).

(** The entries of [m_requestSendTimes] of one backend socket. *)
Definition send_times_of (s : Socket) (m : gmap (Socket * Z) Z)
  : gmap (Socket * Z) Z := filter (fun kv => kv.1.1 = s) m.
Definition send_times_not_of (s : Socket) (m : gmap (Socket * Z) Z)
  : gmap (Socket * Z) Z := filter (fun kv => kv.1.1 <> s) m.

(** The loop over [m_requestSendTimes] that erases the entries of
    [backendSocket], calling [NotifyRequestFinished (addr)] for each
    when an address is known. *)
Definition erase_send_times (backendSocket : Socket)
    (addr : option InetSocketAddress) (a : App S) : App S :=
  let n := size (send_times_of backendSocket (m_requestSendTimes a)) in
  let a1 := match addr with
            | Some ad => Nat.iter n (notify_finished ad) a
            | None => a
            end in
  set_requestSendTimes
    (send_times_not_of backendSocket (m_requestSendTimes a1)) a1.

(** *** CleanupBackendSocket *)

Definition CleanupBackendSocket (rt : Runtime) (backendSocket : Socket)
    (mapEraseOnly : bool) (a : App S) : App S :=
  if (backendSocket =? 0)%N then a
  else
    let addr0 := GetPeerName rt backendSocket in
    let clientSock := default 0%N (m_backendClientMap a !! backendSocket) in
    let a1 := set_backendClientMap
                (delete backendSocket (m_backendClientMap a)) a in
    (* the entry of the client's map that holds this socket *)
    let '(addr1, a2) :=
      if (clientSock =? 0)%N then (addr0, a1)
      else
        match m_clientBackendSockets a1 !! clientSock with
        | None => (addr0, a1)
        | Some backendMap =>
          match filter (fun kv => kv.2 = backendSocket)
                       (by_address backendMap) with
          | [] => (addr0, a1)
          | (k, _) :: _ =>
            (match addr0 with Some _ => addr0 | None => Some k end,
             set_clientBackendSockets
               (<[clientSock := delete k backendMap]>
                  (m_clientBackendSockets a1)) a1)
          end
        end in
    let a3 := set_backendRxBuffers
                (delete backendSocket (m_backendRxBuffers a2)) a2 in
    let '(addr2, a4) :=
      match m_pendingBackendRequests a3 !! backendSocket with
      | Some p =>
        (match addr1 with
         | Some _ => addr1
         | None => Some (targetBackendAddress p)
         end,
         set_pendingBackendRequests
           (delete backendSocket (m_pendingBackendRequests a3)) a3)
      | None => (addr1, a3)
      end in
    let a5 := erase_send_times backendSocket addr2 a4 in
    if mapEraseOnly then a5
    else if is_shutdown (GetErrno rt backendSocket) then a5
         else log_close backendSocket a5.

(** *** CleanupClient *)

(** The loop over [m_pendingBackendRequests] in [CleanupClient]. *)
Definition drop_pending_of (rt : Runtime) (client : Socket) (a : App S)
  : App S :=
  fold_left
    (fun acc (kv : Socket * PendingRequest) =>
       match m_pendingBackendRequests acc !! kv.1 with
       | Some p =>
         if (clientSocket p =? client)%N then
           let acc1 := notify_finished (targetBackendAddress p) acc in
           let acc2 := set_pendingBackendRequests
                         (delete kv.1 (m_pendingBackendRequests acc1))
                         acc1 in
           CleanupBackendSocket rt kv.1 false acc2
         else acc
       | None => acc
       end)
    (by_socket (m_pendingBackendRequests a)) a.

Definition CleanupClient (rt : Runtime) (client : Socket) (a : App S)
  : App S :=
  if (client =? 0)%N then a
  else
    let a1 :=
      match m_clientBackendSockets a !! client with
      | Some backendMap =>
        let backendSocketsToCleanup :=
          filter (fun s => s <> 0%N) (by_address backendMap).*2 in
        let a' := fold_left
                    (fun acc s => CleanupBackendSocket rt s false acc)
                    backendSocketsToCleanup a in
        set_clientBackendSockets
          (delete client (m_clientBackendSockets a')) a'
      | None => a
      end in
    let a2 := set_clientRxBuffers
                (delete client (m_clientRxBuffers a1)) a1 in
    let a3 := drop_pending_of rt client a2 in
    if is_shutdown (GetErrno rt client) then a3
    else log_close client a3.


(** *** SendToBackend *)

Definition SendToBackend (rt : Runtime) (backendSocket : Socket)
    (requestPacket : list byte) (a : App S) : App S :=
  let peer := if (backendSocket =? 0)%N then None
              else GetPeerName rt backendSocket in
  let target :=
    match peer with
    | Some ad => Some ad
    | None => targetBackendAddress <$>
                (m_pendingBackendRequests a !! backendSocket)
    end in
  if (backendSocket =? 0)%N
     || negb (is_noterror (GetErrno rt backendSocket)) then
    let a1 := match target with
              | Some ad => notify_finished ad a
              | None => a
              end in
    CleanupBackendSocket rt backendSocket false a1
  else
    let sentBytes := Send rt backendSocket requestPacket in
    let a1 := log_send backendSocket requestPacket a in
    if sentBytes <? 0 then
      match target with
      | Some ad => notify_finished ad a1
      | None => a1
      end
    else a1.      (* a short write only disables reads on the client *)

(** *** AttemptForwardRequest *)

(** The header a packet starts with ([Packet::PeekHeader]); a packet too
    short for one leaves the default-constructed header. *)
Definition header_of (pkt : list byte) : RequestResponseHeader.t :=
  default RequestResponseHeader.default_header
          (fst <$> Framing.PeekHeader pkt).

Definition AttemptForwardRequest (rt : Runtime) (client : Socket)
    (requestPacket : list byte) (a : App S) : option (App S) :=
  let traceHeader := header_of requestPacket in
  let currentSeq := RequestResponseHeader.m_seq traceHeader in
  let l7Identifier := RequestResponseHeader.m_l7Identifier traceHeader in
  '(chosen, sel) ← ChooseBackend l7Identifier (selector a);
  let a := set_selector sel a in
  match chosen with
  | None => Some a                       (* no backend chosen: drop *)
  | Some chosenBackendAddress =>
    match m_clientBackendSockets a !! client with
    | None => Some a
    | Some backendMap =>
      (* an entry for the chosen backend: reuse it, or clean it up *)
      let '(reuse, a1) :=
        match backendMap !! chosenBackendAddress with
        | Some backendSocketToUse =>
          if negb (backendSocketToUse =? 0)%N
             && is_noterror (GetErrno rt backendSocketToUse)
          then (Some backendSocketToUse, a)
          else
            let a' := CleanupBackendSocket rt backendSocketToUse true a in
            (None,
             set_clientBackendSockets
               (alter (delete chosenBackendAddress) client
                      (m_clientBackendSockets a')) a')
        | None => (None, a)
        end in
      match reuse with
      | Some backendSocketToUse =>
        let a2 := notify_sent chosenBackendAddress a1 in
        let a3 := set_requestSendTimes
                    (<[(backendSocketToUse, currentSeq) := Now rt]>
                       (m_requestSendTimes a2)) a2 in
        Some (SendToBackend rt backendSocketToUse requestPacket a3)
      | None =>
        let newBackendSocket := CreateSocket rt (created a1) in
        let a2 := set_created (Datatypes.S (created a1)) a1 in
        if (newBackendSocket =? 0)%N then Some a2
        else
          let a3 := notify_sent chosenBackendAddress a2 in
          match m_pendingBackendRequests a3 !! newBackendSocket with
          | Some _ =>                    (* emplace failed *)
            Some (log_close newBackendSocket
                    (notify_finished chosenBackendAddress a3))
          | None =>
            let a4 := set_pendingBackendRequests
                        (<[newBackendSocket :=
                             mkPending client requestPacket
                                       chosenBackendAddress]>
                           (m_pendingBackendRequests a3)) a3 in
            let a5 := set_backendClientMap
                        (<[newBackendSocket := client]>
                           (m_backendClientMap a4)) a4 in
            Some (set_clientBackendSockets
                    (alter (<[chosenBackendAddress := newBackendSocket]>)
                           client (m_clientBackendSockets a5)) a5)
          end
      end
    end
  end.

(** *** The callbacks *)

Definition HandleAccept (acceptedSocket : Socket) (a : App S) : App S :=
  let bufs := match m_clientRxBuffers a !! acceptedSocket with
              | Some _ => m_clientRxBuffers a
              | None => <[acceptedSocket := []]> (m_clientRxBuffers a)
              end in
  let maps := match m_clientBackendSockets a !! acceptedSocket with
              | Some _ => m_clientBackendSockets a
              | None => <[acceptedSocket := ∅]> (m_clientBackendSockets a)
              end in
  set_clientBackendSockets maps (set_clientRxBuffers bufs a).

(** The [while ((packet = socket->Recv ()))] loop: the bytes appended to
    the buffer, and whether a packet of size 0 made the callback return. *)
Fixpoint recv_all (packets : list (list byte)) (buf : list byte)
  : list byte * bool :=
  match packets with
  | [] => (buf, false)
  | p :: rest =>
    match p with
    | [] => (buf, true)
    | _ => recv_all rest (buf ++ p)
    end
  end.

Definition HandleClientRead (fuel : nat) (rt : Runtime) (client : Socket)
    (packets : list (list byte)) (a : App S) : option (App S) :=
  match m_clientRxBuffers a !! client with
  | None => Some a
  | Some currentRxBuffer =>
    let '(buf, stop) := recv_all packets currentRxBuffer in
    if stop then
      Some (set_clientRxBuffers (<[client := buf]> (m_clientRxBuffers a)) a)
    else
      '(rest, a1) ← Framing.reassembly_loop fuel
                      (fun _ pkt st => AttemptForwardRequest rt client pkt st)
                      buf a;
      let a2 := set_clientRxBuffers
                  (<[client := rest]> (m_clientRxBuffers a1)) a1 in
      if is_read_error (GetErrno rt client)
      then Some (CleanupClient rt client a2)
      else Some a2
  end.

Definition HandleBackendConnectSuccess (rt : Runtime) (backendSocket : Socket)
    (a : App S) : App S :=
  match m_pendingBackendRequests a !! backendSocket with
  | None => CleanupBackendSocket rt backendSocket false a
  | Some pendingInfo =>
    let a1 := set_pendingBackendRequests
                (delete backendSocket (m_pendingBackendRequests a)) a in
    let client := clientSocket pendingInfo in
    let backendAddress := targetBackendAddress pendingInfo in
    if (client =? 0)%N || negb (is_noterror (GetErrno rt client)) then
      CleanupBackendSocket rt backendSocket false
        (notify_finished backendAddress a1)
    else
      let bufs := match m_backendRxBuffers a1 !! backendSocket with
                  | Some _ => m_backendRxBuffers a1
                  | None => <[backendSocket := []]> (m_backendRxBuffers a1)
                  end in
      let a2 := set_backendRxBuffers bufs a1 in
      let currentSeq :=
        RequestResponseHeader.m_seq (header_of (requestPacket pendingInfo)) in
      let a3 := set_requestSendTimes
                  (<[(backendSocket, currentSeq) := Now rt]>
                     (m_requestSendTimes a2)) a2 in
      SendToBackend rt backendSocket (requestPacket pendingInfo) a3
  end.

Definition HandleBackendConnectFail (rt : Runtime) (backendSocket : Socket)
    (a : App S) : App S :=
  let a1 :=
    match m_pendingBackendRequests a !! backendSocket with
    | Some p =>
      let a' := notify_finished (targetBackendAddress p) a in
      set_pendingBackendRequests
        (delete backendSocket (m_pendingBackendRequests a')) a'
    | None => a
    end in
  CleanupBackendSocket rt backendSocket false a1.

(** What [HandleBackendRead] does with one full response. *)
Definition relay_response (rt : Runtime) (backendSocket client : Socket)
    (respHeader : RequestResponseHeader.t) (packet : list byte)
    (a : App S) : option (App S) :=
  let currentSeq := RequestResponseHeader.m_seq respHeader in
  let a1 :=
    match GetPeerName rt backendSocket,
          m_requestSendTimes a !! (backendSocket, currentSeq) with
    | Some backendInetAddr, Some sendTime =>
      let rtt := Now rt - sendTime in
      set_requestSendTimes
        (delete (backendSocket, currentSeq) (m_requestSendTimes a))
        (set_selector
           (RecordBackendLatency backendInetAddr rtt (selector a)) a)
    | _, _ => a
    end in
  let a2 := match GetPeerName rt backendSocket with
            | Some backendInetAddr => notify_finished backendInetAddr a1
            | None => a1
            end in
  (* SendToClient *)
  if (client =? 0)%N || negb (is_noterror (GetErrno rt client)) then Some a2
  else Some (log_send client packet a2).

Definition HandleBackendRead (fuel : nat) (rt : Runtime)
    (backendSocket : Socket) (packets : list (list byte)) (a : App S)
  : option (App S) :=
  match m_backendClientMap a !! backendSocket with
  | None => Some a
  | Some client =>
    if (client =? 0)%N || negb (is_noterror (GetErrno rt client)) then
      Some (CleanupBackendSocket rt backendSocket false a)
    else
      match m_backendRxBuffers a !! backendSocket with
      | None => Some (CleanupBackendSocket rt backendSocket false a)
      | Some currentRxBuffer =>
        let '(buf, stop) := recv_all packets currentRxBuffer in
        if stop then
          Some (set_backendRxBuffers
                  (<[backendSocket := buf]> (m_backendRxBuffers a)) a)
        else
          '(rest, a1) ← Framing.reassembly_loop fuel
                          (relay_response rt backendSocket client) buf a;
          let a2 := set_backendRxBuffers
                      (<[backendSocket := rest]> (m_backendRxBuffers a1)) a1 in
          if is_read_error (GetErrno rt backendSocket)
          then Some (CleanupBackendSocket rt backendSocket false a2)
          else Some a2
      end
  end.

Definition HandleClientClose (rt : Runtime) (client : Socket) (a : App S)
  : App S := CleanupClient rt client a.
Definition HandleClientError (rt : Runtime) (client : Socket) (a : App S)
  : App S := CleanupClient rt client a.

Definition HandleBackendClose (rt : Runtime) (backendSocket : Socket)
    (a : App S) : App S :=
  let peer := if (backendSocket =? 0)%N then None
              else GetPeerName rt backendSocket in
  let a1 := match peer with
            | Some backendAddress =>
              erase_send_times backendSocket (Some backendAddress) a
            | None => a
            end in
  CleanupBackendSocket rt backendSocket false a1.

Definition HandleBackendError (rt : Runtime) (backendSocket : Socket)
    (a : App S) : App S :=
  let peer := if (backendSocket =? 0)%N then None
              else GetPeerName rt backendSocket in
  let a1 :=
    match m_pendingBackendRequests a !! backendSocket with
    | Some p => notify_finished (targetBackendAddress p) a
    | None =>
      match peer with
      | Some backendAddress =>
        erase_send_times backendSocket (Some backendAddress) a
      | None => a
      end
    end in
  CleanupBackendSocket rt backendSocket false a1.

(** [HandleSend] only re-installs receive callbacks. *)
Definition HandleSend (socket : Socket) (a : App S) : App S := a.

Definition StopApplication (rt : Runtime) (a : App S) : App S :=
  let a1 := set_listening false a in
  let clientKeysToCleanup := (by_socket (m_clientBackendSockets a1)).*1 in
  let a2 := fold_left (fun acc c => CleanupClient rt c acc)
                      clientKeysToCleanup a1 in
  let a3 := set_clientBackendSockets ∅ a2 in
  let pendingBackendKeysToCleanup :=
    (by_socket (m_pendingBackendRequests a3)).*1 in
  let a4 := fold_left (fun acc s => CleanupBackendSocket rt s false acc)
                      pendingBackendKeysToCleanup a3 in
  set_requestSendTimes ∅
    (set_backendClientMap ∅
       (set_backendRxBuffers ∅
          (set_clientRxBuffers ∅
             (set_pendingBackendRequests ∅ a4)))).

(** *** Runs *)

(** The callbacks the runtime delivers, and the stop of the application. *)
Inductive event : Type :=
| Accept (s : Socket)
| ClientRead (s : Socket) (packets : list (list byte))
| ClientClose (s : Socket)
| ClientError (s : Socket)
| BackendConnectSuccess (s : Socket)
| BackendConnectFail (s : Socket)
| BackendRead (s : Socket) (packets : list (list byte))
| BackendClose (s : Socket)
| BackendError (s : Socket)
| Writable (s : Socket)
| Stop.

Definition step (fuel : nat) (rt : Runtime) (ev : event) (a : App S)
  : option (App S) :=
  match ev with
  | Accept s => Some (HandleAccept s a)
  | ClientRead s packets => HandleClientRead fuel rt s packets a
  | ClientClose s => Some (HandleClientClose rt s a)
  | ClientError s => Some (HandleClientError rt s a)
  | BackendConnectSuccess s => Some (HandleBackendConnectSuccess rt s a)
  | BackendConnectFail s => Some (HandleBackendConnectFail rt s a)
  | BackendRead s packets => HandleBackendRead fuel rt s packets a
  | BackendClose s => Some (HandleBackendClose rt s a)
  | BackendError s => Some (HandleBackendError rt s a)
  | Writable s => Some (HandleSend s a)
  | Stop => Some (StopApplication rt a)
  end.

(** A run: each event with the runtime's answers during its callback. *)
Fixpoint run (fuel : nat) (evs : list (Runtime * event)) (a : App S)
  : option (App S) :=
  match evs with
  | [] => Some a
  | (rt, ev) :: rest => a' ← step fuel rt ev a; run fuel rest a'
  end.

End WithSelector.

(** The weighted round-robin balancer as the derived class.  Its loop
    returns within one round of the registry (lemma [choose_loop_returns]
    of Part II); should it not, the request counts as not routed. *)
#[global] Instance wrr_selector : Selector WeightedRoundRobin.state := {
  ChooseBackend _ st :=
    WeightedRoundRobin.ChooseBackend
      (Datatypes.S (length (WeightedRoundRobin.m_backends st))) st;
  RecordBackendLatency := WeightedRoundRobin.RecordBackendLatency;
  NotifyRequestSent := WeightedRoundRobin.NotifyRequestSent;
  NotifyRequestFinished := WeightedRoundRobin.NotifyRequestFinished
}.

End ProxyCore.

(** ** Smooth weighted round-robin, as the specification words it *)

Module SmoothWrr.
Import WeightedRoundRobin.

(** Follows the words of the specification, over the integers: "i = (i+1)
    mod n; if i == 0 then cw = cw - gcd_w; if cw <= 0 set cw = max_w.
    Accept backend[i] iff its weight > 0 and >= cw."  [inl] is an accepted
    backend, [inr] the state for the next round. *)
Definition loop_body (st : state) : (InetSocketAddress * state) + state :=
  let n := Z.of_nat (length (m_backends st)) in
  let i := (m_currentIndex st + 1) mod n in
  let cw :=
    if i =? 0 then
      let cw1 := m_currentWeight st - m_gcdWeight st in
      if cw1 <=? 0 then m_maxWeight st else cw1
    else m_currentWeight st in
  let st' := mkState (m_backends st) i cw (m_maxWeight st) (m_gcdWeight st) in
  match m_backends st !! Z.to_nat i with
  | Some b =>
    if (0 <? weight b) && (cw <=? weight b) then inl (address b, st')
    else inr st'
  | None => inr st'
  end.

Fixpoint choose_loop (fuel : nat) (st : state)
  : option (InetSocketAddress * state) :=
  match fuel with
  | O => None
  | S fuel' =>
    match loop_body st with
    | inl r => Some r
    | inr st' => choose_loop fuel' st'
    end
  end.

(** "If no backend has positive weight, fall back to the first backend if
    any, else fail." *)
Definition choose (fuel : nat) (st : state)
  : option (option InetSocketAddress * state) :=
  match m_backends st with
  | [] => Some (None, st)
  | first :: _ =>
    if m_maxWeight st =? 0 then Some (Some (address first), st)
    else '(a, st') ← choose_loop fuel st; Some (Some a, st')
  end.

Fixpoint choose_many (fuel k : nat) (st : state)
  : list (option (option InetSocketAddress)) :=
  match k with
  | O => []
  | S k' =>
    match choose fuel st with
    | None => [None]
    | Some (r, st') => Some r :: choose_many fuel k' st'
    end
  end.

End SmoothWrr.

(** ** The Peak-EWMA metric, as the specification words it *)

Module EwmaSpec.
Import PeakEwma.
Local Open Scope R_scope.

(** Follows the words of the specification: "let dt = max(0, now -
    last_update); update last_update = now.  If rtt_ns > cost and cost >
    [threshold], set cost = 0.  Compute w = exp(-dt / decay).  Set cost =
    cost * w + rtt_ns * (1 - w)."  The specification has 0 for
    [threshold]. *)
Definition observe (threshold : R) (now rtt_ns : Z) (m : EwmaMetric)
  : EwmaMetric :=
  let dt := Z.max 0 (now - m_stampNs m) in
  let cost :=
    if Rlt_dec (m_costNs m) (IZR rtt_ns) then
      if Rlt_dec threshold (m_costNs m) then 0 else m_costNs m
    else m_costNs m in
  let w := exp (- IZR dt / m_decayTimeNsDouble m) in
  mkMetric now (m_pending m) (cost * w + IZR rtt_ns * (1 - w))
           (m_decayTimeNs m) (m_decayTimeNsDouble m) (m_penaltyNs m).

(** "decay cost by elapsed time since last update (same w formula),
    update last_update.  If cost is about 0 and pending > 0, return
    penalty_ns + pending.  Otherwise return cost * (pending + 1).  Clamp
    result at 0."  "About 0" is "at most [threshold]". *)
Definition load (threshold : R) (now : Z) (m : EwmaMetric) : R * EwmaMetric :=
  let dt := Z.max 0 (now - m_stampNs m) in
  let w := exp (- IZR dt / m_decayTimeNsDouble m) in
  let cost := m_costNs m * w in
  let m' := mkMetric now (m_pending m) cost
                     (m_decayTimeNs m) (m_decayTimeNsDouble m)
                     (m_penaltyNs m) in
  let score :=
    if Rle_dec cost threshold then
      if (0 <? m_pending m)%Z then m_penaltyNs m + IZR (m_pending m)
      else cost * (IZR (m_pending m) + 1)
    else cost * (IZR (m_pending m) + 1) in
  (Rmax 0 score, m').

End EwmaSpec.

(** ** Weighted round-robin: the state [ChooseBackend] relies on *)

Module WrrInvariant.
Import WeightedRoundRobin.

(** What [ChooseBackend] needs of the state left by
    [RecalculateWrrState]: the index is in range, [m_maxWeight] is the
    largest weight and some backend has it, [m_gcdWeight] lies between 1
    and it, and the marker, read as [uint32_t], does not exceed it. *)
Definition wrr_ready (st : state) : Prop :=
  0 <= m_currentIndex st < Z.of_nat (length (m_backends st))
  /\ 0 < m_maxWeight st < 2 ^ 32
  /\ 1 <= m_gcdWeight st <= m_maxWeight st
  /\ (forall b, In b (m_backends st) -> weight b <= m_maxWeight st)
  /\ (exists b, In b (m_backends st) /\ weight b = m_maxWeight st)
  /\ u32 (m_currentWeight st) <= m_maxWeight st.

(** The marker after the first half of a round of the loop. *)
Definition marker_next (st : state) : Z :=
  let i := (m_currentIndex st + 1) mod Z.of_nat (length (m_backends st)) in
  if i =? 0 then
    let cw := s32 (u32 (m_currentWeight st) - m_gcdWeight st) in
    if cw <=? 0 then s32 (m_maxWeight st) else cw
  else m_currentWeight st.

End WrrInvariant.

(** ** Notification traces *)

Module Notifications.

(** A call of [NotifyRequestSent] or of [NotifyRequestFinished]. *)
Inductive notification : Type :=
| Sent (a : InetSocketAddress)
| Finished (a : InetSocketAddress).

Definition target (n : notification) : InetSocketAddress :=
  match n with Sent a | Finished a => a end.

(** The calls of a trace, in order, on a selector whose two methods are
    [sent] and [finished]. *)
Definition deliver {S : Type} (sent finished : InetSocketAddress -> S -> S)
    (n : notification) (st : S) : S :=
  match n with
  | Sent a => sent a st
  | Finished a => finished a st
  end.
Definition deliver_all {S : Type} (sent finished : InetSocketAddress -> S -> S)
    (tr : list notification) (st : S) : S :=
  fold_left (fun acc n => deliver sent finished n acc) tr st.

(** Requests in flight after a trace: [NotifyRequestSent] called,
    [NotifyRequestFinished] not yet called; in all, and for one backend. *)
Definition in_flight (tr : list notification) : Z :=
  foldr (fun n acc => match n with Sent _ => 1 | Finished _ => -1 end + acc)
        0 tr.
Definition change (n : notification) (a : InetSocketAddress) : Z :=
  match n with
  | Sent b => if decide (b = a) then 1 else 0
  | Finished b => if decide (b = a) then -1 else 0
  end.
Definition outstanding (tr : list notification) (a : InetSocketAddress) : Z :=
  foldr (fun n acc => change n a + acc) 0 tr.

(** No request finishes before it was sent, and no backend has [2 ^ 32]
    or more requests in flight. *)
Definition well_bracketed (tr : list notification) : Prop :=
  forall k a, 0 <= outstanding (take k tr) a < 2 ^ 32.

(** The [activeRequests] of the entry that [FindBackendInfo] finds. *)
Definition active_of (bks : list BackendInfo) (a : InetSocketAddress) : Z :=
  match FindBackendInfo bks a with
  | Some i => default 0 (activeRequests <$> bks !! i)
  | None => 0
  end.

End Notifications.

(** ** Framed streams *)

Module Frames.
Import RequestResponseHeader.

(** "A full framed message is exactly S + payload_size bytes": a header
    followed by its payload. *)
Definition frame (m : t * list byte) : list byte := Serialize (fst m) ++ snd m.

(** A message whose payload has the announced length, and whose total
    length fits 32 bits. *)
Definition well_framed (m : t * list byte) : Prop :=
  wf (fst m) /\ Z.of_nat (length (snd m)) = m_payloadSize (fst m)
  /\ 24 + m_payloadSize (fst m) < 2 ^ 32.

(** The start of a message that has not arrived in full: less than a
    header, or a header and less than the payload it announces. *)
Definition incomplete (tail : list byte) : Prop :=
  (length tail < 24)%nat
  \/ exists h, Framing.PeekHeader (take 24 tail) = Some (h, 24)
               /\ 24 + m_payloadSize h < 2 ^ 32
               /\ Z.of_nat (length tail) < 24 + m_payloadSize h.

End Frames.

(** ** Peak-EWMA: the choice of a backend (peak_ewma_load_balancer.cc) *)

Module PeakEwmaChoice.
Import PeakEwma.

(** [std::numeric_limits<double>::max ()] *)
Definition double_max : R := ((2 - / 4503599627370496) * 2 ^ 1023)%R.

(** [metric_it->second.GetLoad ()] on the metric found for an address
    (the call updates the metric), and [double_max] when there is none. *)
Definition load_at (nowNs : Z) (addr : InetSocketAddress) (st : state)
  : R * state :=
  match m_backendMetrics st !! addr with
  | Some m =>
    (fst (GetLoad nowNs m),
     mkState (m_backends st) (m_decayTime st)
             (<[addr := snd (GetLoad nowNs m)]> (m_backendMetrics st)))
  | None => (double_max, st)
  end.

(** What [m_randomGenerator] answers during one [ChooseBackend]:
    [GetInteger k] is the value of the [k]-th call of
    [GetInteger (0, m_backends.size () - 1)], and [GetValue_lt_half]
    says whether [GetValue () < 0.5]. *)
Record Draws : Type := mkDraws {
  GetInteger : nat -> Z;
  GetValue_lt_half : bool
}.

(** [while (idx2 == idx1 && attempts < maxAttempts)
       { idx2 = GetInteger (...); attempts++; }]
    with [left] attempts left and [k] calls made so far. *)
Fixpoint second_index (draws : Draws) (idx1 : Z) (left k : nat) : Z :=
  match left with
  | O => idx1
  | S left' =>
    let idx2 := GetInteger draws k in
    if idx2 =? idx1 then second_index draws idx1 left' (S k) else idx2
  end.

(** [ChooseBackend] at simulation time [nowNs].  The outer [None] is an
    index outside [m_backends]; the inner one is the return value
    [false]. *)
Definition ChooseBackend (nowNs : Z) (draws : Draws) (st : state)
  : option (option InetSocketAddress * state) :=
  match m_backends st with
  | [] => Some (None, st)
  | [only] =>
    let chosenBackend := address only in
    Some (Some chosenBackend, snd (load_at nowNs chosenBackend st))
  | _ =>
    let idx1 := GetInteger draws 0 in
    let idx2 := second_index draws idx1 10 1 in
    if idx1 =? idx2 then
      b ← m_backends st !! Z.to_nat idx1;
      Some (Some (address b), snd (load_at nowNs (address b) st))
    else
      b1 ← m_backends st !! Z.to_nat idx1;
      b2 ← m_backends st !! Z.to_nat idx2;
      let '(load1, st1) := load_at nowNs (address b1) st in
      let '(load2, st2) := load_at nowNs (address b2) st1 in
      let chosenIdx :=
        if Rlt_dec load1 load2 then idx1
        else if Rlt_dec load2 load1 then idx2
        else if GetValue_lt_half draws then idx1 else idx2 in
      b ← m_backends st2 !! Z.to_nat chosenIdx;
      Some (Some (address b), st2)
  end.

(** Every registered backend has a metric. *)
Definition covered (st : state) : Prop :=
  forall b, In b (m_backends st) ->
    is_Some (m_backendMetrics st !! address b).

End PeakEwmaChoice.

(** ** Least-request: the choice of a backend
       (least_request_load_balancer.cc) *)

Module LeastRequestChoice.
Import LeastRequest.

(** What [m_randomGenerator] answers during one [ChooseBackend]:
    [GetInteger k] is the value of the [k]-th call of
    [GetInteger (0, n - 1)], [GetValue_lt_half] says whether
    [GetValue () < 0.5], and [GetValue_upto total] is the value of
    [GetValue (0.0, total)]. *)
Record Draws : Type := mkDraws {
  GetInteger : nat -> Z;
  GetValue_lt_half : bool;
  GetValue_upto : R -> R
}.

(** [while (idx2 == idx1 && size > 1 && attempts < maxAttempts)
       { idx2 = GetInteger (...); attempts++; }]
    with [left] attempts left and [k] calls made so far; the loop is
    reached with more than one candidate. *)
Fixpoint second_index (draws : Draws) (idx1 : Z) (left k : nat) : Z :=
  match left with
  | O => idx1
  | S left' =>
    let idx2 := GetInteger draws k in
    if idx2 =? idx1 then second_index draws idx1 left' (S k) else idx2
  end.

(** The comparison of the two candidates' [activeRequests]. *)
Definition fewer_requests (draws : Draws) (requests1 requests2 : Z)
    (idx1 idx2 : nat) : nat :=
  if requests1 <? requests2 then idx1
  else if requests2 <? requests1 then idx2
  else if GetValue_lt_half draws then idx1 else idx2.

(** The branch for equal weights: power of two choices over the whole
    registry. *)
Definition choose_p2c (draws : Draws) (bks : list BackendInfo)
  : option (option InetSocketAddress) :=
  match bks with
  | [only] => Some (Some (address only))
  | _ =>
    let idx1 := GetInteger draws 0 in
    let idx2 := second_index draws idx1 10 1 in
    if idx1 =? idx2 then
      b ← bks !! Z.to_nat idx1; Some (Some (address b))
    else
      b1 ← bks !! Z.to_nat idx1;
      b2 ← bks !! Z.to_nat idx2;
      let chosenIdx := fewer_requests draws (activeRequests b1)
                         (activeRequests b2) (Z.to_nat idx1) (Z.to_nat idx2) in
      b ← bks !! chosenIdx; Some (Some (address b))
  end.

(** [weight / (activeRequests + 1) ^ bias], as the loop over the registry
    computes it for a backend of non-zero weight. *)
Definition effectiveWeight (m_activeRequestBias : R) (backend : BackendInfo)
  : R :=
  let denominator :=
    Rpower (IZR (activeRequests backend) + 1) m_activeRequestBias in
  let w :=
    if Rlt_dec PeakEwma.epsilon denominator
    then (IZR (weight backend) / denominator)%R
    else IZR (weight backend) in
  Rmax 0 w.

(** [backendEffectiveWeights[i]]: 0.0 for a backend of weight 0. *)
Definition backendEffectiveWeights (m_activeRequestBias : R)
    (bks : list BackendInfo) (i : nat) : R :=
  match bks !! i with
  | Some backend =>
    if weight backend =? 0 then 0%R
    else effectiveWeight m_activeRequestBias backend
  | None => 0%R
  end.

(** The positions of the backends of non-zero weight, in order. *)
Definition eligibleIndices (bks : list BackendInfo) : list nat :=
  (filter (fun ib => weight (snd ib) <> 0) (imap pair bks)).*1.

(** [totalEffectiveWeight], summed in the order of the registry. *)
Definition totalEffectiveWeight (m_activeRequestBias : R)
    (bks : list BackendInfo) : R :=
  fold_left (fun acc i =>
               (acc + backendEffectiveWeights m_activeRequestBias bks i)%R)
            (eligibleIndices bks) 0%R.

(** The weighted random selection: the first eligible backend at which
    the running sum reaches [randomPick]. *)
Fixpoint pick_weighted (eff : nat -> R) (randomPick currentSum : R)
    (eligible : list nat) : option nat :=
  match eligible with
  | [] => None
  | actualBackendIdx :: rest =>
    let currentSum := (currentSum + eff actualBackendIdx)%R in
    if Rle_dec randomPick currentSum then Some actualBackendIdx
    else pick_weighted eff randomPick currentSum rest
  end.

(** The branch for unequal weights. *)
Definition choose_weighted (m_activeRequestBias : R) (draws : Draws)
    (bks : list BackendInfo) : option (option InetSocketAddress) :=
  let eligible := eligibleIndices bks in
  let total := totalEffectiveWeight m_activeRequestBias bks in
  match eligible with
  | [] => Some None
  | first :: others =>
    if Rle_dec total PeakEwma.epsilon then
      (* power of two choices over the eligible backends *)
      match others with
      | [] => b ← bks !! first; Some (Some (address b))
      | _ =>
        let eligiblePos1 := GetInteger draws 0 in
        let eligiblePos2 := second_index draws eligiblePos1 10 1 in
        if eligiblePos1 =? eligiblePos2 then
          i ← eligible !! Z.to_nat eligiblePos1;
          b ← bks !! i; Some (Some (address b))
        else
          actualIdx1 ← eligible !! Z.to_nat eligiblePos1;
          actualIdx2 ← eligible !! Z.to_nat eligiblePos2;
          b1 ← bks !! actualIdx1;
          b2 ← bks !! actualIdx2;
          let chosenActualIdx :=
            fewer_requests draws (activeRequests b1) (activeRequests b2)
                           actualIdx1 actualIdx2 in
          b ← bks !! chosenActualIdx; Some (Some (address b))
      end
    else
      let randomPick := GetValue_upto draws total in
      let picked :=
        match pick_weighted (backendEffectiveWeights m_activeRequestBias bks)
                            randomPick 0 eligible with
        | Some i => i
        | None => List.last eligible first     (* eligibleIndices.back () *)
        end in
      b ← bks !! picked; Some (Some (address b))
  end.

(** [ChooseBackend]; the attribute [ActiveRequestBias] is
    [m_activeRequestBias].  The outer [None] is an index outside a
    vector; the inner one is the return value [false]. *)
Definition ChooseBackend (m_activeRequestBias : R) (draws : Draws)
    (st : state) : option (option InetSocketAddress) :=
  match m_backends st with
  | [] => Some None
  | _ =>
    if m_weightsAreEqual st then choose_p2c draws (m_backends st)
    else choose_weighted m_activeRequestBias draws (m_backends st)
  end.

End LeastRequestChoice.

(** ** Ring hash: the ring and the lookup (ring_hash_load_balancer.cc) *)

Module RingHashRing.

Definition DefaultMinRingSize : Z := 1024.
Definition DefaultMaxRingSize : Z := 8 * 1024 * 1024.
Definition DefaultHashesPerHost : Z := 100.

(** The registry and the ring, with the two attributes of the class. *)
Record object : Type := mkObject {
  core : RingHash.state;
  m_minRingSize : Z;        (* uint64_t *)
  m_maxRingSize : Z         (* uint64_t *)
}.

Definition init : object :=
  mkObject (RingHash.mkState [] ∅) DefaultMinRingSize DefaultMaxRingSize.

(** The validation of the two sizes at the start of [RecalculateRing]. *)
Definition adjust_sizes (minRingSize maxRingSize : Z) : Z * Z :=
  let min1 := if maxRingSize <? minRingSize then maxRingSize
              else minRingSize in
  let '(min2, max2) :=
    if maxRingSize =? 0
    then (if DefaultMaxRingSize <? min1 then DefaultMaxRingSize else min1,
          DefaultMaxRingSize)
    else (min1, maxRingSize) in
  (if min2 =? 0 then 1 else min2, max2).

(** The first loop of [RecalculateRing]: the sum of the positive weights
    and their number (a [uint32_t]). *)
Definition count_weights (bks : list BackendInfo) : Z * Z :=
  fold_left (fun (acc : Z * Z) backendInfo =>
               if 0 <? weight backendInfo
               then (fst acc + weight backendInfo, u32 (snd acc + 1))
               else acc)
            bks (0, 0).

Section WithHash.
(** [std::hash<std::string>], the text [operator<<] prints for an
    address, and the number
    [static_cast<uint64_t> (std::round (targetTotalHashes * (weight /
    totalWeight)))] as the arithmetic in [double] gives it for
    [targetTotalHashes], [weight] and the sum of the positive weights. *)
Variable m_hasher : string -> Z.
Variable addr_str : InetSocketAddress -> string.
Variable rounded_share : Z -> Z -> Z -> Z.

(** The ring points of one host: the hashes of [baseKey + "_" +
    std::to_string (i)] for [i] below [numHashesForThisHost]. *)
Definition virtual_nodes (a : InetSocketAddress) (numHashesForThisHost : Z)
  : list Z :=
  map (fun i => m_hasher (addr_str a +:+ "_" +:+ pretty (N.of_nat i))%string)
      (seq 0 (Z.to_nat numHashesForThisHost)).

(** One round of the second loop: [insert_or_assign] for every ring point
    of a backend of non-zero weight. *)
Definition add_host (targetTotalHashes totalWeight : Z)
    (ring : gmap Z InetSocketAddress) (backendInfo : BackendInfo)
  : gmap Z InetSocketAddress :=
  if weight backendInfo =? 0 then ring
  else
    let numHashesForThisHost :=
      Z.max 1 (rounded_share targetTotalHashes (weight backendInfo)
                             totalWeight) in
    fold_left (fun r hashValue => <[hashValue := address backendInfo]> r)
              (virtual_nodes (address backendInfo) numHashesForThisHost)
              ring.

Definition RecalculateRing (o : object) : object :=
  let bks := RingHash.m_backends (core o) in
  match bks with
  | [] => mkObject (RingHash.mkState bks ∅) (m_minRingSize o) (m_maxRingSize o)
  | _ =>
    let '(minRingSize, maxRingSize) :=
      adjust_sizes (m_minRingSize o) (m_maxRingSize o) in
    let '(totalWeight, positiveWeightBackendCount) := count_weights bks in
    if (totalWeight <=? 0) || (positiveWeightBackendCount =? 0) then
      mkObject (RingHash.mkState bks ∅) minRingSize maxRingSize
    else
      (* a product of two uint32_t *)
      let desiredHashes :=
        u32 (positiveWeightBackendCount * DefaultHashesPerHost) in
      let targetTotalHashes :=
        Z.min maxRingSize (Z.max minRingSize desiredHashes) in
      mkObject
        (RingHash.mkState bks
           (fold_left (add_host targetTotalHashes totalWeight) bks ∅))
        minRingSize maxRingSize
  end.

Definition SetBackends (backends : list (InetSocketAddress * Z))
    (o : object) : object :=
  RecalculateRing
    (mkObject (RingHash.mkState (LoadBalancerApp.SetBackends backends)
                                (RingHash.m_ring (core o)))
              (m_minRingSize o) (m_maxRingSize o)).

Definition AddBackend (a : InetSocketAddress) (w : Z) (o : object) : object :=
  RecalculateRing
    (mkObject (RingHash.mkState
                 (LoadBalancerApp.AddBackend a w
                    (RingHash.m_backends (core o)))
                 (RingHash.m_ring (core o)))
              (m_minRingSize o) (m_maxRingSize o)).

(** The entries of the ring in the order of [std::map]: by hash value. *)
Definition point_le (x y : Z * InetSocketAddress) : Prop := x.1 <= y.1.
#[local] Instance point_le_dec x y : Decision (point_le x y).
Proof. unfold point_le. apply _. Defined.
Definition ring_points (ring : gmap Z InetSocketAddress)
  : list (Z * InetSocketAddress) :=
  merge_sort point_le (map_to_list ring).

(** [m_ring.lower_bound (requestHash)]: the first entry whose key is not
    below [requestHash]; [None] for [m_ring.end ()]. *)
Definition lower_bound (requestHash : Z) (ring : gmap Z InetSocketAddress)
  : option (Z * InetSocketAddress) :=
  head (filter (fun kv => requestHash <= kv.1) (ring_points ring)).

(** The fallback for an empty ring; [context] is the value of
    [Simulator::GetContext ()]. *)
Definition fallback (context : Z) (bks : list BackendInfo)
  : option InetSocketAddress :=
  match bks with
  | [] => None
  | _ =>
    let eligibleIndices := Maglev.eligibleFallbackIndices bks in
    match eligibleIndices with
    | [] => None
    | _ =>
      let randIdxPos := u32 (context mod Z.of_nat (length eligibleIndices)) in
      i ← eligibleIndices !! Z.to_nat randIdxPos;
      address <$> (bks !! i)
    end
  end.

(** [ChooseBackend]; [None] is the return value [false]. *)
Definition ChooseBackend (context l7Identifier : Z) (o : object)
  : option InetSocketAddress :=
  let ring := RingHash.m_ring (core o) in
  if decide (ring = ∅) then fallback context (RingHash.m_backends (core o))
  else
    let keyString := pretty (Z.to_N l7Identifier) in
    let requestHash := m_hasher keyString in
    match lower_bound requestHash ring with
    | Some it => Some (snd it)
    | None =>                     (* it = m_ring.begin () *)
      snd <$> head (ring_points ring)
    end.

End WithHash.

(** A ring all of whose points belong to registered backends of non-zero
    weight. *)
Definition owned (bks : list BackendInfo) (ring : gmap Z InetSocketAddress)
  : Prop :=
  forall k a, ring !! k = Some a ->
    exists b, In b bks /\ address b = a /\ weight b <> 0.

End RingHashRing.


(** ** Maglev: the primality test of the table size *)

Module MaglevPrime.
Import Maglev.

(** The loop [for (uint64_t i = 5; i * i <= n; i = i + 6)] of [IsPrime];
    the product, [i + 2] and [i + 6] are taken in [uint64_t]. *)
Fixpoint IsPrime_loop (fuel : nat) (n i : Z) : result bool :=
  if u64 (i * i) <=? n then
    match fuel with
    | O => OutOfFuel
    | S fuel' =>
      match umod n i, umod n (u64 (i + 2)) with
      | Some r1, Some r2 =>
        if (r1 =? 0) || (r2 =? 0) then Ok false
        else IsPrime_loop fuel' n (u64 (i + 6))
      | _, _ => DivisionByZero
      end
    end
  else Ok true.

Definition IsPrime (fuel : nat) (n : Z) : result bool :=
  if n <=? 1 then Ok false
  else if n <=? 3 then Ok true
  else if (n mod 2 =? 0) || (n mod 3 =? 0) then Ok false
  else IsPrime_loop fuel n 5.

End MaglevPrime.

(** ** The receive loop of the client and of the server *)

Module PacketStream.

(** [while ((packet = socket->RecvFrom (from)))] of
    [LatencyServerApp::HandleRead] and [LatencyClientApp::HandleRead]:
    a packet of size 0 ends the loop; any other packet is appended to the
    buffer, and the buffer is searched for whole messages at once, with
    the same inner loop as in the proxy.  [process] gets the header
    peeked for a message. *)
Fixpoint recv_loop {St : Type} (fuel : nat)
    (process : RequestResponseHeader.t -> list byte -> St -> option St)
    (packets : list (list byte)) (buf : list byte) (st : St)
  : option (list byte * St) :=
  match packets with
  | [] => Some (buf, st)
  | p :: rest =>
    match p with
    | [] => Some (buf, st)
    | _ =>
      '(buf', st') ← Framing.reassembly_loop fuel process (buf ++ p) st;
      recv_loop fuel process rest buf' st'
    end
  end.

End PacketStream.

(** ** LatencyServerApp (latency_server_app.{h,cc}) *)

Module LatencyServerApp.
Import RequestResponseHeader.

(** The members of the class, and a record of the calls made: the
    responses scheduled with [Simulator::Schedule] (delay, socket,
    header), the packets handed to a socket's [Send], and the sockets
    closed. *)
Record state : Type := mkServer {
  m_listeningSocket : bool;                 (* not null *)
  m_socketList : list Socket;
  m_processingDelay : Z;                    (* Time, in nanoseconds *)
  m_rxBuffers : gmap Socket (list byte);
  m_requestsReceived : Z;                   (* uint64_t *)
  scheduled : list (Z * Socket * t);
  sends : list (Socket * list byte);
  closed : list Socket
}.

(** [header.SetPayloadSize (size)] *)
Definition SetPayloadSize (size : Z) (h : t) : t :=
  mk (m_seq h) (m_timestamp h) size (m_l7Identifier h).

Definition HandleAccept (newSocket : Socket) (st : state) : state :=
  mkServer (m_listeningSocket st) (m_socketList st ++ [newSocket])
    (m_processingDelay st)
    (match m_rxBuffers st !! newSocket with       (* emplace *)
     | Some _ => m_rxBuffers st
     | None => <[newSocket := []]> (m_rxBuffers st)
     end)
    (m_requestsReceived st) (scheduled st) (sends st) (closed st).

(** [m_rxBuffers.erase (socket); m_socketList.remove (socket)] *)
Definition HandleClientClose (socket : Socket) (st : state) : state :=
  mkServer (m_listeningSocket st)
    (filter (fun s => s <> socket) (m_socketList st))
    (m_processingDelay st) (delete socket (m_rxBuffers st))
    (m_requestsReceived st) (scheduled st) (sends st) (closed st).
Definition HandleClientError (socket : Socket) (st : state) : state :=
  HandleClientClose socket st.

(** The response is the header it is given with a payload size of 0, and
    no payload; it is sent only on a socket that is still in the list. *)
Definition SendResponse (socket : Socket) (header : t) (st : state) : state :=
  if decide (socket ∈ m_socketList st) then
    let responsePacket := Serialize (SetPayloadSize 0 header) in
    mkServer (m_listeningSocket st) (m_socketList st) (m_processingDelay st)
      (m_rxBuffers st) (m_requestsReceived st) (scheduled st)
      (sends st ++ [(socket, responsePacket)]) (closed st)
  else st.

Definition ProcessRequest (socket : Socket) (header : t) (payloadSize : Z)
    (st : state) : state :=
  let st1 :=
    mkServer (m_listeningSocket st) (m_socketList st) (m_processingDelay st)
      (m_rxBuffers st) (u64 (m_requestsReceived st + 1)) (scheduled st)
      (sends st) (closed st) in
  if 0 <? m_processingDelay st1 then
    mkServer (m_listeningSocket st1) (m_socketList st1)
      (m_processingDelay st1) (m_rxBuffers st1) (m_requestsReceived st1)
      (scheduled st1 ++ [(m_processingDelay st1, socket, header)])
      (sends st1) (closed st1)
  else SendResponse socket header st1.

(** [HandleRead]; [packets] is what [RecvFrom] returns, call after call.
    [None]: the inner loop did not finish within the fuel. *)
Definition HandleRead (fuel : nat) (socket : Socket)
    (packets : list (list byte)) (st : state) : option state :=
  match m_rxBuffers st !! socket with
  | None => Some st
  | Some currentRxBuffer =>
    '(buf, st') ← PacketStream.recv_loop fuel
                    (fun reqHeader _ s =>
                       Some (ProcessRequest socket reqHeader
                               (m_payloadSize reqHeader) s))
                    packets currentRxBuffer st;
    Some (mkServer (m_listeningSocket st') (m_socketList st')
            (m_processingDelay st')
            (<[socket := buf]> (m_rxBuffers st'))
            (m_requestsReceived st') (scheduled st') (sends st')
            (closed st'))
  end.

Definition StopApplication (st : state) : state :=
  mkServer false [] (m_processingDelay st) ∅ (m_requestsReceived st)
    (scheduled st) (sends st)
    (closed st ++ filter (fun s => s <> 0%N) (m_socketList st)).

End LatencyServerApp.

(** ** LatencyClientApp (latency_client_app.{h,cc}) *)

Module LatencyClientApp.
Import RequestResponseHeader.

(** The members of the class, and a record of the calls made: the
    packets handed to [Send], the delays of the scheduled calls of
    [SendRequestPacket], and the number of scheduled and of direct calls
    of [Socket::Close]. *)
Record state : Type := mkClient {
  m_socket : bool;                  (* not null *)
  m_requestSize : Z;                (* uint32_t *)
  m_requestCount : Z;               (* uint32_t *)
  m_requestInterval : Z;            (* Time, in nanoseconds *)
  m_sendEvent : bool;               (* IsPending () *)
  m_seqCounter : Z;                 (* uint64_t *)
  m_requestsSent : Z;               (* uint32_t *)
  m_responsesReceived : Z;          (* uint32_t *)
  m_running : bool;
  m_connected : bool;
  m_sentTimes : gmap Z Z;           (* std::map<uint64_t, Time> *)
  m_latencies : list Z;
  m_rxBuffer : list byte;
  sends : list (list byte);
  scheduled_sends : list Z;
  scheduled_closes : nat;
  closes : nat;
  connects : nat
}.

(** [StartApplication]; [peer_valid] is the outcome of the test of the
    remote address and port.  [SetupSocket] creates the socket if there
    is none (a failure is a fatal error), [Connect] connects it unless
    [m_connected]. *)
Definition StartApplication (peer_valid : bool) (c : state) : state :=
  if peer_valid then
    mkClient true (m_requestSize c) (m_requestCount c) (m_requestInterval c)
      (m_sendEvent c) 0 0 0 true (m_connected c) ∅ [] []
      (sends c) (scheduled_sends c) (scheduled_closes c) (closes c)
      (if m_connected c then connects c else S (connects c))
  else
    mkClient (m_socket c) (m_requestSize c) (m_requestCount c)
      (m_requestInterval c) (m_sendEvent c) 0 0 0 false (m_connected c)
      ∅ [] [] (sends c) (scheduled_sends c) (scheduled_closes c)
      (closes c) (connects c).

Definition StopApplication (c : state) : state :=
  mkClient (m_socket c) (m_requestSize c) (m_requestCount c)
    (m_requestInterval c) false (m_seqCounter c) (m_requestsSent c)
    (m_responsesReceived c) false (m_connected c) (m_sentTimes c)
    (m_latencies c) (m_rxBuffer c) (sends c) (scheduled_sends c)
    (scheduled_closes c)
    (if m_socket c then S (closes c) else closes c) (connects c).

(** [Simulator::ScheduleNow (&LatencyClientApp::SendRequestPacket, this)]
    is a scheduled call with delay 0 that [m_sendEvent] does not hold. *)
Definition ConnectionSucceeded (c : state) : state :=
  mkClient (m_socket c) (m_requestSize c) (m_requestCount c)
    (m_requestInterval c) (m_sendEvent c) (m_seqCounter c)
    (m_requestsSent c) (m_responsesReceived c) (m_running c) true
    (m_sentTimes c) (m_latencies c) (m_rxBuffer c) (sends c)
    (if m_running c then scheduled_sends c ++ [0] else scheduled_sends c)
    (scheduled_closes c) (closes c) (connects c).

Definition set_disconnected (close : bool) (c : state) : state :=
  mkClient (m_socket c) (m_requestSize c) (m_requestCount c)
    (m_requestInterval c) false (m_seqCounter c) (m_requestsSent c)
    (m_responsesReceived c) (m_running c) false (m_sentTimes c)
    (m_latencies c) (m_rxBuffer c) (sends c) (scheduled_sends c)
    (scheduled_closes c)
    (if close then S (closes c) else closes c) (connects c).

Definition ConnectionFailed (c : state) : state :=
  mkClient (m_socket c) (m_requestSize c) (m_requestCount c)
    (m_requestInterval c) (m_sendEvent c) (m_seqCounter c)
    (m_requestsSent c) (m_responsesReceived c) (m_running c) false
    (m_sentTimes c) (m_latencies c) (m_rxBuffer c) (sends c)
    (scheduled_sends c) (scheduled_closes c) (closes c) (connects c).

Definition HandleClose (c : state) : state := set_disconnected false c.

(** [errno_final]: the socket's error is [ERROR_SHUTDOWN] or
    [ERROR_NOTCONN]. *)
Definition HandleError (errno_final : bool) (c : state) : state :=
  set_disconnected (m_socket c && negb errno_final) c.

(** What [HandleRead] does with one whole response at time [nowNs]. *)
Definition record_response (nowNs : Z) (respHeader : t) (c : state)
  : state :=
  match m_sentTimes c !! m_seq respHeader with
  | Some sendTime =>
    let latency := nowNs - sendTime in
    mkClient (m_socket c) (m_requestSize c) (m_requestCount c)
      (m_requestInterval c) (m_sendEvent c) (m_seqCounter c)
      (m_requestsSent c) (u32 (m_responsesReceived c + 1)) (m_running c)
      (m_connected c) (delete (m_seq respHeader) (m_sentTimes c))
      (m_latencies c ++ [latency]) (m_rxBuffer c) (sends c)
      (scheduled_sends c) (scheduled_closes c) (closes c) (connects c)
  | None => c
  end.

Definition HandleRead (fuel : nat) (nowNs : Z) (packets : list (list byte))
    (c : state) : option state :=
  '(buf, c') ← PacketStream.recv_loop fuel
                 (fun respHeader _ s =>
                    Some (record_response nowNs respHeader s))
                 packets (m_rxBuffer c) c;
  Some (mkClient (m_socket c') (m_requestSize c') (m_requestCount c')
          (m_requestInterval c') (m_sendEvent c') (m_seqCounter c')
          (m_requestsSent c') (m_responsesReceived c') (m_running c')
          (m_connected c') (m_sentTimes c') (m_latencies c') buf
          (sends c') (scheduled_sends c') (scheduled_closes c')
          (closes c') (connects c')).

Definition ScheduleNextRequest (c : state) : state :=
  if negb (m_running c) then c
  else if negb (m_connected c) then c
  else if (m_requestCount c =? 0) || (m_requestsSent c <? m_requestCount c)
  then
    mkClient (m_socket c) (m_requestSize c) (m_requestCount c)
      (m_requestInterval c) true (m_seqCounter c) (m_requestsSent c)
      (m_responsesReceived c) (m_running c) (m_connected c)
      (m_sentTimes c) (m_latencies c) (m_rxBuffer c) (sends c)
      (scheduled_sends c ++ [m_requestInterval c]) (scheduled_closes c)
      (closes c) (connects c)
  else if (0 <? m_requestCount c)
          && (m_requestCount c <=? m_requestsSent c) then
    if m_socket c && m_connected c then
      mkClient (m_socket c) (m_requestSize c) (m_requestCount c)
        (m_requestInterval c) (m_sendEvent c) (m_seqCounter c)
        (m_requestsSent c) (m_responsesReceived c) (m_running c)
        (m_connected c) (m_sentTimes c) (m_latencies c) (m_rxBuffer c)
        (sends c) (scheduled_sends c) (S (scheduled_closes c))
        (closes c) (connects c)
    else c
  else c.

(** The request built by [SendRequestPacket]: the header and
    [m_requestSize] bytes of payload, which ns-3 gives the value 0. *)
Definition request_header (nowNs l7 : Z) (c : state) : t :=
  mk (u32 (u64 (m_seqCounter c + 1))) nowNs (m_requestSize c) l7.
Definition request_packet (nowNs l7 : Z) (c : state) : list byte :=
  Serialize (request_header nowNs l7 c)
    ++ replicate (Z.to_nat (m_requestSize c)) x00.

(** [SendRequestPacket] at time [nowNs]; [l7] is the number drawn from
    [m_dist], [bytesActuallySent] the return value of [Send].  The socket
    is there ([NS_ASSERT_MSG]) once [StartApplication] has run with a
    valid peer, and [m_running] is set nowhere else. *)
Definition SendRequestPacket (nowNs l7 bytesActuallySent : Z) (c : state)
  : state :=
  if negb (m_running c) then c
  else if negb (m_connected c) then c
  else if (0 <? m_requestCount c)
          && (m_requestCount c <=? m_requestsSent c) then c
  else
    let seq := u64 (m_seqCounter c + 1) in
    let c1 :=
      mkClient (m_socket c) (m_requestSize c) (m_requestCount c)
        (m_requestInterval c) (m_sendEvent c) seq
        (u32 (m_requestsSent c + 1)) (m_responsesReceived c) (m_running c)
        (m_connected c) (<[seq := nowNs]> (m_sentTimes c))
        (m_latencies c) (m_rxBuffer c)
        (sends c ++ [request_packet nowNs l7 c])
        (scheduled_sends c) (scheduled_closes c) (closes c) (connects c) in
    if bytesActuallySent <? 0 then c1 else ScheduleNextRequest c1.

(** A scheduled call of [SendRequestPacket] is due; [held] tells whether
    it is the event [m_sendEvent] holds, which is then pending no more. *)
Definition fired (held : bool) (c : state) : state :=
  mkClient (m_socket c) (m_requestSize c) (m_requestCount c)
    (m_requestInterval c) (if held then false else m_sendEvent c)
    (m_seqCounter c) (m_requestsSent c) (m_responsesReceived c)
    (m_running c) (m_connected c) (m_sentTimes c) (m_latencies c)
    (m_rxBuffer c) (sends c) (scheduled_sends c) (scheduled_closes c)
    (closes c) (connects c).

(** The calls the runtime makes after [StartApplication]. *)
Inductive call : Type :=
| Connected
| ConnectFailed
| Closed
| Errored (errno_final : bool)
| Readable (nowNs : Z) (packets : list (list byte))
| SendTimer (held : bool) (nowNs l7 bytesActuallySent : Z)
| Stop.

Definition step (fuel : nat) (ev : call) (c : state) : option state :=
  match ev with
  | Connected => Some (ConnectionSucceeded c)
  | ConnectFailed => Some (ConnectionFailed c)
  | Closed => Some (HandleClose c)
  | Errored e => Some (HandleError e c)
  | Readable nowNs packets => HandleRead fuel nowNs packets c
  | SendTimer held nowNs l7 r =>
    Some (SendRequestPacket nowNs l7 r (fired held c))
  | Stop => Some (StopApplication c)
  end.

Fixpoint run (fuel : nat) (evs : list call) (c : state) : option state :=
  match evs with
  | [] => Some c
  | ev :: rest => c' ← step fuel ev c; run fuel rest c'
  end.

End LatencyClientApp.

(** ** The command line of the simulation (main.cc) *)

Module CommandLine.

Definition kDefaultWeight : Z := 1.

(** The characters of [" \t\n\r\f\v"]. *)
Definition is_space (c : ascii) : bool :=
  let n := nat_of_ascii c in
  (n =? 32)%nat || ((9 <=? n)%nat && (n <=? 13)%nat).

Fixpoint drop_spaces (s : list ascii) : list ascii :=
  match s with
  | c :: rest => if is_space c then drop_spaces rest else s
  | [] => []
  end.

(** [s.erase (0, s.find_first_not_of (ws));
     s.erase (s.find_last_not_of (ws) + 1)] *)
Definition TrimWhitespace (s : list ascii) : list ascii :=
  rev (drop_spaces (rev (drop_spaces s))).

(** [while (std::getline (ss, segment, ','))]: the segments read.  A call
    that extracts no character at all, at the end of the stream, fails and
    ends the loop; [extracted] tells whether the call under way has
    extracted one. *)
Fixpoint getline_segments (rest segment : list ascii) (extracted : bool)
  : list (list ascii) :=
  match rest with
  | [] => if extracted then [segment] else []
  | c :: rest' =>
    if (nat_of_ascii c =? 44)%nat
    then segment :: getline_segments rest' [] false
    else getline_segments rest' (segment ++ [c]) true
  end.

Definition digit (c : ascii) : option Z :=
  let n := nat_of_ascii c in
  if (48 <=? n)%nat && (n <=? 57)%nat then Some (Z.of_nat n - 48) else None.

(** The value of a string of decimal digits; [None] for any other
    character. *)
Fixpoint digits_value (s : list ascii) (acc : Z) : option Z :=
  match s with
  | [] => Some acc
  | c :: rest =>
    match digit c with
    | Some d => digits_value rest (10 * acc + d)
    | None => None
    end
  end.

(** [std::from_chars (first, last, weight)] for a [uint32_t], together
    with the test [ec == std::errc () && ptr == last]: the whole segment
    is a decimal numeral, with no sign, whose value fits 32 bits. *)
Definition from_chars_u32 (segment : list ascii) : option Z :=
  match segment with
  | [] => None
  | _ =>
    match digits_value segment 0 with
    | Some v => if v <? 2 ^ 32 then Some v else None
    | None => None
    end
  end.

Definition parse_weight (segment : list ascii) : Z :=
  let segment := TrimWhitespace segment in
  match segment with
  | [] => kDefaultWeight
  | _ =>
    match from_chars_u32 segment with
    | Some weight => if 0 <? weight then weight else kDefaultWeight
    | None => kDefaultWeight
    end
  end.

Definition ParseWeights (weightsStr : string) : list Z :=
  map parse_weight
      (getline_segments (list_ascii_of_string weightsStr) [] false).

(** A decimal numeral of value [v], with white space around it. *)
Definition numeral (segment : list ascii) (v : Z) : Prop :=
  exists before digits after,
    segment = before ++ digits ++ after
    /\ forallb is_space before = true /\ forallb is_space after = true
    /\ digits <> [] /\ digits_value digits 0 = Some v.

(** Segments written one after the other with a comma in between. *)
Fixpoint join_commas (segments : list (list ascii)) : list ascii :=
  match segments with
  | [] => []
  | [s] => s
  | s :: rest => s ++ "," %char :: join_commas rest
  end.

End CommandLine.

(** ** The order of service of weighted round-robin *)

Module WrrSchedule.
Import WeightedRoundRobin.

(** The test of the loop of [ChooseBackend]:
    [backend.weight > 0 && backend.weight >= m_currentWeight]. *)
Definition accepts (cw : Z) (b : BackendInfo) : bool :=
  (0 <? weight b) && (cw <=? weight b).

(** The marker after the index has wrapped:
    [m_currentWeight -= m_gcdWeight; if (m_currentWeight <= 0)
     m_currentWeight = m_maxWeight]. *)
Definition next_level (maxWeight gcdWeight cw : Z) : Z :=
  if cw - gcdWeight <=? 0 then maxWeight else cw - gcdWeight.

(** The values the marker takes in [k] successive sweeps of the
    registry. *)
Fixpoint levels (k : nat) (maxWeight gcdWeight cw : Z) : list Z :=
  match k with
  | O => []
  | S k' =>
    let cw' := next_level maxWeight gcdWeight cw in
    cw' :: levels k' maxWeight gcdWeight cw'
  end.

(** The backends one sweep serves, in the order of the registry. *)
Definition level_picks (cw : Z) (bks : list BackendInfo)
  : list InetSocketAddress :=
  map address (filter (fun b => accepts cw b = true) bks).

(** The backends [k] sweeps serve, starting with marker 0. *)
Definition schedule (k : nat) (bks : list BackendInfo)
    (maxWeight gcdWeight : Z) : list InetSocketAddress :=
  concat (map (fun cw => level_picks cw bks)
              (levels k maxWeight gcdWeight 0)).

(** The state with the index at [i] and the marker at [cw]. *)
Definition at_ (bks : list BackendInfo) (maxWeight gcdWeight : Z) (i : nat)
    (cw : Z) : state :=
  mkState bks (Z.of_nat i) cw maxWeight gcdWeight.

(** The backends still to be served in the sweep under way, the index
    being at [i]. *)
Definition picks_after (bks : list BackendInfo) (i : nat) (cw : Z)
  : list InetSocketAddress :=
  map address (filter (fun b => accepts cw b = true) (drop (S i) bks)).

End WrrSchedule.

(** ** Maglev: what the filling loop keeps true *)

Module MaglevTable.
Import Maglev.

(** An address of a registered backend of non-zero weight. *)
Definition owner (bks : list BackendInfo) (a : InetSocketAddress) : Prop :=
  exists b, In b bks /\ address b = a /\ weight b <> 0.

(** The number of slots of the table that hold a port. *)
Definition occupied (tbl : list InetSocketAddress) : nat :=
  length (filter (fun a => GetPort a <> 0) tbl).

(** The entries are backends of the registry, the table has [T] slots,
    each empty or owned by one of them, and [filledSlotsCount] counts the
    slots that hold a port. *)
Definition table_invariant (bks : list BackendInfo) (T : Z)
    (es : list MaglevBuildEntry) (tbl : list InetSocketAddress)
    (filled : Z) : Prop :=
  Forall (fun e => owner bks (e_address e)) es
  /\ length tbl = Z.to_nat T
  /\ Forall (fun a => a = sentinel \/ owner bks a) tbl
  /\ filled = Z.of_nat (occupied tbl).

(** What the filling loop keeps true of a build entry: its offset and
    skip are in range, every slot of its permutation before
    [nextIndexInPermutation] is taken, its score is [maxWeight] times the
    number of slots it has filled, and its port is not 0. *)
Definition entry_ready (T maxWeight : Z) (tbl : list InetSocketAddress)
    (e : MaglevBuildEntry) : Prop :=
  0 <= offset e < T /\ 1 <= skip e < T
  /\ 0 <= nextIndexInPermutation e <= T
  /\ (forall j, 0 <= j < nextIndexInPermutation e ->
        GetPort (slot tbl (permutation_value T e j)) <> 0)
  /\ targetWeightScore e = slotsFilledCount e * maxWeight
  /\ 0 < e_weight e <= maxWeight
  /\ GetPort (e_address e) <> 0.

End MaglevTable.

(** ** Maglev: the rounds of the filling loop *)

Module MaglevPasses.
Import Maglev.



(** An entry has filled at most one slot in each earlier pass, and its
    score counts them. *)
Definition in_step (maxWeight pass : Z) (e : MaglevBuildEntry) : Prop :=
  targetWeightScore e = slotsFilledCount e * maxWeight
  /\ 0 <= slotsFilledCount e <= pass - 1.

End MaglevPasses.

(** ** The proxy core: pending requests during a cleanup *)

Module ProxyInvariants.
Import ProxyCore.

(** No pending request of the client [c] among the entries of [m] at the
    sockets of [done]. *)
Definition settled (c : Socket) (done : list Socket)
    (m : gmap Socket PendingRequest) : Prop :=
  forall s p, s ∈ done -> m !! s = Some p -> clientSocket p <> c.

End ProxyInvariants.

(** ** The client: its books *)

Module ClientBooks.
Import LatencyClientApp.

(** The books of the client after [n] calls, [base] packets having been
    sent before the start and [count] requests being asked for: requests
    sent, responses received, and requests still waiting for one. *)
Definition books (base : nat) (count : Z) (n : Z) (c : state) : Prop :=
  0 <= m_seqCounter c <= n
  /\ m_requestCount c = count
  /\ m_requestsSent c = m_seqCounter c
  /\ Z.of_nat (length (sends c)) = Z.of_nat base + m_seqCounter c
  /\ m_responsesReceived c = Z.of_nat (length (m_latencies c))
  /\ Z.of_nat (size (m_sentTimes c)) + Z.of_nat (length (m_latencies c))
     = m_seqCounter c
  /\ (forall k, is_Some (m_sentTimes c !! k) -> 1 <= k <= m_seqCounter c)
  /\ (0 < count -> m_requestsSent c <= count).

End ClientBooks.

(* ===================================================================== *)
(** * Part II: lemmas and theorems                                        *)
(* ===================================================================== *)

(** ** The framing header *)

Section HeaderFacts.
Import RequestResponseHeader.

Lemma Z_of_byte_range (b : byte) : 0 <= Z_of_byte b < 256.
Proof.
  unfold Z_of_byte. pose proof (Byte.to_N_bounded b). lia.
Qed.

Lemma Z_of_byte_of_Z (z : Z) : Z_of_byte (byte_of_Z z) = z mod 256.
Proof.
  unfold Z_of_byte, byte_of_Z.
  change 255 with (Z.ones 8). rewrite Z.land_ones by lia.
  change (2 ^ 8) with 256.
  pose proof (Z.mod_pos_bound z 256 ltac:(lia)) as Hr.
  destruct (Byte.of_N (Z.to_N (z mod 256))) as [b|] eqn:E; simpl.
  - apply Byte.to_of_N in E. rewrite E. lia.
  - apply Byte.of_N_None_iff in E. lia.
Qed.

Lemma lor_shiftl_byte (acc b : Z) :
  0 <= b < 256 -> Z.lor (Z.shiftl acc 8) b = acc * 256 + b.
Proof.
  intros Hb. rewrite Z.shiftl_mul_pow2 by lia. change (2 ^ 8) with 256.
  symmetry. apply Z.add_nocarry_lor.
  replace b with (Z.land b (Z.ones 8)) at 1
    by (rewrite Z.land_ones by lia; apply Z.mod_small; simpl; lia).
  rewrite (Z.land_comm b), Z.land_assoc, (Z.land_ones (acc * 256)) by lia.
  change (2 ^ 8) with 256. rewrite Z.mod_mul by lia. apply Z.land_0_l.
Qed.

Lemma be_value_range (bs : list byte) :
  0 <= be_value bs < 256 ^ Z.of_nat (length bs).
Proof.
  induction bs as [|b bs IH]; simpl be_value; simpl length.
  - simpl. lia.
  - pose proof (Z_of_byte_range b).
    rewrite Nat2Z.inj_succ, Z.pow_succ_r by lia. nia.
Qed.

(** The shift-and-or loop of [ReadNtoh] computes the positional value. *)
Lemma fold_ntoh (bs : list byte) (acc : Z) :
  fold_left (fun a b => Z.lor (Z.shiftl a 8) (Z_of_byte b)) bs acc
  = acc * 256 ^ Z.of_nat (length bs) + be_value bs.
Proof.
  revert acc. induction bs as [|b bs IH]; intros acc; simpl fold_left.
  - simpl. lia.
  - rewrite IH, lor_shiftl_byte by apply Z_of_byte_range.
    simpl be_value. simpl length.
    rewrite Nat2Z.inj_succ, Z.pow_succ_r by lia. ring.
Qed.

Lemma ntoh_be_value (bs : list byte) : ntoh bs = be_value bs.
Proof. unfold ntoh. rewrite fold_ntoh. lia. Qed.

Lemma length_WriteHton (n : nat) (v : Z) : length (WriteHton n v) = n.
Proof. induction n; simpl; congruence. Qed.

(** [WriteHton] writes the low [8 n] bits, most significant byte first. *)
Lemma be_value_WriteHton (n : nat) (v : Z) :
  be_value (WriteHton n v) = v mod 2 ^ (8 * Z.of_nat n).
Proof.
  induction n as [|k IH].
  - simpl. now rewrite Z.mod_1_r.
  - cbn [WriteHton be_value]. rewrite length_WriteHton, IH.
    rewrite Z_of_byte_of_Z.
    change 255 with (Z.ones 8). rewrite Z.land_ones by lia.
    change (2 ^ 8) with 256. rewrite Z.mod_mod by lia.
    rewrite Z.shiftr_div_pow2 by lia.
    replace (8 * Z.of_nat (S k)) with (8 * Z.of_nat k + 8) by lia.
    rewrite Z.pow_add_r by lia. change (2 ^ 8) with 256.
    rewrite Z.rem_mul_r by lia.
    replace (256 ^ Z.of_nat k) with (2 ^ (8 * Z.of_nat k)).
    + ring.
    + change 256 with (2 ^ 8). rewrite <- Z.pow_mul_r by lia. reflexivity.
Qed.

Lemma ReadNtoh_WriteHton (n : nat) (v : Z) (rest : list byte) :
  ReadNtoh n (WriteHton n v ++ rest) = Some (v mod 2 ^ (8 * Z.of_nat n), rest).
Proof.
  unfold ReadNtoh.
  rewrite length_app, length_WriteHton.
  replace (n <=? n + length rest)%nat with true
    by (symmetry; apply Nat.leb_le; lia).
  rewrite take_app_length', drop_app_length' by (now rewrite length_WriteHton).
  now rewrite ntoh_be_value, be_value_WriteHton.
Qed.

Lemma ReadNtoh_total (n : nat) (buf : list byte) :
  (n <= length buf)%nat ->
  exists v, ReadNtoh n buf = Some (v, drop n buf)
            /\ 0 <= v < 2 ^ (8 * Z.of_nat n).
Proof.
  intros Hn. unfold ReadNtoh.
  replace (n <=? length buf)%nat with true by (symmetry; apply Nat.leb_le; lia).
  eexists; split; [reflexivity|].
  rewrite ntoh_be_value.
  pose proof (be_value_range (take n buf)) as Hr.
  rewrite length_take, Nat.min_l in Hr by lia.
  replace (2 ^ (8 * Z.of_nat n)) with (256 ^ Z.of_nat n); [exact Hr|].
  change 256 with (2 ^ 8). rewrite <- Z.pow_mul_r by lia. reflexivity.
Qed.

Lemma s64_u64 (x : Z) : is_s64 x -> s64 (u64 x mod 2 ^ 64) = x.
Proof.
  unfold is_s64, s64, u64. intros Hx.
  rewrite !Z.mod_mod by lia.
  destruct (Z_lt_le_dec x 0).
  - replace (x mod 2 ^ 64) with (x + 2 ^ 64)
      by (apply Z.mod_unique with (-1); lia).
    destruct (Z.ltb_spec (x + 2 ^ 64) (2 ^ 63)); lia.
  - rewrite Z.mod_small by lia.
    destruct (Z.ltb_spec x (2 ^ 63)); lia.
Qed.

Lemma s64_range (x : Z) : is_s64 (s64 x).
Proof.
  unfold is_s64, s64.
  pose proof (Z.mod_pos_bound x (2 ^ 64) ltac:(lia)).
  destruct (Z.ltb_spec (x mod 2 ^ 64) (2 ^ 63)); lia.
Qed.

Lemma length_Serialize (h : t) : length (Serialize h) = 24%nat.
Proof.
  unfold Serialize, WriteHtonU32, WriteHtonU64.
  now rewrite !length_app, !length_WriteHton.
Qed.

Lemma Deserialize_Serialize (h : t) :
  wf h -> Deserialize (Serialize h) = Some (h, 24).
Proof.
  intros (Hs & Ht & Hp & Hl). unfold is_u32, is_u64 in *.
  unfold Deserialize, Serialize, ReadNtohU32, ReadNtohU64,
    WriteHtonU32, WriteHtonU64.
  rewrite ReadNtoh_WriteHton. cbn [mbind option_bind].
  rewrite ReadNtoh_WriteHton. cbn [mbind option_bind].
  rewrite ReadNtoh_WriteHton. cbn [mbind option_bind].
  rewrite <- (app_nil_r (WriteHton 8 (m_l7Identifier h))).
  rewrite ReadNtoh_WriteHton. cbn [mbind option_bind].
  change (8 * Z.of_nat 4) with 32. change (8 * Z.of_nat 8) with 64.
  rewrite s64_u64 by exact Ht.
  rewrite !Z.mod_small by lia.
  destruct h; reflexivity.
Qed.

Lemma Deserialize_total (bs : list byte) :
  length bs = 24%nat -> exists h, Deserialize bs = Some (h, 24) /\ wf h.
Proof.
  intros Hlen. unfold Deserialize, ReadNtohU32, ReadNtohU64.
  destruct (ReadNtoh_total 4 bs) as (v1 & E1 & R1); [lia|].
  rewrite E1. cbn [mbind option_bind].
  destruct (ReadNtoh_total 8 (drop 4 bs)) as (v2 & E2 & R2);
    [rewrite length_drop; lia|].
  rewrite E2. cbn [mbind option_bind].
  destruct (ReadNtoh_total 4 (drop 8 (drop 4 bs))) as (v3 & E3 & R3);
    [rewrite !length_drop; lia|].
  rewrite E3. cbn [mbind option_bind].
  destruct (ReadNtoh_total 8 (drop 4 (drop 8 (drop 4 bs)))) as (v4 & E4 & R4);
    [rewrite !length_drop; lia|].
  rewrite E4. cbn [mbind option_bind].
  eexists; split; [reflexivity|].
  unfold wf, is_u32, is_u64; cbn.
  change (8 * Z.of_nat 4) with 32 in *. change (8 * Z.of_nat 8) with 64 in *.
  repeat split; try lia; apply s64_range.
Qed.

End HeaderFacts.

(** C6.  For every header [h] (fields within their C++ types) the
    serialized size is 24; [Serialize] writes 24 bytes that hold, in this
    order and each most significant byte first, the 32-bit [seq], the
    64-bit nanosecond timestamp (two's complement), the 32-bit payload
    size and the 64-bit L7 identifier; [Deserialize] gives [h] back from
    them; and [Deserialize] succeeds on every buffer of 24 bytes. *)
Theorem header_serialize_roundtrip (h : RequestResponseHeader.t) :
  RequestResponseHeader.wf h ->
  RequestResponseHeader.GetSerializedSize h = 24
  /\ length (RequestResponseHeader.Serialize h) = 24%nat
  /\ RequestResponseHeader.be_value
       (take 4 (RequestResponseHeader.Serialize h))
     = RequestResponseHeader.m_seq h
  /\ RequestResponseHeader.be_value
       (take 8 (drop 4 (RequestResponseHeader.Serialize h)))
     = RequestResponseHeader.m_timestamp h mod 2 ^ 64
  /\ RequestResponseHeader.be_value
       (take 4 (drop 12 (RequestResponseHeader.Serialize h)))
     = RequestResponseHeader.m_payloadSize h
  /\ RequestResponseHeader.be_value
       (drop 16 (RequestResponseHeader.Serialize h))
     = RequestResponseHeader.m_l7Identifier h
  /\ RequestResponseHeader.Deserialize (RequestResponseHeader.Serialize h)
     = Some (h, 24)
  /\ (forall bs : list byte, length bs = 24%nat ->
        exists h', RequestResponseHeader.Deserialize bs = Some (h', 24)
                   /\ RequestResponseHeader.wf h').
Proof.
  intros Hwf. pose proof Hwf as (Hs & Ht & Hp & Hl).
  unfold is_u32, is_u64, is_s64 in *.
  split; [reflexivity|]. split; [apply length_Serialize|].
  assert (L4 : forall v, length (RequestResponseHeader.WriteHton 4 v) = 4%nat)
    by (intros; apply length_WriteHton).
  assert (L8 : forall v, length (RequestResponseHeader.WriteHton 8 v) = 8%nat)
    by (intros; apply length_WriteHton).
  unfold RequestResponseHeader.Serialize, RequestResponseHeader.WriteHtonU32,
    RequestResponseHeader.WriteHtonU64.
  repeat split.
  - rewrite take_app_length' by (now rewrite L4).
    rewrite be_value_WriteHton. apply Z.mod_small. simpl; lia.
  - rewrite drop_app_length', take_app_length' by (now rewrite ?L4, ?L8).
    rewrite be_value_WriteHton. unfold u64.
    change (8 * Z.of_nat 8) with 64. now rewrite Z.mod_mod by lia.
  - rewrite app_assoc, drop_app_length', take_app_length'
      by (now rewrite ?length_app, ?L4, ?L8).
    rewrite be_value_WriteHton. apply Z.mod_small. simpl; lia.
  - rewrite !app_assoc, drop_app_length'
      by (now rewrite ?length_app, ?L4, ?L8).
    rewrite be_value_WriteHton. apply Z.mod_small. simpl; lia.
  - apply (Deserialize_Serialize h Hwf).
  - apply Deserialize_total.
Qed.

Lemma header_serialize_roundtrip_witness :
  RequestResponseHeader.wf (RequestResponseHeader.mk 7 (-5) 100 (2 ^ 63))
  /\ RequestResponseHeader.Deserialize
       (RequestResponseHeader.Serialize
          (RequestResponseHeader.mk 7 (-5) 100 (2 ^ 63)))
     = Some (RequestResponseHeader.mk 7 (-5) 100 (2 ^ 63), 24).
Proof.
  assert (W : RequestResponseHeader.wf
                (RequestResponseHeader.mk 7 (-5) 100 (2 ^ 63)))
    by (cbv; intuition congruence).
  split; [exact W|].
  apply (header_serialize_roundtrip _ W).
Defined.

(** ** The backend registry *)

Lemma FindBackendInfo_Some (bks : list BackendInfo) (a : InetSocketAddress) :
  In a (map address bks) ->
  exists i b, FindBackendInfo bks a = Some i /\ bks !! i = Some b
              /\ address b = a.
Proof.
  induction bks as [|x bks IH]; simpl; [tauto|].
  intros Hin. destruct (decide (address x = a)) as [E|NE].
  - exists O, x. auto.
  - destruct Hin as [E|Hin]; [contradiction|].
    destruct (IH Hin) as (i & b & Hf & Hl & Ha).
    exists (S i), b. rewrite Hf. auto.
Qed.

Lemma FindBackendInfo_first (bks : list BackendInfo) (a : InetSocketAddress)
    (i : nat) :
  FindBackendInfo bks a = Some i ->
  forall j b, (j < i)%nat -> bks !! j = Some b -> address b <> a.
Proof.
  revert i. induction bks as [|x bks IH]; simpl; [discriminate|].
  intros i. destruct (decide (address x = a)) as [E|NE].
  - intros [= <-] j b Hj. lia.
  - destruct (FindBackendInfo bks a) as [k|] eqn:Hk; simpl; [|discriminate].
    intros [= <-] [|j] b Hj; simpl.
    + now intros [= <-].
    + apply (IH k eq_refl). lia.
Qed.

Lemma map_address_alter (f : BackendInfo -> BackendInfo) (i : nat)
    (bks : list BackendInfo) :
  (forall b, address (f b) = address b) ->
  map address (alter f i bks) = map address bks.
Proof.
  intros Hf. revert i. induction bks as [|x bks IH]; intros [|i]; simpl;
    try reflexivity.
  - now rewrite Hf.
  - f_equal. apply IH.
Qed.

(** C10.  When the address is already registered, [AddBackend] rewrites
    the weight of its entry (the first one with that address) and nothing
    else: the entry keeps its place and its [activeRequests], the
    registry keeps its length and its addresses, and every other entry is
    the same. *)
Theorem AddBackend_existing_updates_weight_only
    (bks : list BackendInfo) (a : InetSocketAddress) (w : Z) :
  In a (map address bks) ->
  exists i b,
    FindBackendInfo bks a = Some i /\ bks !! i = Some b /\ address b = a
    /\ (forall j b', (j < i)%nat -> bks !! j = Some b' -> address b' <> a)
    /\ LoadBalancerApp.AddBackend a w bks !! i
       = Some (mkBackendInfo a w (activeRequests b))
    /\ (forall j, j <> i ->
          LoadBalancerApp.AddBackend a w bks !! j = bks !! j)
    /\ length (LoadBalancerApp.AddBackend a w bks) = length bks
    /\ map address (LoadBalancerApp.AddBackend a w bks) = map address bks.
Proof.
  intros Hin.
  destruct (FindBackendInfo_Some bks a Hin) as (i & b & Hf & Hl & Ha).
  exists i, b. unfold LoadBalancerApp.AddBackend. rewrite Hf.
  repeat split; auto.
  - eapply FindBackendInfo_first; eauto.
  - rewrite list_lookup_alter_eq, Hl. simpl. unfold set_weight. now rewrite Ha.
  - intros j Hj. apply list_lookup_alter_ne. congruence.
  - apply length_alter.
  - now apply map_address_alter.
Qed.

Lemma AddBackend_existing_updates_weight_only_witness :
  let bks := [mkBackendInfo (9, 80) 1 4; mkBackendInfo (10, 80) 2 3] in
  In (10, 80) (map address bks)
  /\ exists i b,
      FindBackendInfo bks (10, 80) = Some i /\ bks !! i = Some b
      /\ address b = (10, 80)
      /\ (forall j b', (j < i)%nat -> bks !! j = Some b' ->
            address b' <> (10, 80))
      /\ LoadBalancerApp.AddBackend (10, 80) 7 bks !! i
         = Some (mkBackendInfo (10, 80) 7 (activeRequests b))
      /\ (forall j, j <> i ->
            LoadBalancerApp.AddBackend (10, 80) 7 bks !! j = bks !! j)
      /\ length (LoadBalancerApp.AddBackend (10, 80) 7 bks) = length bks
      /\ map address (LoadBalancerApp.AddBackend (10, 80) 7 bks)
         = map address bks.
Proof.
  intros bks.
  assert (Hin : In (10, 80) (map address bks)) by (simpl; auto).
  split; [exact Hin|].
  exact (AddBackend_existing_updates_weight_only bks (10, 80) 7 Hin).
Defined.

(** ** Stream reassembly *)

(** The loop only splits the buffer: what it extracted, followed by what
    it left, is what it was given. *)
Lemma reassembly_loop_partitions (fuel : nat) (buf : list byte) :
  forall (acc : list (list byte)) rest msgs,
    Framing.reassembly_loop fuel (fun _ m st => Some (st ++ [m])) buf acc
    = Some (rest, msgs) ->
    concat msgs ++ rest = concat acc ++ buf.
Proof.
  revert buf. induction fuel as [|fuel IH]; intros buf acc rest msgs;
    simpl; [discriminate|].
  destruct (Z.of_nat (length buf) <? Framing.headerSize);
    [now intros [= <- <-]|].
  destruct (Framing.PeekHeader _) as [[h n]|]; [|now intros [= <- <-]].
  destruct (negb (n =? Framing.headerSize)); [now intros [= <- <-]|].
  destruct (_ <=? _); [|now intros [= <- <-]].
  intros Hloop. apply IH in Hloop. rewrite Hloop.
  rewrite concat_app. simpl. rewrite app_nil_r, <- app_assoc.
  now rewrite take_drop.
Qed.

(** A header that announces [2 ^ 32 - 24] payload bytes: the 32-bit sum
    [headerSize + expectedPayloadSize] is 0, the loop extracts an empty
    message, erases nothing, and goes round again. *)
Lemma reassembly_loop_step_zero (fuel : nat) {St : Type}
    (process : RequestResponseHeader.t -> list byte -> St -> option St)
    (buf : list byte) (st : St) (h : RequestResponseHeader.t) :
  (24 <= length buf)%nat ->
  Framing.PeekHeader (take 24 buf) = Some (h, 24) ->
  RequestResponseHeader.m_payloadSize h = 2 ^ 32 - 24 ->
  Framing.reassembly_loop (S fuel) process buf st
  = match process h [] st with
    | None => None
    | Some st' => Framing.reassembly_loop fuel process buf st'
    end.
Proof.
  intros Hlen Hpeek Hsize. cbn [Framing.reassembly_loop].
  change Framing.headerSize with 24.
  destruct (Z.ltb_spec (Z.of_nat (length buf)) 24); [lia|].
  change (Z.to_nat 24) with 24%nat. rewrite Hpeek. simpl negb. cbv iota.
  rewrite Hsize. change (u32 (24 + (2 ^ 32 - 24))) with 0.
  destruct (Z.leb_spec 0 (Z.of_nat (length buf))); [|lia].
  reflexivity.
Qed.

(** One round of the loop on a buffer that starts with a whole message. *)
Lemma reassembly_loop_step_frame (fuel : nat) {St : Type}
    (process : RequestResponseHeader.t -> list byte -> St -> option St)
    (m : RequestResponseHeader.t * list byte) (rest : list byte) (st : St) :
  Frames.well_framed m ->
  Framing.reassembly_loop (S fuel) process (Frames.frame m ++ rest) st
  = match process (fst m) (Frames.frame m) st with
    | None => None
    | Some st' => Framing.reassembly_loop fuel process rest st'
    end.
Proof.
  intros (Hwf & Hlen & Hfit). destruct m as [h payload]. cbn [fst snd] in *.
  pose proof Hwf as (_ & _ & (Hp0 & _) & _).
  unfold Frames.frame. cbn [fst snd Framing.reassembly_loop].
  change Framing.headerSize with 24. change (Z.to_nat 24) with 24%nat.
  assert (Hser : length (RequestResponseHeader.Serialize h) = 24%nat)
    by apply length_Serialize.
  rewrite !length_app, Hser.
  destruct (Z.ltb_spec (Z.of_nat (24 + length payload + length rest)) 24);
    [lia|].
  rewrite <- app_assoc, take_app_length' by (now rewrite Hser).
  unfold Framing.PeekHeader. rewrite Deserialize_Serialize by exact Hwf.
  cbn [negb Z.eqb Pos.eqb]. cbv iota.
  unfold MachineInt.u32; rewrite Z.mod_small by lia.
  destruct (Z.leb_spec (24 + RequestResponseHeader.m_payloadSize h)
              (Z.of_nat (24 + length payload + length rest))); [|lia].
  rewrite app_assoc.
  rewrite take_app_length', drop_app_length'
    by (rewrite length_app, Hser; lia).
  reflexivity.
Qed.

(** One round of the loop on the start of a message that is not whole:
    the loop stops and leaves the buffer as it is. *)
Lemma reassembly_loop_incomplete (fuel : nat) {St : Type}
    (process : RequestResponseHeader.t -> list byte -> St -> option St)
    (tail : list byte) (st : St) :
  Frames.incomplete tail ->
  Framing.reassembly_loop (S fuel) process tail st = Some (tail, st).
Proof.
  intros Hinc. cbn [Framing.reassembly_loop].
  change Framing.headerSize with 24. change (Z.to_nat 24) with 24%nat.
  destruct (Z.ltb_spec (Z.of_nat (length tail)) 24) as [|Hlong];
    [reflexivity|].
  destruct Hinc as [Hshort|(h & Hpeek & Hfit & Hpart)]; [lia|].
  rewrite Hpeek. cbn [negb Z.eqb Pos.eqb]. cbv iota.
  assert (Hp0 : 0 <= RequestResponseHeader.m_payloadSize h) by lia.
  unfold MachineInt.u32; rewrite Z.mod_small by lia.
  destruct (Z.leb_spec (24 + RequestResponseHeader.m_payloadSize h)
              (Z.of_nat (length tail))); [lia|reflexivity].
Qed.

(** Frame integrity: from a stream of whole messages, each of a total
    length below [2 ^ 32], followed by the start of a message that is not
    whole, the loop extracts exactly those messages, in order, and leaves
    the rest in the buffer. *)
Lemma extract_messages_frames
    (msgs : list (RequestResponseHeader.t * list byte)) (tail : list byte) :
  Forall Frames.well_framed msgs ->
  Frames.incomplete tail ->
  Framing.extract_messages (S (length msgs))
    (concat (map Frames.frame msgs) ++ tail)
  = Some (tail, map Frames.frame msgs).
Proof.
  intros Hall Hinc. unfold Framing.extract_messages.
  assert (Hgen : forall acc : list (list byte),
            Framing.reassembly_loop (S (length msgs))
              (fun _ m st => Some (st ++ [m]))
              (concat (map Frames.frame msgs) ++ tail) acc
            = Some (tail, acc ++ map Frames.frame msgs));
    [|apply (Hgen [])].
  induction Hall as [|m msgs Hm Hall IH]; intros acc.
  - cbn [map concat app length]. rewrite app_nil_r.
    now apply reassembly_loop_incomplete.
  - cbn [map concat length]. rewrite <- app_assoc.
    rewrite reassembly_loop_step_frame by exact Hm.
    rewrite IH, <- app_assoc. reflexivity.
Qed.

(** C5.  Twenty-four buffered bytes whose header announces a payload of
    [4294967295] bytes: the message is not complete, yet the loop hands a
    "message" of 23 bytes to processing and erases those 23 bytes, because
    the total size is computed in 32 bits.  With a payload size of
    [4294967272] the total is 0 and the loop never returns. *)
Theorem reassembly_total_size_wraps :
  let partial :=
    RequestResponseHeader.Serialize
      (RequestResponseHeader.mk 1 0 4294967295 7) in
  let stuck :=
    RequestResponseHeader.Serialize
      (RequestResponseHeader.mk 1 0 4294967272 7) in
  length partial = 24%nat
  /\ (RequestResponseHeader.m_payloadSize <$>
        (fst <$> Framing.PeekHeader partial)) = Some 4294967295
  /\ Framing.extract_messages 2 partial
     = Some (drop 23 partial, [take 23 partial])
  /\ forall fuel, Framing.extract_messages fuel stuck = None.
Proof.
  intros partial stuck.
  split; [vm_compute; reflexivity|].
  split; [vm_compute; reflexivity|].
  split; [vm_compute; reflexivity|].
  intros fuel. unfold Framing.extract_messages.
  assert (Hstuck : forall acc : list (list byte),
            Framing.reassembly_loop fuel (fun _ m st => Some (st ++ [m]))
                                    stuck acc = None); [|apply Hstuck].
  induction fuel as [|fuel IH]; intros acc; [reflexivity|].
  rewrite (reassembly_loop_step_zero fuel _ stuck acc
             (RequestResponseHeader.mk 1 0 4294967272 7));
    [apply IH | vm_compute; lia | vm_compute; reflexivity | reflexivity].
Qed.

(** ** Weighted round-robin *)

Section WrrFacts.
Import WeightedRoundRobin WrrInvariant.

Lemma u32_s32 (x : Z) : u32 (s32 x) = u32 x.
Proof.
  unfold u32, s32.
  destruct (Z.ltb_spec (x mod 2 ^ 32) (2 ^ 31)).
  - now rewrite Z.mod_mod by lia.
  - rewrite <- (Z.mod_add _ 1) by lia.
    replace (x mod 2 ^ 32 - 2 ^ 32 + 1 * 2 ^ 32) with (x mod 2 ^ 32) by lia.
    now rewrite Z.mod_mod by lia.
Qed.

Lemma u32_small (x : Z) : 0 <= x < 2 ^ 32 -> u32 x = x.
Proof. intros. unfold u32. now apply Z.mod_small. Qed.

Lemma u32_range (x : Z) : 0 <= u32 x < 2 ^ 32.
Proof. unfold u32. apply Z.mod_pos_bound. lia. Qed.

(** The marker after a wrap of the index stays below [m_maxWeight]. *)
Lemma marker_after_wrap (cw g mw : Z) :
  0 < mw < 2 ^ 32 -> 1 <= g <= mw -> u32 cw <= mw ->
  u32 (if s32 (u32 cw - g) <=? 0 then s32 mw else s32 (u32 cw - g)) <= mw.
Proof.
  intros Hmw Hg Hcw. pose proof (u32_range cw) as Hr.
  destruct (Z.leb_spec (s32 (u32 cw - g)) 0) as [Hle|Hgt].
  - rewrite u32_s32, u32_small; lia.
  - rewrite u32_s32. revert Hgt. unfold s32, u32 at 2 4.
    destruct (Z_lt_le_dec (u32 cw - g) 0) as [Hneg|Hpos].
    + replace ((u32 cw - g) mod 2 ^ 32) with (u32 cw - g + 2 ^ 32)
        by (apply Z.mod_unique with (-1); lia).
      destruct (Z.ltb_spec (u32 cw - g + 2 ^ 32) (2 ^ 31)); lia.
    + rewrite Z.mod_small by lia. lia.
Qed.

Lemma loop_body_unfold (st : state) :
  wrr_ready st ->
  let i := (m_currentIndex st + 1) mod Z.of_nat (length (m_backends st)) in
  let st' := mkState (m_backends st) i (marker_next st)
                     (m_maxWeight st) (m_gcdWeight st) in
  exists b, m_backends st !! Z.to_nat i = Some b
    /\ weight b <= m_maxWeight st
    /\ u32 (marker_next st) <= m_maxWeight st
    /\ wrr_ready st'
    /\ loop_body st
       = if (0 <? weight b) && (u32 (marker_next st) <=? weight b)
         then inl (Some (address b), st') else inr st'.
Proof.
  intros (Hi & Hmw & Hg & Hle & Hex & Hcw) i st'.
  set (n := Z.of_nat (length (m_backends st))) in *.
  assert (Hin : 0 <= i < n) by (apply Z.mod_pos_bound; lia).
  destruct (lookup_lt_is_Some_2 (m_backends st) (Z.to_nat i)) as [b Hb];
    [lia|].
  assert (Hbw : weight b <= m_maxWeight st)
    by (apply Hle; eapply list_elem_of_In, list_elem_of_lookup_2; eauto).
  assert (Hnext : u32 (marker_next st) <= m_maxWeight st).
  { unfold marker_next. fold n. fold i. destruct (i =? 0); [|exact Hcw].
    now apply marker_after_wrap. }
  exists b. split; [exact Hb|]. split; [exact Hbw|]. split; [exact Hnext|].
  split.
  { unfold wrr_ready, st'. cbn [m_backends m_currentIndex m_currentWeight
      m_maxWeight m_gcdWeight]. fold n. auto 10. }
  unfold loop_body, st', marker_next. fold n. fold i.
  cbn [m_backends m_currentIndex m_currentWeight m_maxWeight m_gcdWeight].
  destruct (Z.eqb_spec (m_maxWeight st) 0) as [?|_]; [lia|].
  destruct (i =? 0).
  - destruct (s32 (u32 (m_currentWeight st) - m_gcdWeight st) <=? 0);
      cbn [m_backends m_currentIndex m_currentWeight m_maxWeight];
      (destruct (Z.leb_spec n i); [lia|]); rewrite Hb; reflexivity.
  - cbn [m_backends m_currentIndex m_currentWeight m_maxWeight].
    (destruct (Z.leb_spec n i); [lia|]). rewrite Hb. reflexivity.
Qed.

(** One round of the loop from a ready state: it never returns [false],
    it keeps the state ready, and it stops at a backend of the largest
    weight. *)
Lemma loop_body_ready (st : state) :
  wrr_ready st ->
  let i := (m_currentIndex st + 1) mod Z.of_nat (length (m_backends st)) in
  match loop_body st with
  | inl (r, st') => exists b, m_backends st !! Z.to_nat i = Some b
                              /\ r = Some (address b)
                              /\ wrr_ready st'
                              /\ m_backends st' = m_backends st
  | inr st' => wrr_ready st' /\ m_currentIndex st' = i
               /\ m_backends st' = m_backends st
               /\ m_maxWeight st' = m_maxWeight st
               /\ (forall b, m_backends st !! Z.to_nat i = Some b ->
                     weight b <> m_maxWeight st)
  end.
Proof.
  intros Hready i.
  destruct (loop_body_unfold st Hready) as (b & Hb & Hbw & Hn & Hr & ->).
  fold i in Hb, Hr |- *. pose proof Hready as (_ & Hmw & _).
  destruct (Z.ltb_spec 0 (weight b)) as [Hpos|Hnpos]; cbn [andb].
  - destruct (Z.leb_spec (u32 (marker_next st)) (weight b)) as [Hle|Hgt].
    + exists b. auto.
    + refine (conj Hr (conj eq_refl (conj eq_refl (conj eq_refl _)))).
      intros b' Hb'. rewrite Hb in Hb'. injection Hb' as <-. lia.
  - refine (conj Hr (conj eq_refl (conj eq_refl (conj eq_refl _)))).
    intros b' Hb'. rewrite Hb in Hb'. injection Hb' as <-. lia.
Qed.

Lemma choose_loop_mono (fuel fuel' : nat) (st : state) r :
  choose_loop fuel st = Some r -> (fuel <= fuel')%nat ->
  choose_loop fuel' st = Some r.
Proof.
  revert fuel' st. induction fuel as [|fuel IH]; intros [|fuel'] st;
    simpl; try discriminate; try lia.
  destruct (loop_body st); [auto|]. intros Hr Hle. apply IH; [exact Hr|lia].
Qed.

Lemma choose_loop_S (fuel : nat) (st : state) :
  choose_loop (S fuel) st
  = match loop_body st with
    | inl r => Some r
    | inr st' => choose_loop fuel st'
    end.
Proof. reflexivity. Qed.

(** From a ready state the loop returns a backend once the index reaches
    a backend of the largest weight, [d] rounds ahead. *)
Lemma choose_loop_reaches (d : nat) :
  forall st j b,
    wrr_ready st ->
    m_backends st !! Z.to_nat j = Some b -> weight b = m_maxWeight st ->
    (m_currentIndex st + 1 + Z.of_nat d)
      mod Z.of_nat (length (m_backends st)) = j ->
    exists a st', choose_loop (S d) st = Some (Some a, st')
                  /\ wrr_ready st' /\ m_backends st' = m_backends st.
Proof.
  induction d as [|d IH]; intros st j b Hready Hb Hw Hj;
    pose proof (loop_body_ready st Hready) as Hbody; cbn zeta in Hbody;
    rewrite choose_loop_S; destruct (loop_body st) as [[r st']|st'].
  - destruct Hbody as (b' & _ & -> & Hr & Hbk). eauto.
  - destruct Hbody as (_ & _ & _ & _ & Hne).
    rewrite Z.add_0_r in Hj. rewrite Hj in Hne. now destruct (Hne b Hb).
  - destruct Hbody as (b' & _ & -> & Hr & Hbk). eauto.
  - destruct Hbody as (Hr & Hi & Hbk & Hmw & _).
    destruct (IH st' j b) as (a & st'' & Hloop & Hr' & Hbk');
      rewrite ?Hbk, ?Hmw; auto.
    + rewrite Hi, <- Hj.
      destruct Hready as (Hrange & _).
      rewrite <- Z.add_assoc, Zplus_mod_idemp_l. f_equal. lia.
    + exists a, st''. rewrite Hloop.
      split; [reflexivity|]. split; [exact Hr'|congruence].
Qed.

(** The loop of [ChooseBackend] returns a backend within one round of the
    registry. *)
Lemma choose_loop_returns (st : state) :
  wrr_ready st ->
  exists a st', choose_loop (length (m_backends st)) st = Some (Some a, st')
                /\ wrr_ready st' /\ m_backends st' = m_backends st.
Proof.
  intros Hready. pose proof Hready as (Hi & _ & _ & _ & (b & Hin & Hw) & _).
  apply list_elem_of_In, list_elem_of_lookup in Hin as [j Hj].
  pose proof (lookup_lt_Some _ _ _ Hj) as Hlt.
  set (n := Z.of_nat (length (m_backends st))) in *.
  set (d := (Z.of_nat j - m_currentIndex st - 1) mod n).
  assert (Hd : 0 <= d < n) by (apply Z.mod_pos_bound; lia).
  destruct (choose_loop_reaches (Z.to_nat d) st (Z.of_nat j) b)
    as (a & st' & Hloop & Hr & Hbk); auto.
  - now rewrite Nat2Z.id.
  - fold n. rewrite Z2Nat.id by lia. unfold d.
    rewrite Zplus_mod_idemp_r.
    replace (m_currentIndex st + 1 + (Z.of_nat j - m_currentIndex st - 1))
      with (Z.of_nat j) by lia.
    apply Z.mod_small. lia.
  - exists a, st'. split; [|auto].
    eapply choose_loop_mono; [exact Hloop|]. lia.
Qed.

(** [RecalculateWrrState] leaves a ready state when some backend has a
    positive weight. *)
Lemma scan_backend_fold (bks seen : list BackendInfo) (acc : scan) :
  (Z.of_nat (length (seen ++ bks)) < 2 ^ 32) ->
  (firstPositiveWeightFound acc = false ->
     maxW acc = 0 /\ positiveWeightCount acc = 0
     /\ forall b, In b seen -> weight b <= 0) ->
  (firstPositiveWeightFound acc = true ->
     0 < maxW acc /\ 1 <= calculatedGcd acc <= maxW acc
     /\ 1 <= positiveWeightCount acc <= Z.of_nat (length seen)
     /\ (forall b, In b seen -> weight b <= maxW acc)
     /\ exists b, In b seen /\ weight b = maxW acc) ->
  let r := fold_left scan_backend bks acc in
  (firstPositiveWeightFound r = false ->
     maxW r = 0 /\ positiveWeightCount r = 0
     /\ forall b, In b (seen ++ bks) -> weight b <= 0)
  /\ (firstPositiveWeightFound r = true ->
     0 < maxW r /\ 1 <= calculatedGcd r <= maxW r
     /\ 1 <= positiveWeightCount r
     /\ (forall b, In b (seen ++ bks) -> weight b <= maxW r)
     /\ exists b, In b (seen ++ bks) /\ weight b = maxW r).
Proof.
  revert seen acc. induction bks as [|x bks IH]; intros seen acc Hlen Hf Ht.
  - simpl. rewrite app_nil_r. split; [exact Hf|].
    intros E. destruct (Ht E) as (? & ? & ? & ? & ?). repeat split; auto; lia.
  - cbn [fold_left]. replace (seen ++ x :: bks) with ((seen ++ [x]) ++ bks)
      in * by (now rewrite <- app_assoc).
    apply IH; [exact Hlen| |]; unfold scan_backend;
      destruct (Z.ltb_spec 0 (weight x)) as [Hpos|Hnpos];
      cbn [firstPositiveWeightFound maxW calculatedGcd positiveWeightCount];
      try discriminate.
    + intros E. destruct (Hf E) as (? & ? & Hall). repeat split; auto.
      intros b [Hb|[<-|[]]]%in_app_or; auto.
    + intros _. rewrite !length_app in Hlen. cbn [length] in Hlen.
      destruct (firstPositiveWeightFound acc) eqn:E.
      * destruct (Ht eq_refl) as (Hm & Hg & Hc & Hall & (b & Hb & Hbw)).
        assert (Hgcd : 1 <= Z.gcd (calculatedGcd acc) (weight x)
                       <= calculatedGcd acc).
        { pose proof (Z.gcd_nonneg (calculatedGcd acc) (weight x)).
          pose proof (Z.gcd_divide_l (calculatedGcd acc) (weight x)) as Hd.
          apply Z.divide_pos_le in Hd; [|lia].
          destruct (Z.eq_dec (Z.gcd (calculatedGcd acc) (weight x)) 0) as [E0|];
            [apply Z.gcd_eq_0_l in E0; lia|lia]. }
        rewrite u32_small by lia. rewrite length_app. cbn [length].
        repeat split; try lia.
        -- intros b' [Hb'|[<-|[]]]%in_app_or; [specialize (Hall b' Hb')|]; lia.
        -- destruct (Z.max_spec (maxW acc) (weight x)) as [[? ->]|[? ->]].
           ++ exists x. split; [apply in_or_app; right; now left|reflexivity].
           ++ exists b. split; [apply in_or_app; now left|exact Hbw].
      * destruct (Hf eq_refl) as (Hm & Hc & Hall).
        rewrite Hm, Hc, Z.max_r by lia. rewrite length_app. cbn [length].
        change (u32 (0 + 1)) with 1.
        repeat split; try lia.
        -- intros b' [Hb'|[<-|[]]]%in_app_or; [specialize (Hall b' Hb')|]; lia.
        -- exists x. split; [apply in_or_app; right; now left|reflexivity].
    + intros E. destruct (Ht E) as (Hm & Hg & Hc & Hall & (b & Hb & Hbw)).
      rewrite length_app. cbn [length]. repeat split; try lia.
      * intros b' [Hb'|[<-|[]]]%in_app_or; [auto|lia].
      * exists b. split; [apply in_or_app; now left|exact Hbw].
Qed.

Lemma RecalculateWrrState_ready (bks : list BackendInfo) :
  Z.of_nat (length bks) < 2 ^ 32 ->
  (forall b, In b bks -> 0 <= weight b < 2 ^ 32) ->
  (exists b, In b bks /\ 0 < weight b) ->
  wrr_ready (RecalculateWrrState bks)
  /\ m_backends (RecalculateWrrState bks) = bks.
Proof.
  intros Hlen Hw (b0 & Hb0 & Hpos0).
  pose proof (scan_backend_fold bks [] (mkScan 0 0 false 0)) as Hscan.
  cbn zeta in Hscan. simpl app in Hscan.
  destruct Hscan as (Hf & Ht); [exact Hlen| |discriminate|].
  { intros _. repeat split; auto. intros b []. }
  unfold RecalculateWrrState.
  destruct bks as [|x bks']; [destruct Hb0|].
  set (bks := x :: bks') in *.
  destruct (firstPositiveWeightFound (fold_left scan_backend bks _)) eqn:E.
  2:{ destruct (Hf eq_refl) as (_ & _ & Hall). specialize (Hall b0 Hb0). lia. }
  destruct (Ht eq_refl) as (Hm & Hg & Hc & Hall & (b & Hb & Hbw)).
  set (r := fold_left scan_backend bks (mkScan 0 0 false 0)) in *.
  destruct (Z.eqb_spec (positiveWeightCount r) 0); [lia|].
  destruct (Z.eqb_spec (calculatedGcd r) 0); [lia|]. cbn [andb].
  destruct (Z.eqb_spec (calculatedGcd r) 0); [lia|].
  split; [|reflexivity].
  unfold wrr_ready. cbn [m_backends m_currentIndex m_currentWeight
    m_maxWeight m_gcdWeight].
  assert (length bks <> 0)%nat by (subst bks; simpl; lia).
  repeat split; auto; try lia.
  - specialize (Hw b Hb). lia.
  - eauto.
  - change (u32 0) with 0. lia.
Qed.

Lemma RecalculateWrrState_zero (bks : list BackendInfo) :
  Z.of_nat (length bks) < 2 ^ 32 ->
  (forall b, In b bks -> weight b = 0) ->
  RecalculateWrrState bks
  = match bks with
    | [] => mkState bks 0 0 0 0
    | _ => mkState bks (Z.of_nat (length bks) - 1) 0 0 0
    end.
Proof.
  intros Hlen Hzero.
  pose proof (scan_backend_fold bks [] (mkScan 0 0 false 0)) as Hscan.
  cbn zeta in Hscan. simpl app in Hscan.
  destruct Hscan as (Hf & Ht); [exact Hlen| |discriminate|].
  { intros _. repeat split; auto. intros b []. }
  destruct bks as [|x bks']; [reflexivity|].
  unfold RecalculateWrrState.
  set (r := fold_left scan_backend (x :: bks') (mkScan 0 0 false 0)) in *.
  assert (Hc : positiveWeightCount r = 0).
  { destruct (firstPositiveWeightFound r) eqn:E.
    - destruct (Ht eq_refl) as (Hm & _ & _ & Hall & (b & Hb & Hbw)).
      specialize (Hzero b Hb). lia.
    - now destruct (Hf eq_refl) as (_ & Hc & _). }
  rewrite Hc. reflexivity.
Qed.

(** [ChooseBackend] on a state left by [RecalculateWrrState]: it fails
    on the empty registry, returns the first backend when no weight is
    positive, and otherwise terminates with a backend within one round of
    the registry. *)
Lemma ChooseBackend_returns (bks : list BackendInfo) :
  Z.of_nat (length bks) < 2 ^ 32 ->
  (forall b, In b bks -> 0 <= weight b < 2 ^ 32) ->
  let st := RecalculateWrrState bks in
  (bks = [] -> ChooseBackend 0 st = Some (None, st))
  /\ (forall first rest, bks = first :: rest ->
        (forall b, In b bks -> weight b = 0) ->
        ChooseBackend 0 st = Some (Some (address first), st))
  /\ ((exists b, In b bks /\ 0 < weight b) ->
        exists a st', ChooseBackend (length bks) st = Some (Some a, st')).
Proof.
  intros Hlen Hw st. split; [|split].
  - intros ->. reflexivity.
  - intros first rest Ebks Hzero. unfold st.
    rewrite (RecalculateWrrState_zero bks Hlen Hzero). subst bks.
    reflexivity.
  - intros Hex.
    destruct (RecalculateWrrState_ready bks Hlen Hw Hex) as (Hready & Hbk).
    destruct (choose_loop_returns _ Hready) as (a & st' & Hloop & _).
    exists a, st'. rewrite Hbk in Hloop. fold st in Hloop, Hready, Hbk.
    unfold ChooseBackend. rewrite Hbk.
    destruct bks as [|x bks']; [now destruct Hex as (? & [] & _)|].
    destruct Hready as (_ & Hmw & _).
    destruct (Z.eqb_spec (m_maxWeight st) 0); [lia|].
    exact Hloop.
Qed.

(** While every weight fits the 32-bit signed marker, one round of the
    loop is one round of smooth weighted round-robin. *)
Lemma loop_body_smooth (st : state) :
  wrr_ready st -> m_maxWeight st < 2 ^ 31 ->
  0 <= m_currentWeight st <= m_maxWeight st ->
  match loop_body st with
  | inl (Some a, st') =>
    SmoothWrr.loop_body st = inl (a, st')
    /\ 0 <= m_currentWeight st' <= m_maxWeight st'
  | inl (None, _) => False
  | inr st' =>
    SmoothWrr.loop_body st = inr st'
    /\ 0 <= m_currentWeight st' <= m_maxWeight st'
  end.
Proof.
  intros (Hi & Hmw & Hg & Hle & Hex & _) Hsmall Hcw.
  set (n := Z.of_nat (length (m_backends st))) in *.
  set (i := (m_currentIndex st + 1) mod n).
  assert (Hin : 0 <= i < n) by (apply Z.mod_pos_bound; lia).
  destruct (lookup_lt_is_Some_2 (m_backends st) (Z.to_nat i)) as [b Hb];
    [lia|].
  unfold loop_body, SmoothWrr.loop_body. fold n. fold i.
  cbn [m_backends m_currentIndex m_currentWeight m_maxWeight m_gcdWeight].
  rewrite Hb.
  assert (Es : s32 (u32 (m_currentWeight st) - m_gcdWeight st)
               = m_currentWeight st - m_gcdWeight st).
  { rewrite u32_small by lia. unfold s32.
    destruct (Z_lt_le_dec (m_currentWeight st - m_gcdWeight st) 0).
    - replace ((m_currentWeight st - m_gcdWeight st) mod 2 ^ 32)
        with (m_currentWeight st - m_gcdWeight st + 2 ^ 32)
        by (apply Z.mod_unique with (-1); lia).
      destruct (Z.ltb_spec (m_currentWeight st - m_gcdWeight st + 2 ^ 32)
                           (2 ^ 31)); lia.
    - rewrite Z.mod_small by lia.
      destruct (Z.ltb_spec (m_currentWeight st - m_gcdWeight st) (2 ^ 31));
        lia. }
  assert (Em : s32 (m_maxWeight st) = m_maxWeight st).
  { unfold s32. rewrite Z.mod_small by lia.
    destruct (Z.ltb_spec (m_maxWeight st) (2 ^ 31)); lia. }
  rewrite Es, Em.
  destruct (Z.eqb_spec (m_maxWeight st) 0); [lia|].
  destruct (i =? 0).
  - destruct (Z.leb_spec (m_currentWeight st - m_gcdWeight st) 0);
      cbn [m_backends m_currentIndex m_currentWeight m_maxWeight];
      (destruct (Z.leb_spec n i); [lia|]); rewrite Hb, u32_small by lia;
      destruct ((0 <? weight b) && (_ <=? weight b)); cbn; split;
      auto; lia.
  - cbn [m_backends m_currentIndex m_currentWeight m_maxWeight].
    (destruct (Z.leb_spec n i); [lia|]). rewrite Hb, u32_small by lia.
    destruct ((0 <? weight b) && (_ <=? weight b)); cbn; split; auto; lia.
Qed.

Lemma choose_loop_smooth (fuel : nat) :
  forall st, wrr_ready st -> m_maxWeight st < 2 ^ 31 ->
    0 <= m_currentWeight st <= m_maxWeight st ->
    choose_loop fuel st
    = '(a, st') ← SmoothWrr.choose_loop fuel st; Some (Some a, st').
Proof.
  induction fuel as [|fuel IH]; intros st Hready Hsmall Hcw; [reflexivity|].
  pose proof (loop_body_smooth st Hready Hsmall Hcw) as Hs.
  pose proof (loop_body_ready st Hready) as Hr. cbn zeta in Hr.
  cbn [choose_loop SmoothWrr.choose_loop].
  destruct (loop_body st) as [[[a|] st']|st'].
  - destruct Hs as (-> & _). reflexivity.
  - destruct Hs.
  - destruct Hs as (-> & Hcw'). destruct Hr as (Hr' & _ & _ & Hmw & _).
    apply IH; auto. lia.
Qed.

(** With every weight below [2 ^ 31], [ChooseBackend] is the smooth
    weighted round-robin of the specification. *)
Lemma ChooseBackend_smooth (fuel : nat) (st : state) :
  wrr_ready st -> m_maxWeight st < 2 ^ 31 ->
  0 <= m_currentWeight st <= m_maxWeight st ->
  ChooseBackend fuel st = SmoothWrr.choose fuel st.
Proof.
  intros Hready Hsmall Hcw. unfold ChooseBackend, SmoothWrr.choose.
  destruct (m_backends st); [reflexivity|].
  destruct (m_maxWeight st =? 0); [reflexivity|].
  now apply choose_loop_smooth.
Qed.

End WrrFacts.

(** C7.  Two backends of weights 3221225472 and 1073741824 (ratio 3 : 1,
    greatest common divisor 1073741824).  Smooth weighted round-robin
    serves them in the order first, first, first, second.  In
    [ChooseBackend] the marker is an [int32_t]: [3221225472 - 1073741824]
    is read back as [-2147483648], the marker is reset to the largest
    weight at every wrap, and the second backend is never chosen. *)
Theorem wrr_signed_marker_starves_backend :
  let a : InetSocketAddress := (167772161, 9) in
  let b : InetSocketAddress := (167772162, 9) in
  let st := WeightedRoundRobin.SetBackends
              [(a, 3221225472); (b, 1073741824)] WeightedRoundRobin.init in
  SmoothWrr.choose_many 2 4 st
    = [Some (Some a); Some (Some a); Some (Some a); Some (Some b)]
  /\ forall k,
       WeightedRoundRobin.choose_many 2 k st = repeat (Some (Some a)) k.
Proof.
  intros a b st. split; [vm_compute; reflexivity|].
  assert (H0 : exists st1,
             WeightedRoundRobin.ChooseBackend 2 st = Some (Some a, st1)
             /\ WeightedRoundRobin.ChooseBackend 2 st1 = Some (Some a, st1)).
  { exists (WeightedRoundRobin.mkState
              [mkBackendInfo a 3221225472 0; mkBackendInfo b 1073741824 0]
              0 (-1073741824) 3221225472 1073741824).
    split; vm_compute; reflexivity. }
  destruct H0 as (st1 & E0 & E1).
  assert (Hfix : forall k,
             WeightedRoundRobin.choose_many 2 k st1
             = repeat (Some (Some a)) k).
  { induction k as [|k IH]; [reflexivity|].
    cbn [WeightedRoundRobin.choose_many repeat]. rewrite E1. now rewrite IH. }
  intros [|k]; [reflexivity|].
  cbn [WeightedRoundRobin.choose_many repeat]. rewrite E0. now rewrite Hfix.
Qed.

(** ** Maglev *)

Section MaglevFacts.
Import Maglev.

(** The eligible positions, numbered from [off], pick the backends of
    positive weight in registry order. *)
Lemma eligible_positions (bks : list BackendInfo) :
  forall (off i k : nat),
    map fst (filter (fun ib : nat * BackendInfo => 0 < weight (snd ib))
                    (imap (fun j b => (off + j, b)%nat) bks)) !! i = Some k ->
    exists k', k = (off + k')%nat
      /\ bks !! k' = filter (fun b => 0 < weight b) bks !! i
      /\ is_Some (bks !! k').
Proof.
  induction bks as [|x bks IH]; intros off i k; [discriminate|].
  rewrite imap_cons, !filter_cons. cbn [snd].
  assert (Hshift : forall l : list BackendInfo,
             imap ((fun j b => (off + j, b)%nat) ∘ S) l
             = imap (fun j b => (S off + j, b)%nat) l).
  { intros l. apply imap_ext. intros j b _. cbn. f_equal. lia. }
  rewrite Hshift. destruct (decide (0 < weight x)) as [Hpos|Hnpos].
  - destruct i as [|i]; cbn [map fst lookup list_lookup].
    + intros [= <-]. exists O. rewrite Nat.add_0_r. cbn. eauto.
    + intros Hk. apply IH in Hk as (k' & -> & Hl & Hs).
      exists (S k'). split; [lia|]. cbn. auto.
  - intros Hk. apply IH in Hk as (k' & -> & Hl & Hs).
    exists (S k'). split; [lia|]. cbn. auto.
Qed.

Lemma length_eligible (bks : list BackendInfo) :
  forall off : nat,
    length (map fst (filter (fun ib : nat * BackendInfo => 0 < weight (snd ib))
                            (imap (fun j b => (off + j, b)%nat) bks)))
    = length (filter (fun b => 0 < weight b) bks).
Proof.
  induction bks as [|x bks IH]; intros off; [reflexivity|].
  rewrite imap_cons, !filter_cons. cbn [snd].
  assert (Hshift : imap ((fun j b => (off + j, b)%nat) ∘ S) bks
                   = imap (fun j b => (S off + j, b)%nat) bks).
  { apply imap_ext. intros j b _. cbn. f_equal. lia. }
  rewrite Hshift. destruct (decide (0 < weight x)).
  - cbn [map length]. f_equal. apply IH.
  - apply IH.
Qed.

Lemma fallback_unfold (context : Z) (st : state) :
  fallback context st
  = let eligible := eligibleFallbackIndices (m_backends st) in
    match eligible with
    | [] => None
    | _ =>
      i ← eligible !! Z.to_nat (u32 (context mod Z.of_nat (length eligible)));
      address <$> (m_backends st !! i)
    end.
Proof. unfold fallback. destruct (m_backends st); reflexivity. Qed.

(** The fallback of [ChooseBackend]: the backend of positive weight at
    position [context mod k] among the [k] backends of positive weight,
    and no backend exactly when there is none. *)
Lemma fallback_picks_positive (context : Z) (st : state) :
  0 <= context < 2 ^ 32 ->
  let eligible := filter (fun b => 0 < weight b) (m_backends st) in
  fallback context st
  = address <$> eligible !! Z.to_nat (context mod Z.of_nat (length eligible)).
Proof.
  intros Hctx eligible. rewrite fallback_unfold. cbv zeta.
  unfold eligibleFallbackIndices.
  pose proof (length_eligible (m_backends st) 0) as Hlen.
  pose proof (eligible_positions (m_backends st) 0) as Hpos.
  assert (Himap : imap (fun j b => (0 + j, b)%nat) (m_backends st)
                  = imap pair (m_backends st)) by (now apply imap_ext).
  rewrite Himap in Hlen, Hpos. fold eligible in Hlen.
  remember (map fst (filter (fun ib : nat * BackendInfo => 0 < weight ib.2)
                            (imap pair (m_backends st)))) as idx eqn:Eidx.
  destruct idx as [|k0 idx'].
  { destruct eligible; [reflexivity|discriminate]. }
  cbv iota.
  assert (Hne : 0 < Z.of_nat (length eligible))
    by (rewrite <- Hlen; cbn [length]; lia).
  rewrite Hlen.
  pose proof (Z.mod_pos_bound context (Z.of_nat (length eligible)) Hne).
  assert (Hsmall : context mod Z.of_nat (length eligible) <= context)
    by (apply Z.mod_le; lia).
  rewrite u32_small by lia.
  set (j := Z.to_nat (context mod Z.of_nat (length eligible))).
  destruct (lookup_lt_is_Some_2 (k0 :: idx') j) as [k Hk];
    [rewrite Hlen; subst j; lia|].
  rewrite Hk. cbn [mbind option_bind].
  destruct (Hpos j k Hk) as (k' & -> & Hl & _). cbn [Nat.add].
  now rewrite Hl.
Qed.

Lemma fallback_none_iff (context : Z) (st : state) :
  0 <= context < 2 ^ 32 ->
  fallback context st = None
  <-> forall b, In b (m_backends st) -> ~ 0 < weight b.
Proof.
  intros Hctx. rewrite fallback_picks_positive by exact Hctx.
  set (eligible := filter (fun b => 0 < weight b) (m_backends st)).
  split.
  - intros Hnone b Hb Hpos.
    assert (Hin : b ∈ eligible)
      by (apply list_elem_of_filter; split; [exact Hpos|now apply list_elem_of_In]).
    assert (Hne : 0 < Z.of_nat (length eligible))
      by (destruct eligible; [inversion Hin|cbn; lia]).
    pose proof (Z.mod_pos_bound context _ Hne).
    destruct (lookup_lt_is_Some_2 eligible
                (Z.to_nat (context mod Z.of_nat (length eligible))))
      as [b' Hb']; [lia|].
    rewrite Hb' in Hnone. discriminate.
  - intros Hall. destruct eligible as [|b l] eqn:E; [reflexivity|].
    assert (Hin : b ∈ eligible) by (rewrite E; left).
    apply list_elem_of_filter in Hin as (Hpos & Hin).
    apply list_elem_of_In in Hin. now destruct (Hall b Hin).
Qed.

End MaglevFacts.

(** C8.  With [m_tableSize] 1 (the smallest value the attribute checker
    admits) and a backend of positive weight, [BuildTable] evaluates
    [m_hasher (keySkip) % (m_tableSize - 1)] with divisor 0, whatever the
    hash function. *)
Theorem maglev_table_size_one_divides_by_zero
    (m_hasher : string -> Z) (addr_str : InetSocketAddress -> string)
    (fuel : nat) :
  let st := Maglev.mkState [mkBackendInfo (167772161, 9) 1 0] 1 [] false in
  Maglev.BuildTable m_hasher addr_str fuel st = Maglev.DivisionByZero.
Proof.
  intros st. unfold Maglev.BuildTable, st.
  cbn [Maglev.m_backends Maglev.m_tableSize Maglev.prepare weight address].
  change (1 =? 0) with false. cbv iota.
  unfold umod. change (u64 (1 - 1) =? 0) with true.
  change (1 =? 0) with false. reflexivity.
Qed.

(** The same for every registry with a backend of positive weight. *)
Lemma BuildTable_table_size_one
    (m_hasher : string -> Z) (addr_str : InetSocketAddress -> string)
    (fuel : nat) (st : Maglev.state) :
  Maglev.m_tableSize st = 1 ->
  (exists b, In b (Maglev.m_backends st) /\ weight b <> 0) ->
  Maglev.BuildTable m_hasher addr_str fuel st = Maglev.DivisionByZero.
Proof.
  intros HT (b & Hb & Hw). unfold Maglev.BuildTable. rewrite HT.
  destruct (Maglev.m_backends st) as [|x bks] eqn:E; [destruct Hb|].
  rewrite <- E in *. clear E x bks. change (1 =? 0) with false. cbv iota.
  assert (Hprep : Maglev.prepare m_hasher addr_str 1 (Maglev.m_backends st)
                  = Maglev.DivisionByZero).
  { induction (Maglev.m_backends st) as [|x bks IH]; [destruct Hb|].
    cbn [Maglev.prepare]. destruct (Z.eqb_spec (weight x) 0) as [Hz|Hnz].
    - destruct Hb as [->|Hb]; [contradiction|]. now apply IH.
    - unfold umod. change (u64 (1 - 1) =? 0) with true.
      change (1 =? 0) with false. reflexivity. }
  now rewrite Hprep.
Qed.

Section MaglevSafetyBreak.
Import Maglev MaglevPasses.




End MaglevSafetyBreak.


Section MaglevWrappedLimit.
Import Maglev MaglevPasses.



End MaglevWrappedLimit.


(** ** Peak-EWMA *)

Section PeakEwmaFacts.
Import PeakEwma.

(** After [SetBackends] every metric in the map is a newly constructed
    one, and every address of the new list has one. *)
Lemma emplace_fold_fresh (fresh : EwmaMetric) (bks : list BackendInfo) :
  forall acc : gmap InetSocketAddress EwmaMetric,
    (forall a m, acc !! a = Some m -> m = fresh) ->
    let r := fold_left (fun acc b => emplace (address b) fresh acc) bks acc in
    (forall a m, r !! a = Some m -> m = fresh)
    /\ (forall a, (In a (map address bks) \/ is_Some (acc !! a))
                  -> r !! a = Some fresh).
Proof.
  induction bks as [|x bks IH]; intros acc Hacc; cbn [fold_left map].
  - split; [exact Hacc|]. intros a [[]|[m Hm]]. rewrite Hm.
    f_equal. now apply Hacc with a.
  - assert (Hacc' : forall a m,
              emplace (address x) fresh acc !! a = Some m -> m = fresh).
    { intros a m. unfold emplace.
      destruct (acc !! address x) eqn:E; [apply Hacc|].
      destruct (decide (address x = a)) as [<-|Hne].
      - rewrite lookup_insert_eq. congruence.
      - rewrite lookup_insert_ne by exact Hne. apply Hacc. }
    destruct (IH _ Hacc') as (Hall & Hin). split; [exact Hall|].
    intros a Ha. apply Hin. unfold emplace.
    destruct Ha as [[<-|Ha]|Ha]; [right|now left|right].
    + destruct (acc !! address x) eqn:E; [rewrite E; eauto|].
      rewrite lookup_insert_eq. eauto.
    + destruct (acc !! address x) eqn:E; [exact Ha|].
      destruct (decide (address x = a)) as [<-|Hne].
      * rewrite lookup_insert_eq. eauto.
      * now rewrite lookup_insert_ne by exact Hne.
Qed.

Lemma SetBackends_metrics_fresh (nowNs : Z)
    (backends : list (InetSocketAddress * Z)) (st : state) :
  let st' := SetBackends nowNs backends st in
  let fresh := newEwmaMetric nowNs (m_decayTime st) in
  (forall a m, m_backendMetrics st' !! a = Some m -> m = fresh)
  /\ (forall a, In a (map fst backends) ->
        m_backendMetrics st' !! a = Some fresh).
Proof.
  intros st' fresh. unfold st', SetBackends. cbn [m_backendMetrics].
  destruct (emplace_fold_fresh fresh (LoadBalancerApp.SetBackends backends) ∅)
    as (Hall & Hin).
  { intros a m. rewrite lookup_empty. discriminate. }
  split; [exact Hall|]. intros a Ha. apply Hin. left.
  unfold LoadBalancerApp.SetBackends. rewrite map_map. exact Ha.
Qed.

End PeakEwmaFacts.

(** C2.  A backend whose metric has three pending requests and a cost of
    5 ms is listed again in [SetBackends]: [m_backendMetrics.clear ()]
    has dropped the metric and the address gets a newly constructed one
    (pending 0, cost 0, stamped now). *)
Theorem peak_ewma_set_backends_discards_metric :
  let a : InetSocketAddress := (167772161, 9) in
  let old := PeakEwma.mkMetric 100 3 5000000 10000000000
                               10000000000 1000000000 in
  let st := PeakEwma.mkState [mkBackendInfo a 1 0] 10000000000
                             {[ a := old ]} in
  PeakEwma.m_backendMetrics st !! a = Some old
  /\ PeakEwma.m_backendMetrics (PeakEwma.SetBackends 200 [(a, 1)] st) !! a
     = Some (PeakEwma.newEwmaMetric 200 10000000000)
  /\ PeakEwma.m_pending (PeakEwma.newEwmaMetric 200 10000000000) = 0
  /\ PeakEwma.m_pending old = 3
  /\ PeakEwma.newEwmaMetric 200 10000000000 <> old.
Proof.
  intros a old st.
  split; [apply lookup_singleton_eq|].
  split.
  { destruct (SetBackends_metrics_fresh 200 [(a, 1)] st) as (_ & Hin).
    apply Hin. now left. }
  split; [reflexivity|]. split; [reflexivity|].
  intros E. apply (f_equal PeakEwma.m_pending) in E. discriminate.
Qed.

(** ** The Peak-EWMA metric against its specification *)

Section EwmaFacts.
Import PeakEwma.
Local Open Scope R_scope.

Lemma epsilon_pos : 0 < epsilon.
Proof. unfold epsilon. lra. Qed.

(** [Observe] is the specification's update with the machine epsilon for
    the threshold of the peak reset. *)
Lemma Observe_spec (nowNs rttNs : Z) (m : EwmaMetric) :
  Observe nowNs rttNs m = EwmaSpec.observe epsilon nowNs rttNs m.
Proof. reflexivity. Qed.

Lemma exp_no_elapsed (d : R) : exp (- IZR 0 / d) = 1.
Proof.
  replace (- IZR 0 / d) with 0; [apply exp_0|].
  unfold Rdiv. rewrite Ropp_0. ring.
Qed.

(** [GetLoad] is the specification's load query when the clock has not
    gone back and the pending counter is not at its largest value. *)
Lemma GetLoad_spec (nowNs : Z) (m : EwmaMetric) :
  (m_stampNs m <= nowNs)%Z ->
  (0 <= m_pending m < 2 ^ 32 - 1)%Z ->
  GetLoad nowNs m = EwmaSpec.load epsilon nowNs m.
Proof.
  intros Hclock Hpending. unfold GetLoad, EwmaSpec.load.
  assert (Hp : IZR (u32 (m_pending m + 1)) = IZR (m_pending m) + 1).
  { unfold u32. rewrite Z.mod_small by lia. now rewrite plus_IZR. }
  destruct (Z.ltb_spec 0 (Z.max 0 (nowNs - m_stampNs m))) as [Hgt|Hle].
  - cbn [m_pending m_costNs m_penaltyNs]. rewrite Hp. reflexivity.
  - assert (Hnow : nowNs = m_stampNs m) by lia.
    replace (Z.max 0 (nowNs - m_stampNs m)) with 0%Z by lia.
    rewrite exp_no_elapsed, Rmult_1_r, Hp, Hnow.
    destruct m; reflexivity.
Qed.

Lemma GetLoad_nonneg (nowNs : Z) (m : EwmaMetric) : 0 <= fst (GetLoad nowNs m).
Proof. unfold GetLoad. cbn [fst]. apply Rmax_l. Qed.

End EwmaFacts.

(** C3, as worded: a metric whose cost is positive but at most the machine
    epsilon, observed with a larger round-trip time at the moment of its
    last update.  The specification's rule (reset when [rtt > cost] and
    [cost > 0]) leaves cost 0; [Observe] tests [cost > epsilon], does not
    reset, and leaves the cost as it was. *)
Lemma observe_resets_above_epsilon_only :
  let m := PeakEwma.mkMetric 100 0 (/ 9007199254740992) 1 1 1000000000 in
  PeakEwma.m_costNs (EwmaSpec.observe 0 100 1 m) = 0%R
  /\ PeakEwma.m_costNs (PeakEwma.Observe 100 1 m) = (/ 9007199254740992)%R
  /\ PeakEwma.m_costNs (PeakEwma.Observe 100 1 m)
     <> PeakEwma.m_costNs (EwmaSpec.observe 0 100 1 m).
Proof.
  intros m.
  assert (Hw : exp (- IZR (Z.max 0 (100 - 100)) / 1) = 1%R)
    by (change (Z.max 0 (100 - 100)) with 0%Z; apply exp_no_elapsed).
  assert (A : PeakEwma.m_costNs (EwmaSpec.observe 0 100 1 m) = 0%R).
  { unfold EwmaSpec.observe, m.
    cbn [PeakEwma.m_costNs PeakEwma.m_stampNs PeakEwma.m_decayTimeNsDouble].
    rewrite Hw.
    destruct (Rlt_dec (/ 9007199254740992) 1) as [_|N]; [|exfalso; lra].
    destruct (Rlt_dec 0 (/ 9007199254740992)) as [_|N]; [|exfalso; lra].
    ring. }
  assert (B : PeakEwma.m_costNs (PeakEwma.Observe 100 1 m)
              = (/ 9007199254740992)%R).
  { unfold PeakEwma.Observe, PeakEwma.epsilon, m.
    cbn [PeakEwma.m_costNs PeakEwma.m_stampNs PeakEwma.m_decayTimeNsDouble].
    rewrite Hw.
    destruct (Rlt_dec (/ 9007199254740992) 1) as [_|N]; [|exfalso; lra].
    destruct (Rlt_dec (/ 4503599627370496) (/ 9007199254740992)) as [Y|_];
      [exfalso; lra|].
    ring. }
  split; [exact A|]. split; [exact B|]. rewrite A, B. lra.
Qed.

(** C3, amended.  [Observe] computes [dt = max (0, now - last_update)],
    sets [last_update = now], resets the cost to 0 when [rtt > cost] and
    [cost > epsilon] (the machine epsilon, [2 ^ -52]), then sets
    [cost = cost * exp (-dt / decay) + rtt * (1 - exp (-dt / decay))];
    and, for a clock that has not gone back and a pending counter below
    [2 ^ 32 - 1], [GetLoad] decays the cost by [exp (-dt / decay)], sets
    [last_update = now], and returns [penalty + pending] when
    [cost <= epsilon] and [pending > 0], otherwise
    [cost * (pending + 1)], clamped at 0. *)
Theorem ewma_observe_and_load (nowNs rttNs : Z) (m : PeakEwma.EwmaMetric) :
  (PeakEwma.m_stampNs m <= nowNs)%Z ->
  (0 <= PeakEwma.m_pending m < 2 ^ 32 - 1)%Z ->
  PeakEwma.Observe nowNs rttNs m
    = EwmaSpec.observe PeakEwma.epsilon nowNs rttNs m
  /\ PeakEwma.GetLoad nowNs m = EwmaSpec.load PeakEwma.epsilon nowNs m
  /\ (0 <= fst (PeakEwma.GetLoad nowNs m))%R.
Proof.
  intros Hclock Hpending. split; [apply Observe_spec|].
  split; [now apply GetLoad_spec|apply GetLoad_nonneg].
Qed.

Lemma ewma_observe_and_load_witness :
  let m := PeakEwma.mkMetric 100 2 5000000 10000000000
                             10000000000 1000000000 in
  PeakEwma.Observe 200 7000000 m
    = EwmaSpec.observe PeakEwma.epsilon 200 7000000 m
  /\ PeakEwma.GetLoad 200 m = EwmaSpec.load PeakEwma.epsilon 200 m
  /\ (0 <= fst (PeakEwma.GetLoad 200 m))%R.
Proof.
  intros m.
  apply (ewma_observe_and_load 200 7000000 m); cbn; lia.
Defined.

(** ** In-flight bookkeeping of the selectors *)

Section NotifyFacts.
Import Notifications.

Lemma FindBackendInfo_lookup (bks : list BackendInfo) (a : InetSocketAddress)
    (i : nat) :
  FindBackendInfo bks a = Some i ->
  exists b, bks !! i = Some b /\ address b = a.
Proof.
  revert i. induction bks as [|x bks IH]; intros i; cbn [FindBackendInfo];
    [discriminate|].
  destruct (decide (address x = a)) as [E|NE].
  - intros [= <-]. exists x. auto.
  - destruct (FindBackendInfo bks a) as [k|]; [|discriminate].
    intros [= <-]. destruct (IH k eq_refl) as (b & Hb & Ha). eauto.
Qed.

Lemma FindBackendInfo_None (bks : list BackendInfo) (a : InetSocketAddress) :
  FindBackendInfo bks a = None -> ~ In a (map address bks).
Proof.
  intros Hnone Hin.
  destruct (FindBackendInfo_Some bks a Hin) as (i & _ & Hf & _). congruence.
Qed.

Lemma FindBackendInfo_alter (f : BackendInfo -> BackendInfo) (i : nat)
    (bks : list BackendInfo) (a : InetSocketAddress) :
  (forall b, address (f b) = address b) ->
  FindBackendInfo (alter f i bks) a = FindBackendInfo bks a.
Proof.
  intros Hf. revert i. induction bks as [|x bks IH]; intros [|i];
    cbn [FindBackendInfo alter list_alter]; try reflexivity.
  - now rewrite Hf.
  - change (list_alter f i bks) with (alter f i bks). now rewrite IH.
Qed.

Lemma total_active_cons (x : BackendInfo) (bks : list BackendInfo) :
  total_active (x :: bks) = activeRequests x + total_active bks.
Proof. reflexivity. Qed.

Lemma total_active_alter (f : BackendInfo -> BackendInfo)
    (bks : list BackendInfo) :
  forall i b, bks !! i = Some b ->
    total_active (alter f i bks)
    = total_active bks - activeRequests b + activeRequests (f b).
Proof.
  induction bks as [|x bks IH]; intros [|i] b Hb; try discriminate.
  - injection Hb as ->.
    change (alter f 0%nat (b :: bks)) with (f b :: bks).
    rewrite !total_active_cons. lia.
  - change (alter f (S i) (x :: bks)) with (x :: alter f i bks).
    rewrite !total_active_cons, (IH i b Hb). lia.
Qed.

Lemma deliver_all_cons {S : Type} (sent finished : InetSocketAddress -> S -> S)
    (n : notification) (tr : list notification) (st : S) :
  deliver_all sent finished (n :: tr) st
  = deliver_all sent finished tr (deliver sent finished n st).
Proof. reflexivity. Qed.

(** What one notification does to the least-request registry when the
    entry's counter can follow it. *)
Lemma lr_deliver_step (n : notification) (st : LeastRequest.state) :
  In (target n) (map address (LeastRequest.m_backends st)) ->
  0 <= active_of (LeastRequest.m_backends st) (target n)
       + change n (target n) < 2 ^ 32 ->
  0 <= active_of (LeastRequest.m_backends st) (target n) ->
  let st' := deliver LeastRequest.NotifyRequestSent
                     LeastRequest.NotifyRequestFinished n st in
  total_active (LeastRequest.m_backends st')
    = total_active (LeastRequest.m_backends st)
      + match n with Sent _ => 1 | Finished _ => -1 end
  /\ map address (LeastRequest.m_backends st')
     = map address (LeastRequest.m_backends st)
  /\ forall a, active_of (LeastRequest.m_backends st') a
               = active_of (LeastRequest.m_backends st) a + change n a.
Proof.
  intros Hin Hrange Hnonneg st'.
  destruct (FindBackendInfo_Some _ _ Hin) as (i & b & Hf & Hb & Ha).
  assert (Hact : active_of (LeastRequest.m_backends st) (target n)
                 = activeRequests b)
    by (unfold active_of; now rewrite Hf, Hb).
  rewrite Hact in Hrange, Hnonneg.
  set (f := match n with
            | Sent _ => LeastRequest.increment
            | Finished _ => LeastRequest.decrement
            end).
  assert (Hst' : LeastRequest.m_backends st'
                 = alter f i (LeastRequest.m_backends st)).
  { unfold st', deliver, f. destruct n as [a|a]; cbn [target] in Hf;
      unfold LeastRequest.NotifyRequestSent, LeastRequest.NotifyRequestFinished;
      now rewrite Hf. }
  assert (Hfa : forall x, address (f x) = address x).
  { intros x. unfold f, LeastRequest.increment, LeastRequest.decrement.
    destruct n; [reflexivity|]. now destruct (0 <? activeRequests x). }
  assert (Hfb : activeRequests (f b)
                = activeRequests b + change n (target n)).
  { unfold f, change, LeastRequest.increment, LeastRequest.decrement.
    destruct n as [a|a]; cbn [target set_activeRequests activeRequests] in *;
      (destruct (decide (a = a)); [|congruence]);
      unfold change in Hrange;
      cbn [target] in Hrange; (destruct (decide (a = a)); [|congruence]).
    - apply u32_small. lia.
    - destruct (Z.ltb_spec 0 (activeRequests b)); cbn; lia. }
  rewrite Hst'. split; [|split].
  - rewrite (total_active_alter f _ i b Hb), Hfb.
    unfold change. destruct n as [a|a]; cbn [target];
      (destruct (decide (a = a)); [lia|congruence]).
  - now apply map_address_alter.
  - intros a. unfold active_of. rewrite FindBackendInfo_alter by exact Hfa.
    destruct (decide (target n = a)) as [<-|Hne].
    + rewrite Hf, list_lookup_alter_eq, Hb. cbn. exact Hfb.
    + replace (change n a) with 0
        by (unfold change; destruct n as [x|x]; cbn [target] in Hne;
            destruct (decide (x = a)); congruence).
      destruct (FindBackendInfo (LeastRequest.m_backends st) a) as [j|] eqn:Hj;
        [|lia].
      destruct (FindBackendInfo_lookup _ _ _ Hj) as (b' & Hb' & Ha').
      rewrite list_lookup_alter_ne; [lia|].
      intros ->. rewrite Hb in Hb'. congruence.
Qed.

(** The least-request registry follows a trace as long as every counter
    can: the sum of [activeRequests] moves with the number of requests in
    flight. *)
Lemma lr_deliver_all (tr : list notification) :
  forall st : LeastRequest.state,
    (forall n, In n tr ->
       In (target n) (map address (LeastRequest.m_backends st))) ->
    (forall k a, 0 <= active_of (LeastRequest.m_backends st) a
                      + outstanding (take k tr) a < 2 ^ 32) ->
    total_active
      (LeastRequest.m_backends
         (deliver_all LeastRequest.NotifyRequestSent
                      LeastRequest.NotifyRequestFinished tr st))
    = total_active (LeastRequest.m_backends st) + in_flight tr.
Proof.
  induction tr as [|n tr IH]; intros st Hreg Hrange;
    [cbn; lia | rewrite deliver_all_cons].
  pose proof (Hrange 1%nat (target n)) as H1.
    pose proof (Hrange 0%nat (target n)) as H0.
    cbn [take outstanding foldr] in H0, H1. rewrite Z.add_0_r in H0, H1.
    destruct (lr_deliver_step n st) as (Htot & Haddr & Hact);
      [apply Hreg; now left|exact H1|lia|].
    rewrite IH.
    + rewrite Htot. cbn [in_flight foldr]. fold (in_flight tr). lia.
    + intros n' Hn'. rewrite Haddr. apply Hreg. now right.
    + intros k a. rewrite Hact. specialize (Hrange (S k) a).
      cbn [take outstanding foldr] in Hrange.
      fold (outstanding (take k tr) a) in Hrange. lia.
Qed.

Lemma total_active_SetBackends (backends : list (InetSocketAddress * Z)) :
  total_active (LoadBalancerApp.SetBackends backends) = 0
  /\ forall a, active_of (LoadBalancerApp.SetBackends backends) a = 0.
Proof.
  split.
  - induction backends as [|x l IH]; [reflexivity|].
    change (LoadBalancerApp.SetBackends (x :: l))
      with (newBackendInfo (fst x) (snd x) :: LoadBalancerApp.SetBackends l).
    rewrite total_active_cons, IH. reflexivity.
  - intros a. unfold active_of.
    destruct (FindBackendInfo _ a) as [i|] eqn:Hf; [|reflexivity].
    destruct (FindBackendInfo_lookup _ _ _ Hf) as (b & Hb & _).
    rewrite Hb. cbn. unfold LoadBalancerApp.SetBackends in Hb.
    apply list_elem_of_lookup_2, list_elem_of_In, in_map_iff in Hb
      as (x & <- & _). reflexivity.
Qed.

(** The five other selectors leave the registry alone. *)
Lemma deliver_all_unchanged {S : Type} (sent finished : InetSocketAddress -> S -> S)
    (tr : list notification) (st : S) :
  (forall a x, sent a x = x) -> (forall a x, finished a x = x) ->
  deliver_all sent finished tr st = st.
Proof.
  intros Hs Hf. revert st. induction tr as [|n tr IH]; intros st;
    [reflexivity|].
  rewrite deliver_all_cons, IH.
  destruct n; cbn [deliver]; now rewrite ?Hs, ?Hf.
Qed.

Lemma peak_ewma_deliver_all_backends (tr : list notification)
    (st : PeakEwma.state) :
  PeakEwma.m_backends
    (deliver_all PeakEwma.NotifyRequestSent PeakEwma.NotifyRequestFinished
                 tr st)
  = PeakEwma.m_backends st.
Proof.
  revert st. induction tr as [|n tr IH]; intros st; [reflexivity|].
  rewrite deliver_all_cons, IH. now destruct n.
Qed.

End NotifyFacts.

Lemma map_address_SetBackends (backends : list (InetSocketAddress * Z)) :
  map address (LoadBalancerApp.SetBackends backends) = map fst backends.
Proof.
  unfold LoadBalancerApp.SetBackends. rewrite map_map. reflexivity.
Qed.

(** C4, as worded: under weighted round-robin one request is in flight
    after one [NotifyRequestSent], and the sum of [activeRequests] is
    still 0: the method does nothing. *)
Lemma wrr_active_requests_ignore_notifications :
  let a : InetSocketAddress := (167772161, 9) in
  let st := WeightedRoundRobin.SetBackends [(a, 1)] WeightedRoundRobin.init in
  let st' := Notifications.deliver_all
               WeightedRoundRobin.NotifyRequestSent
               WeightedRoundRobin.NotifyRequestFinished
               [Notifications.Sent a] st in
  Notifications.in_flight [Notifications.Sent a] = 1
  /\ total_active (WeightedRoundRobin.m_backends st') = 0
  /\ total_active (WeightedRoundRobin.m_backends st')
     <> Notifications.in_flight [Notifications.Sent a].
Proof.
  intros a st st'. split; [reflexivity|]. split; [reflexivity|].
  vm_compute. discriminate.
Qed.

(** C4, amended.  Under least-request, after [SetBackends] and any
    sequence of notifications for registered addresses in which no
    request finishes before it was sent (and fewer than [2 ^ 32] are in
    flight on a backend), the sum of [activeRequests] over the registry is
    the number of requests in flight.  Under weighted round-robin,
    random, ring hash, Maglev and Peak-EWMA the notifications leave the
    registry, and so every [activeRequests], as it was. *)
Theorem active_requests_follow_in_flight_under_least_request
    (backends : list (InetSocketAddress * Z))
    (tr : list Notifications.notification)
    (wrr : WeightedRoundRobin.state) (rnd : RandomLB.state)
    (ring : RingHash.state) (mag : Maglev.state) (ewma : PeakEwma.state) :
  Notifications.well_bracketed tr ->
  (forall n, In n tr -> In (Notifications.target n) (map fst backends)) ->
  total_active
    (LeastRequest.m_backends
       (Notifications.deliver_all
          LeastRequest.NotifyRequestSent LeastRequest.NotifyRequestFinished
          tr (LeastRequest.SetBackends backends LeastRequest.init)))
  = Notifications.in_flight tr
  /\ WeightedRoundRobin.m_backends
       (Notifications.deliver_all
          WeightedRoundRobin.NotifyRequestSent
          WeightedRoundRobin.NotifyRequestFinished tr wrr)
     = WeightedRoundRobin.m_backends wrr
  /\ RandomLB.m_backends
       (Notifications.deliver_all
          RandomLB.NotifyRequestSent RandomLB.NotifyRequestFinished tr rnd)
     = RandomLB.m_backends rnd
  /\ RingHash.m_backends
       (Notifications.deliver_all
          RingHash.NotifyRequestSent RingHash.NotifyRequestFinished tr ring)
     = RingHash.m_backends ring
  /\ Maglev.m_backends
       (Notifications.deliver_all
          Maglev.NotifyRequestSent Maglev.NotifyRequestFinished tr mag)
     = Maglev.m_backends mag
  /\ PeakEwma.m_backends
       (Notifications.deliver_all
          PeakEwma.NotifyRequestSent PeakEwma.NotifyRequestFinished tr ewma)
     = PeakEwma.m_backends ewma.
Proof.
  intros Hbr Hreg.
  destruct (total_active_SetBackends backends) as (Hzero & Hact).
  split; [|repeat split].
  - rewrite lr_deliver_all.
    + cbn [LeastRequest.SetBackends LeastRequest.m_backends].
      rewrite Hzero. lia.
    + intros n Hn. cbn [LeastRequest.SetBackends LeastRequest.m_backends].
      rewrite map_address_SetBackends. now apply Hreg.
    + intros k a. cbn [LeastRequest.SetBackends LeastRequest.m_backends].
      rewrite Hact. apply Hbr.
  - now rewrite deliver_all_unchanged.
  - now rewrite deliver_all_unchanged.
  - now rewrite deliver_all_unchanged.
  - now rewrite deliver_all_unchanged.
  - apply peak_ewma_deliver_all_backends.
Qed.

Lemma active_requests_follow_in_flight_under_least_request_witness :
  let a : InetSocketAddress := (167772161, 9) in
  let b : InetSocketAddress := (167772162, 9) in
  let tr := [Notifications.Sent a; Notifications.Sent b;
             Notifications.Finished a; Notifications.Sent b] in
  total_active
    (LeastRequest.m_backends
       (Notifications.deliver_all
          LeastRequest.NotifyRequestSent LeastRequest.NotifyRequestFinished
          tr (LeastRequest.SetBackends [(a, 1); (b, 2)] LeastRequest.init)))
  = Notifications.in_flight tr
  /\ Notifications.in_flight tr = 2.
Proof.
  intros a b tr.
  assert (Hbr : Notifications.well_bracketed tr).
  { intros k x. unfold tr.
    destruct k as [|[|[|[|k]]]];
      cbn [take Notifications.outstanding foldr Notifications.change];
      rewrite ?take_nil; cbn [foldr];
      repeat case_decide;
      first [lia | exfalso; unfold a, b in *; congruence]. }
  assert (Hreg : forall n, In n tr ->
                   In (Notifications.target n) (map fst [(a, 1); (b, 2)])).
  { intros n Hn. unfold tr in Hn. cbn in Hn.
    destruct Hn as [<-|[<-|[<-|[<-|[]]]]]; cbn; auto. }
  split; [|reflexivity].
  exact (proj1 (active_requests_follow_in_flight_under_least_request
                  [(a, 1); (b, 2)] tr WeightedRoundRobin.init
                  (RandomLB.mkState []) (RingHash.mkState [] ∅)
                  Maglev.init (PeakEwma.mkState [] 0 ∅) Hbr Hreg)).
Defined.

(** ** The proxy core *)

(** C1.  Two runs of the proxy in front of one backend, under weighted
    round-robin.

    In the first a client sends one request and closes while the
    connection to the backend is still being set up.  [CleanupClient]
    first cleans every socket of the client's map with
    [CleanupBackendSocket], which erases the pending record without
    notifying; the loop that follows, which would call
    [NotifyRequestFinished] for the client's pending records, finds none.
    One [NotifyRequestSent], no [NotifyRequestFinished], also after the
    application is stopped.

    In the second the connection is up, a second request reuses it and
    [Send] fails: [SendToBackend] calls [NotifyRequestFinished] and leaves
    the entry of [m_requestSendTimes], for which the cleanup of the socket
    calls [NotifyRequestFinished] again.  Two requests sent, three
    finished. *)
Theorem notify_sent_and_finished_do_not_pair_up :
  let backend : InetSocketAddress := (167772161, 9) in
  let peer (s : Socket) := if (s =? 100)%N then Some backend else None in
  let rt := ProxyCore.mkRuntime (fun _ => ProxyCore.ERROR_NOTERROR) peer
              (fun _ p => Z.of_nat (length p))
              (fun k => (100 + N.of_nat k)%N) 0 in
  let rt_full := ProxyCore.mkRuntime (fun _ => ProxyCore.ERROR_NOTERROR) peer
                   (fun _ _ => -1) (fun k => (100 + N.of_nat k)%N) 0 in
  let request (seq : Z) :=
    RequestResponseHeader.Serialize (RequestResponseHeader.mk seq 0 0 7) in
  let app := ProxyCore.start
               (WeightedRoundRobin.SetBackends [(backend, 1)]
                                               WeightedRoundRobin.init) in
  let calls r := (ProxyCore.sent_calls r, ProxyCore.finished_calls r) in
  calls <$> ProxyCore.run 2
      [(rt, ProxyCore.Accept 1); (rt, ProxyCore.ClientRead 1 [request 1]);
       (rt, ProxyCore.ClientClose 1); (rt, ProxyCore.Stop)] app
    = Some ([backend], [])
  /\ calls <$> ProxyCore.run 2
      [(rt, ProxyCore.Accept 1); (rt, ProxyCore.ClientRead 1 [request 1]);
       (rt, ProxyCore.BackendConnectSuccess 100);
       (rt_full, ProxyCore.ClientRead 1 [request 2]);
       (rt, ProxyCore.BackendRead 100 [request 1]);
       (rt, ProxyCore.ClientClose 1); (rt, ProxyCore.Stop)] app
    = Some ([backend; backend], [backend; backend; backend]).
Proof.
  intros backend peer rt rt_full request app calls.
  split; vm_compute; reflexivity.
Qed.

(** ** Further properties of the code *)

Section HeaderInverse.
Import RequestResponseHeader.

Lemma Z_of_byte_inj (x y : byte) : Z_of_byte x = Z_of_byte y -> x = y.
Proof.
  unfold Z_of_byte. intros E. apply N2Z.inj in E.
  pose proof (Byte.of_to_N x) as Hx. pose proof (Byte.of_to_N y) as Hy.
  rewrite E in Hx. congruence.
Qed.

(** Byte strings of one length with one positional value are equal. *)
Lemma be_value_inj (xs ys : list byte) :
  length xs = length ys -> be_value xs = be_value ys -> xs = ys.
Proof.
  revert ys. induction xs as [|x xs IH]; intros [|y ys]; simpl length;
    try discriminate; [reflexivity|].
  intros [= Hlen]. cbn [be_value]. rewrite Hlen. intros E.
  pose proof (be_value_range xs) as Rx. pose proof (be_value_range ys) as Ry.
  rewrite Hlen in Rx.
  pose proof (Z_of_byte_range x). pose proof (Z_of_byte_range y).
  assert (Hp : 0 < 256 ^ Z.of_nat (length ys)) by (apply Z.pow_pos_nonneg; lia).
  assert (Z_of_byte x = Z_of_byte y) by nia.
  f_equal; [now apply Z_of_byte_inj|]. apply IH; [exact Hlen|nia].
Qed.

(** Writing the value read gives back the bytes read. *)
Lemma WriteHton_ntoh (n : nat) (bs : list byte) :
  length bs = n -> WriteHton n (ntoh bs) = bs.
Proof.
  intros Hlen. apply be_value_inj; [now rewrite length_WriteHton|].
  rewrite be_value_WriteHton, ntoh_be_value.
  apply Z.mod_small. pose proof (be_value_range bs) as Hr.
  rewrite Hlen in Hr.
  replace (2 ^ (8 * Z.of_nat n)) with (256 ^ Z.of_nat n); [exact Hr|].
  change 256 with (2 ^ 8). rewrite <- Z.pow_mul_r by lia. reflexivity.
Qed.

Lemma u64_s64 (x : Z) : 0 <= x < 2 ^ 64 -> u64 (s64 x) = x.
Proof.
  intros Hx. unfold u64, s64. rewrite (Z.mod_small x) by lia.
  destruct (Z.ltb_spec x (2 ^ 63)).
  - apply Z.mod_small. lia.
  - replace (x - 2 ^ 64) with (x + (-1) * 2 ^ 64) by lia.
    rewrite Z.mod_add by lia. apply Z.mod_small. lia.
Qed.

Lemma ReadNtoh_ok (n : nat) (buf : list byte) :
  (n <= length buf)%nat ->
  ReadNtoh n buf = Some (ntoh (take n buf), drop n buf).
Proof.
  intros Hn. unfold ReadNtoh.
  now replace (n <=? length buf)%nat with true
    by (symmetry; apply Nat.leb_le; lia).
Qed.

Lemma Serialize_Deserialize (bs : list byte) :
  (24 <= length bs)%nat ->
  exists h, Deserialize bs = Some (h, 24) /\ wf h /\ Serialize h = take 24 bs.
Proof.
  intros Hlen. unfold Deserialize, ReadNtohU32, ReadNtohU64.
  rewrite (ReadNtoh_ok 4 bs) by lia. cbn [mbind option_bind].
  rewrite (ReadNtoh_ok 8) by (rewrite length_drop; lia).
  cbn [mbind option_bind].
  rewrite (ReadNtoh_ok 4) by (rewrite !length_drop; lia).
  cbn [mbind option_bind].
  rewrite (ReadNtoh_ok 8) by (rewrite !length_drop; lia).
  cbn [mbind option_bind].
  eexists. split; [reflexivity|].
  assert (R : forall n (l : list byte), (n <= length l)%nat ->
            0 <= ntoh (take n l) < 2 ^ (8 * Z.of_nat n)).
  { intros n l Hn. rewrite ntoh_be_value.
    pose proof (be_value_range (take n l)) as Hr.
    rewrite length_take, Nat.min_l in Hr by lia.
    replace (2 ^ (8 * Z.of_nat n)) with (256 ^ Z.of_nat n); [exact Hr|].
    change 256 with (2 ^ 8). rewrite <- Z.pow_mul_r by lia. reflexivity. }
  pose proof (R 4%nat bs ltac:(lia)) as R1.
  pose proof (R 8%nat (drop 4 bs) ltac:(rewrite length_drop; lia)) as R2.
  pose proof (R 4%nat (drop 8 (drop 4 bs))
                ltac:(rewrite !length_drop; lia)) as R3.
  pose proof (R 8%nat (drop 4 (drop 8 (drop 4 bs)))
                ltac:(rewrite !length_drop; lia)) as R4.
  change (8 * Z.of_nat 4) with 32 in *. change (8 * Z.of_nat 8) with 64 in *.
  split.
  - unfold wf, is_u32, is_u64. cbn.
    repeat split; try lia; apply s64_range.
  - unfold Serialize, WriteHtonU32, WriteHtonU64.
    cbn [m_seq m_timestamp m_payloadSize m_l7Identifier].
    rewrite u64_s64 by lia.
    rewrite !WriteHton_ntoh
      by (rewrite length_take, ?length_drop; lia).
    rewrite !drop_drop. simpl Nat.add.
    rewrite !app_assoc, !take_take_drop. reflexivity.
Qed.

End HeaderInverse.

(** X1.  Serialization loses nothing the other way round either: the header
    read from the first 24 bytes of a buffer serializes to exactly those
    24 bytes, so [Deserialize] and [Serialize] are inverse bijections
    between 24-byte strings and headers within their C++ types. *)
Theorem header_deserialize_serialize_inverse (bs : list byte) :
  (24 <= length bs)%nat ->
  exists h,
    RequestResponseHeader.Deserialize bs = Some (h, 24)
    /\ RequestResponseHeader.wf h
    /\ RequestResponseHeader.Serialize h = take 24 bs.
Proof. apply Serialize_Deserialize. Qed.

Lemma header_deserialize_serialize_inverse_witness :
  let bs := [x00; x00; x01; x02; xff; xff; xff; xff; xff; xff; xff; xfe;
             x00; x00; x00; x05; x80; x00; x00; x00; x00; x00; x00; x2a;
             x61; x62]%byte in
  (24 <= length bs)%nat
  /\ exists h,
      RequestResponseHeader.Deserialize bs = Some (h, 24)
      /\ RequestResponseHeader.wf h
      /\ RequestResponseHeader.Serialize h = take 24 bs.
Proof.
  intros bs.
  assert (Hlen : (24 <= length bs)%nat) by (vm_compute; lia).
  split; [exact Hlen|].
  exact (header_deserialize_serialize_inverse bs Hlen).
Defined.
Section FramingFacts.
Context {St : Type}.
Variable process : RequestResponseHeader.t -> list byte -> St -> option St.

(** More fuel does not change a result. *)
Lemma reassembly_loop_mono (fuel fuel' : nat) (buf : list byte) (st : St) r :
  Framing.reassembly_loop fuel process buf st = Some r ->
  (fuel <= fuel')%nat ->
  Framing.reassembly_loop fuel' process buf st = Some r.
Proof.
  revert fuel' buf st. induction fuel as [|fuel IH]; intros fuel' buf st;
    [discriminate|].
  intros Hrun Hle. destruct fuel' as [|fuel']; [lia|].
  cbn [Framing.reassembly_loop] in *.
  destruct (Z.of_nat (length buf) <? Framing.headerSize); [exact Hrun|].
  destruct (Framing.PeekHeader _) as [[h n]|]; [|exact Hrun].
  destruct (negb (n =? Framing.headerSize)); [exact Hrun|].
  destruct (_ <=? _); [|exact Hrun].
  destruct (process h _ st) as [st'|]; [|discriminate].
  apply IH; [exact Hrun|lia].
Qed.

(** The loop run on what one read left behind followed by the bytes of
    the next read ends as the loop run on all the bytes at once. *)
Lemma reassembly_loop_app (fuel1 fuel2 : nat) (buf1 buf2 rest1 : list byte)
    (st st1 : St) r :
  Framing.reassembly_loop fuel1 process buf1 st = Some (rest1, st1) ->
  Framing.reassembly_loop fuel2 process (rest1 ++ buf2) st1 = Some r ->
  Framing.reassembly_loop (fuel1 + fuel2) process (buf1 ++ buf2) st = Some r.
Proof.
  revert buf1 st. induction fuel1 as [|fuel1 IH]; intros buf1 st;
    [discriminate|].
  intros H1 H2.
  assert (Hstop : (rest1, st1) = (buf1, st) ->
            Framing.reassembly_loop (S fuel1 + fuel2) process
              (buf1 ++ buf2) st = Some r).
  { intros [= <- <-]. eapply reassembly_loop_mono; [exact H2|lia]. }
  cbn [Framing.reassembly_loop] in H1.
  change Framing.headerSize with 24 in *.
  change (Z.to_nat 24) with 24%nat in *.
  destruct (Z.ltb_spec (Z.of_nat (length buf1)) 24) as [|Hlong];
    [apply Hstop; congruence|].
  destruct (Framing.PeekHeader (take 24 buf1)) as [[h n]|] eqn:Hpeek;
    [|apply Hstop; congruence].
  destruct (negb (n =? 24)) eqn:Hn; [apply Hstop; congruence|].
  destruct (Z.leb_spec (u32 (24 + RequestResponseHeader.m_payloadSize h))
              (Z.of_nat (length buf1))) as [Hfull|];
    [|apply Hstop; congruence].
  destruct (process h _ st) as [st'|] eqn:Hproc; [|discriminate].
  change (S fuel1 + fuel2)%nat with (S (fuel1 + fuel2)).
  cbn [Framing.reassembly_loop].
  change Framing.headerSize with 24. change (Z.to_nat 24) with 24%nat.
  rewrite length_app.
  destruct (Z.ltb_spec (Z.of_nat (length buf1 + length buf2)) 24); [lia|].
  rewrite take_app_le by lia. rewrite Hpeek, Hn.
  destruct (Z.leb_spec (u32 (24 + RequestResponseHeader.m_payloadSize h))
              (Z.of_nat (length buf1 + length buf2))); [|lia].
  assert (Htot : (Z.to_nat (u32 (24 + RequestResponseHeader.m_payloadSize h))
                  <= length buf1)%nat).
  { unfold u32 in *.
    pose proof (Z.mod_pos_bound (24 + RequestResponseHeader.m_payloadSize h)
                  (2 ^ 32) ltac:(lia)). lia. }
  rewrite take_app_le, drop_app_le by exact Htot.
  rewrite Hproc. now apply IH.
Qed.

End FramingFacts.

(** X2.  The outcome of reassembly does not depend on how the byte stream
    was cut into reads: running the loop on one read, and then on what it
    left behind followed by the next read, ends in the same buffer and
    state as running it once on both reads together. *)
Theorem reassembly_independent_of_segmentation {St : Type}
    (process : RequestResponseHeader.t -> list byte -> St -> option St)
    (fuel1 fuel2 : nat) (buf1 buf2 rest1 : list byte) (st st1 : St)
    (r : list byte * St) :
  Framing.reassembly_loop fuel1 process buf1 st = Some (rest1, st1) ->
  Framing.reassembly_loop fuel2 process (rest1 ++ buf2) st1 = Some r ->
  Framing.reassembly_loop (fuel1 + fuel2) process (buf1 ++ buf2) st = Some r.
Proof. apply reassembly_loop_app. Qed.

Lemma reassembly_independent_of_segmentation_witness :
  let h := RequestResponseHeader.mk 1 0 2 7 in
  let msg := (RequestResponseHeader.Serialize h ++ [x61; x62])%byte in
  let collect := fun (_ : RequestResponseHeader.t) (m : list byte)
                     (acc : list (list byte)) => Some (acc ++ [m]) in
  let buf1 := msg ++ take 20 msg in
  let buf2 := drop 20 msg ++ take 3 msg in
  Framing.reassembly_loop 3 collect buf1 [] = Some (take 20 msg, [msg])
  /\ Framing.reassembly_loop 3 collect (take 20 msg ++ buf2) [msg]
     = Some (take 3 msg, [msg; msg])
  /\ Framing.reassembly_loop (3 + 3) collect (buf1 ++ buf2) []
     = Some (take 3 msg, [msg; msg]).
Proof.
  intros h msg collect buf1 buf2.
  assert (H1 : Framing.reassembly_loop 3 collect buf1 []
               = Some (take 20 msg, [msg])) by (vm_compute; reflexivity).
  assert (H2 : Framing.reassembly_loop 3 collect (take 20 msg ++ buf2) [msg]
               = Some (take 3 msg, [msg; msg])) by (vm_compute; reflexivity).
  split; [exact H1|]. split; [exact H2|].
  exact (reassembly_independent_of_segmentation collect 3 3 buf1 buf2
           (take 20 msg) [] [msg] (take 3 msg, [msg; msg]) H1 H2).
Defined.

(** X3.  Frame integrity: when the buffer holds whole messages, each of a
    total length below [2 ^ 32], followed by the start of a message that
    has not arrived in full, the loop hands over exactly those messages,
    each as one unit and in arrival order, and leaves the partial message
    in the buffer untouched. *)
Theorem reassembly_extracts_whole_frames
    (msgs : list (RequestResponseHeader.t * list byte)) (tail : list byte) :
  Forall Frames.well_framed msgs ->
  Frames.incomplete tail ->
  Framing.extract_messages (S (length msgs))
    (concat (map Frames.frame msgs) ++ tail)
  = Some (tail, map Frames.frame msgs).
Proof. apply extract_messages_frames. Qed.

Lemma reassembly_extracts_whole_frames_witness :
  let m1 := (RequestResponseHeader.mk 1 5 2 7, [x61; x62]%byte) in
  let m2 := (RequestResponseHeader.mk 2 6 0 8, @nil byte) in
  let tail := take 30 (Frames.frame (RequestResponseHeader.mk 3 7 9 9,
                                     replicate 9 x00)) in
  Forall Frames.well_framed [m1; m2]
  /\ Frames.incomplete tail
  /\ Framing.extract_messages 3 (concat (map Frames.frame [m1; m2]) ++ tail)
     = Some (tail, map Frames.frame [m1; m2]).
Proof.
  intros m1 m2 tail.
  assert (W : Forall Frames.well_framed [m1; m2]).
  { repeat constructor; cbv; intuition congruence. }
  assert (I : Frames.incomplete tail).
  { right. exists (RequestResponseHeader.mk 3 7 9 9).
    split; [vm_compute; reflexivity|]. split; [vm_compute; reflexivity|].
    vm_compute; reflexivity. }
  split; [exact W|]. split; [exact I|].
  exact (reassembly_extracts_whole_frames [m1; m2] tail W I).
Defined.
Section RegistryFacts.

Lemma FindBackendInfo_app_new (bks : list BackendInfo) (a a' : InetSocketAddress)
    (w : Z) :
  FindBackendInfo (bks ++ [newBackendInfo a w]) a'
  = match FindBackendInfo bks a' with
    | Some i => Some i
    | None => if decide (a = a') then Some (length bks) else None
    end.
Proof.
  induction bks as [|x bks IH]; cbn [app FindBackendInfo length].
  - cbn [newBackendInfo address]. now destruct (decide (a = a')).
  - destruct (decide (address x = a')); [reflexivity|].
    rewrite IH. destruct (FindBackendInfo bks a'); [reflexivity|].
    now destruct (decide (a = a')).
Qed.

Lemma AddBackend_find (bks : list BackendInfo) (a : InetSocketAddress) (w : Z) :
  exists i b, FindBackendInfo (LoadBalancerApp.AddBackend a w bks) a = Some i
              /\ LoadBalancerApp.AddBackend a w bks !! i = Some b
              /\ address b = a /\ weight b = w.
Proof.
  unfold LoadBalancerApp.AddBackend.
  destruct (FindBackendInfo bks a) as [i|] eqn:Hf.
  - destruct (FindBackendInfo_lookup bks a i Hf) as (b & Hb & Ha).
    exists i, (set_weight w b).
    rewrite FindBackendInfo_alter by reflexivity.
    rewrite list_lookup_alter_eq, Hb. auto.
  - exists (length bks), (newBackendInfo a w).
    rewrite FindBackendInfo_app_new, Hf, decide_True by reflexivity.
    rewrite lookup_app_r, Nat.sub_diag by lia. auto.
Qed.

Lemma AddBackend_find_other (bks : list BackendInfo) (a a' : InetSocketAddress)
    (w : Z) :
  a' <> a ->
  FindBackendInfo (LoadBalancerApp.AddBackend a w bks) a'
  = FindBackendInfo bks a'.
Proof.
  intros Hne. unfold LoadBalancerApp.AddBackend.
  destruct (FindBackendInfo bks a) as [i|] eqn:Hf.
  - now apply FindBackendInfo_alter.
  - rewrite FindBackendInfo_app_new.
    destruct (FindBackendInfo bks a'); [reflexivity|].
    now rewrite decide_False by congruence.
Qed.

Lemma AddBackend_NoDup (bks : list BackendInfo) (a : InetSocketAddress) (w : Z) :
  NoDup (map address bks) ->
  NoDup (map address (LoadBalancerApp.AddBackend a w bks)).
Proof.
  intros Hnd. unfold LoadBalancerApp.AddBackend.
  destruct (FindBackendInfo bks a) as [i|] eqn:Hf.
  - now rewrite map_address_alter by reflexivity.
  - rewrite map_app. cbn [map newBackendInfo address].
    apply NoDup_app. split; [exact Hnd|]. split; [|apply NoDup_singleton].
    intros x Hx Hx'. apply list_elem_of_singleton in Hx'. subst x.
    apply (FindBackendInfo_None bks a Hf). now apply list_elem_of_In.
Qed.

End RegistryFacts.

(** X4.  [AddBackend] followed by a lookup: the entry [FindBackendInfo]
    finds for the address just added carries the weight just given,
    whether the address was new or known; lookups of every other address
    are what they were; an address that was not registered is appended as
    the last entry with no active request; and a registry without
    duplicate addresses stays without duplicates. *)
Theorem AddBackend_then_FindBackendInfo
    (bks : list BackendInfo) (a : InetSocketAddress) (w : Z) :
  (exists i b,
     FindBackendInfo (LoadBalancerApp.AddBackend a w bks) a = Some i
     /\ LoadBalancerApp.AddBackend a w bks !! i = Some b
     /\ address b = a /\ weight b = w)
  /\ (forall a', a' <> a ->
        FindBackendInfo (LoadBalancerApp.AddBackend a w bks) a'
        = FindBackendInfo bks a')
  /\ (FindBackendInfo bks a = None ->
        LoadBalancerApp.AddBackend a w bks = bks ++ [mkBackendInfo a w 0])
  /\ (NoDup (map address bks) ->
        NoDup (map address (LoadBalancerApp.AddBackend a w bks))).
Proof.
  split; [apply AddBackend_find|].
  split; [intros a'; apply AddBackend_find_other|].
  split; [|apply AddBackend_NoDup].
  intros Hf. unfold LoadBalancerApp.AddBackend. now rewrite Hf.
Qed.

(** ** Peak-EWMA *)

Section PeakEwmaMore.
Import PeakEwma PeakEwmaChoice.

Lemma emplace_lookup_other (k a : InetSocketAddress) (v : EwmaMetric)
    (m : gmap InetSocketAddress EwmaMetric) :
  a <> k -> emplace k v m !! a = m !! a.
Proof.
  intros Hne. unfold emplace. destruct (m !! k); [reflexivity|].
  now rewrite lookup_insert_ne by congruence.
Qed.

Lemma emplace_is_Some (k : InetSocketAddress) (v : EwmaMetric)
    (m : gmap InetSocketAddress EwmaMetric) : is_Some (emplace k v m !! k).
Proof.
  unfold emplace. destruct (m !! k) eqn:E; [now rewrite E|].
  rewrite lookup_insert_eq. eauto.
Qed.

Lemma emplace_keeps (k a : InetSocketAddress) (v : EwmaMetric)
    (m : gmap InetSocketAddress EwmaMetric) :
  is_Some (m !! a) -> is_Some (emplace k v m !! a).
Proof.
  intros Hs. unfold emplace. destruct (m !! k) eqn:E; [exact Hs|].
  destruct (decide (a = k)) as [->|Hne].
  - rewrite lookup_insert_eq. eauto.
  - now rewrite lookup_insert_ne by congruence.
Qed.

Lemma AddBackend_metric_kept (nowNs : Z) (a : InetSocketAddress) (w : Z)
    (st : state) (b : InetSocketAddress) (m : EwmaMetric) :
  m_backendMetrics st !! b = Some m ->
  m_backendMetrics (PeakEwma.AddBackend nowNs a w st) !! b = Some m.
Proof.
  intros Hb. unfold PeakEwma.AddBackend.
  destruct (bool_decide (is_Some (m_backendMetrics st !! a))) eqn:E;
    cbn [m_backendMetrics]; [exact Hb|].
  apply bool_decide_eq_false in E.
  rewrite emplace_lookup_other; [exact Hb|].
  intros ->. apply E. rewrite Hb. eauto.
Qed.

Lemma AddBackend_metric_present (nowNs : Z) (a : InetSocketAddress) (w : Z)
    (st : state) :
  is_Some (m_backendMetrics (PeakEwma.AddBackend nowNs a w st) !! a).
Proof.
  unfold PeakEwma.AddBackend.
  destruct (bool_decide (is_Some (m_backendMetrics st !! a))) eqn:E;
    cbn [m_backendMetrics].
  - now apply bool_decide_eq_true in E.
  - apply emplace_is_Some.
Qed.

End PeakEwmaMore.

(** X5.  [PeakEwmaLoadBalancer::AddBackend] never touches an existing
    metric: whatever metric an address had before the call (the added
    address included) it has after it, with cost, pending count and time
    stamp, and the added address has a metric afterwards. *)
Theorem peak_ewma_add_backend_keeps_metrics (nowNs : Z)
    (a : InetSocketAddress) (w : Z) (st : PeakEwma.state)
    (b : InetSocketAddress) (m : PeakEwma.EwmaMetric) :
  PeakEwma.m_backendMetrics st !! b = Some m ->
  PeakEwma.m_backendMetrics (PeakEwma.AddBackend nowNs a w st) !! b = Some m
  /\ is_Some (PeakEwma.m_backendMetrics (PeakEwma.AddBackend nowNs a w st)
                !! a).
Proof.
  intros Hb. split; [now apply AddBackend_metric_kept|].
  apply AddBackend_metric_present.
Qed.

Lemma peak_ewma_add_backend_keeps_metrics_witness :
  let m := PeakEwma.mkMetric 5 3 42 10 10 1000000000 in
  let st := PeakEwma.mkState [mkBackendInfo (1, 80) 1 0] 10
              (<[(1, 80) := m]> ∅) in
  PeakEwma.m_backendMetrics st !! (1, 80) = Some m
  /\ PeakEwma.m_backendMetrics (PeakEwma.AddBackend 99 (1, 80) 7 st)
       !! (1, 80) = Some m
  /\ is_Some (PeakEwma.m_backendMetrics (PeakEwma.AddBackend 99 (1, 80) 7 st)
                !! (1, 80)).
Proof.
  intros m st.
  assert (H : PeakEwma.m_backendMetrics st !! (1, 80) = Some m)
    by apply lookup_insert_eq.
  split; [exact H|].
  exact (peak_ewma_add_backend_keeps_metrics 99 (1, 80) 7 st (1, 80) m H).
Defined.

(** ** Peak-EWMA: the metrics map *)

Section PeakEwmaMap.
Import PeakEwma PeakEwmaChoice Notifications.

Lemma load_at_backends (nowNs : Z) (a : InetSocketAddress) (st : state) :
  m_backends (snd (load_at nowNs a st)) = m_backends st.
Proof. unfold load_at. now destruct (m_backendMetrics st !! a). Qed.

Lemma GetLoad_pending (nowNs : Z) (m : EwmaMetric) :
  m_pending (snd (GetLoad nowNs m)) = m_pending m.
Proof.
  unfold GetLoad. cbn [snd].
  now destruct (0 <? Z.max 0 (nowNs - m_stampNs m)).
Qed.

Lemma load_at_pending (nowNs : Z) (a x : InetSocketAddress) (st : state) :
  m_pending <$> (m_backendMetrics (snd (load_at nowNs a st)) !! x)
  = m_pending <$> (m_backendMetrics st !! x).
Proof.
  unfold load_at. destruct (m_backendMetrics st !! a) as [m|] eqn:E;
    [|reflexivity].
  cbn [snd m_backendMetrics]. destruct (decide (x = a)) as [->|Hne].
  - rewrite lookup_insert_eq, E.
    change (Some (m_pending (snd (GetLoad nowNs m))) = Some (m_pending m)).
    now rewrite GetLoad_pending.
  - now rewrite lookup_insert_ne by congruence.
Qed.

Lemma load_at_is_Some (nowNs : Z) (a x : InetSocketAddress) (st : state) :
  is_Some (m_backendMetrics (snd (load_at nowNs a st)) !! x)
  <-> is_Some (m_backendMetrics st !! x).
Proof.
  rewrite <- !(fmap_is_Some m_pending). now rewrite load_at_pending.
Qed.

Lemma GetLoad_same_instant (nowNs : Z) (m : EwmaMetric) :
  GetLoad nowNs (snd (GetLoad nowNs m)) = GetLoad nowNs m.
Proof.
  destruct m as [s p c dz d pen]. unfold GetLoad at 2.
  cbn [m_stampNs m_costNs m_pending m_decayTimeNs m_decayTimeNsDouble
       m_penaltyNs snd].
  destruct (Z.ltb_spec 0 (Z.max 0 (nowNs - s))) as [H1|H1]; [|reflexivity].
  unfold GetLoad. cbn [m_stampNs m_costNs m_pending m_decayTimeNs
                       m_decayTimeNsDouble m_penaltyNs].
  destruct (Z.ltb_spec 0 (Z.max 0 (nowNs - nowNs))); [lia|].
  destruct (Z.ltb_spec 0 (Z.max 0 (nowNs - s))); [|lia].
  reflexivity.
Qed.

(** The load read for [x] after the load of [a] was read is the load that
    would have been read for [x] before. *)
Lemma load_at_after (nowNs : Z) (a x : InetSocketAddress) (st : state) :
  fst (load_at nowNs x (snd (load_at nowNs a st)))
  = fst (load_at nowNs x st).
Proof.
  unfold load_at at 2. destruct (m_backendMetrics st !! a) as [m|] eqn:E;
    [|reflexivity].
  cbn [snd]. unfold load_at. cbn [m_backendMetrics].
  destruct (decide (x = a)) as [->|Hne].
  - rewrite lookup_insert_eq, E. cbn [fst].
    now rewrite GetLoad_same_instant.
  - rewrite lookup_insert_ne by congruence.
    now destruct (m_backendMetrics st !! x).
Qed.

Lemma second_index_cases (draws : Draws) (idx1 : Z) (left k : nat) :
  second_index draws idx1 left k = idx1
  \/ exists j, second_index draws idx1 left k = GetInteger draws j.
Proof.
  revert k. induction left as [|left IH]; intros k; cbn [second_index];
    [now left|].
  destruct (GetInteger draws k =? idx1); [apply IH|right; eauto].
Qed.

Lemma covered_SetBackends (nowNs : Z) (l : list (InetSocketAddress * Z))
    (st : state) : covered (SetBackends nowNs l st).
Proof.
  intros b Hb. destruct (SetBackends_metrics_fresh nowNs l st) as (_ & Hin).
  rewrite Hin; [eauto|]. cbn [SetBackends m_backends] in Hb.
  rewrite <- map_address_SetBackends. now apply in_map.
Qed.

Lemma covered_AddBackend (nowNs : Z) (a : InetSocketAddress) (w : Z)
    (st : state) : covered st -> covered (PeakEwma.AddBackend nowNs a w st).
Proof.
  intros Hc b Hb.
  assert (Hbks : m_backends (PeakEwma.AddBackend nowNs a w st)
                 = LoadBalancerApp.AddBackend a w (m_backends st)).
  { unfold PeakEwma.AddBackend. now destruct (bool_decide _). }
  rewrite Hbks in Hb.
  destruct (decide (address b = a)) as [<-|Hne];
    [apply AddBackend_metric_present|].
  assert (Hold : In (address b) (map address (m_backends st))).
  { unfold LoadBalancerApp.AddBackend in Hb.
    destruct (FindBackendInfo (m_backends st) a) as [i|].
    - rewrite <- (map_address_alter (set_weight w) i) by reflexivity.
      now apply in_map.
    - apply in_app_or in Hb as [Hb|[<-|[]]]; [now apply in_map|].
      now cbn in Hne. }
  apply in_map_iff in Hold as (b' & Hb' & Hin').
  destruct (Hc b' Hin') as (m & Hm). rewrite Hb' in Hm.
  rewrite (AddBackend_metric_kept nowNs a w st _ m Hm). eauto.
Qed.

(** What one notification does to the pending counters. *)
Lemma pe_deliver_step (n : notification) (st : state) :
  (forall m, m_backendMetrics st !! target n = Some m ->
     0 <= m_pending m /\ 0 <= m_pending m + change n (target n) < 2 ^ 32) ->
  forall a,
    m_pending <$> (m_backendMetrics
                     (deliver PeakEwma.NotifyRequestSent
                              PeakEwma.NotifyRequestFinished n st) !! a)
    = (fun p => p + change n a)
        <$> (m_pending <$> (m_backendMetrics st !! a)).
Proof.
  intros Hrange a.
  assert (Hst : m_backendMetrics
                  (deliver PeakEwma.NotifyRequestSent
                           PeakEwma.NotifyRequestFinished n st)
                = alter (match n with
                         | Sent _ => IncrementPending
                         | Finished _ => DecrementPending
                         end) (target n) (m_backendMetrics st))
    by now destruct n.
  rewrite Hst. destruct (decide (target n = a)) as [<-|Hne].
  - rewrite lookup_alter_eq.
    destruct (m_backendMetrics st !! target n) as [m|] eqn:E; [|reflexivity].
    destruct (Hrange m eq_refl) as [H0 H1]. cbn. f_equal.
    unfold change in *. destruct n as [x|x]; cbn [target] in *;
      rewrite decide_True in * by reflexivity.
    + cbn. unfold u32. apply Z.mod_small. lia.
    + unfold DecrementPending.
      destruct (Z.ltb_spec 0 (m_pending m)); cbn; lia.
  - rewrite lookup_alter_ne by exact Hne.
    replace (change n a) with 0
      by (unfold change; destruct n as [x|x]; cbn [target] in Hne;
          now rewrite decide_False by exact Hne).
    destruct (m_backendMetrics st !! a); cbn; [f_equal; lia|reflexivity].
Qed.

Lemma pe_deliver_all (tr : list notification) :
  forall st : state,
    (forall k a m, m_backendMetrics st !! a = Some m ->
       0 <= m_pending m + outstanding (take k tr) a < 2 ^ 32) ->
    forall a,
      m_pending <$> (m_backendMetrics
                       (deliver_all PeakEwma.NotifyRequestSent
                                    PeakEwma.NotifyRequestFinished tr st) !! a)
      = (fun p => p + outstanding tr a)
          <$> (m_pending <$> (m_backendMetrics st !! a)).
Proof.
  induction tr as [|n tr IH]; intros st Hrange a.
  - cbn. destruct (m_backendMetrics st !! a); cbn; [f_equal; lia|reflexivity].
  - rewrite deliver_all_cons.
    assert (Hstep := pe_deliver_step n st).
    assert (Hpre : forall m,
              m_backendMetrics st !! target n = Some m ->
              0 <= m_pending m
              /\ 0 <= m_pending m + change n (target n) < 2 ^ 32).
    { intros m Hm. pose proof (Hrange 0%nat _ m Hm) as H0.
      pose proof (Hrange 1%nat _ m Hm) as H1.
      change (take 0 (n :: tr)) with (@nil notification) in H0.
      change (take 1 (n :: tr)) with [n] in H1.
      change (outstanding [] (target n)) with 0 in H0.
      change (outstanding [n] (target n))
        with (change n (target n) + 0) in H1.
      lia. }
    specialize (Hstep Hpre).
    rewrite IH.
    + rewrite Hstep. destruct (m_backendMetrics st !! a); cbn; [|reflexivity].
      f_equal. unfold outstanding. cbn [foldr]. lia.
    + intros k x m' Hm'.
      pose proof (Hstep x) as Hx. rewrite Hm' in Hx. cbn in Hx.
      destruct (m_backendMetrics st !! x) as [m|] eqn:E; [|discriminate].
      cbn in Hx. injection Hx as Hx. rewrite Hx.
      specialize (Hrange (S k) x m E).
      change (take (S k) (n :: tr)) with (n :: take k tr) in Hrange.
      change (outstanding (n :: take k tr) x)
        with (change n x + outstanding (take k tr) x) in Hrange.
      lia.
Qed.

End PeakEwmaMap.

(** X8.  Under Peak-EWMA the in-flight requests of a backend are counted in
    its metric: after [SetBackends] and any sequence of notifications in
    which no request finishes before it was sent (and fewer than [2 ^ 32]
    are in flight on a backend), the pending counter of every listed
    backend is the number of its requests sent and not yet finished. *)
Theorem peak_ewma_pending_follows_in_flight (nowNs : Z)
    (backends : list (InetSocketAddress * Z)) (st : PeakEwma.state)
    (tr : list Notifications.notification) (a : InetSocketAddress) :
  Notifications.well_bracketed tr ->
  In a (map fst backends) ->
  PeakEwma.m_pending <$>
    (PeakEwma.m_backendMetrics
       (Notifications.deliver_all
          PeakEwma.NotifyRequestSent PeakEwma.NotifyRequestFinished tr
          (PeakEwma.SetBackends nowNs backends st)) !! a)
  = Some (Notifications.outstanding tr a).
Proof.
  intros Hbr Hin.
  destruct (SetBackends_metrics_fresh nowNs backends st) as (Hall & Hhas).
  rewrite pe_deliver_all.
  - rewrite (Hhas a Hin). cbn. reflexivity.
  - intros k x m Hm. apply Hall in Hm. subst m. cbn. apply Hbr.
Qed.

Lemma peak_ewma_pending_follows_in_flight_witness :
  let a : InetSocketAddress := (167772161, 9) in
  let b : InetSocketAddress := (167772162, 9) in
  let tr := [Notifications.Sent a; Notifications.Sent b;
             Notifications.Finished a; Notifications.Sent b] in
  PeakEwma.m_pending <$>
    (PeakEwma.m_backendMetrics
       (Notifications.deliver_all
          PeakEwma.NotifyRequestSent PeakEwma.NotifyRequestFinished tr
          (PeakEwma.SetBackends 0 [(a, 1); (b, 2)]
                                (PeakEwma.mkState [] 10 ∅))) !! b)
  = Some (Notifications.outstanding tr b)
  /\ Notifications.outstanding tr b = 2.
Proof.
  intros a b tr.
  assert (Hbr : Notifications.well_bracketed tr).
  { intros k x. unfold tr.
    destruct k as [|[|[|[|k]]]];
      cbn [take Notifications.outstanding foldr Notifications.change];
      rewrite ?take_nil; cbn [foldr];
      repeat case_decide;
      first [lia | exfalso; unfold a, b in *; congruence]. }
  split; [|reflexivity].
  apply (peak_ewma_pending_follows_in_flight 0 [(a, 1); (b, 2)]
           (PeakEwma.mkState [] 10 ∅) tr b Hbr).
  cbn. auto.
Defined.

(** X9.  Every registered backend has a metric: [SetBackends] establishes
    it, and [AddBackend], the notifications, the recording of a latency
    and [ChooseBackend] keep it, so the branches of [ChooseBackend] for a
    missing metric are not taken on an object used through its public
    methods. *)
Theorem peak_ewma_every_backend_has_metric :
  (forall nowNs l st, PeakEwmaChoice.covered (PeakEwma.SetBackends nowNs l st))
  /\ (forall nowNs a w st,
        PeakEwmaChoice.covered st ->
        PeakEwmaChoice.covered (PeakEwma.AddBackend nowNs a w st))
  /\ (forall nowNs a rtt st,
        PeakEwmaChoice.covered st ->
        PeakEwmaChoice.covered (PeakEwma.RecordBackendLatency nowNs a rtt st))
  /\ (forall a st,
        PeakEwmaChoice.covered st ->
        PeakEwmaChoice.covered (PeakEwma.NotifyRequestSent a st)
        /\ PeakEwmaChoice.covered (PeakEwma.NotifyRequestFinished a st))
  /\ (forall nowNs draws st r st',
        PeakEwmaChoice.covered st ->
        PeakEwmaChoice.ChooseBackend nowNs draws st = Some (r, st') ->
        PeakEwmaChoice.covered st').
Proof.
  split; [apply covered_SetBackends|].
  split; [apply covered_AddBackend|].
  assert (Halter : forall f a st,
            PeakEwmaChoice.covered st ->
            PeakEwmaChoice.covered
              (PeakEwma.mkState (PeakEwma.m_backends st)
                 (PeakEwma.m_decayTime st)
                 (alter f a (PeakEwma.m_backendMetrics st)))).
  { intros f a st Hc b Hb. cbn [PeakEwma.m_backendMetrics].
    apply lookup_alter_is_Some. now apply Hc. }
  split; [intros nowNs a rtt st Hc; exact (Halter _ a st Hc)|].
  split; [intros a st Hc; split; exact (Halter _ a st Hc)|].
  assert (Hload : forall nowNs a st,
            PeakEwmaChoice.covered st ->
            PeakEwmaChoice.covered (snd (PeakEwmaChoice.load_at nowNs a st))).
  { intros nowNs a st Hc b Hb. rewrite load_at_backends in Hb.
    apply load_at_is_Some. now apply Hc. }
  intros nowNs draws st r st' Hc. unfold PeakEwmaChoice.ChooseBackend.
  destruct (PeakEwma.m_backends st) as [|b0 [|b1 rest]] eqn:Hbks.
  - now intros [= <- <-].
  - intros [= <- <-]. now apply Hload.
  - set (idx1 := PeakEwmaChoice.GetInteger draws 0).
    set (idx2 := PeakEwmaChoice.second_index draws idx1 10 1).
    destruct (idx1 =? idx2).
    + destruct ((b0 :: b1 :: rest) !! Z.to_nat idx1) as [b|];
        [|discriminate]. cbn [mbind option_bind].
      intros [= <- <-]. now apply Hload.
    + destruct ((b0 :: b1 :: rest) !! Z.to_nat idx1) as [x1|];
        [|discriminate]. cbn [mbind option_bind].
      destruct ((b0 :: b1 :: rest) !! Z.to_nat idx2) as [x2|];
        [|discriminate]. cbn [mbind option_bind].
      destruct (PeakEwmaChoice.load_at nowNs (address x1) st)
        as [load1 st1] eqn:E1.
      destruct (PeakEwmaChoice.load_at nowNs (address x2) st1)
        as [load2 st2] eqn:E2.
      destruct (PeakEwma.m_backends st2 !! _) as [x|]; [|discriminate].
      cbn [mbind option_bind]. intros [= <- <-].
      replace st2 with (snd (PeakEwmaChoice.load_at nowNs (address x2) st1))
        by now rewrite E2.
      apply Hload.
      replace st1 with (snd (PeakEwmaChoice.load_at nowNs (address x1) st))
        by now rewrite E1.
      now apply Hload.
Qed.

(** X10.  Power of two choices under Peak-EWMA: with the generator's draws
    inside the registry, [ChooseBackend] succeeds on a non-empty registry
    and returns one of the two drawn candidates, one whose load score is
    the smaller of the two (weights play no part); the registry and every
    pending counter are as before. *)
Theorem peak_ewma_chooses_lower_load (nowNs : Z)
    (draws : PeakEwmaChoice.Draws) (st : PeakEwma.state) :
  PeakEwma.m_backends st <> [] ->
  (forall k, 0 <= PeakEwmaChoice.GetInteger draws k
             < Z.of_nat (length (PeakEwma.m_backends st))) ->
  exists b1 b2 a st',
    PeakEwma.m_backends st !! Z.to_nat (PeakEwmaChoice.GetInteger draws 0)
    = Some b1
    /\ PeakEwma.m_backends st
         !! Z.to_nat (PeakEwmaChoice.second_index draws
                        (PeakEwmaChoice.GetInteger draws 0) 10 1)
       = Some b2
    /\ PeakEwmaChoice.ChooseBackend nowNs draws st = Some (Some a, st')
    /\ (a = address b1 \/ a = address b2)
    /\ fst (PeakEwmaChoice.load_at nowNs a st)
       = Rmin (fst (PeakEwmaChoice.load_at nowNs (address b1) st))
              (fst (PeakEwmaChoice.load_at nowNs (address b2) st))
    /\ PeakEwma.m_backends st' = PeakEwma.m_backends st
    /\ forall x,
         PeakEwma.m_pending <$> (PeakEwma.m_backendMetrics st' !! x)
         = PeakEwma.m_pending <$> (PeakEwma.m_backendMetrics st !! x).
Proof.
  intros Hne Hdraws.
  set (idx1 := PeakEwmaChoice.GetInteger draws 0).
  set (idx2 := PeakEwmaChoice.second_index draws idx1 10 1).
  assert (H1 : 0 <= idx1 < Z.of_nat (length (PeakEwma.m_backends st)))
    by apply Hdraws.
  assert (H2 : 0 <= idx2 < Z.of_nat (length (PeakEwma.m_backends st))).
  { destruct (second_index_cases draws idx1 10 1) as [E|(j & E)];
      fold idx2 in E; rewrite E; [exact H1|apply Hdraws]. }
  destruct (lookup_lt_is_Some_2 (PeakEwma.m_backends st) (Z.to_nat idx1)
              ltac:(lia)) as (b1 & Hb1).
  destruct (lookup_lt_is_Some_2 (PeakEwma.m_backends st) (Z.to_nat idx2)
              ltac:(lia)) as (b2 & Hb2).
  pose proof Hb1 as Kb1. pose proof Hb2 as Kb2.
  exists b1, b2. unfold PeakEwmaChoice.ChooseBackend. fold idx1 idx2.
  destruct (PeakEwma.m_backends st) as [|b0 [|b0' rest]] eqn:Hbks;
    [congruence| |].
  - (* one backend: both draws are 0 *)
    cbn [length] in H1, H2.
    assert (idx1 = 0) by lia.
    assert (idx2 = 0) by lia.
    replace (Z.to_nat idx1) with 0%nat in Hb1 by lia.
    replace (Z.to_nat idx2) with 0%nat in Hb2 by lia.
    cbn in Hb1, Hb2. injection Hb1 as <-. injection Hb2 as <-.
    eexists _, _. split; [first [exact Kb1|reflexivity]|].
        split; [first [exact Kb2|reflexivity]|].
    split; [reflexivity|]. split; [now left|].
    split; [unfold Rmin; now destruct (Rle_dec _ _)|].
    split; [now rewrite load_at_backends|]. intros x. apply load_at_pending.
  - destruct (Z.eqb_spec idx1 idx2) as [E|NE].
    + rewrite Hb1. cbn [mbind option_bind].
      rewrite <- E, Hb1 in Hb2. injection Hb2 as <-.
      eexists _, _. split; [first [exact Kb1|reflexivity]|].
        split; [first [exact Kb2|reflexivity]|].
      split; [reflexivity|]. split; [now left|].
      split; [unfold Rmin; now destruct (Rle_dec _ _)|].
      split; [now rewrite load_at_backends|]. intros x. apply load_at_pending.
    + rewrite Hb1. cbn [mbind option_bind].
      rewrite Hb2. cbn [mbind option_bind].
      pose proof (load_at_after nowNs (address b1) (address b2) st) as Hl2.
      pose proof (load_at_backends nowNs (address b1) st) as Hk1.
      pose proof (load_at_pending nowNs (address b1)) as Hp1.
      destruct (PeakEwmaChoice.load_at nowNs (address b1) st)
        as [load1 st1] eqn:E1.
      cbn [fst snd] in Hl2, Hk1, Hp1.
      pose proof (load_at_backends nowNs (address b2) st1) as Hk2.
      pose proof (load_at_pending nowNs (address b2)) as Hp2.
      destruct (PeakEwmaChoice.load_at nowNs (address b2) st1)
        as [load2 st2] eqn:E2.
      cbn [fst snd] in Hl2, Hk2, Hp2.
      rewrite Hk2, Hk1, Hbks. rewrite <- Hl2.
      assert (Hpend : forall x,
                PeakEwma.m_pending <$> (PeakEwma.m_backendMetrics st2 !! x)
                = PeakEwma.m_pending <$> (PeakEwma.m_backendMetrics st !! x)).
      { intros x. specialize (Hp2 x st1). rewrite E2 in Hp2.
        specialize (Hp1 x st). rewrite E1 in Hp1. cbn [snd] in *.
        congruence. }
      unfold Rmin.
      assert (Hfin : forall a,
                (a = address b1 /\ load1 <= load2)%R
                \/ (a = address b2 /\ load2 <= load1)%R ->
                fst (PeakEwmaChoice.load_at nowNs a st)
                = if Rle_dec load1 load2 then load1 else load2).
      { intros a [[-> Hle]|[-> Hle]].
        - rewrite E1. cbn [fst].
          destruct (Rle_dec load1 load2); [reflexivity|lra].
        - rewrite <- Hl2. destruct (Rle_dec load1 load2); lra. }
      destruct (Rlt_dec load1 load2) as [L12|N12];
        [|destruct (Rlt_dec load2 load1) as [L21|N21];
          [|destruct (PeakEwmaChoice.GetValue_lt_half draws)]].
      * rewrite Hb1. cbn [mbind option_bind].
        eexists _, _. split; [reflexivity|]. split; [reflexivity|].
        split; [reflexivity|]. split; [now left|].
        split; [|split; [congruence|exact Hpend]].
        apply Hfin. left. split; [reflexivity|lra].
      * rewrite Hb2. cbn [mbind option_bind].
        eexists _, _. split; [reflexivity|]. split; [reflexivity|].
        split; [reflexivity|]. split; [now right|].
        split; [|split; [congruence|exact Hpend]].
        apply Hfin. right. split; [reflexivity|lra].
      * rewrite Hb1. cbn [mbind option_bind].
        eexists _, _. split; [reflexivity|]. split; [reflexivity|].
        split; [reflexivity|]. split; [now left|].
        split; [|split; [congruence|exact Hpend]].
        apply Hfin. left. split; [reflexivity|lra].
      * rewrite Hb2. cbn [mbind option_bind].
        eexists _, _. split; [reflexivity|]. split; [reflexivity|].
        split; [reflexivity|]. split; [now right|].
        split; [|split; [congruence|exact Hpend]].
        apply Hfin. right. split; [reflexivity|lra].
Qed.

Lemma peak_ewma_chooses_lower_load_witness :
  let a : InetSocketAddress := (167772161, 9) in
  let b : InetSocketAddress := (167772162, 9) in
  let st := PeakEwma.SetBackends 0 [(a, 1); (b, 2)]
              (PeakEwma.mkState [] 10 ∅) in
  let draws := PeakEwmaChoice.mkDraws
                 (fun k => match k with O => 0 | _ => 1 end) true in
  exists b1 b2 c st',
    PeakEwma.m_backends st !! Z.to_nat (PeakEwmaChoice.GetInteger draws 0)
    = Some b1
    /\ PeakEwma.m_backends st
         !! Z.to_nat (PeakEwmaChoice.second_index draws
                        (PeakEwmaChoice.GetInteger draws 0) 10 1)
       = Some b2
    /\ PeakEwmaChoice.ChooseBackend 5 draws st = Some (Some c, st')
    /\ (c = address b1 \/ c = address b2)
    /\ fst (PeakEwmaChoice.load_at 5 c st)
       = Rmin (fst (PeakEwmaChoice.load_at 5 (address b1) st))
              (fst (PeakEwmaChoice.load_at 5 (address b2) st))
    /\ PeakEwma.m_backends st' = PeakEwma.m_backends st
    /\ forall x,
         PeakEwma.m_pending <$> (PeakEwma.m_backendMetrics st' !! x)
         = PeakEwma.m_pending <$> (PeakEwma.m_backendMetrics st !! x).
Proof.
  intros a b st draws.
  apply (peak_ewma_chooses_lower_load 5 draws st).
  - discriminate.
  - intros [|k]; cbn; lia.
Defined.

(** ** Least-request: the choice of a backend *)

Section LeastRequestChoiceFacts.
Import LeastRequest LeastRequestChoice.

Lemma CheckIfWeightsAreEqual_spec (bks : list BackendInfo) :
  CheckIfWeightsAreEqual bks = true
  <-> forall b b', In b bks -> In b' bks -> weight b = weight b'.
Proof.
  destruct bks as [|x [|y rest]].
  - cbn. split; [intros _ b b' []|reflexivity].
  - cbn. split; [|reflexivity]. intros _ b b' [<-|[]] [<-|[]]. reflexivity.
  - unfold CheckIfWeightsAreEqual. rewrite forallb_forall. split.
    + intros Hall b b' Hb Hb'.
      assert (Hx : forall c, In c (x :: y :: rest) -> weight c = weight x).
      { intros c [<-|Hc]; [reflexivity|]. apply Z.eqb_eq. now apply Hall. }
      now rewrite (Hx b Hb), (Hx b' Hb').
    + intros Hall c Hc. apply Z.eqb_eq. apply Hall; [now right|now left].
Qed.

Lemma lr_second_index_cases (draws : Draws) (idx1 : Z) (left k : nat) :
  second_index draws idx1 left k = idx1
  \/ exists j, second_index draws idx1 left k = GetInteger draws j.
Proof.
  revert k. induction left as [|left IH]; intros k; cbn [second_index];
    [now left|].
  destruct (GetInteger draws k =? idx1); [apply IH|right; eauto].
Qed.

Lemma lr_second_index_range (draws : Draws) (n : Z) :
  (forall k, 0 <= GetInteger draws k < n) ->
  0 <= second_index draws (GetInteger draws 0) 10 1 < n.
Proof.
  intros Hd.
  destruct (lr_second_index_cases draws (GetInteger draws 0) 10 1)
    as [E|(j & E)]; rewrite E; apply Hd.
Qed.

Lemma fewer_requests_cases (draws : Draws) (r1 r2 : Z) (i1 i2 : nat) :
  (fewer_requests draws r1 r2 i1 i2 = i1 /\ r1 <= r2)
  \/ (fewer_requests draws r1 r2 i1 i2 = i2 /\ r2 <= r1).
Proof.
  unfold fewer_requests.
  destruct (Z.ltb_spec r1 r2); [left; split; [reflexivity|lia]|].
  destruct (Z.ltb_spec r2 r1); [right; split; [reflexivity|lia]|].
  destruct (GetValue_lt_half draws); [left|right]; split;
    try reflexivity; lia.
Qed.

Lemma choose_p2c_spec (draws : Draws) (bks : list BackendInfo) :
  bks <> [] ->
  (forall k, 0 <= GetInteger draws k < Z.of_nat (length bks)) ->
  exists b1 b2 b,
    bks !! Z.to_nat (GetInteger draws 0) = Some b1
    /\ bks !! Z.to_nat (second_index draws (GetInteger draws 0) 10 1)
       = Some b2
    /\ choose_p2c draws bks = Some (Some (address b))
    /\ (b = b1 \/ b = b2)
    /\ activeRequests b = Z.min (activeRequests b1) (activeRequests b2).
Proof.
  intros Hne Hdraws.
  pose proof (Hdraws O) as H1.
  pose proof (lr_second_index_range draws _ Hdraws) as H2.
  set (idx1 := GetInteger draws 0) in *.
  set (idx2 := second_index draws idx1 10 1) in *.
  destruct (lookup_lt_is_Some_2 bks (Z.to_nat idx1) ltac:(lia)) as (b1 & Hb1).
  destruct (lookup_lt_is_Some_2 bks (Z.to_nat idx2) ltac:(lia)) as (b2 & Hb2).
  exists b1, b2. unfold choose_p2c. fold idx1 idx2.
  destruct bks as [|b0 [|b0' rest]]; [congruence| |].
  - cbn [length] in H1, H2.
    replace (Z.to_nat idx1) with 0%nat in Hb1 by lia.
    replace (Z.to_nat idx2) with 0%nat in Hb2 by lia.
    cbn in Hb1, Hb2. injection Hb1 as <-. injection Hb2 as <-.
    exists b0. repeat split; auto.
    + replace (Z.to_nat idx1) with 0%nat by lia. reflexivity.
    + replace (Z.to_nat idx2) with 0%nat by lia. reflexivity.
    + lia.
  - destruct (Z.eqb_spec idx1 idx2) as [E|NE].
    + exists b1. rewrite Hb1. cbn [mbind option_bind].
      rewrite <- E, Hb1 in Hb2. injection Hb2 as <-.
      rewrite <- E, Hb1.
      repeat split; auto. lia.
    + rewrite Hb1. cbn [mbind option_bind].
      rewrite Hb2. cbn [mbind option_bind].
      destruct (fewer_requests_cases draws (activeRequests b1)
                  (activeRequests b2) (Z.to_nat idx1) (Z.to_nat idx2))
        as [[-> Hle]|[-> Hle]].
      * exists b1. rewrite Hb1. cbn [mbind option_bind].
        repeat split; auto. lia.
      * exists b2. rewrite Hb2. cbn [mbind option_bind].
        repeat split; auto. lia.
Qed.

Lemma eligibleIndices_spec (bks : list BackendInfo) (i : nat) :
  i ∈ eligibleIndices bks
  <-> exists b, bks !! i = Some b /\ weight b <> 0.
Proof.
  unfold eligibleIndices. rewrite list_elem_of_fmap. split.
  - intros ([j b] & -> & Hin). apply list_elem_of_filter in Hin as [Hw Hin].
    apply elem_of_lookup_imap in Hin as (k & y & [= -> ->] & Hk).
    exists y. auto.
  - intros (b & Hb & Hw). exists (i, b). split; [reflexivity|].
    apply list_elem_of_filter. split; [exact Hw|].
    apply elem_of_lookup_imap. eauto.
Qed.

Lemma pick_weighted_elem (eff : nat -> R) (pick sum : R) (l : list nat)
    (i : nat) :
  pick_weighted eff pick sum l = Some i -> i ∈ l.
Proof.
  revert sum. induction l as [|x l IH]; intros sum; cbn [pick_weighted];
    [discriminate|].
  destruct (Rle_dec pick (sum + eff x)).
  - intros [= <-]. left.
  - intros Hp. right. now apply IH with (sum + eff x)%R.
Qed.

Lemma last_elem (l : list nat) (d : nat) : List.last (d :: l) d ∈ d :: l.
Proof.
  generalize d at 1 3. induction l as [|x l IH]; intros d'; [left|].
  change (List.last (d' :: x :: l) d) with (List.last (x :: l) d).
  right. destruct l as [|y l]; [left|].
  specialize (IH x). exact IH.
Qed.

Lemma choose_weighted_spec (bias : R) (draws : Draws)
    (bks : list BackendInfo) :
  eligibleIndices bks <> [] ->
  (forall k, 0 <= GetInteger draws k
             < Z.of_nat (length (eligibleIndices bks))) ->
  exists b, In b bks /\ weight b <> 0
            /\ choose_weighted bias draws bks = Some (Some (address b)).
Proof.
  intros Hne Hdraws.
  assert (Hpick : forall i, i ∈ eligibleIndices bks ->
            exists b, In b bks /\ weight b <> 0
                      /\ (bks !! i ≫= fun b => Some (Some (address b)))
                         = Some (Some (address b))).
  { intros i Hi. apply eligibleIndices_spec in Hi as (b & Hb & Hw).
    exists b. rewrite Hb. repeat split; auto.
    apply list_elem_of_In. eapply list_elem_of_lookup_2; eauto. }
  unfold choose_weighted.
  destruct (eligibleIndices bks) as [|first others] eqn:Hel; [congruence|].
  destruct (Rle_dec _ _).
  - destruct others as [|second others'].
    + apply Hpick. left.
    + pose proof (Hdraws O) as H1.
      pose proof (lr_second_index_range draws _ Hdraws) as H2.
      set (pos1 := GetInteger draws 0) in *.
      set (pos2 := second_index draws pos1 10 1) in *.
      destruct (lookup_lt_is_Some_2 (first :: second :: others')
                  (Z.to_nat pos1) ltac:(lia)) as (i1 & Hi1).
      destruct (lookup_lt_is_Some_2 (first :: second :: others')
                  (Z.to_nat pos2) ltac:(lia)) as (i2 & Hi2).
      pose proof (list_elem_of_lookup_2 _ _ _ Hi1) as Hin1.
      pose proof (list_elem_of_lookup_2 _ _ _ Hi2) as Hin2.
      destruct (pos1 =? pos2).
      * rewrite Hi1. cbn [mbind option_bind]. now apply Hpick.
      * rewrite Hi1. cbn [mbind option_bind].
        rewrite Hi2. cbn [mbind option_bind].
        rewrite <- Hel in Hin1, Hin2.
        pose proof Hin1 as Hb1. pose proof Hin2 as Hb2.
        apply eligibleIndices_spec in Hb1 as (b1 & Hb1 & _).
        apply eligibleIndices_spec in Hb2 as (b2 & Hb2 & _).
        rewrite Hb1. cbn [mbind option_bind].
        rewrite Hb2. cbn [mbind option_bind].
        rewrite Hel in Hin1, Hin2.
        destruct (fewer_requests_cases draws (activeRequests b1)
                    (activeRequests b2) i1 i2) as [[-> _]|[-> _]];
          now apply Hpick.
  - apply Hpick.
    destruct (pick_weighted _ _ _ _) as [i|] eqn:Hp.
    + now apply pick_weighted_elem in Hp.
    + apply last_elem.
Qed.

End LeastRequestChoiceFacts.

(** X11.  Least-request with equal weights is power of two choices on the
    active-request counts: with the generator's draws inside the
    registry, [ChooseBackend] succeeds on a non-empty registry and
    returns one of the two drawn candidates, one whose [activeRequests]
    is the smaller of the two.  The weights are not looked at, so a
    registry of zero-weight backends is served too. *)
Theorem least_request_equal_weights_choose_fewer (bias : R)
    (draws : LeastRequestChoice.Draws) (st : LeastRequest.state) :
  LeastRequest.m_backends st <> [] ->
  LeastRequest.m_weightsAreEqual st = true ->
  (forall k, 0 <= LeastRequestChoice.GetInteger draws k
             < Z.of_nat (length (LeastRequest.m_backends st))) ->
  exists b1 b2 b,
    LeastRequest.m_backends st
      !! Z.to_nat (LeastRequestChoice.GetInteger draws 0) = Some b1
    /\ LeastRequest.m_backends st
         !! Z.to_nat (LeastRequestChoice.second_index draws
                        (LeastRequestChoice.GetInteger draws 0) 10 1)
       = Some b2
    /\ LeastRequestChoice.ChooseBackend bias draws st
       = Some (Some (address b))
    /\ (b = b1 \/ b = b2)
    /\ activeRequests b = Z.min (activeRequests b1) (activeRequests b2).
Proof.
  intros Hne Heq Hdraws. unfold LeastRequestChoice.ChooseBackend.
  rewrite Heq.
  destruct (choose_p2c_spec draws _ Hne Hdraws)
    as (b1 & b2 & b & H1 & H2 & H3 & H4 & H5).
  exists b1, b2, b.
  destruct (LeastRequest.m_backends st); [congruence|]. auto.
Qed.

Lemma least_request_equal_weights_choose_fewer_witness :
  let a : InetSocketAddress := (167772161, 9) in
  let b : InetSocketAddress := (167772162, 9) in
  let st := LeastRequest.NotifyRequestSent a
              (LeastRequest.SetBackends [(a, 0); (b, 0)] LeastRequest.init) in
  let draws := LeastRequestChoice.mkDraws
                 (fun k => match k with O => 0 | _ => 1 end) true
                 (fun _ => 0%R) in
  LeastRequestChoice.ChooseBackend 1 draws st = Some (Some b)
  /\ exists b1 b2 c,
    LeastRequest.m_backends st
      !! Z.to_nat (LeastRequestChoice.GetInteger draws 0) = Some b1
    /\ LeastRequest.m_backends st
         !! Z.to_nat (LeastRequestChoice.second_index draws
                        (LeastRequestChoice.GetInteger draws 0) 10 1)
       = Some b2
    /\ LeastRequestChoice.ChooseBackend 1 draws st
       = Some (Some (address c))
    /\ (c = b1 \/ c = b2)
    /\ activeRequests c = Z.min (activeRequests b1) (activeRequests b2).
Proof.
  intros a b st draws. split; [reflexivity|].
  apply (least_request_equal_weights_choose_fewer 1 draws st).
  - discriminate.
  - reflexivity.
  - intros [|k]; vm_compute; (split; [discriminate|reflexivity]).
Defined.

(** X12.  Least-request with unequal weights never selects a backend of
    weight 0 and never fails: whichever way the choice is made (weighted
    random pick, its fallback to the last eligible backend, or power of
    two choices when the total effective weight is about zero) the
    backend returned is a registered one of non-zero weight. *)
Theorem least_request_unequal_weights_skip_zero_weight (bias : R)
    (draws : LeastRequestChoice.Draws) (st : LeastRequest.state) :
  LeastRequest.m_weightsAreEqual st = false ->
  LeastRequest.CheckIfWeightsAreEqual (LeastRequest.m_backends st) = false ->
  (forall k, 0 <= LeastRequestChoice.GetInteger draws k
             < Z.of_nat (length (LeastRequestChoice.eligibleIndices
                                   (LeastRequest.m_backends st)))) ->
  exists b,
    In b (LeastRequest.m_backends st) /\ weight b <> 0
    /\ LeastRequestChoice.ChooseBackend bias draws st
       = Some (Some (address b)).
Proof.
  intros Hflag Hcheck Hdraws. unfold LeastRequestChoice.ChooseBackend.
  rewrite Hflag.
  assert (Hne : LeastRequestChoice.eligibleIndices (LeastRequest.m_backends st)
                <> []).
  { intros Hnil.
    assert (Hall : forall b, In b (LeastRequest.m_backends st) ->
                     weight b = 0).
    { intros b Hb. destruct (decide (weight b = 0)) as [|Hw]; [assumption|].
      apply list_elem_of_In, list_elem_of_lookup in Hb as (i & Hi).
      assert (Hin : i ∈ LeastRequestChoice.eligibleIndices
                          (LeastRequest.m_backends st))
        by (apply eligibleIndices_spec; eauto).
      rewrite Hnil in Hin. inversion Hin. }
    assert (LeastRequest.CheckIfWeightsAreEqual (LeastRequest.m_backends st)
            = true); [|congruence].
    apply CheckIfWeightsAreEqual_spec. intros b b' Hb Hb'.
    now rewrite (Hall b Hb), (Hall b' Hb'). }
  destruct (choose_weighted_spec bias draws _ Hne Hdraws) as (b & Hb).
  exists b. destruct (LeastRequest.m_backends st) eqn:E; [|exact Hb].
  now destruct Hne.
Qed.

Lemma least_request_unequal_weights_skip_zero_weight_witness :
  let a : InetSocketAddress := (167772161, 9) in
  let b : InetSocketAddress := (167772162, 9) in
  let st := LeastRequest.SetBackends [(a, 0); (b, 3)] LeastRequest.init in
  let draws := LeastRequestChoice.mkDraws (fun _ => 0) true (fun _ => 0%R) in
  exists c,
    In c (LeastRequest.m_backends st) /\ weight c <> 0
    /\ LeastRequestChoice.ChooseBackend 1 draws st
       = Some (Some (address c)).
Proof.
  intros a b st draws.
  apply (least_request_unequal_weights_skip_zero_weight 1 draws st).
  - reflexivity.
  - reflexivity.
  - intros k. vm_compute. split; [discriminate|reflexivity].
Defined.

(** X13.  [CheckIfWeightsAreEqual] sets the flag exactly when all
    registered weights are the same (in particular for an empty registry
    and for a single backend), and [SetBackends] and [AddBackend] leave
    the flag in agreement with the registry. *)
Theorem least_request_equal_weights_flag :
  (forall bks,
     LeastRequest.CheckIfWeightsAreEqual bks = true
     <-> forall b b', In b bks -> In b' bks -> weight b = weight b')
  /\ (forall l st,
        LeastRequest.m_weightsAreEqual (LeastRequest.SetBackends l st)
        = LeastRequest.CheckIfWeightsAreEqual
            (LeastRequest.m_backends (LeastRequest.SetBackends l st)))
  /\ (forall a w st,
        LeastRequest.m_weightsAreEqual (LeastRequest.AddBackend a w st)
        = LeastRequest.CheckIfWeightsAreEqual
            (LeastRequest.m_backends (LeastRequest.AddBackend a w st))).
Proof.
  split; [apply CheckIfWeightsAreEqual_spec|]. split; reflexivity.
Qed.

(** ** Ring hash *)

Section RingHashFacts.
Import RingHashRing.
Variable m_hasher : string -> Z.
Variable addr_str : InetSocketAddress -> string.
Variable rounded_share : Z -> Z -> Z -> Z.

Lemma count_weights_fold (bks : list BackendInfo) :
  forall t c, 0 <= t -> 0 <= c -> c + Z.of_nat (length bks) < 2 ^ 32 ->
    let r := fold_left (fun (acc : Z * Z) backendInfo =>
                          if 0 <? weight backendInfo
                          then (fst acc + weight backendInfo, u32 (snd acc + 1))
                          else acc) bks (t, c) in
    t <= fst r /\ c <= snd r <= c + Z.of_nat (length bks)
    /\ ((exists b, In b bks /\ 0 < weight b) -> t < fst r /\ c < snd r)
    /\ ((forall b, In b bks -> ~ 0 < weight b) -> r = (t, c)).
Proof.
  induction bks as [|x bks IH]; intros t c Ht Hc Hlen; cbn [fold_left].
  - cbn. split; [lia|]. split; [lia|]. split; [|reflexivity].
    intros (b & [] & _).
  - cbn [length] in Hlen |- *. cbn [fst snd].
    destruct (Z.ltb_spec 0 (weight x)) as [Hpos|Hnpos].
    + assert (Hu : u32 (c + 1) = c + 1) by (apply u32_small; lia).
      rewrite Hu.
      destruct (IH (t + weight x) (c + 1)) as (H1 & H2 & H3 & H4); try lia.
      cbn zeta in *. split; [lia|]. split; [lia|]. split; [lia|].
      intros Hall. exfalso. apply (Hall x); [now left|exact Hpos].
    + destruct (IH t c) as (H1 & H2 & H3 & H4); try lia.
      cbn zeta in *. split; [lia|]. split; [lia|]. split.
      * intros (b & [<-|Hb] & Hw); [lia|]. apply H3. eauto.
      * intros Hall. apply H4. intros b Hb. apply Hall. now right.
Qed.

Lemma count_weights_spec (bks : list BackendInfo) :
  Z.of_nat (length bks) < 2 ^ 32 ->
  ((exists b, In b bks /\ 0 < weight b) ->
     0 < fst (count_weights bks) /\ 0 < snd (count_weights bks))
  /\ ((forall b, In b bks -> ~ 0 < weight b) -> count_weights bks = (0, 0)).
Proof.
  intros Hlen. unfold count_weights.
  destruct (count_weights_fold bks 0 0) as (_ & _ & H3 & H4); try lia.
  auto.
Qed.


Lemma insert_points_owned (bks : list BackendInfo) (b : BackendInfo)
    (points : list Z) :
  In b bks -> weight b <> 0 ->
  forall ring, owned bks ring ->
    owned bks (fold_left (fun r h => <[h := address b]> r) points ring).
Proof.
  intros Hb Hw. induction points as [|p points IH]; intros ring Hr;
    cbn [fold_left]; [exact Hr|].
  apply IH. intros k a. destruct (decide (k = p)) as [->|Hne].
  - rewrite lookup_insert_eq. intros [= <-]. eauto.
  - rewrite lookup_insert_ne by congruence. apply Hr.
Qed.

Lemma insert_points_non_empty (a : InetSocketAddress) (points : list Z) :
  forall ring : gmap Z InetSocketAddress,
    ring <> ∅ \/ points <> [] ->
    fold_left (fun r h => <[h := a]> r) points ring <> ∅.
Proof.
  induction points as [|p points IH]; intros ring Hne; cbn [fold_left].
  - destruct Hne; congruence.
  - apply IH. left. apply insert_non_empty.
Qed.

Lemma add_host_owned (bks : list BackendInfo) (target total : Z)
    (b : BackendInfo) (ring : gmap Z InetSocketAddress) :
  In b bks -> owned bks ring ->
  owned bks (add_host m_hasher addr_str rounded_share target total ring b).
Proof.
  intros Hb Hr. unfold add_host.
  destruct (Z.eqb_spec (weight b) 0); [exact Hr|].
  now apply insert_points_owned.
Qed.

Lemma add_host_non_empty (target total : Z) (b : BackendInfo)
    (ring : gmap Z InetSocketAddress) :
  ring <> ∅ \/ weight b <> 0 ->
  add_host m_hasher addr_str rounded_share target total ring b <> ∅.
Proof.
  intros Hne. unfold add_host.
  destruct (Z.eqb_spec (weight b) 0) as [E|NE]; [destruct Hne; congruence|].
  apply insert_points_non_empty. right. unfold virtual_nodes.
  set (n := Z.max 1 _). assert (Hn : 1 <= n) by (unfold n; lia).
  destruct (Z.to_nat n) as [|k] eqn:E; [lia|]. discriminate.
Qed.

Lemma fold_add_host (bks : list BackendInfo) (target total : Z) :
  forall (some : list BackendInfo) (ring : gmap Z InetSocketAddress),
    (forall b, In b some -> In b bks) -> owned bks ring ->
    let r := fold_left
               (add_host m_hasher addr_str rounded_share target total)
               some ring in
    owned bks r
    /\ ((ring <> ∅ \/ exists b, In b some /\ weight b <> 0) -> r <> ∅).
Proof.
  induction some as [|x some IH]; intros ring Hsub Hr; cbn [fold_left].
  - split; [exact Hr|]. intros [H|(b & [] & _)]. exact H.
  - destruct (IH (add_host m_hasher addr_str rounded_share target total
                           ring x)) as (Ho & Hne).
    + intros b Hb. apply Hsub. now right.
    + apply add_host_owned; [apply Hsub; now left|exact Hr].
    + split; [exact Ho|]. intros Hsome. apply Hne.
      destruct Hsome as [H|(b & [<-|Hb] & Hw)].
      * left. apply add_host_non_empty. now left.
      * left. apply add_host_non_empty. now right.
      * right. eauto.
Qed.

Lemma RecalculateRing_ring (o : object) :
  let o' := RecalculateRing m_hasher addr_str rounded_share o in
  let bks := RingHash.m_backends (core o) in
  RingHash.m_backends (core o') = bks
  /\ owned bks (RingHash.m_ring (core o'))
  /\ (Z.of_nat (length bks) < 2 ^ 32 ->
      (RingHash.m_ring (core o') = ∅
       <-> forall b, In b bks -> ~ 0 < weight b)).
Proof.
  intros o' bks. subst o'. unfold RecalculateRing. fold bks.
  assert (Hempty : owned bks ∅)
    by (intros k a; rewrite lookup_empty; discriminate).
  destruct bks as [|b0 rest] eqn:Hbks.
  { cbn. split; [reflexivity|]. split; [exact Hempty|].
    intros _. split; [intros _ b []|reflexivity]. }
  rewrite <- Hbks in *. clear Hbks b0 rest.
  destruct (adjust_sizes _ _) as [mn mx].
  pose proof (count_weights_spec bks) as Hcount.
  destruct (count_weights bks) as [total count] eqn:Hcw. cbn [fst snd] in *.
  destruct ((total <=? 0) || (count =? 0)) eqn:Htest.
  - cbn [core RingHash.m_backends RingHash.m_ring].
    split; [reflexivity|]. split; [exact Hempty|].
    intros Hlen. split; [|reflexivity]. intros _ b Hb Hpos.
    destruct (Hcount Hlen) as (Hsome & _).
    destruct Hsome as [Ht Hc]; [eauto|].
    apply orb_true_iff in Htest as [H|H]; [apply Z.leb_le in H|
                                           apply Z.eqb_eq in H]; lia.
  - cbn [core RingHash.m_backends RingHash.m_ring].
    destruct (fold_add_host bks (Z.min mx (Z.max mn
                (u32 (count * DefaultHashesPerHost)))) total bks ∅)
      as (Ho & Hne); [auto|exact Hempty|].
    split; [reflexivity|]. split; [exact Ho|].
    intros Hlen. destruct (Hcount Hlen) as (_ & Hnone).
    split.
    + intros Hr b Hb Hpos. apply Hne; [|exact Hr].
      right. exists b. split; [exact Hb|lia].
    + intros Hall. pose proof (Hnone Hall) as E. injection E as -> ->.
      discriminate Htest.
Qed.

(** The entries of the ring in key order and the lookup. *)
Lemma ring_points_elem (ring : gmap Z InetSocketAddress) (k : Z)
    (a : InetSocketAddress) :
  (k, a) ∈ ring_points ring <-> ring !! k = Some a.
Proof.
  unfold ring_points. rewrite merge_sort_Permutation.
  apply elem_of_map_to_list.
Qed.

Lemma ring_points_sorted (ring : gmap Z InetSocketAddress) :
  StronglySorted point_le (ring_points ring).
Proof.
  apply StronglySorted_merge_sort.
  - intros x y z. unfold point_le. lia.
  - intros x y. unfold point_le. lia.
Qed.

Lemma head_filter_sorted (P : Z * InetSocketAddress -> Prop)
    `{!forall x, Decision (P x)} (l : list (Z * InetSocketAddress)) :
  StronglySorted point_le l ->
  match head (filter P l) with
  | Some x => x ∈ l /\ P x /\ forall y, y ∈ l -> P y -> x.1 <= y.1
  | None => forall y, y ∈ l -> ~ P y
  end.
Proof.
  induction 1 as [|x l Hs IH Hall]; [cbn; intros y Hy; inversion Hy|].
  rewrite filter_cons. destruct (decide (P x)) as [Hp|Hnp].
  - cbn [head]. split; [left|]. split; [exact Hp|].
    intros y Hy _. apply elem_of_cons in Hy as [->|Hy]; [lia|].
    rewrite Forall_forall in Hall. apply (Hall y).
    first [exact Hy | now apply list_elem_of_In].
  - destruct (head (filter P l)) as [z|].
    + destruct IH as (Hz & Hpz & Hmin). split; [now right|].
      split; [exact Hpz|]. intros y Hy Hpy.
      apply elem_of_cons in Hy as [->|Hy]; [contradiction|].
      now apply Hmin.
    + intros y Hy. apply elem_of_cons in Hy as [->|Hy]; [exact Hnp|].
      now apply IH.
Qed.

Lemma ChooseBackend_successor (context l7Identifier : Z) (o : object) :
  RingHash.m_ring (core o) <> ∅ ->
  let ring := RingHash.m_ring (core o) in
  let h := m_hasher (pretty (Z.to_N l7Identifier)) in
  exists k a,
    ChooseBackend m_hasher context l7Identifier o = Some a
    /\ ring !! k = Some a
    /\ ((h <= k /\ forall k', is_Some (ring !! k') -> h <= k' -> k <= k')
        \/ ((forall k', is_Some (ring !! k') -> k' < h)
            /\ forall k', is_Some (ring !! k') -> k <= k')).
Proof.
  intros Hne ring h. unfold ChooseBackend. fold ring h.
  rewrite decide_False by exact Hne. unfold lower_bound.
  pose proof (head_filter_sorted (fun kv => h <= kv.1) (ring_points ring)
                (ring_points_sorted ring)) as Hlb.
  destruct (head (filter _ (ring_points ring))) as [[k a]|].
  - destruct Hlb as (Hin & Hge & Hmin). cbn [fst snd] in *.
    exists k, a. split; [reflexivity|].
    split; [now apply ring_points_elem|]. left. split; [exact Hge|].
    intros k' (a' & Hk') Hk. apply (Hmin (k', a')); [|exact Hk].
    now apply ring_points_elem.
  - pose proof (head_filter_sorted (fun _ => True) (ring_points ring)
                  (ring_points_sorted ring)) as Hfirst.
    assert (Hall : filter (fun _ : Z * InetSocketAddress => True)
                          (ring_points ring) = ring_points ring).
    { generalize (ring_points ring). clear.
      induction l as [|x l IHl]; [reflexivity|].
      rewrite filter_cons, decide_True by exact I. now rewrite IHl. }
    rewrite Hall in Hfirst.
    destruct (head (ring_points ring)) as [[k a]|] eqn:Hhead.
    + destruct Hfirst as (Hin & _ & Hmin). cbn [fst snd] in *.
      exists k, a. split; [reflexivity|].
      split; [now apply ring_points_elem|]. right. split.
      * intros k' (a' & Hk').
        assert (Hk : (k', a') ∈ ring_points ring)
          by now apply ring_points_elem.
        specialize (Hlb _ Hk). cbn in Hlb. lia.
      * intros k' (a' & Hk'). apply (Hmin (k', a')); [|exact I].
        now apply ring_points_elem.
    + exfalso. apply Hne. apply map_empty. intros k.
      destruct (ring !! k) as [a|] eqn:Hk; [|exact Hk].
      apply ring_points_elem in Hk.
      destruct (ring_points ring); [inversion Hk|discriminate].
Qed.

Lemma ring_fallback_none (context : Z) (bks : list BackendInfo) :
  0 <= context < 2 ^ 32 ->
  (forall b, In b bks -> ~ 0 < weight b) ->
  fallback context bks = None.
Proof.
  intros Hctx Hall.
  change (fallback context bks)
    with (Maglev.fallback context (Maglev.mkState bks 0 [] false)).
  now apply fallback_none_iff.
Qed.

(** X14.  Ring hash: what [RecalculateRing] (the last step of [SetBackends]
    and of both [AddBackend]) builds.  The registry is left as it is,
    every point of the ring belongs to a registered backend of non-zero
    weight, and, the counter of positive weights being a [uint32_t], for
    fewer than [2^32] backends the ring is empty exactly when no backend
    has a positive weight.  This holds for every hash function and every
    rounding of the shares. *)
Theorem ring_hash_ring_holds_weighted_backends (o : object) :
  Z.of_nat (length (RingHash.m_backends (core o))) < 2 ^ 32 ->
  let o' := RecalculateRing m_hasher addr_str rounded_share o in
  let bks := RingHash.m_backends (core o) in
  RingHash.m_backends (core o') = bks
  /\ (forall k a, RingHash.m_ring (core o') !! k = Some a ->
        exists b, In b bks /\ address b = a /\ weight b <> 0)
  /\ (RingHash.m_ring (core o') = ∅
      <-> forall b, In b bks -> ~ 0 < weight b).
Proof.
  intros Hlen o' bks.
  destruct (RecalculateRing_ring o) as (H1 & H2 & H3).
  split; [exact H1|]. split; [exact H2|]. exact (H3 Hlen).
Qed.

(** X15.  Ring hash: on a ring that is not empty [ChooseBackend] returns
    the owner of the first point at or after the hash of the decimal text
    of the identifier, and the owner of the first point of the whole ring
    when the hash lies beyond every point. *)
Theorem ring_hash_choose_takes_next_point (context l7Identifier : Z)
    (o : object) :
  RingHash.m_ring (core o) <> ∅ ->
  let ring := RingHash.m_ring (core o) in
  let h := m_hasher (pretty (Z.to_N l7Identifier)) in
  exists k a,
    ChooseBackend m_hasher context l7Identifier o = Some a
    /\ ring !! k = Some a
    /\ ((h <= k /\ forall k', is_Some (ring !! k') -> h <= k' -> k <= k')
        \/ ((forall k', is_Some (ring !! k') -> k' < h)
            /\ forall k', is_Some (ring !! k') -> k <= k')).
Proof. apply ChooseBackend_successor. Qed.

(** X16.  Ring hash: with fewer than [2^32] backends and a context below
    [2^32], [ChooseBackend] on a freshly built ring succeeds exactly when
    some backend has a positive weight, and the backend returned is then
    a registered one of non-zero weight, whatever the identifier. *)
Theorem ring_hash_choose_after_rebuild (context l7Identifier : Z)
    (o : object) :
  Z.of_nat (length (RingHash.m_backends (core o))) < 2 ^ 32 ->
  0 <= context < 2 ^ 32 ->
  let o' := RecalculateRing m_hasher addr_str rounded_share o in
  let bks := RingHash.m_backends (core o) in
  ((exists b, In b bks /\ 0 < weight b) ->
     exists b, ChooseBackend m_hasher context l7Identifier o'
               = Some (address b)
               /\ In b bks /\ weight b <> 0)
  /\ ((forall b, In b bks -> ~ 0 < weight b) ->
      ChooseBackend m_hasher context l7Identifier o' = None).
Proof.
  intros Hlen Hctx o' bks.
  destruct (RecalculateRing_ring o) as (H1 & H2 & H3).
  specialize (H3 Hlen). fold o' bks in H1, H2, H3. split.
  - intros (b & Hb & Hw).
    assert (Hne : RingHash.m_ring (core o') <> ∅).
    { intros E. destruct H3 as [H3 _]. exact (H3 E b Hb Hw). }
    destruct (ChooseBackend_successor context l7Identifier o' Hne)
      as (k & a & Hch & Hk & _).
    destruct (H2 k a Hk) as (b' & Hb' & <- & Hw').
    exists b'. auto.
  - intros Hall. unfold ChooseBackend.
    rewrite decide_True by (destruct H3 as [_ H3]; exact (H3 Hall)).
    rewrite H1. now apply ring_fallback_none.
Qed.

End RingHashFacts.

Lemma ring_hash_ring_holds_weighted_backends_witness :
  let hash := fun s : string => Z.of_nat (String.length s) in
  let text := fun a : InetSocketAddress => pretty (fst a) in
  let share := fun t w total : Z => t * w / total in
  let o := RingHashRing.mkObject
             (RingHash.mkState
                [mkBackendInfo (167772161, 80) 2 0;
                 mkBackendInfo (167772162, 80) 0 0] ∅) 1024 8388608 in
  let o' := RingHashRing.RecalculateRing hash text share o in
  let bks := RingHash.m_backends (RingHashRing.core o) in
  RingHash.m_backends (RingHashRing.core o') = bks
  /\ (forall k a, RingHash.m_ring (RingHashRing.core o') !! k = Some a ->
        exists b, In b bks /\ address b = a /\ weight b <> 0)
  /\ (RingHash.m_ring (RingHashRing.core o') = ∅
      <-> forall b, In b bks -> ~ 0 < weight b).
Proof.
  intros hash text share o.
  apply (ring_hash_ring_holds_weighted_backends hash text share o).
  cbn. lia.
Defined.

Lemma ring_hash_choose_takes_next_point_witness :
  let hash := fun s : string => Z.of_nat (String.length s) in
  let o := RingHashRing.mkObject
             (RingHash.mkState
                [mkBackendInfo (167772161, 80) 1 0;
                 mkBackendInfo (167772162, 80) 1 0]
                (<[1 := (167772161, 80)]> (<[7 := (167772162, 80)]> ∅)))
             1024 8388608 in
  let ring := RingHash.m_ring (RingHashRing.core o) in
  let h := hash (pretty (Z.to_N 1234)) in
  exists k a,
    RingHashRing.ChooseBackend hash 0 1234 o = Some a
    /\ ring !! k = Some a
    /\ ((h <= k /\ forall k', is_Some (ring !! k') -> h <= k' -> k <= k')
        \/ ((forall k', is_Some (ring !! k') -> k' < h)
            /\ forall k', is_Some (ring !! k') -> k <= k')).
Proof.
  intros hash o.
  apply (ring_hash_choose_takes_next_point hash 0 1234 o).
  apply insert_non_empty.
Defined.

Lemma ring_hash_choose_after_rebuild_witness :
  let hash := fun s : string => Z.of_nat (String.length s) in
  let text := fun a : InetSocketAddress => pretty (fst a) in
  let share := fun t w total : Z => t * w / total in
  let o := RingHashRing.mkObject
             (RingHash.mkState
                [mkBackendInfo (167772161, 80) 2 0;
                 mkBackendInfo (167772162, 80) 0 0] ∅) 1024 8388608 in
  let o' := RingHashRing.RecalculateRing hash text share o in
  let bks := RingHash.m_backends (RingHashRing.core o) in
  ((exists b, In b bks /\ 0 < weight b) ->
     exists b, RingHashRing.ChooseBackend hash 3 1234 o'
               = Some (address b)
               /\ In b bks /\ weight b <> 0)
  /\ ((forall b, In b bks -> ~ 0 < weight b) ->
      RingHashRing.ChooseBackend hash 3 1234 o' = None).
Proof.
  intros hash text share o.
  apply (ring_hash_choose_after_rebuild hash text share 3 1234 o).
  - cbn. lia.
  - lia.
Defined.

(** ** Maglev: the primality test *)

Section MaglevPrimeFacts.
Import Maglev MaglevPrime.

Lemma no_small_divisor_prime (n i : Z) :
  1 < n -> 0 <= i -> n < i * i ->
  (forall d, 1 < d < i -> ~ (d | n)) -> Z.prime n.
Proof.
  intros Hn Hi Hsq Hnone. split; [exact Hn|].
  intros d Hd [e He].
  assert (He1 : 1 < e) by nia.
  destruct (Z_lt_le_dec d i) as [Hlt|Hge].
  - apply (Hnone d); [lia|]. exists e. exact He.
  - apply (Hnone e); [nia|]. exists d. lia.
Qed.

Lemma divisor_not_prime (n d : Z) :
  1 < d < n -> n mod d = 0 -> ~ Z.prime n.
Proof.
  intros Hd Hmod [_ Hp]. apply (Hp d Hd).
  apply Z.mod_divide; [lia|exact Hmod].
Qed.

Lemma IsPrime_loop_spec (fuel : nat) :
  forall n i,
    3 < n < 2 ^ 63 -> 5 <= i < 2 ^ 32 -> i mod 6 = 5 ->
    (forall d, 1 < d < i -> ~ (d | n)) ->
    n < (i + Z.of_nat fuel) * (i + Z.of_nat fuel) ->
    exists b, IsPrime_loop fuel n i = Ok b /\ (b = true <-> Z.prime n).
Proof.
  induction fuel as [|fuel IH]; intros n i Hn Hi Hmod Hnone Hfuel.
  - cbn [IsPrime_loop].
    change (Z.of_nat 0) with 0 in Hfuel. rewrite Z.add_0_r in Hfuel.
    assert (Hsq : u64 (i * i) = i * i) by (apply Z.mod_small; nia).
    rewrite Hsq. destruct (Z.leb_spec (i * i) n) as [Hle|Hgt]; [lia|].
    exists true. split; [reflexivity|]. split; [intros _|reflexivity].
    apply (no_small_divisor_prime n i); [lia|lia|lia|exact Hnone].
  - cbn [IsPrime_loop].
    assert (Hsq : u64 (i * i) = i * i) by (apply Z.mod_small; nia).
    rewrite Hsq. destruct (Z.leb_spec (i * i) n) as [Hle|Hgt].
    + assert (Hi31 : i < 2 ^ 32 - 6) by nia.
      assert (H2 : u64 (i + 2) = i + 2) by (apply Z.mod_small; lia).
      assert (H6 : u64 (i + 6) = i + 6) by (apply Z.mod_small; lia).
      rewrite H2, H6. unfold umod.
      destruct (Z.eqb_spec i 0) as [|_]; [lia|].
      destruct (Z.eqb_spec (i + 2) 0) as [|_]; [lia|].
      destruct (Z.eqb_spec (n mod i) 0) as [E1|N1]; cbn [orb].
      { exists false. split; [reflexivity|]. split; [discriminate|].
        intros Hp. exfalso. apply (divisor_not_prime n i); [nia|exact E1|exact Hp]. }
      destruct (Z.eqb_spec (n mod (i + 2)) 0) as [E2|N2].
      { exists false. split; [reflexivity|]. split; [discriminate|].
        intros Hp. exfalso.
        apply (divisor_not_prime n (i + 2)); [nia|exact E2|exact Hp]. }
      apply IH; try lia.
      * replace (i + 6) with (i + 1 * 6) by lia.
        rewrite Z.mod_add by lia. exact Hmod.
      * intros d Hd Hdiv.
        assert (H2n : ~ (2 | n)) by (apply Hnone; lia).
        assert (H3n : ~ (3 | n)) by (apply Hnone; lia).
        destruct (Z_lt_le_dec d i) as [Hlt|Hge]; [apply (Hnone d); [lia|exact Hdiv]|].
        assert (Hcase : d = i \/ d = i + 1 \/ d = i + 2 \/ d = i + 3
                        \/ d = i + 4 \/ d = i + 5) by lia.
        pose proof (Z.div_mod i 6 ltac:(lia)) as Hi6. rewrite Hmod in Hi6.
        destruct Hcase as [->|[->|[->|[->|[->| ->]]]]].
        -- apply N1. apply Z.mod_divide; [lia|exact Hdiv].
        -- apply H2n. apply Z.divide_trans with (i + 1); [|exact Hdiv].
           exists (3 * (i / 6) + 3). lia.
        -- apply N2. apply Z.mod_divide; [lia|exact Hdiv].
        -- apply H2n. apply Z.divide_trans with (i + 3); [|exact Hdiv].
           exists (3 * (i / 6) + 4). lia.
        -- apply H3n. apply Z.divide_trans with (i + 4); [|exact Hdiv].
           exists (2 * (i / 6) + 3). lia.
        -- apply H2n. apply Z.divide_trans with (i + 5); [|exact Hdiv].
           exists (3 * (i / 6) + 5). lia.
    + exists true. split; [reflexivity|]. split; [intros _|reflexivity].
      apply (no_small_divisor_prime n i); [lia|lia|lia|exact Hnone].
Qed.

(** X17.  Maglev: [IsPrime] is a correct primality test for every table
    size below [2^63]: given fuel for the loop (the integer square root of
    [n] is enough) it returns, and it returns [true] exactly for the
    primes; no product or sum of the loop wraps around in this range. *)
Theorem maglev_is_prime_decides_primality (fuel : nat) (n : Z) :
  0 <= n < 2 ^ 63 -> Z.sqrt n <= Z.of_nat fuel ->
  exists b, IsPrime fuel n = Ok b /\ (b = true <-> Z.prime n).
Proof.
  intros Hn Hfuel. unfold IsPrime.
  destruct (Z.leb_spec n 1) as [H1|H1].
  { exists false. split; [reflexivity|]. split; [discriminate|].
    intros [Hp _]. lia. }
  destruct (Z.leb_spec n 3) as [H3|H3].
  { exists true. split; [reflexivity|]. split; [intros _|reflexivity].
    split; [lia|]. intros d Hd [e He].
    assert (Hd2 : d = 2) by lia. subst d. lia. }
  destruct (Z.eqb_spec (n mod 2) 0) as [E2|N2]; cbn [orb].
  { exists false. split; [reflexivity|]. split; [discriminate|].
    intros Hp. exfalso. apply (divisor_not_prime n 2); [lia|exact E2|exact Hp]. }
  destruct (Z.eqb_spec (n mod 3) 0) as [E3|N3].
  { exists false. split; [reflexivity|]. split; [discriminate|].
    intros Hp. exfalso. apply (divisor_not_prime n 3); [lia|exact E3|exact Hp]. }
  apply IsPrime_loop_spec; try lia.
  - reflexivity.
  - intros d Hd Hdiv.
    assert (Hcase : d = 2 \/ d = 3 \/ d = 4) by lia.
    destruct Hcase as [->|[->| ->]].
    + apply N2. apply Z.mod_divide; [lia|exact Hdiv].
    + apply N3. apply Z.mod_divide; [lia|exact Hdiv].
    + apply N2. apply Z.mod_divide; [lia|].
      apply Z.divide_trans with 4; [exists 2; lia|exact Hdiv].
  - pose proof (Z.sqrt_spec n ltac:(lia)) as Hs.
    pose proof (Z.sqrt_nonneg n) as Hs0. cbn zeta in Hs.
    unfold Z.succ in Hs. set (s := Z.sqrt n) in *.
    change (Z.of_nat 0) with 0. nia.
Qed.

End MaglevPrimeFacts.

Lemma maglev_is_prime_decides_primality_witness :
  0 <= 65537 < 2 ^ 63 /\ Z.sqrt 65537 <= Z.of_nat 256
  /\ exists b, MaglevPrime.IsPrime 256 65537 = Maglev.Ok b
               /\ (b = true <-> Z.prime 65537).
Proof.
  split; [lia|]. split; [vm_compute; discriminate|].
  apply (maglev_is_prime_decides_primality 256 65537).
  - lia.
  - vm_compute. discriminate.
Defined.

(** ** Maglev: the lookup table *)

Section MaglevTableFacts.
Import Maglev MaglevTable.
Variable m_hasher : string -> Z.
Variable addr_str : InetSocketAddress -> string.
Variable bks : list BackendInfo.
Variable T : Z.
Hypothesis T_pos : 0 < T.
Hypothesis ports :
  forall b, In b bks -> weight b <> 0 -> GetPort (address b) <> 0.




Lemma occupied_insert (tbl : list InetSocketAddress) (i : nat)
    (a : InetSocketAddress) :
  (i < length tbl)%nat ->
  GetPort (default sentinel (tbl !! i)) = 0 -> GetPort a <> 0 ->
  occupied (<[i := a]> tbl) = S (occupied tbl).
Proof.
  unfold occupied. revert i.
  induction tbl as [|x tbl IH]; intros i Hi Hfree Ha; [cbn in Hi; lia|].
  destruct i as [|i].
  - cbn in Hfree. cbn [list_insert insert]. change (<[0%nat:=a]> (x :: tbl)) with (a :: tbl).
    rewrite !filter_cons. rewrite decide_True by exact Ha.
    rewrite decide_False by (intros H; apply H; exact Hfree). reflexivity.
  - change (<[S i:=a]> (x :: tbl)) with (x :: <[i:=a]> tbl).
    rewrite !filter_cons. cbn in Hi, Hfree.
    destruct (decide (GetPort x <> 0)); cbn [length];
      rewrite IH by (first [lia | assumption]); reflexivity.
Qed.

Lemma occupied_full (tbl : list InetSocketAddress) :
  (occupied tbl <= length tbl)%nat
  /\ (occupied tbl = length tbl -> Forall (fun a => GetPort a <> 0) tbl).
Proof.
  unfold occupied. induction tbl as [|x tbl [IH1 IH2]].
  - split; [cbn; lia|]. intros _. constructor.
  - rewrite filter_cons. destruct (decide (GetPort x <> 0)) as [Hx|Hx];
      cbn [length]; split; try lia.
    intros E. constructor; [exact Hx|]. apply IH2. lia.
Qed.

Lemma find_slot_free (fuel : nat) (tbl : list InetSocketAddress)
    (e : MaglevBuildEntry) :
  forall next cur next',
    find_slot fuel T tbl e next = Ok (cur, next') ->
    0 <= cur < T /\ GetPort (slot tbl cur) = 0.
Proof.
  induction fuel as [|fuel IH]; intros next cur next'; cbn [find_slot];
    destruct (Z.eqb_spec (GetPort (slot tbl (permutation_value T e next))) 0)
      as [E|NE]; try discriminate.
  - intros [= <- <-]. split; [|exact E].
    unfold permutation_value. apply Z.mod_pos_bound. exact T_pos.
  - intros [= <- <-]. split; [|exact E].
    unfold permutation_value. apply Z.mod_pos_bound. exact T_pos.
  - apply IH.
Qed.

Lemma fill_pass_inv (fuel : nat) (maxWeight pass : Z) :
  forall es tbl filled es' tbl' filled',
    Forall (fun e => GetPort (e_address e) <> 0) es ->
    table_invariant bks T es tbl filled ->
    fill_pass fuel T maxWeight pass es tbl filled = Ok (es', tbl', filled') ->
    Forall (fun e => GetPort (e_address e) <> 0) es'
    /\ table_invariant bks T es' tbl' filled'.
Proof.
  induction es as [|entry rest IH]; intros tbl filled es' tbl' filled' Hp HI;
    cbn [fill_pass].
  - intros [= <- <- <-]. auto.
  - destruct HI as (Hes & Hlen & Htbl & Hfilled).
    apply Forall_cons in Hes as [Hown Hrest].
    apply Forall_cons in Hp as [Hport Hprest].
    destruct (pass * e_weight entry <? targetWeightScore entry).
    + destruct (fill_pass fuel T maxWeight pass rest tbl filled)
        as [[[r1 t1] f1]| |] eqn:E; cbn [bind]; try discriminate.
      intros [= <- <- <-].
      destruct (IH tbl filled r1 t1 f1 Hprest) as (Hp1 & H1 & H2 & H3 & H4);
        [repeat split; assumption|exact E|].
      split; [constructor; assumption|].
      split; [constructor; assumption|]. auto.
    + destruct (find_slot fuel T tbl entry (nextIndexInPermutation entry))
        as [[cur next]| |] eqn:Ef; cbn [bind]; try discriminate.
      destruct (find_slot_free _ _ _ _ _ _ Ef) as (Hcur & Hfree).
      set (tbl1 := <[Z.to_nat cur := e_address entry]> tbl).
      set (entry' := mkEntry _ _ _ _ _ _ _).
      assert (Hidx : (Z.to_nat cur < length tbl)%nat) by lia.
      assert (HI1 : table_invariant bks T rest tbl1 (filled + 1)).
      { split; [exact Hrest|]. split; [unfold tbl1; rewrite length_insert; exact Hlen|].
        split.
        - unfold tbl1. apply Forall_insert; [exact Htbl|]. right. exact Hown.
        - unfold tbl1. rewrite occupied_insert; [lia|exact Hidx|exact Hfree|exact Hport]. }
      assert (Hown' : owner bks (e_address entry')) by exact Hown.
      assert (Hport' : GetPort (e_address entry') <> 0) by exact Hport.
      destruct (filled + 1 =? T).
      * intros [= <- <- <-]. destruct HI1 as (H1 & H2 & H3 & H4).
        split; [constructor; assumption|].
        split; [constructor; assumption|]. auto.
      * destruct (fill_pass fuel T maxWeight pass rest tbl1 (filled + 1))
          as [[[r1 t1] f1]| |] eqn:E; cbn [bind]; try discriminate.
        intros [= <- <- <-].
        destruct (IH tbl1 (filled + 1) r1 t1 f1 Hprest HI1 E)
          as (Hp1 & H1 & H2 & H3 & H4).
        split; [constructor; assumption|].
        split; [constructor; assumption|]. auto.
Qed.

Lemma fill_loop_inv (maxWeight : Z) (fuel : nat) :
  forall b b',
    Forall (fun e => GetPort (e_address e) <> 0) (buildEntries b) ->
    table_invariant bks T (buildEntries b) (table b) (filledSlotsCount b) ->
    fill_loop fuel T maxWeight b = Ok (Some b') ->
    table_invariant bks T (buildEntries b') (table b') (filledSlotsCount b')
    /\ T <= filledSlotsCount b'.
Proof.
  induction fuel as [|fuel IH]; intros b b' Hp HI; cbn [fill_loop];
    destruct (Z.ltb_spec (filledSlotsCount b) T) as [Hlt|Hge];
    try discriminate;
    try (intros [= <-]; split; [exact HI|exact Hge]).
  destruct (fill_pass (S fuel) T maxWeight (currentPass b) (buildEntries b)
                      (table b) (filledSlotsCount b))
    as [[[es tbl] filled]| |] eqn:E; cbn [bind]; try discriminate.
  destruct (fill_pass_inv _ _ _ _ _ _ _ _ _ Hp HI E) as (Hp1 & HI1).
  destruct ((u64 (T * 2) <? u32 (currentPass b + 1)) && (filled <? T));
    [discriminate|].
  apply IH; assumption.
Qed.

Lemma insert_sorted_Forall (P : MaglevBuildEntry -> Prop)
    (x : MaglevBuildEntry) (l : list MaglevBuildEntry) :
  P x -> Forall P l -> Forall P (insert_sorted addr_str x l).
Proof.
  intros Hx. induction 1 as [|y l Hy Hl IH]; cbn [insert_sorted].
  - repeat constructor. exact Hx.
  - destruct (entry_ltb addr_str y x); repeat constructor; assumption.
Qed.

Lemma sort_entries_Forall (P : MaglevBuildEntry -> Prop)
    (l : list MaglevBuildEntry) :
  Forall P l -> Forall P (sort_entries addr_str l).
Proof.
  induction 1 as [|x l Hx Hl IH]; cbn; [constructor|].
  apply insert_sorted_Forall; assumption.
Qed.

Lemma prepare_entries (some : list BackendInfo) :
  forall es maxWeight count,
    (forall b, In b some -> In b bks) ->
    prepare m_hasher addr_str T some = Ok (es, maxWeight, count) ->
    Forall (fun e => owner bks (e_address e) /\ GetPort (e_address e) <> 0) es.
Proof.
  induction some as [|x some IH]; intros es maxWeight count Hsub;
    cbn [prepare].
  - intros [= <- <- <-]. constructor.
  - destruct (Z.eqb_spec (weight x) 0) as [Hz|Hnz].
    + apply IH. intros b Hb. apply Hsub. now right.
    + destruct (umod _ T); [|discriminate].
      destruct (umod _ (u64 (T - 1))); [|discriminate].
      destruct (prepare m_hasher addr_str T some) as [[[es1 m1] c1]| |] eqn:E;
        cbn [bind]; try discriminate.
      intros [= <- <- <-]. constructor.
      * cbn [e_address]. split.
        -- exists x. split; [apply Hsub; now left|]. split; [reflexivity|exact Hnz].
        -- apply ports; [apply Hsub; now left|exact Hnz].
      * apply (IH es1 m1 c1); [|reflexivity].
        intros b Hb. apply Hsub. now right.
Qed.

Lemma occupied_replicate (n : nat) : occupied (replicate n sentinel) = 0%nat.
Proof.
  unfold occupied. induction n as [|n IH]; [reflexivity|].
  cbn [replicate]. rewrite filter_cons.
  rewrite decide_False by (intros H; apply H; reflexivity). exact IH.
Qed.

Lemma BuildTable_built (fuel : nat) (st st' : state) :
  m_backends st = bks -> m_tableSize st = T ->
  BuildTable m_hasher addr_str fuel st = Ok st' ->
  m_tableBuilt st' = true ->
  m_backends st' = bks /\ m_tableSize st' = T
  /\ length (m_lookupTable st') = Z.to_nat T
  /\ Forall (fun a => owner bks a /\ GetPort a <> 0) (m_lookupTable st').
Proof.
  intros Hb HT. unfold BuildTable. rewrite HT.
  destruct (m_backends st) as [|b0 rest] eqn:Hm;
    [intros [= <-]; discriminate|].
  rewrite Hb. destruct (Z.eqb_spec T 0); [lia|].
  destruct (prepare m_hasher addr_str T bks) as [[[es m] c]| |] eqn:Ep;
    cbn [bind]; try discriminate.
  destruct (c =? 0); [intros [= <-]; discriminate|].
  destruct (fill_loop fuel T m _) as [[b'|]| |] eqn:El; cbn [bind];
    try discriminate; intros [= <-]; cbn; try discriminate.
  intros _.
  pose proof (prepare_entries bks es m c (fun b H => H) Ep) as Hes.
  apply (sort_entries_Forall _ es) in Hes.
  destruct (fill_loop_inv m fuel
              (mkBuild (sort_entries addr_str es)
                       (replicate (Z.to_nat T) sentinel) 0 1) b')
    as ((H1 & H2 & H3 & H4) & Hfull); [| |exact El|].
  - cbn [buildEntries]. eapply Forall_impl; [exact Hes|]. now intros e [_ H].
  - cbn [buildEntries table filledSlotsCount].
    split; [eapply Forall_impl; [exact Hes|]; now intros e [H _]|].
    split; [apply length_replicate|].
    split; [apply Forall_replicate; now left|].
    rewrite occupied_replicate. reflexivity.
  - split; [reflexivity|]. split; [reflexivity|]. split; [exact H2|].
    destruct (occupied_full (table b')) as (Hle & Hall).
    assert (Hocc : occupied (table b') = length (table b')) by lia.
    specialize (Hall Hocc).
    rewrite Forall_forall in *. intros a Ha. split; [|now apply Hall].
    destruct (H3 a Ha) as [->|Hown]; [|exact Hown].
    exfalso. apply (Hall _ Ha). reflexivity.
Qed.

End MaglevTableFacts.

(** X18.  Maglev: a lookup table that [BuildTable] marks as built is
    complete.  When every backend of non-zero weight has a non-zero port
    (the port is what the filling loop takes for the mark of a used
    slot), the table has [m_tableSize] slots, each of them holds the
    address of a registered backend of non-zero weight, and
    [ChooseBackend] then returns such a backend for every identifier. *)
Theorem maglev_built_table_is_complete
    (m_hasher : string -> Z) (addr_str : InetSocketAddress -> string)
    (fuel : nat) (st st' : Maglev.state) (context l7Identifier : Z) :
  0 <= Maglev.m_tableSize st ->
  (forall b, In b (Maglev.m_backends st) -> weight b <> 0 ->
             Maglev.GetPort (address b) <> 0) ->
  Maglev.BuildTable m_hasher addr_str fuel st = Maglev.Ok st' ->
  Maglev.m_tableBuilt st' = true ->
  length (Maglev.m_lookupTable st') = Z.to_nat (Maglev.m_tableSize st)
  /\ (forall a, In a (Maglev.m_lookupTable st') ->
        exists b, In b (Maglev.m_backends st) /\ address b = a
                  /\ weight b <> 0)
  /\ exists b,
       Maglev.ChooseBackend m_hasher context l7Identifier st'
       = Some (address b)
       /\ In b (Maglev.m_backends st) /\ weight b <> 0.
Proof.
  intros HT0 Hports Hbuild Hbuilt.
  assert (HT : 0 < Maglev.m_tableSize st).
  { destruct (Z.eq_dec (Maglev.m_tableSize st) 0) as [E|]; [|lia].
    exfalso. unfold Maglev.BuildTable in Hbuild. rewrite E in Hbuild.
    destruct (Maglev.m_backends st); cbn in Hbuild;
      injection Hbuild as <-; discriminate. }
  destruct (BuildTable_built m_hasher addr_str (Maglev.m_backends st)
              (Maglev.m_tableSize st) HT Hports fuel st st'
              eq_refl eq_refl Hbuild Hbuilt) as (Hb & Hsize & Hlen & Hall).
  rewrite Forall_forall in Hall.
  split; [exact Hlen|]. split.
  - intros a Ha. apply list_elem_of_In in Ha. exact (proj1 (Hall a Ha)).
  - unfold Maglev.ChooseBackend. rewrite Hbuilt, Hsize. cbn [negb orb].
    destruct (Maglev.m_lookupTable st') as [|a0 tbl] eqn:Etbl;
      [cbn in Hlen; lia|].
    rewrite bool_decide_eq_false_2 by discriminate.
    rewrite <- Etbl in *. clear Etbl a0 tbl.
    set (idx := m_hasher _ mod Maglev.m_tableSize st).
    assert (Hidx : 0 <= idx < Maglev.m_tableSize st)
      by (apply Z.mod_pos_bound; exact HT).
    unfold Maglev.slot.
    destruct (lookup_lt_is_Some_2 (Maglev.m_lookupTable st') (Z.to_nat idx))
      as [a Ha]; [lia|].
    rewrite Ha. change (default Maglev.sentinel (Some a)) with a.
    apply list_elem_of_lookup_2 in Ha.
    destruct (Hall a Ha) as ((b & Hb1 & <- & Hw) & Hport).
    destruct (Z.eqb_spec (Maglev.GetPort (address b)) 0); [contradiction|].
    cbn [andb]. exists b. auto.
Qed.

Lemma maglev_built_table_is_complete_witness :
  let hash := fun s : string => Z.of_nat (String.length s) in
  let text := fun a : InetSocketAddress => "b"%string in
  let bks := [mkBackendInfo (167772161, 80) 1 0;
              mkBackendInfo (167772162, 80) 0 0] in
  let st := Maglev.mkState bks 5 [] false in
  let st' := Maglev.mkState bks 5 (replicate 5 (167772161, 80)) true in
  Maglev.BuildTable hash text 20 st = Maglev.Ok st'
  /\ length (Maglev.m_lookupTable st') = Z.to_nat (Maglev.m_tableSize st)
  /\ (forall a, In a (Maglev.m_lookupTable st') ->
        exists b, In b (Maglev.m_backends st) /\ address b = a
                  /\ weight b <> 0)
  /\ exists b,
       Maglev.ChooseBackend hash 0 1234 st' = Some (address b)
       /\ In b (Maglev.m_backends st) /\ weight b <> 0.
Proof.
  intros hash text bks st st'.
  assert (Hbuild : Maglev.BuildTable hash text 20 st = Maglev.Ok st')
    by (vm_compute; reflexivity).
  split; [exact Hbuild|].
  apply (maglev_built_table_is_complete hash text 20 st st' 0 1234).
  - cbn. lia.
  - intros b [<-|[<-|[]]]; cbn; intros H; lia.
  - exact Hbuild.
  - reflexivity.
Defined.

(** ** The proxy core: cleaning up a backend socket *)

Section ProxyCleanup.
Import ProxyCore ProxyInvariants.
Context {S : Type} `{Selector S}.

Lemma iter_notify_finished_fields (n : nat) (ad : InetSocketAddress)
    (a : App S) :
  let a' := Nat.iter n (notify_finished ad) a in
  m_listening a' = m_listening a
  /\ m_clientRxBuffers a' = m_clientRxBuffers a
  /\ m_backendRxBuffers a' = m_backendRxBuffers a
  /\ m_clientBackendSockets a' = m_clientBackendSockets a
  /\ m_backendClientMap a' = m_backendClientMap a
  /\ m_pendingBackendRequests a' = m_pendingBackendRequests a
  /\ m_requestSendTimes a' = m_requestSendTimes a
  /\ created a' = created a /\ sent_calls a' = sent_calls a
  /\ closed a' = closed a /\ sends a' = sends a
  /\ finished_calls a' = finished_calls a ++ replicate n ad.
Proof.
  induction n as [|n IH]; cbn [Nat.iter].
  - cbn. rewrite app_nil_r. repeat split.
  - cbn zeta in IH. destruct IH as (?&?&?&?&?&?&?&?&?&?&?&Hf).
    cbn zeta. rewrite Nat.iter_succ.
    set (x := Nat.iter n (notify_finished ad) a) in *.
    cbn [notify_finished finished_calls m_listening m_clientRxBuffers
         m_backendRxBuffers m_clientBackendSockets m_backendClientMap
         m_pendingBackendRequests m_requestSendTimes created sent_calls
         closed sends].
    rewrite Hf, <- app_assoc.
    change (replicate n ad ++ [ad]) with (replicate n ad ++ replicate 1 ad).
    rewrite <- replicate_add, Nat.add_1_r. repeat split; assumption.
Qed.

Lemma erase_send_times_fields (s : Socket) (addr : option InetSocketAddress)
    (a : App S) :
  let a' := erase_send_times s addr a in
  m_listening a' = m_listening a
  /\ m_clientRxBuffers a' = m_clientRxBuffers a
  /\ m_backendRxBuffers a' = m_backendRxBuffers a
  /\ m_clientBackendSockets a' = m_clientBackendSockets a
  /\ m_backendClientMap a' = m_backendClientMap a
  /\ m_pendingBackendRequests a' = m_pendingBackendRequests a
  /\ m_requestSendTimes a' = send_times_not_of s (m_requestSendTimes a)
  /\ created a' = created a /\ sent_calls a' = sent_calls a
  /\ closed a' = closed a /\ sends a' = sends a.
Proof.
  unfold erase_send_times. destruct addr as [ad|].
  - destruct (iter_notify_finished_fields
                (size (send_times_of s (m_requestSendTimes a))) ad a)
      as (?&?&?&?&?&?&Ht&?&?&?&?&?).
    cbn. rewrite Ht. repeat split; assumption.
  - cbn. repeat split.
Qed.

(** What [CleanupBackendSocket] does to the maps keyed by backend
    sockets, and what it leaves alone. *)
Lemma CleanupBackendSocket_fields (rt : Runtime) (s : Socket)
    (mapEraseOnly : bool) (a : App S) :
  s <> 0%N ->
  let a' := CleanupBackendSocket rt s mapEraseOnly a in
  m_backendClientMap a' = delete s (m_backendClientMap a)
  /\ m_backendRxBuffers a' = delete s (m_backendRxBuffers a)
  /\ m_pendingBackendRequests a' = delete s (m_pendingBackendRequests a)
  /\ m_requestSendTimes a' = send_times_not_of s (m_requestSendTimes a)
  /\ m_clientRxBuffers a' = m_clientRxBuffers a
  /\ m_listening a' = m_listening a
  /\ created a' = created a /\ sent_calls a' = sent_calls a
  /\ sends a' = sends a.
Proof.
  intros Hs. unfold CleanupBackendSocket.
  destruct (N.eqb_spec s 0) as [|_]; [contradiction|].
  set (a1 := set_backendClientMap _ a).
  set (addr0 := GetPeerName rt s).
  set (r2 := if (_ =? 0)%N then (addr0, a1) else _).
  assert (H2 : m_backendClientMap r2.2 = delete s (m_backendClientMap a)
               /\ m_backendRxBuffers r2.2 = m_backendRxBuffers a
               /\ m_pendingBackendRequests r2.2 = m_pendingBackendRequests a
               /\ m_requestSendTimes r2.2 = m_requestSendTimes a
               /\ m_clientRxBuffers r2.2 = m_clientRxBuffers a
               /\ m_listening r2.2 = m_listening a
               /\ created r2.2 = created a /\ sent_calls r2.2 = sent_calls a
               /\ sends r2.2 = sends a).
  { unfold r2. destruct (_ =? 0)%N; [cbn; repeat split|].
    destruct (m_clientBackendSockets a1 !! _); [|cbn; repeat split].
    destruct (filter _ _) as [|[k v] l]; cbn; repeat split. }
  destruct r2 as [addr1 a2]. cbn [snd] in H2.
  destruct H2 as (E1 & E2 & E3 & E4 & E5 & E6 & E7 & E8 & E9).
  set (a3 := set_backendRxBuffers _ a2).
  set (r4 := match m_pendingBackendRequests a3 !! s with
             | Some p => _ | None => (addr1, a3) end).
  assert (H4 : m_backendClientMap r4.2 = delete s (m_backendClientMap a)
               /\ m_backendRxBuffers r4.2 = delete s (m_backendRxBuffers a)
               /\ m_pendingBackendRequests r4.2
                  = delete s (m_pendingBackendRequests a)
               /\ m_requestSendTimes r4.2 = m_requestSendTimes a
               /\ m_clientRxBuffers r4.2 = m_clientRxBuffers a
               /\ m_listening r4.2 = m_listening a
               /\ created r4.2 = created a /\ sent_calls r4.2 = sent_calls a
               /\ sends r4.2 = sends a).
  { unfold r4. destruct (m_pendingBackendRequests a3 !! s) eqn:Ep; cbn;
      rewrite ?E1, ?E2, ?E3, ?E4, ?E5, ?E6, ?E7, ?E8, ?E9; repeat split.
    cbn in Ep. rewrite E3 in Ep. symmetry. now apply delete_id. }
  destruct r4 as [addr2 a4]. cbn [snd] in H4.
  destruct H4 as (F1 & F2 & F3 & F4 & F5 & F6 & F7 & F8 & F9).
  destruct (erase_send_times_fields s addr2 a4)
    as (G1 & G2 & G3 & G4 & G5 & G6 & G7 & G8 & G9 & G10 & G11).
  assert (Hfin : forall a5, a5 = erase_send_times s addr2 a4 ->
            m_backendClientMap a5 = delete s (m_backendClientMap a)
            /\ m_backendRxBuffers a5 = delete s (m_backendRxBuffers a)
            /\ m_pendingBackendRequests a5
               = delete s (m_pendingBackendRequests a)
            /\ m_requestSendTimes a5
               = send_times_not_of s (m_requestSendTimes a)
            /\ m_clientRxBuffers a5 = m_clientRxBuffers a
            /\ m_listening a5 = m_listening a
            /\ created a5 = created a /\ sent_calls a5 = sent_calls a
            /\ sends a5 = sends a).
  { intros a5 ->. cbn zeta in *.
    rewrite G1, G2, G3, G5, G6, G7, G8, G9, G11.
    rewrite F1, F2, F3, F4, F5, F6, F7, F8, F9. repeat split. }
  destruct mapEraseOnly; [now apply Hfin|].
  destruct (is_shutdown _); [now apply Hfin|].
  destruct (Hfin _ eq_refl) as (?&?&?&?&?&?&?&?&?).
  cbn. repeat split; assumption.
Qed.

Lemma send_times_not_of_lookup (s s' : Socket) (seq : Z)
    (m : gmap (Socket * Z) Z) :
  send_times_not_of s m !! (s', seq)
  = if decide (s' = s) then None else m !! (s', seq).
Proof.
  unfold send_times_not_of. destruct (decide (s' = s)) as [->|Hne].
  - apply map_lookup_filter_None. right. intros x _ Hx. now apply Hx.
  - destruct (m !! (s', seq)) as [x|] eqn:E.
    + apply map_lookup_filter_Some. split; [exact E|exact Hne].
    + apply map_lookup_filter_None. left. exact E.
Qed.

(** X19.  Proxy: [CleanupBackendSocket] forgets the socket and nothing
    else.  For a socket that is not null, afterwards the socket has no
    entry in [m_backendClientMap], [m_backendRxBuffers] and
    [m_pendingBackendRequests] and no send time is recorded for it; the
    entries of every other backend socket in these four maps are as
    before; the clients' receive buffers are untouched and nothing is
    sent. *)
Theorem cleanup_backend_socket_forgets_the_socket (rt : Runtime)
    (s : Socket) (mapEraseOnly : bool) (a : App S) :
  s <> 0%N ->
  let a' := CleanupBackendSocket rt s mapEraseOnly a in
  (m_backendClientMap a' !! s = None
   /\ m_backendRxBuffers a' !! s = None
   /\ m_pendingBackendRequests a' !! s = None
   /\ forall seq, m_requestSendTimes a' !! (s, seq) = None)
  /\ (forall s', s' <> s ->
        m_backendClientMap a' !! s' = m_backendClientMap a !! s'
        /\ m_backendRxBuffers a' !! s' = m_backendRxBuffers a !! s'
        /\ m_pendingBackendRequests a' !! s'
           = m_pendingBackendRequests a !! s'
        /\ forall seq, m_requestSendTimes a' !! (s', seq)
                       = m_requestSendTimes a !! (s', seq))
  /\ m_clientRxBuffers a' = m_clientRxBuffers a
  /\ sends a' = sends a.
Proof.
  intros Hs a'.
  destruct (CleanupBackendSocket_fields rt s mapEraseOnly a Hs)
    as (E1 & E2 & E3 & E4 & E5 & _ & _ & _ & E9).
  fold a' in E1, E2, E3, E4, E5, E9. rewrite E1, E2, E3, E4.
  split; [|split; [|split; assumption]].
  - rewrite !lookup_delete_eq. repeat split. intros seq.
    rewrite send_times_not_of_lookup. now rewrite decide_True.
  - intros s' Hne. rewrite !lookup_delete_ne by congruence.
    repeat split. intros seq. rewrite send_times_not_of_lookup.
    now rewrite decide_False.
Qed.

(** *** Cleaning up a client *)

Lemma CleanupBackendSocket_clients (rt : Runtime) (s : Socket)
    (mapEraseOnly : bool) (a : App S) (c : Socket) :
  m_clientBackendSockets a !! c = None ->
  m_clientBackendSockets (CleanupBackendSocket rt s mapEraseOnly a) !! c
  = None.
Proof.
  intros Hc. unfold CleanupBackendSocket.
  destruct (N.eqb_spec s 0) as [|_]; [exact Hc|].
  set (a1 := set_backendClientMap _ a).
  set (addr0 := GetPeerName rt s).
  set (r2 := if (_ =? 0)%N then (addr0, a1) else _).
  assert (H2 : m_clientBackendSockets r2.2 !! c = None).
  { unfold r2. destruct (_ =? 0)%N; [exact Hc|].
    destruct (m_clientBackendSockets a1 !! _) as [backendMap|] eqn:Eb;
      [|exact Hc].
    destruct (filter _ _) as [|[k v] l]; [exact Hc|].
    cbn [snd set_clientBackendSockets m_clientBackendSockets].
    rewrite lookup_insert_ne; [exact Hc|].
    intros Heq.
    change (m_clientBackendSockets a1) with (m_clientBackendSockets a) in Eb.
    rewrite Heq in Eb. rewrite Eb in Hc. discriminate. }
  destruct r2 as [addr1 a2]. cbn [snd] in H2.
  set (a3 := set_backendRxBuffers _ a2).
  set (r4 := match m_pendingBackendRequests a3 !! s with
             | Some p => _ | None => (addr1, a3) end).
  assert (H4 : m_clientBackendSockets r4.2 = m_clientBackendSockets a2).
  { unfold r4. destruct (m_pendingBackendRequests a3 !! s); reflexivity. }
  destruct r4 as [addr2 a4]. cbn [snd] in H4.
  destruct (erase_send_times_fields s addr2 a4) as (_ & _ & _ & G4 & _).
  cbn zeta in G4.
  destruct mapEraseOnly; [now rewrite G4, H4|].
  destruct (is_shutdown _); [now rewrite G4, H4|].
  cbn [log_close m_clientBackendSockets]. now rewrite G4, H4.
Qed.

(** The part of [CleanupBackendSocket] that [CleanupClient] relies on,
    for any socket, null or not. *)
Lemma CleanupBackendSocket_shrinks (rt : Runtime) (s : Socket)
    (mapEraseOnly : bool) (a : App S) :
  let a' := CleanupBackendSocket rt s mapEraseOnly a in
  m_clientRxBuffers a' = m_clientRxBuffers a
  /\ sends a' = sends a
  /\ (m_pendingBackendRequests a' = m_pendingBackendRequests a
      \/ m_pendingBackendRequests a' = delete s (m_pendingBackendRequests a)).
Proof.
  destruct (N.eq_dec s 0%N) as [->|Hs].
  - cbn. auto.
  - destruct (CleanupBackendSocket_fields rt s mapEraseOnly a Hs)
      as (_ & _ & E3 & _ & E5 & _ & _ & _ & E9). auto.
Qed.


Lemma drop_pending_step (rt : Runtime) (c : Socket)
    (kv : Socket * PendingRequest) (acc : App S) :
  let acc' :=
    match m_pendingBackendRequests acc !! kv.1 with
    | Some p =>
      if (clientSocket p =? c)%N then
        let acc1 := notify_finished (targetBackendAddress p) acc in
        let acc2 := set_pendingBackendRequests
                      (delete kv.1 (m_pendingBackendRequests acc1)) acc1 in
        CleanupBackendSocket rt kv.1 false acc2
      else acc
    | None => acc
    end in
  m_clientRxBuffers acc' = m_clientRxBuffers acc
  /\ sends acc' = sends acc
  /\ (forall c', m_clientBackendSockets acc !! c' = None ->
                 m_clientBackendSockets acc' !! c' = None)
  /\ m_pendingBackendRequests acc' ⊆ m_pendingBackendRequests acc
  /\ (forall p, m_pendingBackendRequests acc' !! kv.1 = Some p ->
                clientSocket p <> c).
Proof.
  destruct (m_pendingBackendRequests acc !! kv.1) as [p|] eqn:Ep;
    [|cbn zeta; rewrite Ep; repeat split; auto; discriminate].
  destruct (N.eqb_spec (clientSocket p) c) as [Hc|Hc];
    [|cbn zeta; rewrite Ep; repeat split; auto; now intros ? [= <-]].
  cbn zeta.
  set (acc2 := set_pendingBackendRequests _ _).
  destruct (CleanupBackendSocket_shrinks rt kv.1 false acc2)
    as (E1 & E2 & E3).
  cbn zeta in E1, E2, E3. rewrite E1, E2.
  split; [reflexivity|]. split; [reflexivity|].
  split; [intros c' Hc'; now apply CleanupBackendSocket_clients|].
  assert (Epend : m_pendingBackendRequests
                    (CleanupBackendSocket rt kv.1 false acc2)
                  = delete kv.1 (m_pendingBackendRequests acc)).
  { destruct E3 as [-> | ->]; cbn; [reflexivity|apply delete_delete_eq]. }
  rewrite Epend. split; [apply delete_subseteq|].
  intros p'. rewrite lookup_delete_eq. discriminate.
Qed.

Lemma drop_pending_fold (rt : Runtime) (c : Socket)
    (l : list (Socket * PendingRequest)) :
  forall (acc : App S) (done : list Socket),
    settled c done (m_pendingBackendRequests acc) ->
    let acc' :=
      fold_left
        (fun acc (kv : Socket * PendingRequest) =>
           match m_pendingBackendRequests acc !! kv.1 with
           | Some p =>
             if (clientSocket p =? c)%N then
               let acc1 := notify_finished (targetBackendAddress p) acc in
               let acc2 := set_pendingBackendRequests
                             (delete kv.1 (m_pendingBackendRequests acc1))
                             acc1 in
               CleanupBackendSocket rt kv.1 false acc2
             else acc
           | None => acc
           end) l acc in
    m_clientRxBuffers acc' = m_clientRxBuffers acc
    /\ sends acc' = sends acc
    /\ (forall c', m_clientBackendSockets acc !! c' = None ->
                   m_clientBackendSockets acc' !! c' = None)
    /\ m_pendingBackendRequests acc' ⊆ m_pendingBackendRequests acc
    /\ settled c (done ++ l.*1) (m_pendingBackendRequests acc').
Proof.
  induction l as [|kv l IH]; intros acc done Hdone; cbn [fold_left].
  - cbn. rewrite app_nil_r. repeat split; auto.
  - destruct (drop_pending_step rt c kv acc) as (E1 & E2 & E3 & E4 & E5).
    cbn zeta in E1, E2, E3, E4, E5.
    set (acc1 := match m_pendingBackendRequests acc !! kv.1 with
                 | Some p => _ | None => acc end) in *.
    destruct (IH acc1 (done ++ [kv.1])) as (F1 & F2 & F3 & F4 & F5).
    { intros s p Hs Hp. apply elem_of_app in Hs as [Hs|Hs].
      - apply (Hdone s p Hs). eapply lookup_weaken; [exact Hp|exact E4].
      - apply list_elem_of_singleton in Hs as ->. now apply E5. }
    cbn zeta in F1, F2, F3, F4, F5.
    rewrite F1, F2, E1, E2. split; [reflexivity|]. split; [reflexivity|].
    split; [auto|]. split; [etrans; eassumption|].
    rewrite fmap_cons, (cons_middle kv.1), app_assoc. exact F5.
Qed.

Lemma cleanup_sockets_fold (rt : Runtime) (l : list Socket) :
  forall (a : App S),
    let a' := fold_left (fun acc s => CleanupBackendSocket rt s false acc)
                        l a in
    m_clientRxBuffers a' = m_clientRxBuffers a /\ sends a' = sends a.
Proof.
  induction l as [|s l IH]; intros a; cbn [fold_left]; [auto|].
  destruct (IH (CleanupBackendSocket rt s false a)) as (E1 & E2).
  destruct (CleanupBackendSocket_shrinks rt s false a) as (F1 & F2 & _).
  cbn zeta in *. rewrite E1, E2. auto.
Qed.

(** X20.  Proxy: [CleanupClient] forgets the client.  For a client socket
    that is not null, afterwards the client has no receive buffer and no
    map of backend connections, no pending request of it is left in
    [m_pendingBackendRequests], the receive buffers of the other clients
    are as before, and nothing is sent. *)
Theorem cleanup_client_forgets_the_client (rt : Runtime) (c : Socket)
    (a : App S) :
  c <> 0%N ->
  let a' := CleanupClient rt c a in
  m_clientRxBuffers a' !! c = None
  /\ m_clientBackendSockets a' !! c = None
  /\ (forall s p, m_pendingBackendRequests a' !! s = Some p ->
                  clientSocket p <> c)
  /\ (forall c', c' <> c ->
                 m_clientRxBuffers a' !! c' = m_clientRxBuffers a !! c')
  /\ sends a' = sends a.
Proof.
  intros Hc. unfold CleanupClient.
  destruct (N.eqb_spec c 0) as [|_]; [contradiction|].
  set (a1 := match m_clientBackendSockets a !! c with
             | Some backendMap => _ | None => a end).
  assert (H1 : m_clientRxBuffers a1 = m_clientRxBuffers a
               /\ sends a1 = sends a
               /\ m_clientBackendSockets a1 !! c = None).
  { unfold a1. destruct (m_clientBackendSockets a !! c) as [backendMap|] eqn:E;
      [|auto].
    destruct (cleanup_sockets_fold rt
                (filter (fun s => s <> 0%N) (by_address backendMap).*2) a)
      as (E1 & E2).
    cbn zeta in E1, E2. cbn. rewrite E1, E2, lookup_delete_eq. auto. }
  destruct H1 as (E1 & E2 & E3).
  set (a2 := set_clientRxBuffers _ a1).
  destruct (drop_pending_fold rt c (by_socket (m_pendingBackendRequests a2))
              a2 []) as (F1 & F2 & F3 & F4 & F5).
  { intros s p Hs. inversion Hs. }
  cbn zeta in F1, F2, F3, F4, F5. fold (drop_pending_of rt c a2) in *.
  set (a3 := drop_pending_of rt c a2) in *.
  assert (Hfin : m_clientRxBuffers a3 !! c = None
                 /\ m_clientBackendSockets a3 !! c = None
                 /\ (forall s p, m_pendingBackendRequests a3 !! s = Some p ->
                                 clientSocket p <> c)
                 /\ (forall c', c' <> c ->
                       m_clientRxBuffers a3 !! c' = m_clientRxBuffers a !! c')
                 /\ sends a3 = sends a).
  { rewrite F1, F2. cbn [a2 set_clientRxBuffers m_clientRxBuffers sends].
    rewrite lookup_delete_eq, E1, E2.
    split; [reflexivity|]. split; [apply F3; exact E3|].
    split; [|split; [|reflexivity]].
    - intros s p Hp. apply (F5 s p); [|exact Hp].
      cbn [app]. apply list_elem_of_fmap. exists (s, p). split; [reflexivity|].
      unfold by_socket. rewrite merge_sort_Permutation.
      apply elem_of_map_to_list. eapply lookup_weaken; [exact Hp|exact F4].
    - intros c' Hne. now rewrite lookup_delete_ne by congruence. }
  destruct (is_shutdown _); [exact Hfin|]. exact Hfin.
Qed.

End ProxyCleanup.

(** ** The proxy core: relaying responses *)

Section ProxyRelay.
Import ProxyCore.
Context {S : Type} `{Selector S}.

Lemma recv_all_nonempty (packets : list (list byte)) :
  Forall (fun p => p <> []) packets ->
  forall buf, recv_all packets buf = (buf ++ concat packets, false).
Proof.
  induction 1 as [|p packets Hp Hall IH]; intros buf; cbn [recv_all concat].
  - now rewrite app_nil_r.
  - destruct p as [|x p]; [contradiction|]. rewrite IH, app_assoc.
    reflexivity.
Qed.

(** One response relayed to a client that is connected. *)
Lemma relay_response_alive (rt : Runtime) (s client : Socket)
    (h : RequestResponseHeader.t) (packet : list byte) (a : App S) :
  client <> 0%N -> GetErrno rt client = ERROR_NOTERROR ->
  exists a', relay_response rt s client h packet a = Some a'
    /\ sends a' = sends a ++ [(client, packet)]
    /\ finished_calls a'
       = finished_calls a ++ match GetPeerName rt s with
                             | Some ad => [ad]
                             | None => []
                             end
    /\ m_backendRxBuffers a' = m_backendRxBuffers a
    /\ m_backendClientMap a' = m_backendClientMap a
    /\ m_clientRxBuffers a' = m_clientRxBuffers a
    /\ m_pendingBackendRequests a' = m_pendingBackendRequests a
    /\ sent_calls a' = sent_calls a.
Proof.
  intros Hc He. unfold relay_response. rewrite He.
  destruct (N.eqb_spec client 0) as [|_]; [contradiction|].
  cbn [is_noterror negb orb]. eexists. split; [reflexivity|].
  destruct (GetPeerName rt s) as [ad|];
    [destruct (m_requestSendTimes a !! _)|]; cbn;
    rewrite ?app_nil_r; repeat split.
Qed.

Lemma relay_loop (rt : Runtime) (s client : Socket)
    (msgs : list (RequestResponseHeader.t * list byte)) (tail : list byte) :
  client <> 0%N -> GetErrno rt client = ERROR_NOTERROR ->
  Forall Frames.well_framed msgs -> Frames.incomplete tail ->
  forall a : App S,
  exists a',
    Framing.reassembly_loop (Datatypes.S (length msgs))
      (relay_response rt s client)
      (concat (map Frames.frame msgs) ++ tail) a = Some (tail, a')
    /\ sends a' = sends a ++ map (fun m => (client, Frames.frame m)) msgs
    /\ finished_calls a'
       = finished_calls a ++ match GetPeerName rt s with
                             | Some ad => replicate (length msgs) ad
                             | None => []
                             end
    /\ m_backendRxBuffers a' = m_backendRxBuffers a
    /\ m_backendClientMap a' = m_backendClientMap a
    /\ m_clientRxBuffers a' = m_clientRxBuffers a
    /\ m_pendingBackendRequests a' = m_pendingBackendRequests a
    /\ sent_calls a' = sent_calls a.
Proof.
  intros Hc He Hall Hinc.
  induction Hall as [|m msgs Hm Hall IH]; intros a.
  - exists a. cbn [map concat app length].
    rewrite reassembly_loop_incomplete by exact Hinc.
    rewrite !app_nil_r. destruct (GetPeerName rt s); rewrite ?app_nil_r;
      repeat split.
  - cbn [map concat length]. rewrite <- app_assoc.
    rewrite reassembly_loop_step_frame by exact Hm.
    destruct (relay_response_alive rt s client (fst m) (Frames.frame m) a
                Hc He) as (a1 & -> & E1 & E2 & E3 & E4 & E5 & E6 & E7).
    destruct (IH a1) as (a' & Hloop & F1 & F2 & F3 & F4 & F5 & F6 & F7).
    exists a'. split; [exact Hloop|].
    rewrite F1, F2, F3, F4, F5, F6, F7, E1, E2, E3, E4, E5, E6, E7.
    rewrite <- !app_assoc.
    destruct (GetPeerName rt s); repeat split.
Qed.

(** X21.  Proxy: responses are relayed to the client whole, unchanged and
    in order, however the backend's bytes were cut into packets.  When the
    bytes already buffered for a backend socket followed by the packets
    just received are a sequence of whole messages (each of a total
    length below [2^32]) and the start of one that is not whole, the
    receive on the backend socket ends without an error, and the client
    of that socket is connected,
    [HandleBackendRead] hands exactly these messages to the client's
    [Send], calls [NotifyRequestFinished] once for each when the
    backend's address is known, and keeps the unfinished rest in the
    buffer. *)
Theorem backend_responses_are_relayed_in_order (rt : Runtime)
    (s client : Socket) (packets : list (list byte)) (buf0 : list byte)
    (msgs : list (RequestResponseHeader.t * list byte)) (tail : list byte)
    (a : App S) :
  m_backendClientMap a !! s = Some client ->
  client <> 0%N -> GetErrno rt client = ERROR_NOTERROR ->
  is_read_error (GetErrno rt s) = false ->
  m_backendRxBuffers a !! s = Some buf0 ->
  Forall (fun p => p <> []) packets ->
  buf0 ++ concat packets = concat (map Frames.frame msgs) ++ tail ->
  Forall Frames.well_framed msgs -> Frames.incomplete tail ->
  exists a',
    HandleBackendRead (Datatypes.S (length msgs)) rt s packets a = Some a'
    /\ sends a' = sends a ++ map (fun m => (client, Frames.frame m)) msgs
    /\ m_backendRxBuffers a' !! s = Some tail
    /\ finished_calls a'
       = finished_calls a ++ match GetPeerName rt s with
                             | Some ad => replicate (length msgs) ad
                             | None => []
                             end.
Proof.
  intros Hmap Hc He Herr Hbuf Hpk Hbytes Hall Hinc.
  unfold HandleBackendRead. rewrite Hmap, He, Hbuf.
  destruct (N.eqb_spec client 0) as [|_]; [contradiction|].
  cbn [is_noterror negb orb].
  rewrite (recv_all_nonempty packets Hpk), Hbytes.
  destruct (relay_loop rt s client msgs tail Hc He Hall Hinc a)
    as (a1 & -> & F1 & F2 & F3 & _).
  cbn [mbind option_bind]. rewrite Herr.
  eexists. split; [reflexivity|].
  cbn [set_backendRxBuffers sends finished_calls m_backendRxBuffers].
  rewrite lookup_insert_eq. auto.
Qed.

End ProxyRelay.

Lemma cleanup_backend_socket_forgets_the_socket_witness :
  let backend : InetSocketAddress := (167772161, 9) in
  let rt := ProxyCore.mkRuntime (fun _ => ProxyCore.ERROR_NOTERROR)
              (fun _ => None) (fun _ p => Z.of_nat (length p))
              (fun k => (100 + N.of_nat k)%N) 0 in
  let a := ProxyCore.set_requestSendTimes
             (<[(100%N, 7) := 5]> (<[(101%N, 7) := 6]> ∅))
             (ProxyCore.set_pendingBackendRequests
                (<[100%N := ProxyCore.mkPending 1%N [] backend]> ∅)
                (ProxyCore.set_backendClientMap (<[100%N := 1%N]> ∅)
                   (ProxyCore.start WeightedRoundRobin.init))) in
  let a' := ProxyCore.CleanupBackendSocket rt 100%N false a in
  100%N <> 0%N
  /\ ProxyCore.m_pendingBackendRequests a' !! 100%N = None
  /\ ProxyCore.m_requestSendTimes a' !! (100%N, 7) = None
  /\ ProxyCore.m_requestSendTimes a' !! (101%N, 7)
     = ProxyCore.m_requestSendTimes a !! (101%N, 7).
Proof.
  intros backend rt a a'.
  assert (Hs : 100%N <> 0%N) by discriminate.
  split; [exact Hs|].
  destruct (cleanup_backend_socket_forgets_the_socket rt 100%N false a Hs)
    as ((_ & _ & Hp & Ht) & Hother & _).
  split; [exact Hp|]. split; [exact (Ht 7)|].
  destruct (Hother 101%N ltac:(discriminate)) as (_ & _ & _ & Ho).
  exact (Ho 7).
Defined.

Lemma cleanup_client_forgets_the_client_witness :
  let backend : InetSocketAddress := (167772161, 9) in
  let rt := ProxyCore.mkRuntime (fun _ => ProxyCore.ERROR_NOTERROR)
              (fun _ => None) (fun _ p => Z.of_nat (length p))
              (fun k => (100 + N.of_nat k)%N) 0 in
  let a := ProxyCore.set_pendingBackendRequests
             (<[100%N := ProxyCore.mkPending 1%N [] backend]> ∅)
             (ProxyCore.HandleAccept 2%N
                (ProxyCore.HandleAccept 1%N
                   (ProxyCore.start WeightedRoundRobin.init))) in
  let a' := ProxyCore.CleanupClient rt 1%N a in
  1%N <> 0%N
  /\ ProxyCore.m_clientRxBuffers a' !! 1%N = None
  /\ (forall s p, ProxyCore.m_pendingBackendRequests a' !! s = Some p ->
                  ProxyCore.clientSocket p <> 1%N)
  /\ ProxyCore.m_clientRxBuffers a' !! 2%N = Some [].
Proof.
  intros backend rt a a'.
  assert (Hc : 1%N <> 0%N) by discriminate.
  split; [exact Hc|].
  destruct (cleanup_client_forgets_the_client rt 1%N a Hc)
    as (Hbuf & _ & Hpend & Hother & _).
  split; [exact Hbuf|]. split.
  - exact Hpend.
  - transitivity (ProxyCore.m_clientRxBuffers a !! 2%N);
      [exact (Hother 2%N ltac:(discriminate))|reflexivity].
Defined.

Lemma backend_responses_are_relayed_in_order_witness :
  let backend : InetSocketAddress := (167772161, 9) in
  let rt := ProxyCore.mkRuntime (fun _ => ProxyCore.ERROR_NOTERROR)
              (fun _ => Some backend) (fun _ p => Z.of_nat (length p))
              (fun k => (100 + N.of_nat k)%N) 0 in
  let a := ProxyCore.set_backendRxBuffers
             (<[100%N := [x00; x00; x00]%byte]> ∅)
             (ProxyCore.set_backendClientMap (<[100%N := 1%N]> ∅)
                (ProxyCore.start WeightedRoundRobin.init)) in
  let m := (RequestResponseHeader.mk 7 (-5) 2 9, [x61; x62]%byte) in
  let bytes := Frames.frame m ++ [x00; x00]%byte in
  let packets := [take 10 (drop 3 bytes); drop 13 bytes] in
  exists a',
    ProxyCore.HandleBackendRead 2 rt 100%N packets a = Some a'
    /\ ProxyCore.sends a' = [(1%N, Frames.frame m)]
    /\ ProxyCore.m_backendRxBuffers a' !! 100%N = Some [x00; x00]%byte
    /\ ProxyCore.finished_calls a' = [backend].
Proof.
  intros backend rt a m bytes packets.
  apply (backend_responses_are_relayed_in_order rt 100%N 1%N packets
           [x00; x00; x00]%byte [m] [x00; x00]%byte a).
  - reflexivity.
  - discriminate.
  - reflexivity.
  - reflexivity.
  - reflexivity.
  - repeat constructor; vm_compute; discriminate.
  - vm_compute. reflexivity.
  - repeat constructor; cbv; intuition congruence.
  - left. cbn. lia.
Defined.

(** ** Streams of whole messages cut into packets *)

Section StreamFacts.
Import RequestResponseHeader.

Lemma length_frame (m : t * list byte) :
  length (Frames.frame m) = (24 + length (snd m))%nat.
Proof. unfold Frames.frame. now rewrite length_app, length_Serialize. Qed.

Lemma PeekHeader_frame (m : t * list byte) (rest : list byte) :
  wf (fst m) ->
  Framing.PeekHeader (take 24 (Frames.frame m ++ rest)) = Some (fst m, 24).
Proof.
  intros Hwf. unfold Frames.frame. rewrite <- app_assoc.
  rewrite take_app_length' by exact (length_Serialize (fst m)).
  unfold Framing.PeekHeader. now apply Deserialize_Serialize.
Qed.

(** What comes before the end of an unfinished message is unfinished. *)
Lemma incomplete_prefix (pre suf : list byte) :
  Frames.incomplete (pre ++ suf) -> Frames.incomplete pre.
Proof.
  intros Hinc. destruct (Nat.lt_ge_cases (length pre) 24) as [Hlt|Hge];
    [now left|].
  destruct Hinc as [Hshort|(h & Hpeek & Hfit & Hpart)].
  - rewrite length_app in Hshort. lia.
  - right. exists h. rewrite take_app_le in Hpeek by exact Hge.
    rewrite length_app in Hpart. repeat split; [exact Hpeek|exact Hfit|lia].
Qed.

Lemma frame_prefix_incomplete (m : t * list byte) (pre suf : list byte) :
  Frames.well_framed m -> Frames.frame m = pre ++ suf -> suf <> [] ->
  Frames.incomplete pre.
Proof.
  intros (Hwf & Hlen & Hfit) Heq Hsuf.
  assert (Hl : (length pre < 24 + length (snd m))%nat).
  { rewrite <- length_frame, Heq, length_app.
    destruct suf; [contradiction|cbn; lia]. }
  destruct (Nat.lt_ge_cases (length pre) 24) as [Hlt|Hge]; [now left|].
  right. exists (fst m). split; [|split; [exact Hfit|lia]].
  rewrite <- (take_app_le pre suf) by exact Hge. rewrite <- Heq.
  rewrite <- (app_nil_r (Frames.frame m)). now apply PeekHeader_frame.
Qed.

(** A buffer that starts with a whole message is not unfinished. *)
Lemma frame_not_incomplete (m : t * list byte) (rest : list byte) :
  Frames.well_framed m -> ~ Frames.incomplete (Frames.frame m ++ rest).
Proof.
  intros (Hwf & Hlen & Hfit) [Hshort|(h & Hpeek & _ & Hpart)].
  - rewrite length_app, length_frame in Hshort. lia.
  - rewrite PeekHeader_frame in Hpeek by exact Hwf.
    injection Hpeek as <-. rewrite length_app, length_frame in Hpart. lia.
Qed.

(** A prefix of a stream of whole messages followed by an unfinished
    one is again such a stream. *)
Lemma stream_prefix (msgs : list (t * list byte)) (tail : list byte) :
  Forall Frames.well_framed msgs -> Frames.incomplete tail ->
  forall pre suf,
    pre ++ suf = concat (map Frames.frame msgs) ++ tail ->
    exists ms1 ms2 t1,
      msgs = ms1 ++ ms2
      /\ pre = concat (map Frames.frame ms1) ++ t1
      /\ Frames.incomplete t1
      /\ t1 ++ suf = concat (map Frames.frame ms2) ++ tail.
Proof.
  intros Hall Hinc. induction Hall as [|m msgs Hm Hall IH]; intros pre suf Heq.
  - exists [], [], pre. cbn in *. repeat split; [|exact Heq].
    apply (incomplete_prefix pre suf). now rewrite Heq.
  - cbn [map concat] in Heq. rewrite <- app_assoc in Heq.
    apply app_eq_app in Heq as [l [[Hpre Hrest]|[Hframe Hsuf]]].
    + destruct (IH l suf) as (ms1 & ms2 & t1 & E1 & E2 & E3 & E4);
        [now symmetry|].
      exists (m :: ms1), ms2, t1. cbn [map concat app].
      rewrite <- app_assoc, <- E2. subst msgs. auto.
    + destruct l as [|x l].
      * rewrite app_nil_r in Hframe. cbn in Hsuf.
        destruct (IH [] suf) as (ms1 & ms2 & t1 & E1 & E2 & E3 & E4);
          [now symmetry|].
        exists (m :: ms1), ms2, t1. cbn [map concat app].
        rewrite <- app_assoc, <- E2, app_nil_r. subst msgs pre. auto.
      * exists [], (m :: msgs), pre. cbn [map concat app].
        split; [reflexivity|]. split; [reflexivity|].
        split; [now apply (frame_prefix_incomplete m pre (x :: l))|].
        rewrite Hsuf, Hframe, <- !app_assoc. reflexivity.
Qed.

Context {St : Type}.
Variable g : t -> St -> St.

(** The inner loop on whole messages, for a processing step that always
    returns. *)
Lemma reassembly_loop_fold (msgs : list (t * list byte)) (tail : list byte) :
  Forall Frames.well_framed msgs -> Frames.incomplete tail ->
  forall (fuel : nat) (st : St),
    (length msgs < fuel)%nat ->
    Framing.reassembly_loop fuel (fun h _ s => Some (g h s))
      (concat (map Frames.frame msgs) ++ tail) st
    = Some (tail, fold_left (fun s m => g (fst m) s) msgs st).
Proof.
  intros Hall Hinc. induction Hall as [|m msgs Hm Hall IH]; intros fuel st Hf;
    (destruct fuel as [|fuel]; [cbn in Hf; lia|]).
  - cbn [map concat app fold_left].
    now apply reassembly_loop_incomplete.
  - cbn [map concat fold_left length] in *. rewrite <- app_assoc.
    rewrite reassembly_loop_step_frame by exact Hm.
    apply IH. lia.
Qed.

(** The receive loop: cutting the byte stream into packets differently
    does not change what is processed. *)
Lemma recv_loop_frames (packets : list (list byte)) :
  Forall (fun p => p <> []) packets ->
  forall (buf : list byte) (msgs : list (t * list byte)) (tail : list byte)
         (fuel : nat) (st : St),
    Frames.incomplete buf ->
    buf ++ concat packets = concat (map Frames.frame msgs) ++ tail ->
    Forall Frames.well_framed msgs -> Frames.incomplete tail ->
    (length msgs < fuel)%nat ->
    PacketStream.recv_loop fuel (fun h _ s => Some (g h s)) packets buf st
    = Some (tail, fold_left (fun s m => g (fst m) s) msgs st).
Proof.
  induction 1 as [|p packets Hp Hpk IH];
    intros buf msgs tail fuel st Hbuf Heq Hall Hinc Hfuel.
  - cbn [concat] in Heq. rewrite app_nil_r in Heq.
    destruct Hall as [|m msgs Hm Hall].
    + cbn in Heq. subst buf. reflexivity.
    + exfalso. cbn [map concat] in Heq. rewrite <- app_assoc in Heq.
      rewrite Heq in Hbuf. exact (frame_not_incomplete m _ Hm Hbuf).
  - cbn [concat] in Heq. rewrite app_assoc in Heq.
    destruct (stream_prefix msgs tail Hall Hinc _ _ Heq)
      as (ms1 & ms2 & t1 & E1 & E2 & E3 & E4).
    subst msgs. apply Forall_app in Hall as [Hall1 Hall2].
    rewrite length_app in Hfuel.
    cbn [PacketStream.recv_loop]. destruct p as [|x p]; [contradiction|].
    rewrite E2, (reassembly_loop_fold ms1 t1 Hall1 E3) by lia.
    cbn [mbind option_bind].
    rewrite (IH t1 ms2 tail fuel _ E3 E4 Hall2 Hinc) by lia.
    now rewrite fold_left_app.
Qed.

End StreamFacts.

(** ** The server *)

Section ServerFacts.
Import RequestResponseHeader LatencyServerApp.

Lemma ProcessRequest_fold (socket : Socket)
    (msgs : list (t * list byte)) :
  forall st : state,
    socket ∈ m_socketList st ->
    let st' := fold_left
                 (fun s (m : t * list byte) =>
                    ProcessRequest socket (fst m) (m_payloadSize (fst m)) s)
                 msgs st in
    m_socketList st' = m_socketList st
    /\ m_rxBuffers st' = m_rxBuffers st
    /\ m_processingDelay st' = m_processingDelay st
    /\ m_listeningSocket st' = m_listeningSocket st
    /\ closed st' = closed st
    /\ u64 (m_requestsReceived st')
       = u64 (m_requestsReceived st + Z.of_nat (length msgs))
    /\ (msgs <> [] -> is_u64 (m_requestsReceived st'))
    /\ (if 0 <? m_processingDelay st
        then sends st' = sends st
             /\ scheduled st'
                = scheduled st
                  ++ map (fun m => (m_processingDelay st, socket, fst m)) msgs
        else sends st'
             = sends st
               ++ map (fun m => (socket, Serialize (SetPayloadSize 0 (fst m))))
                      msgs
             /\ scheduled st' = scheduled st).
Proof.
  induction msgs as [|m msgs IH]; intros st Hin; cbn [fold_left].
  - cbn [length map]. change (Z.of_nat 0) with 0.
    rewrite Z.add_0_r, !app_nil_r.
    do 6 (split; [reflexivity|]). split; [congruence|].
    destruct (0 <? m_processingDelay st); auto.
  - set (st1 := ProcessRequest socket (fst m) (m_payloadSize (fst m)) st).
    assert (H1 : m_socketList st1 = m_socketList st
                 /\ m_rxBuffers st1 = m_rxBuffers st
                 /\ m_processingDelay st1 = m_processingDelay st
                 /\ m_listeningSocket st1 = m_listeningSocket st
                 /\ closed st1 = closed st
                 /\ m_requestsReceived st1 = u64 (m_requestsReceived st + 1)
                 /\ (if 0 <? m_processingDelay st
                     then sends st1 = sends st
                          /\ scheduled st1
                             = scheduled st
                               ++ [(m_processingDelay st, socket, fst m)]
                     else sends st1
                          = sends st
                            ++ [(socket, Serialize (SetPayloadSize 0 (fst m)))]
                          /\ scheduled st1 = scheduled st)).
    { unfold st1, ProcessRequest. cbn [m_processingDelay].
      destruct (0 <? m_processingDelay st); [cbn; repeat split|].
      unfold SendResponse. cbn [m_socketList].
      rewrite decide_True by exact Hin. cbn. repeat split. }
    destruct H1 as (E1 & E2 & E3 & E4 & E5 & E6 & E7).
    destruct (IH st1) as (F1 & F2 & F3 & F4 & F5 & F6 & F7 & F8);
      [now rewrite E1|].
    cbn zeta in *. rewrite F1, F2, F3, F4, F5, E1, E2, E3, E4, E5.
    do 5 (split; [reflexivity|]). split; [|split].
    + rewrite F6, E6. unfold u64. cbn [length].
      rewrite Z.add_mod_idemp_l by lia. f_equal. lia.
    + intros _. destruct msgs as [|m' msgs]; [|apply F7; discriminate].
      cbn [fold_left]. rewrite E6. unfold is_u64, u64.
      apply Z.mod_pos_bound. lia.
    + rewrite E3 in F8. destruct (0 <? m_processingDelay st).
      * destruct F8 as [G1 G2], E7 as [G3 G4].
        rewrite G1, G2, G3, G4, <- app_assoc. auto.
      * destruct F8 as [G1 G2], E7 as [G3 G4].
        rewrite G1, G2, G3, G4, <- app_assoc. auto.
Qed.

(** X22.  Server: every whole request is answered once, in order, however
    the bytes were cut into packets.  When the bytes buffered for an
    accepted socket followed by the packets received are whole requests
    (each of a total length below [2^32]) and the start of one that is
    not whole, [HandleRead] counts each
    request, and either sends for each the request's header with a
    payload size of 0 and no payload (no processing delay), or schedules
    that response (with a delay); the unfinished rest stays in the
    buffer. *)
Theorem server_answers_each_request_once (fuel : nat) (socket : Socket)
    (packets : list (list byte)) (buf0 : list byte)
    (msgs : list (t * list byte)) (tail : list byte) (st : state) :
  m_rxBuffers st !! socket = Some buf0 ->
  socket ∈ m_socketList st ->
  is_u64 (m_requestsReceived st) ->
  Frames.incomplete buf0 ->
  Forall (fun p => p <> []) packets ->
  buf0 ++ concat packets = concat (map Frames.frame msgs) ++ tail ->
  Forall Frames.well_framed msgs -> Frames.incomplete tail ->
  (length msgs < fuel)%nat ->
  exists st',
    HandleRead fuel socket packets st = Some st'
    /\ m_rxBuffers st' !! socket = Some tail
    /\ m_requestsReceived st'
       = u64 (m_requestsReceived st + Z.of_nat (length msgs))
    /\ (if 0 <? m_processingDelay st
        then sends st' = sends st
             /\ scheduled st'
                = scheduled st
                  ++ map (fun m => (m_processingDelay st, socket, fst m)) msgs
        else sends st'
             = sends st
               ++ map (fun m => (socket, Serialize (SetPayloadSize 0 (fst m))))
                      msgs
             /\ scheduled st' = scheduled st).
Proof.
  intros Hbuf Hin Hcount Hinc0 Hpk Hbytes Hall Hinc Hfuel.
  unfold HandleRead. rewrite Hbuf.
  rewrite (recv_loop_frames
             (fun h s => ProcessRequest socket h (m_payloadSize h) s)
             packets Hpk buf0 msgs tail fuel st Hinc0 Hbytes Hall Hinc Hfuel).
  cbn [mbind option_bind].
  destruct (ProcessRequest_fold socket msgs st Hin)
    as (F1 & F2 & F3 & F4 & F5 & F6 & F7 & F8).
  cbn zeta in *. eexists. split; [reflexivity|].
  cbn [m_rxBuffers m_requestsReceived sends scheduled].
  rewrite lookup_insert_eq. split; [reflexivity|]. split; [|exact F8].
  destruct msgs as [|m msgs].
  - cbn. rewrite Z.add_0_r. unfold u64. symmetry. apply Z.mod_small.
    exact Hcount.
  - rewrite <- F6. unfold u64. symmetry. apply Z.mod_small.
    apply F7. discriminate.
Qed.

(** X23.  Server: no response goes to a client that has gone.  After
    [HandleClientClose] or [HandleClientError] for a socket, a response
    scheduled earlier for that socket is dropped when it becomes due, and
    data still arriving on the socket is ignored: nothing is sent and no
    request is counted. *)
Theorem server_drops_responses_for_closed_socket (fuel : nat)
    (socket : Socket) (header : t) (packets : list (list byte))
    (st : state) :
  let st1 := HandleClientClose socket st in
  HandleClientError socket st = st1
  /\ SendResponse socket header st1 = st1
  /\ HandleRead fuel socket packets st1 = Some st1
  /\ sends st1 = sends st
  /\ forall other, other <> socket ->
       (other ∈ m_socketList st1 <-> other ∈ m_socketList st)
       /\ m_rxBuffers st1 !! other = m_rxBuffers st !! other.
Proof.
  intros st1. split; [reflexivity|]. split; [|split; [|split]].
  - unfold SendResponse. rewrite decide_False; [reflexivity|].
    unfold st1. cbn [HandleClientClose m_socketList].
    rewrite list_elem_of_filter. intros [Hne _]. now apply Hne.
  - unfold HandleRead, st1. cbn [HandleClientClose m_rxBuffers].
    now rewrite lookup_delete_eq.
  - reflexivity.
  - intros other Hne. unfold st1.
    cbn [HandleClientClose m_socketList m_rxBuffers]. split.
    + rewrite list_elem_of_filter. tauto.
    + now rewrite lookup_delete_ne by congruence.
Qed.

End ServerFacts.

Lemma server_answers_each_request_once_witness :
  let st := LatencyServerApp.HandleAccept 7%N
              (LatencyServerApp.mkServer true [] 0 ∅ 0 [] [] []) in
  let m := (RequestResponseHeader.mk 7 (-5) 2 9, [x61; x62]%byte) in
  let bytes := Frames.frame m ++ [x00; x00]%byte in
  let packets := [take 10 bytes; drop 10 bytes] in
  exists st',
    LatencyServerApp.HandleRead 2 7%N packets st = Some st'
    /\ LatencyServerApp.m_rxBuffers st' !! 7%N = Some [x00; x00]%byte
    /\ LatencyServerApp.m_requestsReceived st' = 1
    /\ LatencyServerApp.sends st'
       = [(7%N, RequestResponseHeader.Serialize
                  (RequestResponseHeader.mk 7 (-5) 0 9))].
Proof.
  intros st m bytes packets.
  destruct (server_answers_each_request_once 2 7%N packets [] [m]
              [x00; x00]%byte st) as (st' & H1 & H2 & H3 & H4 & _).
  - reflexivity.
  - vm_compute. left.
  - vm_compute. split; [discriminate|reflexivity].
  - left. cbn. lia.
  - repeat constructor; vm_compute; discriminate.
  - vm_compute. reflexivity.
  - repeat constructor; cbv; intuition congruence.
  - left. cbn. lia.
  - cbn. lia.
  - exists st'. split; [exact H1|]. split; [exact H2|].
    split; [exact H3|exact H4].
Defined.

(** ** The client *)

Section ClientFacts.
Import RequestResponseHeader LatencyClientApp ClientBooks.

(** A property kept by the processing step is kept by the loops. *)
Lemma reassembly_loop_preserves {St : Type} (P : St -> Prop)
    (process : t -> list byte -> St -> option St) :
  (forall h p s s', P s -> process h p s = Some s' -> P s') ->
  forall fuel buf st rest st',
    P st -> Framing.reassembly_loop fuel process buf st = Some (rest, st') ->
    P st'.
Proof.
  intros Hstep. induction fuel as [|fuel IH]; intros buf st rest st' HP;
    cbn [Framing.reassembly_loop]; [discriminate|].
  destruct (_ <? _); [now intros [= _ <-]|].
  destruct (Framing.PeekHeader _) as [[h n]|]; [|now intros [= _ <-]].
  destruct (negb _); [now intros [= _ <-]|].
  destruct (_ <=? _); [|now intros [= _ <-]].
  destruct (process h _ st) as [s1|] eqn:E; [|discriminate].
  apply IH. exact (Hstep _ _ _ _ HP E).
Qed.

Lemma recv_loop_preserves {St : Type} (P : St -> Prop)
    (process : t -> list byte -> St -> option St) (fuel : nat) :
  (forall h p s s', P s -> process h p s = Some s' -> P s') ->
  forall packets buf st rest st',
    P st ->
    PacketStream.recv_loop fuel process packets buf st = Some (rest, st') ->
    P st'.
Proof.
  intros Hstep. induction packets as [|p packets IH];
    intros buf st rest st' HP; cbn [PacketStream.recv_loop].
  - now intros [= _ <-].
  - destruct p as [|x p]; [now intros [= _ <-]|].
    destruct (Framing.reassembly_loop fuel process _ st) as [[b1 s1]|] eqn:E;
      cbn [mbind option_bind]; [|discriminate].
    apply IH. exact (reassembly_loop_preserves P process Hstep _ _ _ _ _ HP E).
Qed.


Lemma books_record_response (base : nat) (count n nowNs : Z) (h : t)
    (c : state) :
  n < 2 ^ 32 -> books base count n c ->
  books base count n (record_response nowNs h c).
Proof.
  intros Hn (B1 & B2 & B3 & B4 & B5 & B6 & B7 & B8). unfold record_response.
  destruct (m_sentTimes c !! m_seq h) as [sendTime|] eqn:E;
    [|unfold books; tauto].
  assert (Hsize : Z.of_nat (size (m_sentTimes c))
                  = Z.of_nat (size (delete (m_seq h) (m_sentTimes c))) + 1).
  { rewrite <- (insert_delete_id (m_sentTimes c) (m_seq h) sendTime) at 1
      by exact E.
    rewrite map_size_insert_None by apply lookup_delete_eq. lia. }
  unfold books. cbn [m_seqCounter m_requestCount m_requestsSent sends
                     m_responsesReceived m_latencies m_sentTimes].
  rewrite length_app. cbn [length].
  split; [exact B1|]. split; [exact B2|]. split; [exact B3|].
  split; [exact B4|]. split; [|split; [lia|split; [|exact B8]]].
  - rewrite B5, Nat2Z.inj_add. apply u32_small. lia.
  - intros k Hk. apply B7. destruct Hk as [x Hx].
    apply lookup_delete_Some in Hx as [_ Hx]. eauto.
Qed.

Lemma books_SendRequestPacket (base : nat) (count n nowNs l7 r : Z)
    (c : state) :
  n + 1 < 2 ^ 32 -> books base count n c ->
  books base count (n + 1) (SendRequestPacket nowNs l7 r c).
Proof.
  intros Hn HB.
  assert (Hweak : books base count (n + 1) c).
  { destruct HB as (B1 & HB'). split; [lia|exact HB']. }
  unfold SendRequestPacket.
  destruct (negb (m_running c)); [exact Hweak|].
  destruct (negb (m_connected c)); [exact Hweak|].
  destruct ((0 <? m_requestCount c) && (m_requestCount c <=? m_requestsSent c))
    eqn:Hfull; [exact Hweak|].
  destruct HB as (B1 & B2 & B3 & B4 & B5 & B6 & B7 & B8).
  assert (Hseq : u64 (m_seqCounter c + 1) = m_seqCounter c + 1)
    by (apply Z.mod_small; lia).
  assert (Hsent : u32 (m_requestsSent c + 1) = m_seqCounter c + 1)
    by (rewrite B3; apply u32_small; lia).
  assert (Hfresh : m_sentTimes c !! (m_seqCounter c + 1) = None).
  { destruct (m_sentTimes c !! (m_seqCounter c + 1)) eqn:E; [|reflexivity].
    assert (Hk : is_Some (m_sentTimes c !! (m_seqCounter c + 1))) by eauto.
    apply B7 in Hk. lia. }
  assert (Hbound : 0 < count -> m_seqCounter c + 1 <= count).
  { intros Hc. rewrite B2 in Hfull.
    destruct (Z.ltb_spec 0 count); [|lia].
    destruct (Z.leb_spec count (m_requestsSent c)); [discriminate|lia]. }
  set (c1 := mkClient _ _ _ _ _ _ _ _ _ _ _ _ _ _ _ _ _ _).
  assert (H1 : books base count (n + 1) c1).
  { unfold books, c1.
    cbn [m_seqCounter m_requestCount m_requestsSent sends
         m_responsesReceived m_latencies m_sentTimes].
    rewrite Hseq, Hsent, length_app, map_size_insert_None by exact Hfresh.
    cbn [length].
    split; [lia|]. split; [exact B2|]. split; [reflexivity|].
    split; [lia|]. split; [exact B5|]. split; [lia|]. split; [|exact Hbound].
    intros k [x Hx]. destruct (decide (k = m_seqCounter c + 1)); [lia|].
    rewrite lookup_insert_ne in Hx by congruence.
    assert (Hk : is_Some (m_sentTimes c !! k)) by eauto.
    apply B7 in Hk. lia. }
  destruct (r <? 0); [exact H1|].
  unfold ScheduleNextRequest.
  destruct (negb (m_running c1)); [exact H1|].
  destruct (negb (m_connected c1)); [exact H1|].
  destruct ((m_requestCount c1 =? 0) || _); [exact H1|].
  destruct ((0 <? m_requestCount c1) && _); [|exact H1].
  destruct (m_socket c1 && m_connected c1); exact H1.
Qed.

Lemma books_step (fuel : nat) (base : nat) (count n : Z) (ev : call)
    (c c' : state) :
  n + 1 < 2 ^ 32 -> books base count n c -> step fuel ev c = Some c' ->
  books base count (n + 1) c'.
Proof.
  intros Hn HB.
  assert (Hweak : books base count (n + 1) c).
  { destruct HB as (B1 & HB'). split; [lia|exact HB']. }
  destruct ev as [| | |e|nowNs packets|held nowNs l7 r|]; cbn [step].
  - intros [= <-]. exact Hweak.
  - intros [= <-]. exact Hweak.
  - intros [= <-]. exact Hweak.
  - intros [= <-]. exact Hweak.
  - unfold HandleRead.
    destruct (PacketStream.recv_loop fuel _ packets (m_rxBuffer c) c)
      as [[buf c1]|] eqn:E; cbn [mbind option_bind]; [|discriminate].
    intros [= <-].
    apply (recv_loop_preserves (books base count (n + 1))) in E;
      [exact E| |exact Hweak].
    intros h p s s' Hs [= <-]. apply books_record_response; [lia|exact Hs].
  - intros [= <-]. apply books_SendRequestPacket; [exact Hn|exact HB].
  - intros [= <-]. exact Hweak.
Qed.

Lemma books_run (fuel : nat) (base : nat) (count : Z) (evs : list call) :
  forall (n : Z) (c c' : state),
    n + Z.of_nat (length evs) < 2 ^ 32 ->
    books base count n c -> run fuel evs c = Some c' ->
    books base count (n + Z.of_nat (length evs)) c'.
Proof.
  induction evs as [|ev evs IH]; intros n c c' Hn HB; cbn [run length].
  - intros [= <-]. now rewrite Z.add_0_r.
  - cbn [length] in Hn.
    destruct (step fuel ev c) as [c1|] eqn:E; cbn [mbind option_bind];
      [|discriminate].
    intros Hrun. replace (n + Z.of_nat (S (length evs)))
      with ((n + 1) + Z.of_nat (length evs)) by lia.
    apply (IH (n + 1) c1 c'); [lia| |exact Hrun].
    apply (books_step fuel base count n ev c c1); [lia|exact HB|exact E].
Qed.

Lemma books_start (c0 : state) :
  books (length (sends c0)) (m_requestCount c0) 0 (StartApplication true c0).
Proof.
  unfold books. cbn. repeat split; try lia.
  - destruct H as [x Hx]. rewrite lookup_empty in Hx. discriminate.
  - destruct H as [x Hx]. rewrite lookup_empty in Hx. discriminate.
Qed.

(** X24.  Client: every request is accounted for.  After
    [StartApplication] and fewer than [2^32] calls of the client's
    callbacks and timers, in any order, [m_requestsSent] is the number of
    packets handed to [Send] since the start, [m_responsesReceived] is
    the number of recorded latencies, and every request sent has either
    a recorded latency or an entry in [m_sentTimes]. *)
Theorem client_accounts_for_every_request (fuel : nat) (evs : list call)
    (c0 c : state) :
  Z.of_nat (length evs) < 2 ^ 32 ->
  run fuel evs (StartApplication true c0) = Some c ->
  Z.of_nat (length (sends c))
  = Z.of_nat (length (sends c0)) + m_requestsSent c
  /\ m_responsesReceived c = Z.of_nat (length (m_latencies c))
  /\ Z.of_nat (size (m_sentTimes c)) + m_responsesReceived c
     = m_requestsSent c.
Proof.
  intros Hlen Hrun.
  destruct (books_run fuel (length (sends c0)) (m_requestCount c0) evs 0
              (StartApplication true c0) c)
    as (B1 & B2 & B3 & B4 & B5 & B6 & B7 & B8);
    [lia|apply books_start|exact Hrun|].
  rewrite B3, B5. auto.
Qed.

(** X25.  Client: with a request count that is not 0 the client never
    sends more requests than that: after [StartApplication] and fewer
    than [2^32] calls, in any order and whatever [Send] returns, at most
    [m_requestCount] packets have been handed to [Send]. *)
Theorem client_never_exceeds_request_count (fuel : nat) (evs : list call)
    (c0 c : state) :
  Z.of_nat (length evs) < 2 ^ 32 ->
  0 < m_requestCount c0 ->
  run fuel evs (StartApplication true c0) = Some c ->
  Z.of_nat (length (sends c))
  <= Z.of_nat (length (sends c0)) + m_requestCount c0.
Proof.
  intros Hlen Hcount Hrun.
  destruct (books_run fuel (length (sends c0)) (m_requestCount c0) evs 0
              (StartApplication true c0) c)
    as (B1 & B2 & B3 & B4 & B5 & B6 & B7 & B8);
    [lia|apply books_start|exact Hrun|].
  specialize (B8 Hcount). lia.
Qed.

End ClientFacts.

(** ** A request and its response *)

Section RoundTrip.
Import RequestResponseHeader.

Lemma ScheduleNextRequest_keeps (c : LatencyClientApp.state) :
  let c' := LatencyClientApp.ScheduleNextRequest c in
  LatencyClientApp.m_sentTimes c' = LatencyClientApp.m_sentTimes c
  /\ LatencyClientApp.m_latencies c' = LatencyClientApp.m_latencies c
  /\ LatencyClientApp.m_rxBuffer c' = LatencyClientApp.m_rxBuffer c
  /\ LatencyClientApp.sends c' = LatencyClientApp.sends c
  /\ LatencyClientApp.m_responsesReceived c'
     = LatencyClientApp.m_responsesReceived c.
Proof.
  unfold LatencyClientApp.ScheduleNextRequest.
  destruct (negb _); [auto|]. destruct (negb _); [auto|].
  destruct (_ || _); [cbn; auto|].
  destruct (_ && _); [|auto]. destruct (_ && _); cbn; auto.
Qed.

Lemma request_well_framed (nowNs l7 : Z) (c : LatencyClientApp.state) :
  is_s64 nowNs -> is_u64 l7 ->
  0 <= LatencyClientApp.m_requestSize c ->
  24 + LatencyClientApp.m_requestSize c < 2 ^ 32 ->
  let m := (LatencyClientApp.request_header nowNs l7 c,
            replicate (Z.to_nat (LatencyClientApp.m_requestSize c)) x00) in
  Frames.well_framed m
  /\ Frames.frame m = LatencyClientApp.request_packet nowNs l7 c.
Proof.
  intros Hnow Hl7 Hsize Hfit m. split; [|reflexivity].
  unfold Frames.well_framed, m, LatencyClientApp.request_header, wf.
  cbn [fst snd m_seq m_timestamp m_payloadSize m_l7Identifier].
  rewrite length_replicate.
  split; [|split; [lia|exact Hfit]].
  split; [apply u32_range|]. split; [exact Hnow|].
  split; [unfold is_u32; lia|exact Hl7].
Qed.

(** X26.  A request and its response, from the client to the server and
    back.  The packet a running, connected client sends is one whole
    message; a server without processing delay that reads it on an
    accepted socket answers with the same header and a payload size of
    0; and the client, reading that answer at time [now2], records the
    latency [now2 - now1], counts the response and forgets the send
    time. *)
Theorem request_and_response_round_trip (fuel : nat)
    (now1 now2 l7 bytesActuallySent : Z) (socket : Socket)
    (c : LatencyClientApp.state) (sv : LatencyServerApp.state) :
  (2 <= fuel)%nat ->
  LatencyClientApp.m_running c = true ->
  LatencyClientApp.m_connected c = true ->
  LatencyClientApp.m_requestCount c = 0
  \/ LatencyClientApp.m_requestsSent c < LatencyClientApp.m_requestCount c ->
  0 <= LatencyClientApp.m_seqCounter c < 2 ^ 32 - 1 ->
  LatencyClientApp.m_rxBuffer c = [] ->
  is_s64 now1 -> is_u64 l7 ->
  0 <= LatencyClientApp.m_requestSize c ->
  24 + LatencyClientApp.m_requestSize c < 2 ^ 32 ->
  LatencyServerApp.m_rxBuffers sv !! socket = Some [] ->
  socket ∈ LatencyServerApp.m_socketList sv ->
  LatencyServerApp.m_processingDelay sv <= 0 ->
  let c1 := LatencyClientApp.SendRequestPacket now1 l7 bytesActuallySent c in
  let request := LatencyClientApp.request_packet now1 l7 c in
  let response :=
    Serialize (mk (LatencyClientApp.m_seqCounter c + 1) now1 0 l7) in
  exists sv' c2,
    LatencyClientApp.sends c1 = LatencyClientApp.sends c ++ [request]
    /\ LatencyServerApp.HandleRead fuel socket [request] sv = Some sv'
    /\ LatencyServerApp.sends sv'
       = LatencyServerApp.sends sv ++ [(socket, response)]
    /\ LatencyClientApp.HandleRead fuel now2 [response] c1 = Some c2
    /\ LatencyClientApp.m_latencies c2
       = LatencyClientApp.m_latencies c ++ [now2 - now1]
    /\ LatencyClientApp.m_sentTimes c2
       !! (LatencyClientApp.m_seqCounter c + 1) = None
    /\ LatencyClientApp.m_responsesReceived c2
       = u32 (LatencyClientApp.m_responsesReceived c + 1).
Proof.
  intros Hfuel Hrun Hconn Hcount Hseq Hbuf Hnow Hl7 Hsize Hfit
         Hsbuf Hsock Hdelay c1 request response.
  destruct (request_well_framed now1 l7 c Hnow Hl7 Hsize Hfit)
    as (Hwf & Hframe).
  set (h := LatencyClientApp.request_header now1 l7 c) in *.
  set (payload := replicate _ x00) in *.
  assert (Hseq32 : u32 (u64 (LatencyClientApp.m_seqCounter c + 1))
                   = LatencyClientApp.m_seqCounter c + 1).
  { unfold u64. rewrite Z.mod_small by lia. apply u32_small. lia. }
  assert (Hseq64 : u64 (LatencyClientApp.m_seqCounter c + 1)
                   = LatencyClientApp.m_seqCounter c + 1)
    by (apply Z.mod_small; lia).
  assert (Hh0 : LatencyServerApp.SetPayloadSize 0 h
                = mk (LatencyClientApp.m_seqCounter c + 1) now1 0 l7).
  { unfold LatencyServerApp.SetPayloadSize, h,
      LatencyClientApp.request_header. cbn. now rewrite Hseq32. }
  (* the client sends *)
  assert (Hc1 : LatencyClientApp.sends c1
                = LatencyClientApp.sends c ++ [request]
                /\ LatencyClientApp.m_sentTimes c1
                   = <[LatencyClientApp.m_seqCounter c + 1 := now1]>
                       (LatencyClientApp.m_sentTimes c)
                /\ LatencyClientApp.m_latencies c1
                   = LatencyClientApp.m_latencies c
                /\ LatencyClientApp.m_rxBuffer c1 = []
                /\ LatencyClientApp.m_responsesReceived c1
                   = LatencyClientApp.m_responsesReceived c).
  { unfold c1, LatencyClientApp.SendRequestPacket.
    rewrite Hrun, Hconn. cbn [negb].
    assert (Hgo : (0 <? LatencyClientApp.m_requestCount c)
                  && (LatencyClientApp.m_requestCount c
                      <=? LatencyClientApp.m_requestsSent c) = false).
    { destruct Hcount as [-> | Hlt]; [reflexivity|].
      apply andb_false_iff. right. apply Z.leb_gt. exact Hlt. }
    rewrite Hgo, Hseq64.
    set (c0 := LatencyClientApp.mkClient _ _ _ _ _ _ _ _ _ _ _ _ _ _ _ _ _ _).
    destruct (ScheduleNextRequest_keeps c0) as (K1 & K2 & K3 & K4 & K5).
    cbn zeta in *.
    destruct (bytesActuallySent <? 0);
      [|rewrite K1, K2, K3, K4, K5]; cbn; rewrite ?Hbuf; auto. }
  destruct Hc1 as (S1 & S2 & S3 & S4 & S5).
  (* the server answers *)
  assert (Hserver : PacketStream.recv_loop fuel
             (fun reqHeader _ s =>
                Some (LatencyServerApp.ProcessRequest socket reqHeader
                        (m_payloadSize reqHeader) s))
             [request] [] sv
           = Some ([], LatencyServerApp.ProcessRequest socket h
                         (m_payloadSize h) sv)).
  { apply (recv_loop_frames
             (fun h s => LatencyServerApp.ProcessRequest socket h
                           (m_payloadSize h) s)
             [request] ltac:(repeat constructor; unfold request;
                             rewrite <- Hframe;
                             intros E; apply (f_equal length) in E;
                             rewrite length_frame in E; discriminate)
             [] [(h, payload)] [] fuel sv).
    - left. cbn. lia.
    - cbn [concat map app]. now rewrite !app_nil_r.
    - constructor; [exact Hwf|constructor].
    - left. cbn. lia.
    - cbn. lia. }
  (* the client reads the answer *)
  assert (Hresp : Frames.well_framed (LatencyServerApp.SetPayloadSize 0 h, [])
                  /\ Frames.frame (LatencyServerApp.SetPayloadSize 0 h, [])
                     = response).
  { split.
    - destruct Hwf as ((W1 & W2 & W3 & W4) & _ & _).
      unfold Frames.well_framed, wf, is_u32, LatencyServerApp.SetPayloadSize.
      cbn [fst snd m_seq m_timestamp m_payloadSize m_l7Identifier length].
      split; [|split; [reflexivity|lia]].
      split; [exact W1|]. split; [exact W2|]. split; [lia|exact W4].
    - unfold Frames.frame, response. cbn [fst snd].
      now rewrite app_nil_r, Hh0. }
  destruct Hresp as (Hwf0 & Hframe0).
  assert (Hclient : PacketStream.recv_loop fuel
             (fun respHeader _ s =>
                Some (LatencyClientApp.record_response now2 respHeader s))
             [response] [] c1
           = Some ([], LatencyClientApp.record_response now2
                         (LatencyServerApp.SetPayloadSize 0 h) c1)).
  { apply (recv_loop_frames
             (fun h s => LatencyClientApp.record_response now2 h s)
             [response] ltac:(repeat constructor; rewrite <- Hframe0;
                              intros E; apply (f_equal length) in E;
                              rewrite length_frame in E; discriminate)
             [] [(LatencyServerApp.SetPayloadSize 0 h, [])] [] fuel c1).
    - left. cbn. lia.
    - cbn [concat map app]. now rewrite !app_nil_r.
    - constructor; [exact Hwf0|constructor].
    - left. cbn. lia.
    - cbn. lia. }
  eexists _, _. split; [exact S1|].
  split; [unfold LatencyServerApp.HandleRead; rewrite Hsbuf, Hserver;
          reflexivity|].
  split.
  { cbn [LatencyServerApp.sends]. unfold LatencyServerApp.ProcessRequest.
    cbn [LatencyServerApp.m_processingDelay].
    destruct (Z.ltb_spec 0 (LatencyServerApp.m_processingDelay sv)); [lia|].
    unfold LatencyServerApp.SendResponse.
    cbn [LatencyServerApp.m_socketList].
    rewrite decide_True by exact Hsock.
    cbn [LatencyServerApp.sends]. now rewrite Hh0. }
  split; [unfold LatencyClientApp.HandleRead; rewrite S4, Hclient;
          reflexivity|].
  cbn [LatencyClientApp.m_latencies LatencyClientApp.m_sentTimes
       LatencyClientApp.m_responsesReceived].
  unfold LatencyClientApp.record_response. rewrite Hh0. cbn [m_seq].
  rewrite S2, lookup_insert_eq.
  cbn [LatencyClientApp.m_latencies LatencyClientApp.m_sentTimes
       LatencyClientApp.m_responsesReceived].
  rewrite S3, S5, lookup_delete_eq. auto.
Qed.

End RoundTrip.

Lemma client_accounts_for_every_request_witness :
  let c0 := LatencyClientApp.mkClient false 2 3 1000 false 0 0 0 false false
              ∅ [] [] [] [] 0 0 0 in
  let response :=
    RequestResponseHeader.Serialize (RequestResponseHeader.mk 1 10 0 77) in
  let evs := [LatencyClientApp.Connected;
              LatencyClientApp.SendTimer false 10 77 26;
              LatencyClientApp.SendTimer true 1010 78 26;
              LatencyClientApp.Readable 2000 [response]] in
  exists c,
    LatencyClientApp.run 2 evs (LatencyClientApp.StartApplication true c0)
    = Some c
    /\ Z.of_nat (length (LatencyClientApp.sends c))
       = Z.of_nat (length (LatencyClientApp.sends c0))
         + LatencyClientApp.m_requestsSent c
    /\ LatencyClientApp.m_responsesReceived c
       = Z.of_nat (length (LatencyClientApp.m_latencies c))
    /\ Z.of_nat (size (LatencyClientApp.m_sentTimes c))
       + LatencyClientApp.m_responsesReceived c
       = LatencyClientApp.m_requestsSent c.
Proof.
  intros c0 response evs.
  destruct (LatencyClientApp.run 2 evs
              (LatencyClientApp.StartApplication true c0)) as [c|] eqn:E.
  - exists c. split; [reflexivity|].
    apply (client_accounts_for_every_request 2 evs c0 c); [cbn; lia|exact E].
  - exfalso. vm_compute in E. discriminate.
Defined.

Lemma client_never_exceeds_request_count_witness :
  let c0 := LatencyClientApp.mkClient false 2 1 1000 false 0 0 0 false false
              ∅ [] [] [] [] 0 0 0 in
  let evs := [LatencyClientApp.Connected;
              LatencyClientApp.SendTimer false 10 77 26;
              LatencyClientApp.SendTimer true 1010 78 26;
              LatencyClientApp.SendTimer true 2010 79 26] in
  exists c,
    LatencyClientApp.run 2 evs (LatencyClientApp.StartApplication true c0)
    = Some c
    /\ Z.of_nat (length (LatencyClientApp.sends c))
       <= Z.of_nat (length (LatencyClientApp.sends c0))
          + LatencyClientApp.m_requestCount c0.
Proof.
  intros c0 evs.
  destruct (LatencyClientApp.run 2 evs
              (LatencyClientApp.StartApplication true c0)) as [c|] eqn:E.
  - exists c. split; [reflexivity|].
    apply (client_never_exceeds_request_count 2 evs c0 c);
      [cbn; lia|cbn; lia|exact E].
  - exfalso. vm_compute in E. discriminate.
Defined.

Lemma request_and_response_round_trip_witness :
  let c := LatencyClientApp.ConnectionSucceeded
             (LatencyClientApp.StartApplication true
                (LatencyClientApp.mkClient false 2 3 1000 false 0 0 0 false
                   false ∅ [] [] [] [] 0 0 0)) in
  let sv := LatencyServerApp.HandleAccept 7%N
              (LatencyServerApp.mkServer true [] 0 ∅ 0 [] [] []) in
  let c1 := LatencyClientApp.SendRequestPacket 10 77 26 c in
  let request := LatencyClientApp.request_packet 10 77 c in
  let response :=
    RequestResponseHeader.Serialize (RequestResponseHeader.mk 1 10 0 77) in
  exists sv' c2,
    LatencyClientApp.sends c1 = LatencyClientApp.sends c ++ [request]
    /\ LatencyServerApp.HandleRead 2 7%N [request] sv = Some sv'
    /\ LatencyServerApp.sends sv'
       = LatencyServerApp.sends sv ++ [(7%N, response)]
    /\ LatencyClientApp.HandleRead 2 2000 [response] c1 = Some c2
    /\ LatencyClientApp.m_latencies c2
       = LatencyClientApp.m_latencies c ++ [2000 - 10]
    /\ LatencyClientApp.m_sentTimes c2 !! 1 = None
    /\ LatencyClientApp.m_responsesReceived c2
       = u32 (LatencyClientApp.m_responsesReceived c + 1).
Proof.
  intros c sv.
  apply (request_and_response_round_trip 2 10 2000 77 26 7%N c sv).
  - lia.
  - reflexivity.
  - reflexivity.
  - right. cbn. lia.
  - cbn. lia.
  - reflexivity.
  - unfold is_s64. lia.
  - unfold is_u64. lia.
  - cbn. lia.
  - cbn. lia.
  - reflexivity.
  - vm_compute. left.
  - cbn. lia.
Defined.

(** ** The command line *)

Section CommandLineFacts.
Import CommandLine.

Lemma parse_weight_range (segment : list ascii) :
  0 < parse_weight segment < 2 ^ 32.
Proof.
  unfold parse_weight, kDefaultWeight.
  destruct (TrimWhitespace segment) as [|c s]; [lia|].
  unfold from_chars_u32.
  destruct (digits_value (c :: s) 0) as [v|]; [|lia].
  destruct (Z.ltb_spec v (2 ^ 32)); [|lia].
  destruct (Z.ltb_spec 0 v); lia.
Qed.

Lemma getline_segments_no_comma (s : list ascii) :
  Forall (fun c => nat_of_ascii c <> 44%nat) s ->
  forall segment extracted,
    getline_segments s segment extracted
    = if extracted || negb (bool_decide (s = [])) then [segment ++ s] else [].
Proof.
  induction 1 as [|c s Hc Hs IH]; intros segment extracted;
    cbn [getline_segments].
  - rewrite app_nil_r. now destruct extracted.
  - destruct (Nat.eqb_spec (nat_of_ascii c) 44); [contradiction|].
    rewrite IH, <- app_assoc. cbn [orb app].
    now rewrite orb_true_r.
Qed.


Lemma digit_not_space (c : ascii) (d : Z) :
  digit c = Some d -> is_space c = false /\ nat_of_ascii c <> 44%nat.
Proof.
  unfold digit, is_space.
  destruct (48 <=? nat_of_ascii c)%nat eqn:E1; [|discriminate].
  destruct (nat_of_ascii c <=? 57)%nat eqn:E2; [|discriminate].
  apply Nat.leb_le in E1, E2. intros _.
  destruct (Nat.eqb_spec (nat_of_ascii c) 32); [lia|].
  destruct (Nat.leb_spec (nat_of_ascii c) 13); [lia|].
  rewrite andb_false_r. split; [reflexivity|lia].
Qed.

Lemma space_not_comma (c : ascii) :
  is_space c = true -> nat_of_ascii c <> 44%nat.
Proof.
  unfold is_space. destruct (Nat.eqb_spec (nat_of_ascii c) 32); [lia|].
  cbn [orb]. destruct (Nat.leb_spec 9 (nat_of_ascii c)); [|discriminate].
  destruct (Nat.leb_spec (nat_of_ascii c) 13); [lia|discriminate].
Qed.

Lemma digits_value_digits (s : list ascii) :
  forall acc v, digits_value s acc = Some v ->
    Forall (fun c => is_space c = false /\ nat_of_ascii c <> 44%nat) s.
Proof.
  induction s as [|c s IH]; intros acc v; cbn [digits_value];
    [constructor|].
  destruct (digit c) as [d|] eqn:E; [|discriminate].
  intros Hv. constructor; [exact (digit_not_space c d E)|].
  exact (IH _ _ Hv).
Qed.

Lemma drop_spaces_spaces (sp s : list ascii) :
  forallb is_space sp = true -> drop_spaces (sp ++ s) = drop_spaces s.
Proof.
  induction sp as [|c sp IH]; [reflexivity|]. cbn [forallb app drop_spaces].
  intros [-> Hsp]%andb_true_iff. exact (IH Hsp).
Qed.

Lemma drop_spaces_stop (c : ascii) (s : list ascii) :
  is_space c = false -> drop_spaces (c :: s) = c :: s.
Proof. intros E. cbn [drop_spaces]. now rewrite E. Qed.

Lemma TrimWhitespace_numeral (before digits after : list ascii) (v : Z) :
  forallb is_space before = true -> forallb is_space after = true ->
  digits <> [] -> digits_value digits 0 = Some v ->
  TrimWhitespace (before ++ digits ++ after) = digits.
Proof.
  intros Hb Ha Hne Hv. unfold TrimWhitespace.
  pose proof (digits_value_digits digits 0 v Hv) as Hd.
  rewrite drop_spaces_spaces by exact Hb.
  destruct digits as [|c ds]; [contradiction|].
  apply Forall_cons in Hd as [[Hc _] Hds].
  cbn [app]. rewrite drop_spaces_stop by exact Hc.
  change (c :: ds ++ after) with ((c :: ds) ++ after).
  rewrite rev_app_distr, drop_spaces_spaces.
  - destruct (rev (c :: ds)) as [|x r] eqn:Er.
    + apply (f_equal (@rev ascii)) in Er. rewrite rev_involutive in Er.
      discriminate.
    + assert (Hx : is_space x = false).
      { assert (Hin : In x (rev (c :: ds))) by (rewrite Er; now left).
        apply in_rev in Hin. destruct Hin as [<-|Hin]; [exact Hc|].
        rewrite Forall_forall in Hds. apply list_elem_of_In in Hin.
        exact (proj1 (Hds x Hin)). }
      rewrite drop_spaces_stop by exact Hx. rewrite <- Er.
      apply rev_involutive.
  - rewrite forallb_forall in *. intros x Hx. apply Ha.
    now apply in_rev.
Qed.

Lemma numeral_no_comma (segment : list ascii) (v : Z) :
  numeral segment v ->
  segment <> [] /\ Forall (fun c => nat_of_ascii c <> 44%nat) segment.
Proof.
  intros (before & digits & after & -> & Hb & Ha & Hne & Hv). split.
  - destruct before; [destruct digits; [contradiction|discriminate]
                     |discriminate].
  - rewrite !Forall_app. repeat split.
    + rewrite Forall_forall. intros c Hc. apply space_not_comma.
      rewrite forallb_forall in Hb. apply Hb. now apply list_elem_of_In.
    + eapply Forall_impl; [exact (digits_value_digits _ _ _ Hv)|].
      now intros c [_ H].
    + rewrite Forall_forall. intros c Hc. apply space_not_comma.
      rewrite forallb_forall in Ha. apply Ha. now apply list_elem_of_In.
Qed.

Lemma getline_segments_comma (s rest : list ascii) :
  Forall (fun c => nat_of_ascii c <> 44%nat) s ->
  forall segment extracted,
    getline_segments (s ++ ","%char :: rest) segment extracted
    = (segment ++ s) :: getline_segments rest [] false.
Proof.
  induction 1 as [|c s Hc Hs IH]; intros segment extracted;
    cbn [getline_segments app].
  - now rewrite app_nil_r.
  - destruct (Nat.eqb_spec (nat_of_ascii c) 44); [contradiction|].
    rewrite IH, <- app_assoc. reflexivity.
Qed.

Lemma getline_segments_join (segments : list (list ascii)) (vs : list Z) :
  Forall2 numeral segments vs ->
  getline_segments (join_commas segments) [] false = segments.
Proof.
  induction 1 as [|s v segments vs Hs Hall IH]; [reflexivity|].
  destruct (numeral_no_comma s v Hs) as (Hne & Hnc).
  destruct segments as [|s' segments].
  - cbn [join_commas]. rewrite getline_segments_no_comma by exact Hnc.
    cbn [orb app]. rewrite bool_decide_eq_false_2 by exact Hne. reflexivity.
  - change (join_commas (s :: s' :: segments))
      with (s ++ ","%char :: join_commas (s' :: segments)).
    rewrite getline_segments_comma by exact Hnc. cbn [app].
    now rewrite IH.
Qed.

(** X27.  Command line: [ParseWeights] never yields the weight 0, nor a
    number that does not fit 32 bits, whatever the text is; and for
    decimal numerals of values between 1 and [2^32 - 1], separated by
    commas and with any white space around them, it yields exactly these
    values in order. *)
Theorem parse_weights_yields_positive_weights (weightsStr : string)
    (segments : list (list ascii)) (vs : list Z) :
  Forall2 numeral segments vs ->
  Forall (fun v => 0 < v < 2 ^ 32) vs ->
  Forall (fun w => 0 < w < 2 ^ 32) (ParseWeights weightsStr)
  /\ ParseWeights (string_of_list_ascii (join_commas segments)) = vs.
Proof.
  intros Hnum Hrange. split.
  - unfold ParseWeights. rewrite Forall_forall. intros w Hw.
    apply list_elem_of_In, in_map_iff in Hw as (seg & <- & _).
    apply parse_weight_range.
  - unfold ParseWeights. rewrite list_ascii_of_string_of_list_ascii.
    rewrite (getline_segments_join segments vs Hnum).
    induction Hnum as [|s v segments vs Hs Hall IH]; [reflexivity|].
    apply Forall_cons in Hrange as [Hv Hrange].
    cbn [map]. rewrite (IH Hrange). f_equal.
    destruct Hs as (before & digits & after & -> & Hb & Ha & Hne & Hval).
    unfold parse_weight.
    rewrite (TrimWhitespace_numeral before digits after v Hb Ha Hne Hval).
    destruct digits as [|c ds]; [contradiction|].
    unfold from_chars_u32. rewrite Hval.
    destruct (Z.ltb_spec v (2 ^ 32)); [|lia].
    destruct (Z.ltb_spec 0 v); [reflexivity|lia].
Qed.

End CommandLineFacts.

Lemma parse_weights_yields_positive_weights_witness :
  let segments := [list_ascii_of_string " 3";
                   list_ascii_of_string "10 ";
                   list_ascii_of_string "4294967295"] in
  Forall (fun w => 0 < w < 2 ^ 32) (CommandLine.ParseWeights "0,x,,7")
  /\ CommandLine.ParseWeights
       (string_of_list_ascii (CommandLine.join_commas segments))
     = [3; 10; 4294967295].
Proof.
  intros segments.
  apply (parse_weights_yields_positive_weights "0,x,,7" segments
           [3; 10; 4294967295]).
  - repeat constructor.
    + exists (list_ascii_of_string " "), (list_ascii_of_string "3"), [].
      repeat split; try reflexivity; discriminate.
    + exists [], (list_ascii_of_string "10"), (list_ascii_of_string " ").
      repeat split; try reflexivity; discriminate.
    + exists [], (list_ascii_of_string "4294967295"), [].
      repeat split; try reflexivity; discriminate.
  - repeat constructor; lia.
Defined.

(** ** Weighted round-robin: the order of service *)

Section WrrScheduleFacts.
Import WeightedRoundRobin WrrInvariant WrrSchedule.
Variable bks : list BackendInfo.
Variables M g : Z.
Hypothesis M_range : 0 < M < 2 ^ 31.
Hypothesis g_range : 1 <= g <= M.
Hypothesis weights_le : forall b, In b bks -> weight b <= M.
Hypothesis weight_max : exists b, In b bks /\ weight b = M.


Lemma at_ready (i : nat) (cw : Z) :
  (i < length bks)%nat -> 0 <= cw <= M -> wrr_ready (at_ bks M g i cw).
Proof.
  intros Hi Hcw. unfold wrr_ready, at_.
  cbn [m_backends m_currentIndex m_currentWeight m_maxWeight m_gcdWeight].
  rewrite u32_small by lia. repeat split; auto; lia.
Qed.

(** One round of the loop, for weights below [2 ^ 31]. *)
Lemma loop_body_at (i : nat) (cw : Z) (b : BackendInfo) :
  (i < length bks)%nat -> 0 <= cw <= M ->
  let i' := if decide (S i = length bks) then O else S i in
  let cw' := if decide (S i = length bks) then next_level M g cw else cw in
  bks !! i' = Some b ->
  loop_body (at_ bks M g i cw)
  = if accepts cw' b then inl (Some (address b), at_ bks M g i' cw')
    else inr (at_ bks M g i' cw').
Proof.
  intros Hi Hcw i' cw' Hb.
  pose proof (loop_body_smooth (at_ bks M g i cw) (at_ready i cw Hi Hcw)
                ltac:(cbn; lia) ltac:(cbn; lia)) as Hs.
  assert (Hsm : SmoothWrr.loop_body (at_ bks M g i cw)
                = if accepts cw' b then inl (address b, at_ bks M g i' cw')
                  else inr (at_ bks M g i' cw')).
  { unfold SmoothWrr.loop_body, at_.
    cbn [m_backends m_currentIndex m_currentWeight m_maxWeight m_gcdWeight].
    assert (Hi' : (Z.of_nat i + 1) mod Z.of_nat (length bks) = Z.of_nat i').
    { replace (Z.of_nat i + 1) with (Z.of_nat (S i)) by lia.
      unfold i'. destruct (decide (S i = length bks)) as [E|NE].
      - rewrite <- E. apply Z.mod_same. lia.
      - apply Z.mod_small. lia. }
    rewrite Hi', Nat2Z.id, Hb.
    assert (Hcw' : (if Z.of_nat i' =? 0
                    then if cw - g <=? 0 then M else cw - g
                    else cw) = cw').
    { unfold cw', i', next_level.
      destruct (decide (S i = length bks)); [reflexivity|].
      destruct (Z.eqb_spec (Z.of_nat (S i)) 0); [lia|reflexivity]. }
    rewrite Hcw'. reflexivity. }
  rewrite Hsm in Hs.
  destruct (loop_body (at_ bks M g i cw)) as [[[a|] st']|st'].
  - destruct Hs as (Hs & _). destruct (accepts cw' b); [|discriminate].
    now injection Hs as <- <-.
  - destruct Hs.
  - destruct Hs as (Hs & _). destruct (accepts cw' b); [discriminate|].
    now injection Hs as <-.
Qed.


(** The loop from index [i]: it stops at the next backend the marker
    accepts, or reaches the end of the registry. *)
Lemma scan_sweep (cw : Z) (suffix : list BackendInfo) :
  0 <= cw <= M ->
  forall i, (i < length bks)%nat -> drop (S i) bks = suffix ->
    match filter (fun b => accepts cw b = true) suffix with
    | b :: rest =>
      exists j, (j < length bks)%nat
        /\ picks_after bks j cw = map address rest
        /\ forall fuel, (length suffix <= fuel)%nat ->
             choose_loop fuel (at_ bks M g i cw)
             = Some (Some (address b), at_ bks M g j cw)
    | [] =>
      forall fuel,
        choose_loop (length suffix + fuel) (at_ bks M g i cw)
        = choose_loop fuel (at_ bks M g (length bks - 1) cw)
    end.
Proof.
  intros Hcw. induction suffix as [|x suffix IH]; intros i Hi Hdrop.
  - cbn [filter length]. intros fuel. cbn [Nat.add].
    assert (Hlast : i = (length bks - 1)%nat).
    { apply (f_equal length) in Hdrop. rewrite length_drop in Hdrop.
      cbn in Hdrop. lia. }
    now rewrite Hlast.
  - assert (Hlen : (S i < length bks)%nat).
    { apply (f_equal length) in Hdrop. rewrite length_drop in Hdrop.
      cbn in Hdrop. lia. }
    assert (Hx : bks !! S i = Some x).
    { rewrite <- (Nat.add_0_r (S i)), <- lookup_drop, Hdrop. reflexivity. }
    assert (Hdrop' : drop (S (S i)) bks = suffix).
    { pose proof (drop_S bks x (S i) Hx) as Hd. rewrite Hdrop in Hd.
      now injection Hd as <-. }
    pose proof (loop_body_at i cw x Hi Hcw) as Hbody. cbn zeta in Hbody.
    destruct (decide (S i = length bks)) as [E|_]; [lia|].
    specialize (Hbody Hx).
    rewrite filter_cons. destruct (accepts cw x) eqn:Eacc.
    + rewrite decide_True by reflexivity.
      exists (S i). split; [exact Hlen|]. split.
      * unfold picks_after. now rewrite Hdrop'.
      * intros fuel Hfuel. destruct fuel as [|fuel]; [cbn in Hfuel; lia|].
        rewrite choose_loop_S, Hbody. reflexivity.
    + rewrite decide_False by discriminate.
      specialize (IH (S i) Hlen Hdrop').
      destruct (filter _ suffix) as [|b rest].
      * intros fuel. cbn [length Nat.add]. rewrite choose_loop_S, Hbody.
        apply IH.
      * destruct IH as (j & Hj & Hp & Hloop). exists j.
        split; [exact Hj|]. split; [exact Hp|].
        intros fuel Hfuel. destruct fuel as [|fuel]; [cbn in Hfuel; lia|].
        rewrite choose_loop_S, Hbody. apply Hloop. cbn in Hfuel. lia.
Qed.

Lemma next_level_range (cw : Z) :
  0 <= cw <= M -> 0 < next_level M g cw <= M.
Proof.
  intros Hcw. unfold next_level.
  destruct (Z.leb_spec (cw - g) 0); lia.
Qed.

(** Every sweep serves a backend: one of the largest weight. *)
Lemma level_picks_non_empty (cw : Z) :
  0 < cw <= M -> level_picks cw bks <> [].
Proof.
  intros Hcw. destruct weight_max as (b & Hb & Hw).
  unfold level_picks. intros E. apply map_eq_nil in E.
  assert (Hin : b ∈ filter (fun b => accepts cw b = true) bks).
  { apply list_elem_of_filter. split; [|now apply list_elem_of_In].
    unfold accepts. rewrite Hw.
    destruct (Z.ltb_spec 0 M); [|lia].
    destruct (Z.leb_spec cw M); [reflexivity|lia]. }
  rewrite E in Hin. inversion Hin.
Qed.

Lemma bks_non_empty : (0 < length bks)%nat.
Proof.
  destruct weight_max as (b & Hb & _).
  apply list_elem_of_In, list_elem_of_lookup in Hb as [j Hj].
  apply lookup_lt_Some in Hj. lia.
Qed.

Lemma ChooseBackend_at (fuel : nat) (i : nat) (cw : Z) :
  ChooseBackend fuel (at_ bks M g i cw) = choose_loop fuel (at_ bks M g i cw).
Proof.
  unfold ChooseBackend. pose proof bks_non_empty as Hne.
  assert (Hb : m_backends (at_ bks M g i cw) = bks) by reflexivity.
  destruct (m_backends (at_ bks M g i cw)) as [|x l];
    [rewrite <- Hb in Hne; cbn in Hne; lia|].
  change (m_maxWeight (at_ bks M g i cw)) with M.
  destruct (Z.eqb_spec M 0); [lia|reflexivity].
Qed.

(** A call while the sweep under way still has a backend to serve. *)
Lemma call_in_sweep (fuel : nat) (i : nat) (cw : Z)
    (a : InetSocketAddress) (rest : list InetSocketAddress) :
  (length bks <= fuel)%nat -> (i < length bks)%nat -> 0 <= cw <= M ->
  picks_after bks i cw = a :: rest ->
  exists j, (j < length bks)%nat /\ picks_after bks j cw = rest
    /\ ChooseBackend fuel (at_ bks M g i cw) = Some (Some a, at_ bks M g j cw).
Proof.
  intros Hfuel Hi Hcw Hp.
  pose proof (scan_sweep cw (drop (S i) bks) Hcw i Hi eq_refl) as Hscan.
  unfold picks_after in Hp.
  destruct (filter _ (drop (S i) bks)) as [|b frest]; [discriminate|].
  cbn [map] in Hp. injection Hp as <- <-.
  destruct Hscan as (j & Hj & Hpj & Hloop). exists j.
  split; [exact Hj|]. split; [exact Hpj|].
  rewrite ChooseBackend_at. apply Hloop. rewrite length_drop. lia.
Qed.

(** A call after the sweep under way has served its last backend: the
    index wraps, the marker moves on, and the first backend of the next
    sweep is served. *)
Lemma call_after_sweep (fuel : nat) (i : nat) (cw : Z) :
  (2 * length bks <= fuel)%nat -> (i < length bks)%nat -> 0 <= cw <= M ->
  picks_after bks i cw = [] ->
  let cw' := next_level M g cw in
  exists a rest j,
    level_picks cw' bks = a :: rest
    /\ (j < length bks)%nat /\ picks_after bks j cw' = rest
    /\ ChooseBackend fuel (at_ bks M g i cw) = Some (Some a, at_ bks M g j cw').
Proof.
  intros Hfuel Hi Hcw Hp cw'.
  pose proof (next_level_range cw Hcw) as Hcw'. fold cw' in Hcw'.
  pose proof bks_non_empty as Hne.
  pose proof (scan_sweep cw (drop (S i) bks) Hcw i Hi eq_refl) as Hscan.
  unfold picks_after in Hp. apply map_eq_nil in Hp. rewrite Hp in Hscan.
  rewrite length_drop in Hscan.
  (* the round that wraps *)
  destruct (lookup_lt_is_Some_2 bks 0) as [b0 Hb0]; [lia|].
  pose proof (loop_body_at (length bks - 1) cw b0 ltac:(lia) Hcw) as Hbody.
  cbn zeta in Hbody.
  destruct (decide (S (length bks - 1) = length bks)) as [_|NE]; [|lia].
  specialize (Hbody Hb0). fold cw' in Hbody.
  assert (Hsplit : bks = b0 :: drop 1 bks).
  { pose proof (drop_S bks b0 O Hb0) as Hd. now rewrite drop_0 in Hd. }
  pose proof (level_picks_non_empty cw' ltac:(lia)) as Hlev.
  unfold level_picks in Hlev |- *.
  rewrite ChooseBackend_at.
  replace fuel with ((length bks - S i) + S (fuel - (length bks - S i) - 1))%nat
    by lia.
  rewrite Hscan, choose_loop_S, Hbody.
  assert (Hf : filter (fun b => accepts cw' b = true) bks
               = if accepts cw' b0
                 then b0 :: filter (fun b => accepts cw' b = true) (drop 1 bks)
                 else filter (fun b => accepts cw' b = true) (drop 1 bks)).
  { rewrite Hsplit at 1. rewrite filter_cons.
    destruct (accepts cw' b0);
      [now rewrite decide_True|now rewrite decide_False]. }
  rewrite Hf in Hlev |- *.
  destruct (accepts cw' b0) eqn:Eacc.
  - cbn [map].
    exists (address b0), (map address (filter (fun b => accepts cw' b = true)
                                         (drop 1 bks))), O.
    split; [reflexivity|]. split; [lia|]. split; reflexivity.
  - pose proof (scan_sweep cw' (drop 1 bks) ltac:(lia) O ltac:(lia) eq_refl)
      as Hscan'.
    destruct (filter _ (drop 1 bks)) as [|b frest]; [contradiction|].
    destruct Hscan' as (j & Hj & Hpj & Hloop).
    exists (address b), (map address frest), j.
    split; [reflexivity|]. split; [exact Hj|]. split; [exact Hpj|].
    apply Hloop. rewrite length_drop. lia.
Qed.

(** The calls of [ChooseBackend] serve the rest of the sweep under way
    and then sweep after sweep. *)
Lemma choose_many_sweeps (fuel : nat) :
  (2 * length bks <= fuel)%nat ->
  forall (k : nat) (i : nat) (cw : Z),
    (i < length bks)%nat -> 0 <= cw <= M ->
    let served := picks_after bks i cw
                  ++ concat (map (fun cw => level_picks cw bks)
                                 (levels k M g cw)) in
    choose_many fuel (length served) (at_ bks M g i cw)
    = map (fun a => Some (Some a)) served.
Proof.
  intros Hfuel.
  assert (Hsweep : forall (k : nat),
    (forall i cw, (i < length bks)%nat -> 0 <= cw <= M ->
       picks_after bks i cw = [] ->
       let served := concat (map (fun cw => level_picks cw bks)
                                 (levels k M g cw)) in
       choose_many fuel (length served) (at_ bks M g i cw)
       = map (fun a => Some (Some a)) served) ->
    forall (l : list InetSocketAddress) i cw,
      (i < length bks)%nat -> 0 <= cw <= M -> picks_after bks i cw = l ->
      let served := l ++ concat (map (fun cw => level_picks cw bks)
                                     (levels k M g cw)) in
      choose_many fuel (length served) (at_ bks M g i cw)
      = map (fun a => Some (Some a)) served).
  { intros k Hk. induction l as [|a l IHl]; intros i cw Hi Hcw Hp.
    - cbn [app]. now apply Hk.
    - destruct (call_in_sweep fuel i cw a l ltac:(lia) Hi Hcw Hp)
        as (j & Hj & Hpj & Hcall).
      cbn [app length map choose_many]. rewrite Hcall. f_equal.
      exact (IHl j cw Hj Hcw Hpj). }
  induction k as [|k IH]; intros i cw Hi Hcw.
  - apply (Hsweep O); [reflexivity|exact Hi|exact Hcw|reflexivity].
  - apply (Hsweep (S k)); [|exact Hi|exact Hcw|reflexivity].
    clear i cw Hi Hcw.
    intros i cw Hi Hcw Hp. cbn [levels map concat].
    destruct (call_after_sweep fuel i cw Hfuel Hi Hcw Hp)
      as (a & rest & j & Hlev & Hj & Hpj & Hcall).
    cbn zeta in *. rewrite Hlev. cbn [app length map choose_many].
    rewrite Hcall. f_equal.
    pose proof (next_level_range cw Hcw) as Hr.
    specialize (IH j (next_level M g cw) Hj ltac:(lia)).
    cbn zeta in IH. rewrite Hpj in IH. exact IH.
Qed.

End WrrScheduleFacts.

Section WrrProportion.
Import WeightedRoundRobin WrrInvariant WrrSchedule.

Lemma scan_gcd_divides (bks : list BackendInfo) :
  forall acc : scan,
    let r := fold_left scan_backend bks acc in
    (firstPositiveWeightFound acc = true ->
       (calculatedGcd r | calculatedGcd acc))
    /\ (forall b, In b bks -> 0 < weight b -> (calculatedGcd r | weight b)).
Proof.
  induction bks as [|x bks IH]; intros acc; cbn [fold_left].
  - split; [intros _; apply Z.divide_refl|intros b []].
  - destruct (IH (scan_backend acc x)) as (IH1 & IH2). cbn zeta in *.
    set (r := fold_left scan_backend bks (scan_backend acc x)) in *.
    assert (Hacc : (0 < weight x ->
                    firstPositiveWeightFound (scan_backend acc x) = true
                    /\ (calculatedGcd (scan_backend acc x) | weight x)
                    /\ (firstPositiveWeightFound acc = true ->
                        (calculatedGcd (scan_backend acc x)
                         | calculatedGcd acc)))
                   /\ (weight x <= 0 -> scan_backend acc x = acc)).
    { unfold scan_backend.
      destruct (Z.ltb_spec 0 (weight x)) as [Hpos|Hnpos].
      - split; [|lia]. intros _.
        cbn [firstPositiveWeightFound calculatedGcd].
        split; [reflexivity|]. split.
        + destruct (firstPositiveWeightFound acc);
            [apply Z.gcd_divide_r|apply Z.divide_refl].
        + intros ->. apply Z.gcd_divide_l.
      - split; [lia|reflexivity]. }
    destruct Hacc as (Hp & Hn).
    destruct (Z_lt_le_dec 0 (weight x)) as [Hpos|Hnpos].
    + destruct (Hp Hpos) as (Hf & Hdx & Hda). specialize (IH1 Hf). split.
      * intros Hfound. eapply Z.divide_trans; [exact IH1|exact (Hda Hfound)].
      * intros b [<-|Hb] Hw; [|now apply IH2].
        eapply Z.divide_trans; [exact IH1|exact Hdx].
    + rewrite (Hn Hnpos) in IH1. split; [exact IH1|].
      intros b [<-|Hb] Hw; [lia|now apply IH2].
Qed.

Lemma RecalculateWrrState_form (bks : list BackendInfo) :
  bks <> [] ->
  RecalculateWrrState bks
  = mkState bks (Z.of_nat (length bks) - 1) 0
            (m_maxWeight (RecalculateWrrState bks))
            (m_gcdWeight (RecalculateWrrState bks)).
Proof.
  intros Hne. unfold RecalculateWrrState.
  destruct bks as [|x l]; [contradiction|].
  destruct (positiveWeightCount _ =? 0); reflexivity.
Qed.

Lemma RecalculateWrrState_gcd (bks : list BackendInfo) :
  Z.of_nat (length bks) < 2 ^ 32 ->
  (forall b, In b bks -> 0 <= weight b < 2 ^ 32) ->
  (exists b, In b bks /\ 0 < weight b) ->
  forall b, In b bks -> (m_gcdWeight (RecalculateWrrState bks) | weight b).
Proof.
  intros Hlen Hw Hex b Hb.
  destruct (Z.eq_dec (weight b) 0) as [->|Hnz]; [apply Z.divide_0_r|].
  assert (Hpos : 0 < weight b) by (specialize (Hw b Hb); lia).
  destruct (RecalculateWrrState_ready bks Hlen Hw Hex)
    as ((_ & HM & _) & _).
  destruct (scan_gcd_divides bks (mkScan 0 0 false 0)) as (_ & Hdiv).
  cbn zeta in Hdiv. specialize (Hdiv b Hb Hpos).
  unfold RecalculateWrrState in HM |- *.
  destruct bks as [|x l]; [destruct Hb|].
  set (r := fold_left scan_backend (x :: l) (mkScan 0 0 false 0)) in *.
  destruct (positiveWeightCount r =? 0); [cbn in HM; lia|].
  cbn [m_gcdWeight].
  destruct (Z.eqb_spec (calculatedGcd r) 0) as [E0|NE0].
  - rewrite E0 in Hdiv. apply Z.divide_0_l in Hdiv. lia.
  - cbn [andb]. destruct (Z.eqb_spec (calculatedGcd r) 0); [lia|exact Hdiv].
Qed.

(** *** Counting the sweeps that serve a backend *)

Lemma levels_app (M g : Z) (k1 k2 : nat) :
  forall cw,
    levels (k1 + k2) M g cw
    = levels k1 M g cw ++ levels k2 M g (Nat.iter k1 (next_level M g) cw).
Proof.
  induction k1 as [|k1 IH]; intros cw; [reflexivity|].
  cbn [Nat.add levels app]. rewrite IH. f_equal. f_equal.
  rewrite Nat.iter_succ_r. reflexivity.
Qed.

(** The sweeps with the marker at [(c - 1) g], ..., [(c - k) g]. *)
Lemma count_down (M g : Z) (w : Z) (r : nat) :
  0 < g -> w = Z.of_nat r * g ->
  forall (k c : nat), (k < c)%nat ->
    length (filter (fun L => L <= w) (levels k M g (Z.of_nat c * g)))
    = (k - Nat.min k (c - 1 - r))%nat
    /\ Nat.iter k (next_level M g) (Z.of_nat c * g) = Z.of_nat (c - k) * g.
Proof.
  intros Hg Hw. induction k as [|k IH]; intros c Hkc.
  - cbn. split; [reflexivity|]. f_equal. lia.
  - cbn [levels]. rewrite Nat.iter_succ_r. unfold next_level at 1 2 4.
    destruct (Z.leb_spec (Z.of_nat c * g - g) 0) as [Hle|Hgt]; [nia|].
    replace (Z.of_nat c * g - g) with (Z.of_nat (c - 1) * g) by nia.
    destruct (IH (c - 1)%nat ltac:(lia)) as (IH1 & IH2).
    split.
    + rewrite filter_cons.
      destruct (decide (Z.of_nat (c - 1) * g <= w)) as [Hin|Hout];
        cbn [length]; rewrite IH1.
      * assert (c - 1 <= r)%nat by nia. lia.
      * assert (r < c - 1)%nat by nia. lia.
    + rewrite IH2. f_equal. lia.
Qed.

(** One cycle: the marker goes from [M = q g] down to [g]. *)
Lemma count_cycle (M g w : Z) (q r : nat) :
  0 < g -> M = Z.of_nat q * g -> w = Z.of_nat r * g -> (r <= q)%nat ->
  (0 < q)%nat ->
  length (filter (fun L => L <= w) (levels q M g 0)) = r
  /\ forall k, levels (q + k) M g 0 = levels q M g 0 ++ levels k M g 0.
Proof.
  intros Hg HM Hw Hr Hq. destruct q as [|q']; [lia|].
  assert (Hfirst : next_level M g 0 = M)
    by (unfold next_level; destruct (Z.leb_spec (0 - g) 0); [reflexivity|lia]).
  destruct (count_down M g w r Hg Hw q' (S q') ltac:(lia)) as (Hc & Hlast).
  rewrite <- HM in Hc, Hlast. split.
  - cbn [levels]. rewrite Hfirst, filter_cons.
    destruct (decide (M <= w)) as [Hin|Hout]; cbn [length]; rewrite Hc.
    + assert (S q' <= r)%nat by nia. lia.
    + assert (r < S q')%nat by nia. lia.
  - intros k. rewrite levels_app. f_equal.
    rewrite Nat.iter_succ_r, Hfirst, Hlast.
    replace (Z.of_nat (S q' - q') * g) with g by (replace (S q' - q')%nat with 1%nat by lia; lia).
    destruct k as [|k]; [reflexivity|]. cbn [levels].
    assert (Hg' : next_level M g g = M)
      by (unfold next_level; destruct (Z.leb_spec (g - g) 0); [reflexivity|lia]).
    now rewrite Hfirst, Hg'.
Qed.

Lemma count_level_picks (bks : list BackendInfo) (b : BackendInfo) (L : Z) :
  NoDup (map address bks) -> In b bks ->
  length (filter (fun a => a = address b) (level_picks L bks))
  = if accepts L b then 1%nat else 0%nat.
Proof.
  unfold level_picks. induction bks as [|x bks IH]; intros Hnd Hb;
    [destruct Hb|].
  cbn [map] in Hnd. apply NoDup_cons in Hnd as [Hx Hnd].
  assert (Hother : forall y, In y bks -> address y <> address x).
  { intros y Hy E. apply Hx. rewrite <- E.
    apply list_elem_of_fmap. exists y. split; [reflexivity|].
    now apply list_elem_of_In. }
  assert (Hzero : forall l, (forall y, In y l -> address y <> address x) ->
            length (filter (fun a => a = address x)
                      (map address (filter (fun b => accepts L b = true) l)))
            = 0%nat).
  { induction l as [|y l IHl]; intros Hl; [reflexivity|].
    rewrite filter_cons.
    assert (Hrec : length (filter (fun a => a = address x)
                     (map address (filter (fun b => accepts L b = true) l)))
                   = 0%nat)
      by (apply IHl; intros z Hz; apply Hl; now right).
    destruct (decide (accepts L y = true)); [|exact Hrec].
    cbn [map]. rewrite filter_cons.
    rewrite decide_False by (apply Hl; now left). exact Hrec. }
  rewrite filter_cons. destruct Hb as [->|Hb].
  - destruct (accepts L b) eqn:E.
    + rewrite decide_True by reflexivity. cbn [map]. rewrite filter_cons.
      rewrite decide_True by reflexivity. cbn [length].
      now rewrite (Hzero bks Hother).
    + rewrite decide_False by discriminate. exact (Hzero bks Hother).
  - specialize (IH Hnd Hb).
    destruct (decide (accepts L x = true)); [|exact IH].
    cbn [map]. rewrite filter_cons.
    rewrite decide_False; [exact IH|]. intros E. exact (Hother b Hb (eq_sym E)).
Qed.

Lemma count_schedule (bks : list BackendInfo) (b : BackendInfo)
    (Ls : list Z) :
  NoDup (map address bks) -> In b bks ->
  length (filter (fun a => a = address b)
            (concat (map (fun cw => level_picks cw bks) Ls)))
  = length (filter (fun L => accepts L b = true) Ls).
Proof.
  intros Hnd Hb. induction Ls as [|L Ls IH]; [reflexivity|].
  cbn [map concat]. rewrite filter_app, length_app, IH, filter_cons.
  rewrite (count_level_picks bks b L Hnd Hb).
  destruct (accepts L b); [rewrite decide_True by reflexivity
                          |rewrite decide_False by discriminate];
    reflexivity.
Qed.

(** X28.  Weighted round-robin serves the backends in proportion to their
    weights.  With fewer than [2^32] backends, every weight below
    [2^31] and one of them positive, after [SetBackends] or [AddBackend]
    (which end in [RecalculateWrrState]) the calls of [ChooseBackend]
    all succeed and serve, sweep after sweep of the registry, the
    backends whose weight reaches the marker, the marker going from the
    largest weight down in steps of the greatest common divisor [g] of
    the weights.  The order of service repeats after [max / g] sweeps,
    and in these a backend of weight [w] (its address being that of no
    other backend) is served exactly [w / g] times. *)
Theorem wrr_serves_in_proportion_to_weights (bks : list BackendInfo)
    (fuel : nat) :
  Z.of_nat (length bks) < 2 ^ 32 ->
  (forall b, In b bks -> 0 <= weight b < 2 ^ 31) ->
  (exists b, In b bks /\ 0 < weight b) ->
  NoDup (map address bks) ->
  (2 * length bks <= fuel)%nat ->
  let st := RecalculateWrrState bks in
  let M := m_maxWeight st in
  let g := m_gcdWeight st in
  let cycle := Z.to_nat (M / g) in
  (forall k,
     choose_many fuel (length (schedule k bks M g)) st
     = map (fun a => Some (Some a)) (schedule k bks M g))
  /\ (forall k, schedule (cycle + k) bks M g
                = schedule cycle bks M g ++ schedule k bks M g)
  /\ (forall b, In b bks ->
        (g | weight b)
        /\ length (filter (fun a => a = address b) (schedule cycle bks M g))
           = Z.to_nat (weight b / g)).
Proof.
  intros Hlen Hw Hex Hnd Hfuel st M g cycle.
  assert (Hw32 : forall b, In b bks -> 0 <= weight b < 2 ^ 32)
    by (intros b Hb; specialize (Hw b Hb); lia).
  destruct (RecalculateWrrState_ready bks Hlen Hw32 Hex)
    as ((Hi & HM & Hg & Hle & Hmax & _) & Hbk).
  fold st in Hi, HM, Hg, Hle, Hmax, Hbk. fold M in HM, Hg, Hle, Hmax.
  fold g in Hg. rewrite Hbk in Hle, Hmax, Hi.
  assert (HM31 : 0 < M < 2 ^ 31).
  { destruct Hmax as (b & Hb & <-). specialize (Hw b Hb). lia. }
  assert (Hne : bks <> []) by (intros ->; cbn in Hi; lia).
  assert (Hst : st = mkState bks (Z.of_nat (length bks - 1)) 0 M g).
  { unfold st, M, g. rewrite (RecalculateWrrState_form bks Hne) at 1.
    f_equal. lia. }
  assert (Hdiv : forall b, In b bks -> (g | weight b))
    by (apply RecalculateWrrState_gcd; assumption).
  assert (HgM : (g | M)) by (destruct Hmax as (b & Hb & <-); auto).
  destruct HgM as [q Hq].
  assert (Hq0 : 0 < q) by nia.
  assert (Hcycle : cycle = Z.to_nat q).
  { unfold cycle. rewrite Hq, Z.div_mul by lia. reflexivity. }
  split; [|split].
  - intros k. rewrite Hst.
    pose proof (choose_many_sweeps bks M g HM31 Hg Hle Hmax fuel Hfuel
                  k (length bks - 1) 0 ltac:(lia) ltac:(lia)) as Hs.
    cbv beta zeta in Hs. unfold picks_after, at_ in Hs.
    rewrite drop_ge in Hs by lia. exact Hs.
  - intros k. unfold schedule.
    destruct (count_cycle M g 0 (Z.to_nat q) 0 ltac:(lia) ltac:(lia)
                ltac:(lia) ltac:(lia) ltac:(lia)) as (_ & Happ).
    rewrite Hcycle, Happ, map_app, concat_app. reflexivity.
  - intros b Hb. split; [now apply Hdiv|].
    unfold schedule. rewrite (count_schedule bks b _ Hnd Hb).
    destruct (Hdiv b Hb) as [r Hr]. specialize (Hw b Hb).
    specialize (Hle b Hb).
    rewrite Hr, Z.div_mul by lia.
    destruct (Z.eq_dec r 0) as [->|Hr0].
    + cbn [Z.to_nat]. generalize (levels cycle M g 0).
      induction l as [|L l IHl]; [reflexivity|]. rewrite filter_cons.
      rewrite decide_False; [exact IHl|]. unfold accepts. rewrite Hr.
      cbn. discriminate.
    + assert (Hrpos : 0 < r <= q) by nia.
      destruct (count_cycle M g (weight b) (Z.to_nat q) (Z.to_nat r)
                  ltac:(lia) ltac:(lia) ltac:(lia) ltac:(lia) ltac:(lia))
        as (Hcount & _).
      rewrite Hcycle, <- Hcount. f_equal.
      generalize (levels (Z.to_nat q) M g 0).
      induction l as [|L l IHl]; [reflexivity|]. rewrite !filter_cons, IHl.
      unfold accepts. destruct (Z.ltb_spec 0 (weight b)); [|lia]. cbn [andb].
      destruct (Z.leb_spec L (weight b)).
      * rewrite decide_True by reflexivity. now rewrite decide_True by lia.
      * rewrite decide_False by discriminate. now rewrite decide_False by lia.
Qed.

End WrrProportion.

Lemma wrr_serves_in_proportion_to_weights_witness :
  let a : InetSocketAddress := (167772161, 9) in
  let b : InetSocketAddress := (167772162, 9) in
  let bks := [mkBackendInfo a 6 0; mkBackendInfo b 2 0] in
  let st := WeightedRoundRobin.RecalculateWrrState bks in
  WeightedRoundRobin.choose_many 4 4 st
  = [Some (Some a); Some (Some a); Some (Some a); Some (Some b)]
  /\ length (filter (fun x => x = a) (WrrSchedule.schedule 3 bks 6 2)) = 3%nat.
Proof.
  intros a b bks st.
  destruct (wrr_serves_in_proportion_to_weights bks 4) as (H1 & _ & H3).
  - cbn. lia.
  - intros x [<-|[<-|[]]]; cbn; lia.
  - exists (mkBackendInfo a 6 0). split; [now left|cbn; lia].
  - cbn. repeat constructor.
    + intros Hin. apply list_elem_of_singleton in Hin. discriminate.
    + intros Hin. inversion Hin.
  - cbn. lia.
  - split.
    + exact (H1 3%nat).
    + exact (proj2 (H3 (mkBackendInfo a 6 0) ltac:(now left))).
Defined.

(** ** Maglev: the filling loop ends *)

Section MaglevBuilds.
Import Maglev MaglevTable.
Variable T : Z.
Hypothesis T_prime : Z.prime T.
Hypothesis T_small : T < 2 ^ 32.
Variable maxWeight : Z.
Hypothesis maxWeight_pos : 0 < maxWeight.

Lemma T_ge_2 : 2 <= T.
Proof. destruct T_prime as [H _]. lia. Qed.

Lemma T_not_last : T < 2 ^ 32 - 1.
Proof.
  destruct (Z.eq_dec T (2 ^ 32 - 1)) as [E|]; [|lia].
  exfalso. destruct T_prime as [_ Hp]. apply (Hp 3); [lia|].
  exists 1431655765. lia.
Qed.

Lemma permutation_value_small (e : MaglevBuildEntry) (next : Z) :
  0 <= offset e < T -> 1 <= skip e < T -> 0 <= next <= T ->
  permutation_value T e next = (offset e + skip e * next) mod T.
Proof.
  intros Ho Hs Hn. unfold permutation_value, u64.
  pose proof T_ge_2.
  assert (Hp : 0 <= skip e * next <= T * T).
  { split; [apply Z.mul_nonneg_nonneg; lia|].
    apply Z.mul_le_mono_nonneg; lia. }
  assert (HT2 : T * T <= 4294967295 * 4294967295)
    by (apply Z.mul_le_mono_nonneg; lia).
  rewrite (Z.mod_small (skip e * next)) by lia.
  rewrite (Z.mod_small (offset e + skip e * next)) by lia. reflexivity.
Qed.

(** The permutation of an entry reaches every slot: [skip] has an
    inverse modulo the prime [T]. *)
Lemma permutation_reaches (e : MaglevBuildEntry) (s : Z) :
  0 <= offset e < T -> 1 <= skip e < T -> 0 <= s < T ->
  exists j, 0 <= j < T /\ (offset e + skip e * j) mod T = s.
Proof.
  intros Ho Hs Hslot. pose proof T_ge_2 as HT.
  assert (Hrel : Z.coprime T (skip e)).
  { apply Z.coprime_prime_l; [exact T_prime|].
    intros Hdiv. apply Z.divide_pos_le in Hdiv; lia. }
  apply Z.Bezout_coprime in Hrel.
  destruct Hrel as (u & v & Huv).
  exists (((s - offset e) * v) mod T). split; [apply Z.mod_pos_bound; lia|].
  rewrite Z.add_mod, Z.mul_mod_idemp_r, <- Z.add_mod by lia.
  replace (offset e + skip e * ((s - offset e) * v))
    with (s + (- (s - offset e) * u) * T) by nia.
  rewrite Z.mod_add by lia. apply Z.mod_small. exact Hslot.
Qed.

Lemma occupied_or_free (tbl : list InetSocketAddress) :
  occupied tbl = length tbl
  \/ exists i, (i < length tbl)%nat
               /\ GetPort (default sentinel (tbl !! i)) = 0.
Proof.
  unfold occupied. induction tbl as [|x tbl IH]; [now left|].
  rewrite filter_cons. destruct (decide (GetPort x <> 0)) as [Hx|Hx].
  - destruct IH as [IH|(i & Hi & Hfree)].
    + left. cbn [length]. now rewrite IH.
    + right. exists (S i). cbn [length]. split; [lia|exact Hfree].
  - right. exists O. cbn [length]. split; [lia|].
    cbn. destruct (Z.eq_dec (GetPort x) 0); [assumption|contradiction].
Qed.

Lemma entry_ready_mono (tbl tbl' : list InetSocketAddress)
    (e : MaglevBuildEntry) :
  (forall s, GetPort (slot tbl s) <> 0 -> GetPort (slot tbl' s) <> 0) ->
  entry_ready T maxWeight tbl e -> entry_ready T maxWeight tbl' e.
Proof.
  intros Hmono (H1 & H2 & H3 & H4 & H5 & H6 & H7).
  repeat split; try assumption; try lia.
  intros j Hj. apply Hmono. now apply H4.
Qed.

(** The inner loop finds a free slot while the table is not full. *)
Lemma find_slot_finds (tbl : list InetSocketAddress)
    (e : MaglevBuildEntry) :
  entry_ready T maxWeight tbl e ->
  length tbl = Z.to_nat T -> (occupied tbl < length tbl)%nat ->
  forall fuel, (Z.to_nat T <= fuel)%nat ->
  exists cur next,
    find_slot fuel T tbl e (nextIndexInPermutation e) = Ok (cur, next)
    /\ nextIndexInPermutation e <= next < T
    /\ cur = permutation_value T e next
    /\ 0 <= cur < T
    /\ GetPort (slot tbl cur) = 0
    /\ forall j, 0 <= j < next ->
         GetPort (slot tbl (permutation_value T e j)) <> 0.
Proof.
  intros (Ho & Hs & Hn & Htaken & _) Hlen Hocc fuel Hfuel.
  pose proof T_ge_2 as HT.
  destruct (occupied_or_free tbl) as [Hfull|(i & Hi & Hfree)]; [lia|].
  destruct (permutation_reaches e (Z.of_nat i) Ho Hs ltac:(lia))
    as (j0 & Hj0 & Hreach).
  assert (Hfree0 : GetPort (slot tbl (permutation_value T e j0)) = 0).
  { rewrite permutation_value_small by lia. rewrite Hreach.
    unfold slot. now rewrite Nat2Z.id. }
  assert (Hge : nextIndexInPermutation e <= j0).
  { destruct (Z_lt_le_dec j0 (nextIndexInPermutation e)) as [Hlt|]; [|lia].
    exfalso. apply (Htaken j0); [lia|exact Hfree0]. }
  (* by induction on the distance to [j0] *)
  assert (Hgen : forall d next fuel,
            Z.of_nat d = j0 - next -> 0 <= next -> (d <= fuel)%nat ->
            (forall j, 0 <= j < next ->
               GetPort (slot tbl (permutation_value T e j)) <> 0) ->
            exists cur next',
              find_slot fuel T tbl e next = Ok (cur, next')
              /\ next <= next' < T
              /\ cur = permutation_value T e next'
              /\ 0 <= cur < T
              /\ GetPort (slot tbl cur) = 0
              /\ forall j, 0 <= j < next' ->
                   GetPort (slot tbl (permutation_value T e j)) <> 0).
  { induction d as [|d IH]; intros next f Hd Hnext Hf Hbefore.
    - assert (next = j0) by lia. subst next.
      exists (permutation_value T e j0), j0.
      assert (Hfs : find_slot f T tbl e j0
                    = Ok (permutation_value T e j0, j0)).
      { destruct f; cbn [find_slot]; rewrite Hfree0; reflexivity. }
      split; [exact Hfs|]. split; [lia|]. split; [reflexivity|].
      split; [|split; [exact Hfree0|exact Hbefore]].
      rewrite permutation_value_small by lia. apply Z.mod_pos_bound. lia.
    - destruct f as [|f]; [lia|]. cbn [find_slot].
      destruct (Z.eqb_spec (GetPort (slot tbl (permutation_value T e next))) 0)
        as [Efree|Etaken].
      + exists (permutation_value T e next), next.
        split; [reflexivity|]. split; [lia|]. split; [reflexivity|].
        split; [|split; [exact Efree|exact Hbefore]].
        rewrite permutation_value_small by lia. apply Z.mod_pos_bound. lia.
      + assert (Hu : u64 (next + 1) = next + 1)
          by (apply Z.mod_small; lia).
        rewrite Hu.
        destruct (IH (next + 1) f) as (cur & next' & H1 & H2 & H3);
          [lia|lia|lia| |].
        { intros j Hj. destruct (Z.eq_dec j next) as [->|];
            [exact Etaken|apply Hbefore; lia]. }
        exists cur, next'. split; [exact H1|]. split; [lia|exact H3]. }
  apply (Hgen (Z.to_nat (j0 - nextIndexInPermutation e))); try lia.
  exact Htaken.
Qed.

(** One pass over the entries while the table is not full: it ends, it
    fills a slot for every entry that is due, and so at least one when an
    entry of the largest weight is among them. *)
Lemma fill_pass_runs (fuel : nat) (pass : Z) :
  (Z.to_nat T <= fuel)%nat -> 1 <= pass ->
  forall (es : list MaglevBuildEntry) (tbl : list InetSocketAddress)
         (filled : Z),
    length tbl = Z.to_nat T -> filled = Z.of_nat (occupied tbl) ->
    filled < T ->
    Forall (fun e => entry_ready T maxWeight tbl e
                     /\ 0 <= slotsFilledCount e <= pass - 1) es ->
    exists es' tbl' filled',
      fill_pass fuel T maxWeight pass es tbl filled = Ok (es', tbl', filled')
      /\ length tbl' = Z.to_nat T
      /\ filled' = Z.of_nat (occupied tbl')
      /\ filled <= filled' <= T
      /\ Forall (fun e => entry_ready T maxWeight tbl' e
                          /\ 0 <= slotsFilledCount e <= pass) es'
      /\ (forall s, GetPort (slot tbl s) <> 0 -> GetPort (slot tbl' s) <> 0)
      /\ map e_weight es' = map e_weight es
      /\ ((exists e, In e es /\ e_weight e = maxWeight) -> filled < filled').
Proof.
  intros Hfuel Hpass. pose proof T_ge_2 as HT.
  induction es as [|entry rest IH]; intros tbl filled Hlen Hfilled Hroom Hes.
  - exists [], tbl, filled. cbn [fill_pass]. split; [reflexivity|].
    repeat split; auto; try lia. intros (e & [] & _).
  - apply Forall_cons in Hes as [[Hready Hcount] Hrest].
    cbn [fill_pass].
    destruct (Z.ltb_spec (pass * e_weight entry) (targetWeightScore entry))
      as [Hskip|Hdue].
    + (* not due in this pass *)
      destruct (IH tbl filled Hlen Hfilled Hroom Hrest)
        as (es' & tbl' & filled' & -> & H1 & H2 & H3 & H4 & H5 & H6 & H7).
      cbn [bind]. exists (entry :: es'), tbl', filled'.
      split; [reflexivity|]. split; [exact H1|]. split; [exact H2|].
      split; [exact H3|]. split.
      { constructor; [|exact H4]. split; [|lia].
        exact (entry_ready_mono tbl tbl' entry H5 Hready). }
      split; [exact H5|]. split; [cbn [map]; now rewrite H6|].
      intros (e & [<-|He] & Hw); [|apply H7; eauto].
      exfalso. destruct Hready as (_ & _ & _ & _ & Ht & _).
      rewrite Ht, Hw in Hskip. nia.
    + (* due: a slot is found and filled *)
      destruct (find_slot_finds tbl entry Hready Hlen ltac:(lia) fuel Hfuel)
        as (cur & next & -> & Hnext & Hcur & Hrange & Hfree & Hbefore).
      cbn [bind].
      set (tbl1 := <[Z.to_nat cur := e_address entry]> tbl).
      set (entry' := mkEntry _ _ _ _ _ _ _).
      pose proof Hready as (Ho & Hs & Hn & Htaken & Ht & Hw & Hport).
      assert (Hlen1 : length tbl1 = Z.to_nat T)
        by (unfold tbl1; now rewrite length_insert).
      assert (Hocc1 : occupied tbl1 = S (occupied tbl)).
      { unfold tbl1, occupied.
        apply (occupied_insert tbl (Z.to_nat cur) (e_address entry));
          [lia|exact Hfree|exact Hport]. }
      assert (Hmono1 : forall s, GetPort (slot tbl s) <> 0 ->
                                 GetPort (slot tbl1 s) <> 0).
      { intros s Hs0. unfold slot, tbl1.
        destruct (decide (Z.to_nat s = Z.to_nat cur)) as [E|NE].
        - rewrite E, list_lookup_insert_eq by lia. exact Hport.
        - rewrite list_lookup_insert_ne by congruence. exact Hs0. }
      assert (Hready' : entry_ready T maxWeight tbl1 entry').
      { unfold entry_ready, entry'.
        cbn [offset skip nextIndexInPermutation targetWeightScore
             slotsFilledCount e_weight e_address].
        assert (Hu : u64 (next + 1) = next + 1) by (apply Z.mod_small; lia).
        rewrite Hu.
        split; [exact Ho|]. split; [exact Hs|]. split; [lia|].
        split; [|split; [lia|split; [exact Hw|exact Hport]]].
        intros j Hj.
        assert (Hpv : permutation_value T
                        (mkEntry (e_address entry) (e_weight entry)
                           (offset entry) (skip entry) (next + 1)
                           (targetWeightScore entry + maxWeight)
                           (slotsFilledCount entry + 1)) j
                      = permutation_value T entry j) by reflexivity.
        rewrite Hpv. destruct (Z.eq_dec j next) as [->|Hne].
        - rewrite <- Hcur. unfold slot, tbl1.
          rewrite list_lookup_insert_eq by lia. exact Hport.
        - apply Hmono1, Hbefore. lia. }
      assert (Hrest1 : Forall (fun e => entry_ready T maxWeight tbl1 e
                                        /\ 0 <= slotsFilledCount e <= pass - 1)
                              rest).
      { eapply Forall_impl; [exact Hrest|]. intros e [He Hc].
        split; [exact (entry_ready_mono tbl tbl1 e Hmono1 He)|exact Hc]. }
      destruct (Z.eqb_spec (filled + 1) T) as [Hfull|Hmore].
      * (* the table is full: break *)
        exists (entry' :: rest), tbl1, (filled + 1).
        split; [reflexivity|]. split; [exact Hlen1|].
        split; [rewrite Hocc1; lia|]. split; [lia|]. split.
        { constructor; [split; [exact Hready'|cbn; lia]|].
          eapply Forall_impl; [exact Hrest1|]. intros e [He Hc].
          split; [exact He|lia]. }
        split; [exact Hmono1|]. split; [reflexivity|]. intros _. lia.
      * destruct (IH tbl1 (filled + 1) Hlen1 ltac:(rewrite Hocc1; lia)
                    ltac:(lia) Hrest1)
          as (es' & tbl' & filled' & -> & H1 & H2 & H3 & H4 & H5 & H6 & H7).
        cbn [bind]. exists (entry' :: es'), tbl', filled'.
        split; [reflexivity|]. split; [exact H1|]. split; [exact H2|].
        split; [lia|]. split.
        { constructor; [|exact H4]. split; [|cbn; lia].
          exact (entry_ready_mono tbl1 tbl' entry' H5 Hready'). }
        split; [intros s Hs0; apply H5, Hmono1, Hs0|].
        split; [cbn [map]; now rewrite H6|]. intros _. lia.
Qed.

(** The filling loop ends with the table full: every pass fills a slot
    for an entry of the largest weight, so the passes never exceed the
    limit of [2 T]. *)
Lemma fill_loop_runs (n : nat) :
  forall (fuel : nat) (b : build_state),
    T - filledSlotsCount b <= Z.of_nat n ->
    (n + Z.to_nat T <= fuel)%nat ->
    length (table b) = Z.to_nat T ->
    filledSlotsCount b = Z.of_nat (occupied (table b)) ->
    1 <= currentPass b -> currentPass b - 1 <= filledSlotsCount b <= T ->
    Forall (fun e => entry_ready T maxWeight (table b) e
                     /\ 0 <= slotsFilledCount e <= currentPass b - 1)
           (buildEntries b) ->
    (exists e, In e (buildEntries b) /\ e_weight e = maxWeight) ->
    exists b', fill_loop fuel T maxWeight b = Ok (Some b')
               /\ T <= filledSlotsCount b'.
Proof.
  pose proof T_ge_2 as HT.
  induction n as [|n IH]; intros fuel b Hn Hfuel Hlen Hfilled Hp Hpf Hes Hmax.
  - exists b. split; [|lia].
    destruct fuel; cbn [fill_loop];
      (destruct (Z.ltb_spec (filledSlotsCount b) T); [lia|reflexivity]).
  - destruct (Z.ltb_spec (filledSlotsCount b) T) as [Hroom|Hfull].
    2:{ exists b. split; [|lia].
        destruct fuel; cbn [fill_loop];
          (destruct (Z.ltb_spec (filledSlotsCount b) T); [lia|reflexivity]). }
    destruct fuel as [|fuel]; [lia|].
    cbn [fill_loop].
    destruct (Z.ltb_spec (filledSlotsCount b) T) as [_|]; [|lia].
    destruct (fill_pass_runs (S fuel) (currentPass b) ltac:(lia) Hp
                (buildEntries b) (table b) (filledSlotsCount b)
                Hlen Hfilled Hroom Hes)
      as (es' & tbl' & filled' & -> & H1 & H2 & H3 & H4 & H5 & H6 & H7).
    specialize (H7 Hmax). cbn [bind].
    pose proof T_not_last as HT1.
    assert (Hpass : u32 (currentPass b + 1) = currentPass b + 1)
      by (apply u32_small; lia).
    rewrite Hpass.
    assert (H2T : u64 (T * 2) = T * 2) by (apply Z.mod_small; lia).
    rewrite H2T.
    destruct (Z.ltb_spec (T * 2) (currentPass b + 1)) as [Hover|_]; [lia|].
    cbn [andb].
    apply IH; cbn [buildEntries table filledSlotsCount currentPass];
      try lia; try assumption.
    + eapply Forall_impl; [exact H4|]. intros e [He Hc].
      split; [exact He|lia].
    + destruct Hmax as (e & He & Hw).
      assert (Hin : maxWeight ∈ map e_weight es').
      { rewrite H6, <- Hw. apply list_elem_of_fmap. exists e.
        split; [reflexivity|now apply list_elem_of_In]. }
      apply list_elem_of_fmap in Hin as (e' & He' & Hin').
      exists e'. split; [now apply list_elem_of_In|now symmetry].
Qed.

End MaglevBuilds.

Section MaglevBuildTable.
Import Maglev MaglevTable.
Variable m_hasher : string -> Z.
Variable addr_str : InetSocketAddress -> string.

Lemma insert_sorted_In (x e : MaglevBuildEntry) (l : list MaglevBuildEntry) :
  In e (insert_sorted addr_str x l) <-> e = x \/ In e l.
Proof.
  induction l as [|y l IH]; cbn [insert_sorted]; [cbn; intuition|].
  destruct (entry_ltb addr_str y x); cbn [In]; rewrite ?IH; intuition.
Qed.

Lemma sort_entries_In (e : MaglevBuildEntry) (l : list MaglevBuildEntry) :
  In e (sort_entries addr_str l) <-> In e l.
Proof.
  induction l as [|x l IH]; [reflexivity|].
  unfold sort_entries in *. cbn [foldr]. rewrite insert_sorted_In, IH.
  cbn [In]. intuition.
Qed.

(** The entries [BuildTable] prepares. *)
Lemma prepare_entries_ready (T : Z) (bks : list BackendInfo) :
  2 <= T < 2 ^ 32 ->
  (forall b, In b bks -> 0 <= weight b) ->
  (forall b, In b bks -> weight b <> 0 -> GetPort (address b) <> 0) ->
  exists es m c,
    prepare m_hasher addr_str T bks = Ok (es, m, c)
    /\ c = Z.of_nat (length es)
    /\ Forall (fun e => 0 <= offset e < T /\ 1 <= skip e < T
                        /\ nextIndexInPermutation e = 0
                        /\ targetWeightScore e = 0
                        /\ slotsFilledCount e = 0
                        /\ 0 < e_weight e <= m
                        /\ GetPort (e_address e) <> 0) es
    /\ ((exists e, In e es /\ e_weight e = m) \/ (es = [] /\ m = 0))
    /\ ((exists b, In b bks /\ weight b <> 0) -> es <> []).
Proof.
  intros HT Hw Hports. induction bks as [|x bks IH].
  - exists [], 0, 0. cbn [prepare length].
    split; [reflexivity|]. split; [reflexivity|].
    split; [constructor|]. split; [now right|].
    now intros (b & [] & _).
  - destruct IH as (es & m & c & Hprep & Hc & Hall & Hmax & Hne).
    { intros b Hb. apply Hw. now right. }
    { intros b Hb. apply Hports. now right. }
    cbn [prepare]. destruct (Z.eqb_spec (weight x) 0) as [Hz|Hnz].
    + exists es, m, c. split; [exact Hprep|]. split; [exact Hc|].
      split; [exact Hall|]. split; [exact Hmax|].
      intros (b & [<-|Hb] & Hb0); [contradiction|]. apply Hne. eauto.
    + assert (Hpos : 0 < weight x)
        by (specialize (Hw x ltac:(now left)); lia).
      unfold umod. destruct (Z.eqb_spec T 0); [lia|].
      assert (Hu : u64 (T - 1) = T - 1) by (apply Z.mod_small; lia).
      rewrite Hu. destruct (Z.eqb_spec (T - 1) 0); [lia|].
      rewrite Hprep. cbn [bind].
      set (sk := m_hasher _ mod (T - 1)).
      assert (Hsk : 0 <= sk < T - 1) by (apply Z.mod_pos_bound; lia).
      assert (Hskip : u64 (sk + 1) = sk + 1) by (apply Z.mod_small; lia).
      rewrite Hskip.
      eexists _, _, _. split; [reflexivity|].
      split; [cbn [length]; lia|]. split.
      { constructor.
        - cbn [offset skip nextIndexInPermutation targetWeightScore
               slotsFilledCount e_weight e_address].
          split; [apply Z.mod_pos_bound; lia|]. split; [lia|].
          split; [reflexivity|]. split; [reflexivity|].
          split; [reflexivity|]. split; [lia|].
          apply Hports; [now left|exact Hnz].
        - eapply Forall_impl; [exact Hall|].
          intros e (H1 & H2 & H3 & H4 & H5 & H6 & H7).
          repeat split; try assumption; lia. }
      split; [|discriminate].
      left. destruct (Z.max_spec (weight x) m) as [[Hlt ->]|[Hge ->]].
      * destruct Hmax as [(e & He & Hew)|(-> & ->)]; [|lia].
        exists e. split; [now right|exact Hew].
      * eexists. split; [now left|reflexivity].
Qed.

(** X29.  Maglev: [BuildTable] succeeds for a prime table size.  When
    [m_tableSize] is a prime below [2^32], every weight is a [uint32_t],
    some backend has a non-zero weight, every such backend has a non-zero
    port, and the products of weights and passes stay below [2^53] (where
    the arithmetic in [double] is exact), the filling loop ends with the
    table full, the limit of [2 T] passes is never reached, and the table
    is marked as built; twice [m_tableSize] rounds of fuel are enough
    for every loop. *)
Theorem maglev_build_table_succeeds_for_prime_size (fuel : nat)
    (st : state) :
  Z.prime (m_tableSize st) -> m_tableSize st < 2 ^ 32 ->
  (forall b, In b (m_backends st) ->
     0 <= weight b < 2 ^ 32
     /\ weight b * (m_tableSize st + 1) < 2 ^ 53) ->
  (exists b, In b (m_backends st) /\ weight b <> 0) ->
  (forall b, In b (m_backends st) -> weight b <> 0 ->
             GetPort (address b) <> 0) ->
  (2 * Z.to_nat (m_tableSize st) <= fuel)%nat ->
  exists st',
    BuildTable m_hasher addr_str fuel st = Ok st'
    /\ m_tableBuilt st' = true
    /\ length (m_lookupTable st') = Z.to_nat (m_tableSize st)
    /\ m_backends st' = m_backends st.
Proof.
  intros Hprime Hsmall Hw Hex Hports Hfuel.
  set (T := m_tableSize st) in *.
  pose proof (T_ge_2 T Hprime) as HT.
  destruct (prepare_entries_ready T (m_backends st) ltac:(lia)
              ltac:(intros b Hb; destruct (Hw b Hb); lia) Hports)
    as (es & m & c & Hprep & Hc & Hall & Hmax & Hne).
  specialize (Hne Hex).
  destruct Hmax as [(emax & Hemax & Hwmax)|(-> & _)]; [|contradiction].
  assert (Hm : 0 < m).
  { rewrite Forall_forall in Hall. apply list_elem_of_In in Hemax.
    destruct (Hall emax Hemax) as (_ & _ & _ & _ & _ & H6 & _). lia. }
  unfold BuildTable. fold T.
  destruct (m_backends st) as [|b0 rest] eqn:Hbks;
    [now destruct Hex as (? & [] & _)|].
  rewrite <- Hbks in *. destruct (Z.eqb_spec T 0); [lia|].
  rewrite Hprep. cbn [bind].
  destruct (Z.eqb_spec c 0) as [Hc0|_];
    [destruct es; [contradiction|cbn in Hc; lia]|].
  destruct (fill_loop_runs T Hprime Hsmall m Hm (Z.to_nat T) fuel
              (mkBuild (sort_entries addr_str es)
                       (replicate (Z.to_nat T) sentinel) 0 1))
    as (b' & Hloop & Hfull);
    cbn [buildEntries table filledSlotsCount currentPass]; try lia.
  - apply length_replicate.
  - now rewrite occupied_replicate.
  - apply sort_entries_Forall. eapply Forall_impl; [exact Hall|].
    intros e (H1 & H2 & H3 & H4 & H5 & H6 & H7).
    split; [|lia]. unfold entry_ready. rewrite H3, H4, H5.
    repeat split; try assumption; try lia.
  - exists emax. split; [now apply sort_entries_In|exact Hwmax].
  - rewrite Hloop. cbn [bind finish]. eexists. split; [reflexivity|].
    cbn [m_tableBuilt m_lookupTable m_backends m_tableSize].
    split; [reflexivity|]. split; [|reflexivity].
    assert (Hinv : length (table b') = Z.to_nat T).
    { destruct (fill_loop_inv (m_backends st) T ltac:(lia) m fuel
                  (mkBuild (sort_entries addr_str es)
                           (replicate (Z.to_nat T) sentinel) 0 1) b')
        as ((_ & Hl & _) & _); [| |exact Hloop|exact Hl].
      - cbn [buildEntries]. apply sort_entries_Forall.
        eapply Forall_impl; [exact Hall|]. now intros e (_&_&_&_&_&_&H).
      - cbn [buildEntries table filledSlotsCount].
        split; [|split; [apply length_replicate|split]].
        + apply sort_entries_Forall.
          pose proof (prepare_entries m_hasher addr_str (m_backends st) T
                        Hports (m_backends st) es m c (fun b H => H) Hprep)
            as Hp.
          eapply Forall_impl; [exact Hp|]. now intros e [H _].
        + apply Forall_replicate. now left.
        + now rewrite occupied_replicate. }
    exact Hinv.
Qed.

End MaglevBuildTable.

Lemma maglev_build_table_succeeds_for_prime_size_witness :
  let hash := fun s : string => Z.of_nat (String.length s) in
  let text := fun a : InetSocketAddress => "b"%string in
  let bks := [mkBackendInfo (167772161, 80) 2 0;
              mkBackendInfo (167772162, 80) 1 0;
              mkBackendInfo (167772163, 80) 0 0] in
  let st := Maglev.mkState bks 5 [] false in
  exists st',
    Maglev.BuildTable hash text 10 st = Maglev.Ok st'
    /\ Maglev.m_tableBuilt st' = true
    /\ length (Maglev.m_lookupTable st') = Z.to_nat (Maglev.m_tableSize st)
    /\ Maglev.m_backends st' = Maglev.m_backends st.
Proof.
  intros hash text bks st.
  apply (maglev_build_table_succeeds_for_prime_size hash text 10 st).
  - split; [cbn; lia|]. intros n Hn [k Hk]. cbn in Hn, Hk.
    assert (Hc : n = 2 \/ n = 3 \/ n = 4) by lia.
    destruct Hc as [-> | [-> | ->] ]; lia.
  - cbn. lia.
  - intros b [<-|[<-|[<-|[] ] ] ]; cbn; lia.
  - exists (mkBackendInfo (167772161, 80) 2 0). split; [now left|].
    cbn. lia.
  - intros b [<-|[<-|[<-|[] ] ] ]; cbn; intros _; lia.
  - cbn. lia.
Defined.

(** ** Maglev: when the safety break can be taken *)

Section MaglevLimitReach.
Import Maglev MaglevPasses.
Variable T maxWeight : Z.
Hypothesis T_range : 0 < T < 2 ^ 63.
Hypothesis maxWeight_pos : 0 < maxWeight.

(** From [2 ^ 31] slots on, twice the size is more than the [uint32_t]
    pass counter holds. *)
Lemma fill_loop_large (fuel : nat) :
  2 ^ 31 <= T ->
  forall b : build_state, fill_loop fuel T maxWeight b <> Ok None.
Proof.
  intros HT.
  assert (H2T : u64 (T * 2) = T * 2) by (apply Z.mod_small; lia).
  induction fuel as [|fuel IH]; intros b; cbn [fill_loop];
    destruct (filledSlotsCount b <? T); try discriminate.
  destruct (fill_pass (S fuel) T maxWeight (currentPass b) (buildEntries b)
              (table b) (filledSlotsCount b)) as [[[es tbl] filled]| |];
    try discriminate.
  cbn [bind]. rewrite H2T.
  pose proof (u32_range (currentPass b + 1)) as Hu.
  destruct (Z.ltb_spec (T * 2) (u32 (currentPass b + 1))); [lia|].
  cbn [andb]. apply IH.
Qed.

Lemma fill_pass_claims_a_slot (fuel : nat) (pass : Z) :
  1 <= pass ->
  forall (es : list MaglevBuildEntry) (tbl : list InetSocketAddress)
         (filled : Z) es' tbl' filled',
    Forall (in_step maxWeight pass) es ->
    fill_pass fuel T maxWeight pass es tbl filled = Ok (es', tbl', filled') ->
    Forall (in_step maxWeight (pass + 1)) es'
    /\ map e_weight es' = map e_weight es
    /\ filled <= filled'
    /\ ((exists e, In e es /\ e_weight e = maxWeight) -> filled < filled').
Proof.
  intros Hpass. induction es as [|e es IH];
    intros tbl filled es' tbl' filled' Hall Hf; cbn [fill_pass] in Hf.
  - injection Hf as <- <- <-. split; [constructor|]. split; [reflexivity|].
    split; [lia|]. now intros (e & [] & _).
  - apply Forall_cons in Hall as [[Hscore Hslots] Hall].
    destruct (Z.ltb_spec (pass * e_weight e) (targetWeightScore e))
      as [Hskip|Hdue].
    + destruct (fill_pass fuel T maxWeight pass es tbl filled)
        as [[[r t] f]| |] eqn:E; try discriminate.
      cbn [bind] in Hf. injection Hf as <- <- <-.
      destruct (IH _ _ _ _ _ Hall E) as (H1 & H2 & H3 & H4).
      split; [constructor; [split; [exact Hscore|lia]|exact H1]|].
      split; [cbn [map]; now rewrite H2|]. split; [exact H3|].
      intros (x & [<-|Hx] & Hw); [|apply H4; eauto].
      rewrite Hw, Hscore in Hskip. nia.
    + destruct (find_slot fuel T tbl e (nextIndexInPermutation e))
        as [[cur next]| |] eqn:E; try discriminate.
      cbn [bind] in Hf.
      assert (Hnew : in_step maxWeight (pass + 1)
                (mkEntry (e_address e) (e_weight e) (offset e) (skip e)
                   (u64 (next + 1)) (targetWeightScore e + maxWeight)
                   (slotsFilledCount e + 1))).
      { split; cbn [targetWeightScore slotsFilledCount]; [|lia].
        rewrite Hscore. ring. }
      destruct (filled + 1 =? T).
      * injection Hf as <- <- <-.
        split; [constructor; [exact Hnew|]|].
        { eapply Forall_impl; [exact Hall|]. intros x [Hx1 Hx2].
          split; [exact Hx1|lia]. }
        split; [reflexivity|]. split; lia.
      * destruct (fill_pass fuel T maxWeight pass es _ (filled + 1))
          as [[[r t] f]| |] eqn:E'; try discriminate.
        cbn [bind] in Hf. injection Hf as <- <- <-.
        destruct (IH _ _ _ _ _ Hall E') as (H1 & H2 & H3 & _).
        split; [constructor; [exact Hnew|exact H1]|].
        split; [cbn [map e_weight]; now rewrite H2|]. split; lia.
Qed.

(** With a table size below [2 ^ 63] the filling loop never takes the
    safety break: a pass claims a slot as long as one is free, so the
    pass counter stays within the number of slots claimed; and from
    [2 ^ 31] slots on twice the size is more than a [uint32_t] holds. *)
Lemma fill_loop_never_breaks (fuel : nat) :
  forall b : build_state,
    Forall (in_step maxWeight (currentPass b)) (buildEntries b) ->
    (exists e, In e (buildEntries b) /\ e_weight e = maxWeight) ->
    1 <= currentPass b -> currentPass b - 1 <= filledSlotsCount b ->
    fill_loop fuel T maxWeight b <> Ok None.
Proof.
  assert (H2T : u64 (T * 2) = T * 2) by (apply Z.mod_small; lia).
  induction fuel as [|fuel IH]; intros b Hall Hmax Hpass Hfilled;
    cbn [fill_loop]; destruct (Z.ltb_spec (filledSlotsCount b) T) as [Hlt|];
    try discriminate.
  destruct (fill_pass (S fuel) T maxWeight (currentPass b) (buildEntries b)
              (table b) (filledSlotsCount b)) as [[[es tbl] filled]| |] eqn:E;
    try discriminate.
  cbn [bind].
  destruct (fill_pass_claims_a_slot _ _ Hpass _ _ _ _ _ _ Hall E)
    as (H1 & H2 & H3 & H4).
  specialize (H4 Hmax).
  pose proof (u32_range (currentPass b + 1)) as Hu.
  assert (Hle : u32 (currentPass b + 1) <= currentPass b + 1)
    by (unfold u32; apply Z.mod_le; lia).
  rewrite H2T.
  destruct (Z.ltb_spec filled T) as [Hft|Hft].
  - destruct (Z.ltb_spec (T * 2) (u32 (currentPass b + 1))) as [Hg|Hg];
      cbn [andb]; [lia|].
    destruct (Z_lt_le_dec (currentPass b + 1) (2 ^ 32)) as [Hs|Hs].
    + assert (Hsmall : u32 (currentPass b + 1) = currentPass b + 1)
        by (apply Z.mod_small; lia).
      apply IH; cbn [buildEntries currentPass filledSlotsCount];
        rewrite ?Hsmall; try lia; [exact H1|].
      destruct Hmax as (e & He & Hw).
      apply (in_map e_weight) in He. rewrite <- H2 in He.
      apply in_map_iff in He as (e' & He' & Hin'). exists e'.
      split; [exact Hin'|congruence].
    + apply fill_loop_large. lia.
  - rewrite andb_false_r. destruct fuel; cbn [fill_loop filledSlotsCount];
      destruct (Z.ltb_spec filled T); try lia; discriminate.
Qed.

End MaglevLimitReach.

Section MaglevLimitBuild.
Import Maglev MaglevPasses.
Variable m_hasher : string -> Z.
Variable addr_str : InetSocketAddress -> string.

(** What [BuildTable] starts the filling loop with. *)
Lemma prepare_entries_start (T : Z) (bks : list BackendInfo) :
  (forall b, In b bks -> 0 <= weight b) ->
  forall es m c,
    prepare m_hasher addr_str T bks = Ok (es, m, c) ->
    Forall (fun e => targetWeightScore e = 0 /\ slotsFilledCount e = 0) es
    /\ c = Z.of_nat (length es)
    /\ ((es = [] /\ m = 0) \/ (0 < m /\ exists e, In e es /\ e_weight e = m))
    /\ ((exists b, In b bks /\ weight b <> 0) -> es <> []).
Proof.
  induction bks as [|x bks IH]; intros Hw es m c Hp; cbn [prepare] in Hp.
  - injection Hp as <- <- <-. split; [constructor|].
    split; [reflexivity|]. split; [now left|]. now intros (b & [] & _).
  - assert (Hw' : forall b, In b bks -> 0 <= weight b)
      by (intros b Hb; apply Hw; now right).
    destruct (Z.eqb_spec (weight x) 0) as [Hz|Hnz].
    + destruct (IH Hw' _ _ _ Hp) as (H1 & H2 & H3 & H4).
      split; [exact H1|]. split; [exact H2|]. split; [exact H3|].
      intros (b & [<-|Hb] & Hb0); [contradiction|]. apply H4. eauto.
    + destruct (umod (m_hasher (addr_str (address x))) T); [|discriminate].
      destruct (umod _ (u64 (T - 1))); [|discriminate].
      destruct (prepare m_hasher addr_str T bks) as [[[es0 m0] c0]| |];
        try discriminate.
      cbn [bind] in Hp. injection Hp as <- <- <-.
      destruct (IH Hw' _ _ _ eq_refl) as (H1 & H2 & H3 & H4).
      assert (Hpos : 0 < weight x)
        by (specialize (Hw x ltac:(now left)); lia).
      split; [constructor; [split; reflexivity|exact H1]|].
      split; [cbn [length]; lia|]. split; [|discriminate].
      right. split; [lia|].
      destruct (Z.max_spec (weight x) m0) as [[Hlt ->]|[Hge ->]].
      * destruct H3 as [[_ ->]|[_ (e & He & Hwe)]]; [lia|].
        exists e. split; [now right|exact Hwe].
      * eexists. split; [now left|reflexivity].
Qed.

(** A table of fewer than [2 ^ 63] slots is never given up: when
    [BuildTable] returns for a registry with a backend of non-zero
    weight, the table is built. *)
Lemma BuildTable_never_breaks (fuel : nat) (st st' : state) :
  0 < m_tableSize st < 2 ^ 63 ->
  (forall b, In b (m_backends st) -> 0 <= weight b) ->
  (exists b, In b (m_backends st) /\ weight b <> 0) ->
  BuildTable m_hasher addr_str fuel st = Ok st' ->
  m_tableBuilt st' = true.
Proof.
  intros HT Hw Hex Hb. unfold BuildTable in Hb.
  destruct (m_backends st) as [|x bks] eqn:Hbks;
    [now destruct Hex as (? & [] & _)|].
  rewrite <- Hbks in *. destruct (Z.eqb_spec (m_tableSize st) 0); [lia|].
  destruct (prepare m_hasher addr_str (m_tableSize st) (m_backends st))
    as [[[es m] c]| |] eqn:Hp; try discriminate.
  cbn [bind] in Hb.
  destruct (prepare_entries_start _ _ Hw _ _ _ Hp) as (H1 & H2 & H3 & H4).
  specialize (H4 Hex).
  destruct H3 as [[-> _]|[Hm (e & He & Hwe)]]; [contradiction|].
  destruct (Z.eqb_spec c 0);
    [destruct es; [contradiction|cbn [length] in H2; lia]|].
  destruct (fill_loop fuel (m_tableSize st) m _) as [[b|]| |] eqn:Hl;
    try discriminate.
  - injection Hb as <-. reflexivity.
  - exfalso. revert Hl.
    apply (fill_loop_never_breaks (m_tableSize st) m HT Hm);
      cbn [buildEntries currentPass filledSlotsCount]; try lia.
    + apply sort_entries_Forall. eapply Forall_impl; [exact H1|].
      intros x0 [Hs Hf]. split; [rewrite Hs, Hf; ring|lia].
    + exists e. split; [now apply sort_entries_In|exact Hwe].
Qed.

End MaglevLimitBuild.

(** X30.  Maglev: [BuildTable] never takes its safety break.  For a table
    size of at least 1, weights that are [uint32_t] values whose products
    with the pass counter stay below [2^53] (where the arithmetic in
    [double] is exact), and a backend of non-zero weight, every run of
    [BuildTable] that returns has built the table: the backend of the
    largest weight is due in every pass, so each pass claims a free slot
    and the pass counter cannot pass [2 * m_tableSize] with a slot still
    free.  The table size need not be prime. *)
Theorem maglev_build_never_takes_safety_break
    (m_hasher : string -> Z) (addr_str : InetSocketAddress -> string)
    (fuel : nat) (st st' : Maglev.state) :
  0 < Maglev.m_tableSize st ->
  (forall b, In b (Maglev.m_backends st) ->
     0 <= weight b < 2 ^ 32
     /\ weight b * (Maglev.m_tableSize st + 1) < 2 ^ 53) ->
  (exists b, In b (Maglev.m_backends st) /\ weight b <> 0) ->
  Maglev.BuildTable m_hasher addr_str fuel st = Maglev.Ok st' ->
  Maglev.m_tableBuilt st' = true
  /\ Maglev.m_backends st' = Maglev.m_backends st.
Proof.
  intros HT Hw Hex Hb.
  assert (Hsize : Maglev.m_tableSize st < 2 ^ 63).
  { destruct Hex as (b & Hin & Hnz). destruct (Hw b Hin) as [Hr Hp]. nia. }
  split.
  - apply (BuildTable_never_breaks m_hasher addr_str fuel st st');
      [lia| |exact Hex|exact Hb].
    intros b Hin. destruct (Hw b Hin). lia.
  - unfold Maglev.BuildTable in Hb.
    destruct (Maglev.m_backends st) as [|x bks] eqn:Hbks;
      [now destruct Hex as (? & [] & _)|].
    rewrite <- Hbks in *.
    destruct (Maglev.m_tableSize st =? 0); [now injection Hb as <-|].
    destruct (Maglev.prepare m_hasher addr_str _ _) as [[[es m] c]| |];
      try discriminate.
    cbn [Maglev.bind] in Hb.
    destruct (c =? 0); [now injection Hb as <-|].
    destruct (Maglev.fill_loop fuel _ m _) as [r| |]; try discriminate.
    cbn [Maglev.bind] in Hb. injection Hb as <-. now destruct r.
Qed.

Lemma maglev_build_never_takes_safety_break_witness :
  let hash := fun s : string => Z.of_nat (String.length s) in
  let text := fun a : InetSocketAddress => pretty (Z.to_N (fst a)) in
  let bks := [mkBackendInfo (167772161, 80) 2 0;
              mkBackendInfo (16777216, 80) 1 0;
              mkBackendInfo (167772163, 80) 0 0] in
  let st := Maglev.mkState bks 6 [] false in
  let st' := Maglev.mkState bks 6
               [(16777216, 80); (167772161, 80); (16777216, 80);
                (167772161, 80); (16777216, 80); (167772161, 80)] true in
  Maglev.BuildTable hash text 10 st = Maglev.Ok st'
  /\ Maglev.m_tableBuilt st' = true
  /\ Maglev.m_backends st' = Maglev.m_backends st.
Proof.
  intros hash text bks st st'.
  assert (Hbuild : Maglev.BuildTable hash text 10 st = Maglev.Ok st')
    by (vm_compute; reflexivity).
  split; [exact Hbuild|].
  apply (maglev_build_never_takes_safety_break hash text 10 st st').
  - cbn. lia.
  - intros b [<-|[<-|[<-|[] ] ] ]; cbn; lia.
  - exists (mkBackendInfo (167772161, 80) 2 0). split; [now left|].
    cbn. lia.
  - exact Hbuild.
Defined.
